(** * Dense-matrix core of mathts (src/matrix/Matrix.ts)

    A shallow embedding of the [Matrix] class and a verification of the
    properties its specification states.

    - JavaScript numbers are IEEE-754 binary64 values: the kernel's
      primitive [float].
    - A [Float32Array] is a list of numbers; every store rounds to binary32
      ([JS.fround]), reads outside the buffer yield [undefined].
    - Row and column counts and indices are integers ([Z]).
    - An exception is a [Throw] completion; loops are bounded iterations.
    - A method that writes to its receiver returns the receiver's new state.
    - Which storage a method writes to, and which storage its result holds,
      is settled over a store of objects ([Heap]), where a [Float32Array]
      and a [Matrix] are held by reference. *)

From Stdlib Require Import ZArith Lia Bool Floats Ascii.
From stdpp Require Import base list strings pretty.

Local Open Scope Z_scope.

(** ** The JavaScript runtime the class relies on *)

Module JS.

(** A JavaScript [number]. *)
Abbreviation number := float (only parsing).

(** A value read from an array: a number, or [undefined] when the index
    is not an element of the array. *)
Inductive value :=
  | Undefined
  | Num (x : number).

(** ToNumber: [undefined] becomes NaN in arithmetic. *)
Definition toNumber (v : value) : number :=
  match v with
  | Num x => x
  | Undefined => nan
  end.

(** [typeof v === 'number'] *)
Definition isNumber (v : value) : bool :=
  match v with
  | Num _ => true
  | Undefined => false
  end.

(** The global [isNaN], which coerces its argument. *)
Definition isNaN (v : value) : bool := is_nan (toNumber v).

(** [v === 0] and [v !== 0]. *)
Definition strictEqZero (v : value) : bool :=
  match v with
  | Num x => (x =? 0)%float
  | Undefined => false
  end.

(** [Math.fround]: round a binary64 to the nearest binary32 (ties to
    even), as every store into a [Float32Array] does. *)
Definition fround (x : number) : number :=
  match Prim2SF x with
  | S754_finite s m e => SF2Prim (binary_round 24 128 s m e)
  | _ => x
  end.

(** [x ** 2], taken as the correctly rounded product. *)
Definition square (x : number) : number := (x * x)%float.

(** [Number.isInteger]: a finite number without a fractional part. *)
Definition isInteger (x : number) : bool :=
  match Prim2SF x with
  | S754_zero _ => true
  | S754_finite _ m e => (0 <=? e) || (Z.pos m mod 2 ^ (- e) =? 0)
  | _ => false
  end.

Inductive exn :=
  | MatrixError (message : string) (code : Z)
  | Error (message : string)
  | TypeError (message : string)
  | RangeError (message : string).

Inductive completion (A : Type) :=
  | Ok (a : A)
  | Throw (e : exn).
Arguments Ok {A} a.
Arguments Throw {A} e.

Definition bind {A B} (m : completion A) (k : A -> completion B) : completion B :=
  match m with
  | Ok a => k a
  | Throw e => Throw e
  end.


(** *** Loops *)

(** [for (let i = lo; i < hi; i++) s = body(i, s)] *)
Fixpoint loop_up {St} (n : nat) (i : Z) (body : Z -> St -> St) (s : St) : St :=
  match n with
  | O => s
  | S n' => loop_up n' (i + 1) body (body i s)
  end.
Definition for_up {St} (lo hi : Z) (body : Z -> St -> St) (s : St) : St :=
  loop_up (Z.to_nat (hi - lo)) lo body s.

(** The same loop with a body that may throw. *)
Fixpoint loop_upM {St} (n : nat) (i : Z) (body : Z -> St -> completion St) (s : St)
  : completion St :=
  match n with
  | O => Ok s
  | S n' => bind (body i s) (loop_upM n' (i + 1) body)
  end.
Definition for_upM {St} (lo hi : Z) (body : Z -> St -> completion St) (s : St)
  : completion St :=
  loop_upM (Z.to_nat (hi - lo)) lo body s.

(** [for (let i = hi; i > lo; i--) s = body(i, s)] *)
Fixpoint loop_down {St} (n : nat) (i : Z) (body : Z -> St -> St) (s : St) : St :=
  match n with
  | O => s
  | S n' => loop_down n' (i - 1) body (body i s)
  end.
Definition for_down {St} (hi lo : Z) (body : Z -> St -> St) (s : St) : St :=
  loop_down (Z.to_nat (hi - lo)) hi body s.

Fixpoint loop_downM {St} (n : nat) (i : Z) (body : Z -> St -> completion St) (s : St)
  : completion St :=
  match n with
  | O => Ok s
  | S n' => bind (body i s) (loop_downM n' (i - 1) body)
  end.
Definition for_downM {St} (hi lo : Z) (body : Z -> St -> completion St) (s : St)
  : completion St :=
  loop_downM (Z.to_nat (hi - lo)) hi body s.

(** [for (let k = lo; k < hi; k += step) s = body(k, s)]; the class only
    runs it with [step >= 1], so [hi - lo] iterations are enough. *)
Fixpoint loop_step {St} (fuel : nat) (k hi step : Z) (body : Z -> St -> St) (s : St) : St :=
  match fuel with
  | O => s
  | S fuel' =>
      if k <? hi then loop_step fuel' (k + step) hi step body (body k s) else s
  end.
Definition for_step {St} (lo hi step : Z) (body : Z -> St -> St) (s : St) : St :=
  loop_step (Z.to_nat (hi - lo)) lo hi step body s.

(** *** Typed arrays *)

Abbreviation Float32Array := (list number) (only parsing).

(** [new Float32Array(n)]: [n] zeros. *)
Definition f32_new (n : Z) : completion Float32Array :=
  if n <? 0 then Throw (RangeError "Invalid typed array length")
  else Ok (replicate (Z.to_nat n) 0%float).

(** [a[i]] *)
Definition f32_get (a : Float32Array) (i : Z) : value :=
  if i <? 0 then Undefined
  else match a !! Z.to_nat i with
       | Some x => Num x
       | None => Undefined
       end.

(** [a[i] = v]: rounds to binary32; a store outside the buffer is ignored. *)
Definition f32_set (a : Float32Array) (i : Z) (v : value) : Float32Array :=
  if i <? 0 then a else <[Z.to_nat i := fround (toNumber v)]> a.

(** *** Ordinary arrays *)

(** [a[i]] on a [number[]]. *)
Definition arr_get (a : list value) (i : Z) : value :=
  if i <? 0 then Undefined
  else match a !! Z.to_nat i with
       | Some v => v
       | None => Undefined
       end.

(** [a[i] = v] on an ordinary array, which grows to hold index [i]; the
    slots skipped over are holes, filled here with [hole]. *)
Definition arr_set {A} (hole : A) (a : list A) (i : Z) (v : A) : list A :=
  if i <? 0 then a
  else
    let n := Z.to_nat i in
    if (n <? length a)%nat then <[n := v]> a
    else a ++ replicate (n - length a)%nat hole ++ [v].

(** [a.reduce((acc, x) => acc + x)], which throws on an empty array. *)
Definition reduce_add (a : list number) : completion number :=
  match a with
  | [] => Throw (TypeError "Reduce of empty array with no initial value")
  | x :: rest => Ok (fold_left (fun acc y => (acc + y)%float) rest x)
  end.

End JS.

Import JS.
Notation "'let!' x ':=' m 'in' k" := (JS.bind m (fun x => k))
  (at level 10, x pattern, m at level 100, k at level 200).

(** ** The matrix object *)

Record Matrix := mkMatrix {
  shape : string;
  isSquare : bool;
  isTall : bool;
  isWide : bool;
  rows : Z;
  columns : Z;
  size : Z;
  mElements : Float32Array
}.

Definition with_mElements (m : Matrix) (buf : Float32Array) : Matrix :=
  mkMatrix (shape m) (isSquare m) (isTall m) (isWide m) (rows m) (columns m) (size m) buf.

(** ** Collaborators that live outside src/matrix/Matrix.ts *)

Module MathUtils.

(** Modelled from the spec: [MathUtils.isPowerOfTwo] is imported from
    "../utils" and is not part of the sources at hand; the specification
    describes it as the power-of-two test on the dimension. *)
Definition isPowerOfTwo (n : Z) : bool :=
  (0 <? n) && (Z.land n (n - 1) =? 0).

End MathUtils.

Module MatrixUtils.

(** Modelled from the spec: [MatrixUtils.clone] is imported from
    "../utils" and is not part of the sources at hand; the specification
    describes it as a deep structural clone of a matrix: new storage, same
    shape and flags. With storage held by value, the clone is a copy of
    every field. *)
Definition clone (A : Matrix) : Matrix :=
  mkMatrix (shape A) (isSquare A) (isTall A) (isWide A)
           (rows A) (columns A) (size A) (mElements A).

(** Modelled from the spec: [MatrixUtils.roundMatrixToZero] is imported
    from "../utils" and is not part of the sources at hand; the
    specification describes it as rounding near-zero entries to exact
    zero, near-zero being measured against the tolerance constant. The
    matrix it yields holds the rounded entries; the one it is handed is
    left as it is. *)
Definition roundMatrixToZero (threshold : number) (A : Matrix) : Matrix :=
  with_mElements (clone A)
    (map (fun entry => if (abs entry <? threshold)%float then 0%float else entry)
         (mElements A)).

End MatrixUtils.

(** ** The class *)

Module Matrix.

(** *** Validation and updaters *)

Definition validEntry (v : value) : bool := isNumber v && negb (isNaN v).

Definition validateMatrixEntries (entries : list (list value)) : bool :=
  match entries with
  | [] => false
  | first :: _ =>
      let numCols := length first in
      if (numCols =? 0)%nat then false
      else forallb (fun row => (length row =? numCols)%nat && forallb validEntry row)
                   entries
  end.

Definition validateFloatArray (entries : Float32Array) : completion unit :=
  if forallb (fun x => negb (isNaN (Num x))) entries then Ok tt
  else Throw (MatrixError "Invalid Float32Array entries" 805).

Definition updateSpecification (m : Matrix) : Matrix :=
  if rows m >? columns m then
    mkMatrix (shape m) (isSquare m) (negb (isTall m)) (isWide m)
             (rows m) (columns m) (size m) (mElements m)
  else if columns m >? rows m then
    mkMatrix (shape m) (isSquare m) (isTall m) (negb (isWide m))
             (rows m) (columns m) (size m) (mElements m)
  else
    mkMatrix (shape m) (negb (isSquare m)) (isTall m) (isWide m)
             (rows m) (columns m) (size m) (mElements m).

Definition shapeOf (r c : Z) : string :=
  "(" +:+ pretty r +:+ "," +:+ pretty c +:+ ")".

Definition updateShape (m : Matrix) : Matrix :=
  mkMatrix (shapeOf (rows m) (columns m)) (isSquare m) (isTall m) (isWide m)
           (rows m) (columns m) (size m) (mElements m).

Definition updateMatrix (m : Matrix) : Matrix :=
  updateShape (updateSpecification m).

(** The object as the field initialisers and the constructor's assignments
    leave it, before [updateMatrix] runs. *)
Definition initial (buf : Float32Array) (r c : Z) : Matrix :=
  mkMatrix "0" false false false r c (r * c) buf.

(** [new Matrix(entries, rows, columns)] with a [Float32Array]; an omitted
    dimension is [None]. The buffer is kept as it is handed in. *)
Definition ofFloat32Array (entries : Float32Array) (r c : option Z)
  : completion Matrix :=
  match r, c with
  | Some r, Some c =>
      if (c <=? 0) || (r <=? 0) then
        Throw (MatrixError "Rows and columns must be defined for Float32Array entries, be of type number and not be 0 or negative" 804)
      else
        let! _ := validateFloatArray entries in
        Ok (updateMatrix (initial entries r c))
  | _, _ =>
      Throw (MatrixError "Rows and columns must be defined for Float32Array entries, be of type number and not be 0 or negative" 804)
  end.

(** [entries[i]] on a [number[][]] *)
Definition rowOf (entries : list (list value)) (i : Z) : list value :=
  if i <? 0 then [] else default [] (entries !! Z.to_nat i).

(** [new Matrix(entries)] with a nested array. *)
Definition ofArray (entries : list (list value)) : completion Matrix :=
  if negb (validateMatrixEntries entries) then
    Throw (MatrixError "Invalid matrix entries" 803)
  else
    let numRows := Z.of_nat (length entries) in
    let numCols := Z.of_nat (length (rowOf entries 0)) in
    let! buf := f32_new (numRows * numCols) in
    let buf :=
      for_up 0 numRows (fun i buf =>
        for_up 0 numCols (fun j buf =>
          let index := i * numCols + j in
          f32_set buf index (arr_get (rowOf entries i) j)) buf) buf in
    Ok (updateMatrix (initial buf numRows numCols)).

(** *** Getters and setters *)

Definition getElement (this : Matrix) (row column : Z) : completion value :=
  let index := row * columns this + column in
  if (index >? size this) || (index <? 0) then
    Throw (MatrixError "Index out of bounds" 800)
  else Ok (f32_get (mElements this) index).

Definition getRow (this : Matrix) (rowIndex : Z) : completion (list value) :=
  if (rowIndex <? 0) || (rowIndex >=? rows this) then
    Throw (MatrixError "Row index out of bounds" 800)
  else
    let startIndex := rowIndex * columns this in
    let endIndex := startIndex + columns this in
    Ok (for_up startIndex endIndex
          (fun i row => row ++ [f32_get (mElements this) i]) []).

Definition getColumn (this : Matrix) (columnIndex : Z) : completion (list value) :=
  if (columnIndex <? 0) || (columnIndex >=? rows this) then
    Throw (MatrixError "Row index out of bounds" 800)
  else
    let startIndex := columnIndex in
    let endIndex := rows this * columns this + columnIndex in
    Ok (for_step startIndex endIndex (columns this)
          (fun i column => column ++ [f32_get (mElements this) i]) []).

(** Writes to the receiver: yields its new state. *)
Definition setElement (this : Matrix) (row column : Z) (v : number)
  : completion Matrix :=
  let index := row * columns this + column in
  if (index >? size this) || (index <? 0) then
    Throw (MatrixError "Index out of bounds" 800)
  else Ok (with_mElements this (f32_set (mElements this) index (Num v))).

Definition getSubmatrix (this : Matrix) (startRow startCol sz : Z)
  : completion Matrix :=
  let! submatrixElements := f32_new (sz * sz) in
  let submatrixElements :=
    for_up 0 sz (fun i sub =>
      for_up 0 sz (fun j sub =>
        let index := i * sz + j in
        let originalIndex := (startRow + i) * columns this + (startCol + j) in
        f32_set sub index (f32_get (mElements this) originalIndex)) sub)
      submatrixElements in
  ofFloat32Array submatrixElements (Some sz) (Some sz).

(** Writes to the receiver: yields its new state. [Math.sqrt] of the
    block's length is an integer [s] exactly when the length is a perfect
    square; otherwise it lies strictly between [s] and [s + 1], the loops
    run for [0 .. s], and [i * size + j] is an array index only on the
    row [i = 0]. *)
Definition setSubmatrix (this : Matrix) (startRow startCol : Z)
           (submatrixElements : Float32Array) : Matrix :=
  let len := Z.of_nat (length submatrixElements) in
  let s := Z.sqrt len in
  let exact := s * s =? len in
  let bound := if exact then s else s + 1 in
  with_mElements this
    (for_up 0 bound (fun i buf =>
       for_up 0 bound (fun j buf =>
         let index := (startRow + i) * columns this + (startCol + j) in
         let v := if exact || (i =? 0)
                  then f32_get submatrixElements (i * s + j)
                  else Undefined in
         f32_set buf index v) buf) (mElements this)).

(** *** Transpose *)

Definition transpose (this : Matrix) : Matrix :=
  let transposedMatrix := MatrixUtils.clone this in
  let rows_ := rows transposedMatrix in
  let columns_ := columns transposedMatrix in
  let buf :=
    for_up 0 rows_ (fun i buf =>
      for_up 0 columns_ (fun j buf =>
        f32_set buf (j * rows_ + i)
                (f32_get (mElements this) (i * columns_ + j))) buf)
      (mElements transposedMatrix) in
  let tall := isTall transposedMatrix in
  let wide := isWide transposedMatrix in
  let '(tall', wide') :=
    if tall then (false, true)
    else if wide then (true, false)
    else (tall, wide) in
  updateShape
    (mkMatrix (shape transposedMatrix) (isSquare transposedMatrix) tall' wide'
              columns_ rows_ (size transposedMatrix) buf).

(** *** Basic operations *)

Definition add (this B : Matrix) : completion Matrix :=
  if negb (String.eqb (shape this) (shape B)) then
    Throw (MatrixError "Invalid matrix dimensions for addition" 805)
  else
    let resultElements := mElements this in
    let size_ := size this in
    let resultElements :=
      for_up 0 size_ (fun i res =>
        f32_set res i
          (Num (toNumber (f32_get res i) + toNumber (f32_get (mElements B) i))%float))
        resultElements in
    ofFloat32Array resultElements (Some (rows this)) (Some (columns this)).

(** [Math.ceil(a / b)] for a positive [b]. *)
Definition ceilDiv (a b : Z) : Z := - ((- a) / b).

(** [addasync]; [numProcessors] is [os.cpus().length]. Each promise
    executor runs when its promise is built, so the chunks are processed
    one after the other; the completion is what the returned promise
    settles to. *)
Definition addasync (numProcessors : Z) (this B : Matrix) : completion Matrix :=
  if negb (String.eqb (shape this) (shape B)) then
    Throw (MatrixError "Invalid matrix dimensions for addition" 805)
  else
    let resultElements := mElements this in
    let size_ := size this in
    let chunkSize := ceilDiv size_ numProcessors in
    let resultElements :=
      for_up 0 numProcessors (fun i res =>
        let start := i * chunkSize in
        let end_ := Z.min (start + chunkSize) size_ in
        for_up start end_ (fun j res =>
          f32_set res j
            (Num (toNumber (f32_get res j) + toNumber (f32_get (mElements B) j))%float))
          res)
        resultElements in
    ofFloat32Array resultElements (Some (rows this)) (Some (columns this)).

Definition subtract (this B : Matrix) : completion Matrix :=
  if negb (String.eqb (shape this) (shape B)) then
    Throw (MatrixError "Invalid matrix dimensions for subtraction" 805)
  else
    let resultElements := mElements this in
    let size_ := size this in
    let resultElements :=
      for_up 0 size_ (fun i res =>
        f32_set res i
          (Num (toNumber (f32_get res i) - toNumber (f32_get (mElements B) i))%float))
        resultElements in
    ofFloat32Array resultElements (Some (rows this)) (Some (columns this)).

Definition naiveMultiply (this B : Matrix) : completion Matrix :=
  if negb (columns this =? rows B) then
    Throw (MatrixError "Invalid matrix dimensions for multiplication" 807)
  else
    let rows_ := rows this in
    let columns_ := columns this in
    let matrixColumns := columns B in
    let multipliersA := mElements this in
    let multipliersB := mElements (transpose B) in
    let! result := f32_new (rows_ * matrixColumns) in
    let unrollingFactor := Z.min columns_ 16 in
    let result :=
      for_up 0 rows_ (fun i result =>
        let rowOffsetA := i * columns_ in
        let rowOffsetResult := i * matrixColumns in
        for_up 0 matrixColumns (fun j result =>
          let colOffsetB := j * unrollingFactor in
          let sum :=
            for_step 0 columns_ unrollingFactor (fun k sum =>
              let limit := Z.min (k + unrollingFactor) columns_ in
              for_up k limit (fun u sum =>
                (sum + toNumber (f32_get multipliersA (rowOffsetA + u))
                       * toNumber (f32_get multipliersB (colOffsetB + u)))%float)
                sum)
              0%float in
          f32_set result (rowOffsetResult + j) (Num sum)) result) result in
    ofFloat32Array result (Some rows_) (Some matrixColumns).

Definition scale (this : Matrix) (scalar : number) : Matrix :=
  let scaledMatrix := MatrixUtils.clone this in
  with_mElements scaledMatrix
    (map (fun entry => fround (entry * scalar)%float) (mElements scaledMatrix)).

(** One activation of [strassenMultiply] per unit of [depth]; a recursion
    deeper than that ends as the engine ends it. *)
Fixpoint strassenRec (depth : nat) (this other : Matrix) : completion Matrix :=
  match depth with
  | O => Throw (RangeError "Maximum call stack size exceeded")
  | S depth' =>
      let n := rows this in
      if negb (isSquare this) || negb (isSquare other)
         || negb (columns this =? rows other) || negb (MathUtils.isPowerOfTwo n)
      then Throw (Error "Matrices must be square and have dimensions that are powers of 2")
      else if n <=? 2 then naiveMultiply this other
      else
        let halfSize := n / 2 in
        let! A11 := getSubmatrix this 0 0 halfSize in
        let! A12 := getSubmatrix this 0 halfSize halfSize in
        let! A21 := getSubmatrix this halfSize 0 halfSize in
        let! A22 := getSubmatrix this halfSize halfSize halfSize in
        let! B11 := getSubmatrix other 0 0 halfSize in
        let! B12 := getSubmatrix other 0 halfSize halfSize in
        let! B21 := getSubmatrix other halfSize 0 halfSize in
        let! B22 := getSubmatrix other halfSize halfSize halfSize in
        let! P1 := (let! d := subtract B12 B22 in strassenRec depth' A11 d) in
        let! P2 := (let! s := add A11 A12 in strassenRec depth' s B22) in
        let! P3 := (let! s := add A21 A22 in strassenRec depth' s B11) in
        let! P4 := (let! d := subtract B21 B11 in strassenRec depth' A22 d) in
        let! P5 := (let! s := add A11 A22 in
                    let! t := add B11 B22 in strassenRec depth' s t) in
        let! P6 := (let! d := subtract A12 A22 in
                    let! t := add B21 B22 in strassenRec depth' d t) in
        let! P7 := (let! d := subtract A11 A21 in
                    let! t := add B11 B12 in strassenRec depth' d t) in
        let! C11 := (let! x := add P5 P4 in
                     let! y := subtract x P2 in add y P6) in
        let! C12 := add P1 P2 in
        let! C21 := add P3 P4 in
        let! C22 := (let! x := add P5 P1 in
                     let! y := subtract x P3 in subtract y P7) in
        let! zeros := f32_new (n * n) in
        let! C := ofFloat32Array zeros (Some n) (Some n) in
        let C := setSubmatrix C 0 0 (mElements C11) in
        let C := setSubmatrix C 0 halfSize (mElements C12) in
        let C := setSubmatrix C halfSize 0 (mElements C21) in
        let C := setSubmatrix C halfSize halfSize (mElements C22) in
        Ok C
  end.

(** The dimension halves at every level, so [log2 n + 1] activations
    reach the base case. *)
Definition strassenMultiply (this other : Matrix) : completion Matrix :=
  strassenRec (S (Z.to_nat (Z.log2 (rows this)))) this other.

(** *** Static methods *)

Definition dot (vector1 vector2 : list value) : number :=
  for_up 0 (Z.of_nat (length vector1)) (fun i dotProduct =>
    (dotProduct + toNumber (arr_get vector1 i) * toNumber (arr_get vector2 i))%float)
    0%float.

Definition normalize (vector1 : list value) : completion (list value) :=
  let! total := reduce_add (map (fun x => square (toNumber x)) vector1) in
  let scalar := (1 / sqrt total)%float in
  Ok (map (fun entry => Num (toNumber entry * scalar)%float) vector1).

(** The loops leave with [false] at the first non-zero entry; the flag
    carries that exit, and no element is read after it. *)
Definition isUpperTriangular (A : Matrix) : completion bool :=
  let columns_ := columns A in
  for_upM 1 columns_ (fun i ok =>
    for_upM 0 i (fun j ok =>
      if negb ok then Ok false
      else
        let! e := getElement A i j in
        Ok (strictEqZero e)) ok) true.

Definition isLowerTriangular (A : Matrix) : completion bool :=
  let columns_ := columns A in
  for_upM 1 columns_ (fun i ok =>
    for_upM 0 i (fun j ok =>
      if negb ok then Ok false
      else
        let! e := getElement A j i in
        Ok (strictEqZero e)) ok) true.

Definition identity (dimension : Z) : completion Matrix :=
  if dimension <=? 0 then Throw (MatrixError "Invalid argument" 606)
  else
    let entries :=
      for_up 0 dimension (fun i entries =>
        let row :=
          for_up 0 dimension (fun j row =>
            if i =? j then row ++ [Num 1%float] else row ++ [Num 0%float]) [] in
        entries ++ [row]) [] in
    ofArray entries.

Definition ones (r c : Z) : completion Matrix :=
  if (r <=? 0) || (c <=? 0) then Throw (MatrixError "Invalid argument" 606)
  else ofArray (replicate (Z.to_nat r) (replicate (Z.to_nat c) (Num 1%float))).

Definition zeros (r c : Z) : completion Matrix :=
  if (r <=? 0) || (c <=? 0) then Throw (MatrixError "Invalid argument" 606)
  else ofArray (replicate (Z.to_nat r) (replicate (Z.to_nat c) (Num 0%float))).

(** [!newEntries[rowIndex]] is false exactly when the array has an element
    at [rowIndex]: an array, even an empty one, is truthy. *)
Definition hasRow (entries : list (list value)) (rowIndex : Z) : bool :=
  (0 <=? rowIndex) && (rowIndex <? Z.of_nat (length entries)).

(** One turn of the loop of [reshape]; the state is [newEntries],
    [rowIndex] and [colIndex]. *)
Definition reshapeStep (array : list value) (newColumns : Z) (i : Z)
           (state : list (list value) * Z * Z) : list (list value) * Z * Z :=
  let '(newEntries, rowIndex, colIndex) := state in
  let '(rowIndex, colIndex) :=
    if colIndex =? newColumns then (rowIndex + 1, 0) else (rowIndex, colIndex) in
  let newEntries :=
    if negb (hasRow newEntries rowIndex) then arr_set [] newEntries rowIndex []
    else newEntries in
  let newEntries :=
    arr_set [] newEntries rowIndex
      (arr_set Undefined (rowOf newEntries rowIndex) colIndex (arr_get array i)) in
  (newEntries, rowIndex, colIndex + 1).

Definition reshape (array : list value) (newRows newColumns : Z) : completion Matrix :=
  if negb (Z.of_nat (length array) =? newRows * newColumns) then
    Throw (MatrixError "Invalid reshape dimensions" 806)
  else
    let '(newEntries, _, _) :=
      for_up 0 (Z.of_nat (length array)) (reshapeStep array newColumns) ([], 0, 0) in
    ofArray newEntries.

(** *** Static boolean methods *)

Definition isIntMatrix (A : Matrix) : bool := forallb isInteger (mElements A).

(** *** Solving systems *)

(** One turn of the row loop of [backSubstitution], for row [i]. *)
Definition backSubstitutionRow (this : Matrix) (b : list value) (i : Z)
           (sol : list value) : completion (list value) :=
  let columns_ := columns this in
  let! currentDiag := getElement this i i in
  if strictEqZero currentDiag then
    Throw (MatrixError "Unsolvable system: zero on diagonal" 814)
  else
    let! sum :=
      for_downM (columns_ - 1) i (fun j sum =>
        let! a := getElement this i j in
        Ok (sum + toNumber (arr_get sol j) * toNumber a)%float) 0%float in
    Ok (arr_set Undefined sol i
          (Num ((toNumber (arr_get b i) - sum) / toNumber currentDiag)%float)).

Definition backSubstitution (this : Matrix) (b : list value)
  : completion (list value) :=
  let! upper := isUpperTriangular this in
  if negb upper then Throw (MatrixError "Matrix is not upper triangular" 815)
  else
    let rows_ := rows this in
    for_downM (rows_ - 1) (-1) (backSubstitutionRow this b) [].

Definition forwardSubstitution (this : Matrix) (b : list value)
  : completion (list value) :=
  let! lower := isLowerTriangular this in
  if negb lower then Throw (MatrixError "Matrix is not lower triangular" 816)
  else
    let rows_ := rows this in
    for_upM 0 rows_ (fun i sol =>
      let! currentDiag := getElement this i i in
      if strictEqZero currentDiag then
        Throw (MatrixError "Unsolvable system: zero on diagonal" 814)
      else
        let! sum :=
          for_upM 0 i (fun j sum =>
            let! a := getElement this i j in
            Ok (sum + toNumber (arr_get sol j) * toNumber a)%float) 0%float in
        Ok (arr_set Undefined sol i
              (Num ((toNumber (arr_get b i) - sum) / toNumber currentDiag)%float)))
      [].

(** *** Inverting *)

(** Every index from [rows - 1] down to [0] is assigned, so no hole of
    [invertedMatrixElements] survives the loop. *)
Definition invertUpper (this : Matrix) : completion Matrix :=
  if negb (isSquare this) then
    Throw (MatrixError "Uninvertable matrix: not a square matrix" 812)
  else
    let! upper := isUpperTriangular this in
    if negb upper then Throw (MatrixError "Matrix is not upper triangular" 815)
    else
      let! identityMatrix := identity (rows this) in
      let! invertedMatrixElements :=
        for_downM (rows this - 1) (-1) (fun i inverted =>
          let! rhs := getRow identityMatrix (rows this - i - 1) in
          let! solution := backSubstitution this rhs in
          Ok (arr_set [] inverted i solution)) [] in
      let invertedMatrixElements := reverse invertedMatrixElements in
      let! inverse := ofArray invertedMatrixElements in
      Ok (transpose inverse).

Definition invertLower (this : Matrix) : completion Matrix :=
  if negb (isSquare this) then
    Throw (MatrixError "Uninvertable matrix: not a square matrix" 812)
  else
    let! lower := isLowerTriangular this in
    if negb lower then Throw (MatrixError "Matrix is not lower triangular" 815)
    else
      let! identityMatrix := identity (rows this) in
      let! invertedMatrixElements :=
        for_upM 0 (rows this) (fun i inverted =>
          let! rhs := getRow identityMatrix i in
          let! solution := forwardSubstitution this rhs in
          Ok (arr_set [] inverted i solution)) [] in
      let! inverse := ofArray invertedMatrixElements in
      Ok (transpose inverse).

(** *** Utility methods *)

Definition toArray (this : Matrix) : completion (list (list value)) :=
  for_upM 0 (rows this) (fun i array =>
    let! row :=
      for_upM 0 (columns this) (fun j row =>
        let! value := getElement this i j in
        Ok (row ++ [value])) [] in
    Ok (array ++ [row])) [].

(** *** Gram-Schmidt and QR *)

Record QR := mkQR { Q : Matrix; R : Matrix }.

Section Orthogonalization.

(** [DELTA] is imported from "../utils": the small positive tolerance of
    the near-zero tests. *)
Variable DELTA : number.

(** [orthogonalColumns[j]] *)
Definition columnOf (cols : list (list value)) (j : Z) : list value :=
  if j <? 0 then [] else default [] (cols !! Z.to_nat j).

(** One turn of the projection loop of [gramSmith]: take away from
    [orthogonalProjection] the projection of column [i] onto the [j]-th
    orthogonal column. *)
Definition subtractProjection (this : Matrix) (orthogonalColumns : list (list value))
           (i j : Z) (orthogonalProjection : list value) : completion (list value) :=
  let u := columnOf orthogonalColumns j in
  let! v := getColumn this i in
  let uv := dot u v in
  let uu := dot u u in
  let scalar := (uv / uu)%float in
  let projectionOf_I_onto_J :=
    map (fun entry => Num (toNumber entry * scalar)%float) u in
  Ok (imap (fun index entry =>
              Num (toNumber entry
                   - toNumber (arr_get projectionOf_I_onto_J (Z.of_nat index)))%float)
           orthogonalProjection).

(** One turn of the column loop of [gramSmith], for column [i]. *)
Definition orthogonalizeColumn (this : Matrix) (i : Z)
           (orthogonalColumns : list (list value)) : completion (list (list value)) :=
  let! start := getColumn this i in
  let! orthogonalProjection :=
    for_upM 0 i (subtractProjection this orthogonalColumns i) start in
  let! total :=
    reduce_add (map (fun x => square (toNumber x)) orthogonalProjection) in
  if (sqrt total <? DELTA)%float then
    Throw (MatrixError "Cannot normalize a nearly-zero column. The given columns are not linearly independent." 704)
  else Ok (orthogonalColumns ++ [orthogonalProjection]).

Definition gramSmith (this : Matrix) : completion Matrix :=
  let! first := getColumn this 0 in
  let orthogonalColumns := [first] in
  let columns_ := columns this in
  let! orthogonalColumns :=
    for_upM 1 columns_ (orthogonalizeColumn this) orthogonalColumns in
  let! normalizedColumns :=
    foldr (fun column rest =>
             let! n := normalize column in
             let! ns := rest in
             Ok (n :: ns)) (Ok []) orthogonalColumns in
  let transposedArray :=
    imap (fun colIndex _ =>
            map (fun row => arr_get row (Z.of_nat colIndex)) normalizedColumns)
         (columnOf normalizedColumns 0) in
  ofArray transposedArray.

(** What [MatrixUtils.roundMatrixToZero] yields is not bound to a name. *)
Definition QRDecomposition (this : Matrix) : completion QR :=
  let! q := gramSmith this in
  let QT := transpose q in
  let! r := naiveMultiply QT this in
  let _ := MatrixUtils.roundMatrixToZero DELTA this in
  Ok (mkQR q r).

End Orthogonalization.

End Matrix.

(** ** Properties the specification talks about *)

(** [A[i,j]] of the data model: the stored value at [i * columns + j]. *)
Definition entry (A : Matrix) (i j : Z) : number :=
  toNumber (f32_get (mElements A) (i * columns A + j)).

(** The sum over the columns [j > i] of [A[i,j] * sol[j]], accumulated
    from the last column down to column [i + 1]. *)
Definition tailSum (A : Matrix) (sol : list value) (i : Z) : number :=
  for_down (columns A - 1) i
    (fun j acc => (acc + entry A i j * toNumber (arr_get sol j))%float) 0%float.

(** The dot product of row [i] of [A] and column [j] of [B], accumulated
    from the first term on. *)
Definition dotProduct (A B : Matrix) (i j : Z) : number :=
  for_up 0 (columns A) (fun u acc => (acc + entry A i u * entry B u j)%float) 0%float.

(** The storage holds exactly [rows * columns] values. *)
Definition storageFits (m : Matrix) : Prop :=
  Z.of_nat (length (mElements m)) = rows m * columns m.

(** A value a [Float32Array] can hold: rounding to single precision leaves
    it as it is. *)
Definition isFloat32 (x : number) : Prop := fround x = x.

(** No stored value is NaN. *)
Definition noNaN (buf : Float32Array) : Prop :=
  Forall (fun x => is_nan x = false) buf.

(** The three flags are the comparison of [rows] with [columns]; exactly
    one of them is then set. *)
Definition classified (m : Matrix) : Prop :=
  isSquare m = (rows m =? columns m)
  /\ isTall m = (rows m >? columns m)
  /\ isWide m = (columns m >? rows m).

Definition exactlyOne (a b c : bool) : Prop :=
  (a = true /\ b = false /\ c = false)
  \/ (a = false /\ b = true /\ c = false)
  \/ (a = false /\ b = false /\ c = true).

(** The invariants of the data model. *)
Record wellFormed (m : Matrix) : Prop := mkWellFormed {
  wf_rows : 0 < rows m;
  wf_columns : 0 < columns m;
  wf_size : size m = rows m * columns m;
  wf_storage : storageFits m;
  wf_noNaN : noNaN (mElements m);
  wf_flags : classified m;
  wf_shape : shape m = Matrix.shapeOf (rows m) (columns m)
}.

(** The double loop of [transpose] on its own: it stores the value read
    from [src] at [i * c + j] at index [j * r + i] of [buf]. *)
Definition scatter (r c : Z) (src buf : Float32Array) : Float32Array :=
  for_up 0 r (fun i buf =>
    for_up 0 c (fun j buf =>
      f32_set buf (j * r + i) (f32_get src (i * c + j))) buf) buf.

(** The value back substitution stores for row [i], given the solution so
    far: [(b[i] - sum over j > i of A[i,j] * sol[j]) / A[i,i]]. *)
Definition solved (A : Matrix) (b sol : list value) (i : Z) : number :=
  ((toNumber (arr_get b i) - tailSum A sol i) / entry A i i)%float.

(** What holds of the solution when the row loop of back substitution is
    about to treat row [k]: the rows below are solved. *)
Definition solvedBelow (A : Matrix) (b : list value) (k : Z) (sol : list value)
  : Prop :=
  (Z.of_nat (length sol) = rows A \/ (k = rows A - 1 /\ sol = []))
  /\ forall i, k < i < rows A -> arr_get sol i = Num (solved A b sol i).

(** The invariants of the data model that do not look at the stored
    values. *)
Record wellShaped (m : Matrix) : Prop := mkWellShaped {
  ws_rows : 0 < rows m;
  ws_columns : 0 < columns m;
  ws_size : size m = rows m * columns m;
  ws_storage : storageFits m;
  ws_flags : classified m;
  ws_shape : shape m = Matrix.shapeOf (rows m) (columns m)
}.

(** No value of the buffer is NaN, as a test. *)
Definition numbersOnly (buf : Float32Array) : bool :=
  forallb (fun x => negb (is_nan x)) buf.

(** The length of the block is a perfect square: [Math.sqrt] of it is an
    integer. *)
Definition squareBlock (buf : Float32Array) : bool :=
  let len := Z.of_nat (length buf) in
  Z.sqrt len * Z.sqrt len =? len.

(** The matrices the class hands out: built by the constructor (the flat
    form from a buffer of [rows * columns] values), returned by an operation
    applied to such matrices, or such a matrix after [setElement] or
    [setSubmatrix] has written to it. The index tells whether the stored
    values are known not to be NaN. The constructor tests them. [scale],
    [setElement] and [setSubmatrix] store what they compute or are given
    without a test: the index stays as it is when no product is NaN, when
    the value given is not NaN, and when the block given has no NaN and a
    length that is a perfect square. [transpose] moves the values it finds.
    The factory [random] ends in the nested form of the constructor,
    whatever numbers it draws. *)
Inductive produced : bool -> Matrix -> Prop :=
| produced_ofArray entries M :
    Matrix.ofArray entries = Ok M -> produced true M
| produced_ofFloat32Array buf r c M :
    Z.of_nat (length buf) = r * c ->
    Matrix.ofFloat32Array buf (Some r) (Some c) = Ok M -> produced true M
| produced_setElement v A row column x A' :
    produced v A -> Matrix.setElement A row column x = Ok A' ->
    produced (v && negb (is_nan x)) A'
| produced_setSubmatrix v A startRow startCol submatrixElements :
    produced v A ->
    produced (v && squareBlock submatrixElements && numbersOnly submatrixElements)
             (Matrix.setSubmatrix A startRow startCol submatrixElements)
| produced_add v A B M :
    produced v A -> Matrix.add A B = Ok M -> produced true M
| produced_addasync numProcessors v A B M :
    produced v A -> Matrix.addasync numProcessors A B = Ok M -> produced true M
| produced_subtract v A B M :
    produced v A -> Matrix.subtract A B = Ok M -> produced true M
| produced_scale v A scalar :
    produced v A ->
    produced (v && numbersOnly (map (fun entry => entry * scalar)%float (mElements A)))
             (Matrix.scale A scalar)
| produced_naiveMultiply A B M :
    Matrix.naiveMultiply A B = Ok M -> produced true M
| produced_strassenMultiply v w A B M :
    produced v A -> produced w B ->
    Matrix.strassenMultiply A B = Ok M -> produced true M
| produced_transpose v A :
    produced v A -> produced v (Matrix.transpose A)
| produced_getSubmatrix A startRow startCol sz M :
    Matrix.getSubmatrix A startRow startCol sz = Ok M -> produced true M
| produced_identity n M :
    Matrix.identity n = Ok M -> produced true M
| produced_ones r c M :
    Matrix.ones r c = Ok M -> produced true M
| produced_zeros r c M :
    Matrix.zeros r c = Ok M -> produced true M
| produced_reshape array newRows newColumns M :
    Matrix.reshape array newRows newColumns = Ok M -> produced true M
| produced_invertUpper A M :
    Matrix.invertUpper A = Ok M -> produced true M
| produced_invertLower A M :
    Matrix.invertLower A = Ok M -> produced true M
| produced_gramSmith DELTA A M :
    Matrix.gramSmith DELTA A = Ok M -> produced true M
| produced_Q DELTA A qr :
    Matrix.QRDecomposition DELTA A = Ok qr -> produced true (Matrix.Q qr)
| produced_R DELTA A qr :
    Matrix.QRDecomposition DELTA A = Ok qr -> produced true (Matrix.R qr).

(** A zero of either sign. *)
Definition zeroNumber (x : number) : Prop := exists s, Prim2SF x = S754_zero s.

(** A zero of either sign, or NaN. *)
Definition zeroOrNaN (x : number) : Prop := zeroNumber x \/ x = nan.

(** Array entries that hold a zero, and entries that read as NaN
    ([undefined] among them). *)
Definition zeroValue (v : value) : Prop := exists x, v = Num x /\ zeroNumber x.

Definition nanValue (v : value) : Prop := toNumber v = nan.

(** A column on which a projection cannot be taken: all zero, or all NaN. *)
Definition degenerate (u : list value) : Prop := Forall zeroValue u \/ Forall nanValue u.

(** ** Further notions, for the properties of the single methods *)

(** [entries[i][j]] on a [number[][]]. *)
Definition cell (entries : list (list value)) (i j : Z) : value :=
  arr_get (Matrix.rowOf entries i) j.

(** Every row has [c] elements, and there are [r] rows. *)
Definition rectangular (entries : list (list value)) (r c : Z) : Prop :=
  Z.of_nat (length entries) = r
  /\ Forall (fun row => Z.of_nat (length row) = c) entries.

(** A number other than NaN. *)
Definition properNumber (v : value) : Prop :=
  exists x, v = Num x /\ is_nan x = false.

(** What the constructor accepts as a nested array: at least one row, at
    least one column, rows of one length, and numbers other than NaN. *)
Definition acceptable (entries : list (list value)) : Prop :=
  exists r c, 0 < r /\ 0 < c /\ rectangular entries r c
              /\ Forall (Forall properNumber) entries.

(** The matrix of [r] rows and [c] columns over the buffer [buf], as the
    constructor leaves it. *)
Definition matrixOf (buf : Float32Array) (r c : Z) : Matrix :=
  Matrix.updateMatrix (Matrix.initial buf r c).

(** The [r * c] values [f i j], row after row: index [k] holds
    [f (k / c) (k mod c)]. *)
Definition tabulate (r c : Z) (f : Z -> Z -> number) : Float32Array :=
  map (fun k => f (k / c) (k mod c)) (seqZ 0 (r * c)).
(** What holds of [newEntries], [rowIndex] and [colIndex] when the loop
    of [reshape] over [array], with [c] columns asked for, is about to treat index [i]: the rows built so far hold the first [i]
    elements in order, every row but the last is full, and the indices
    point behind the last element stored. *)
Definition reshaped (array : list value) (c : Z) (i : Z) (state : list (list value) * Z * Z) : Prop :=
  let '(newEntries, rowIndex, colIndex) := state in
  concat newEntries = take (Z.to_nat i) array
  /\ ((newEntries = [] /\ rowIndex = 0 /\ colIndex = 0)
      \/ exists full last,
           newEntries = full ++ [last]
           /\ Forall (fun row => Z.of_nat (length row) = c) full
           /\ Z.of_nat (length last) = colIndex
           /\ 0 < colIndex <= c
           /\ rowIndex = Z.of_nat (length full)).

(** Neither NaN nor an infinity. *)
Definition finiteNumber (x : number) : Prop :=
  match Prim2SF x with
  | S754_zero _ | S754_finite _ _ _ => True
  | _ => False
  end.

(** The loop shared by [add] and [subtract]: [res[i] op= other[i]] for
    every [i] below [n]. *)
Definition combine (op : number -> number -> number) (n : Z)
           (other res : Float32Array) : Float32Array :=
  for_up 0 n (fun i res =>
    f32_set res i (Num (op (toNumber (f32_get res i)) (toNumber (f32_get other i)))))
    res.

(** A string without the two separators of a shape label. *)
Fixpoint plain (s : string) : Prop :=
  match s with
  | EmptyString => True
  | String a s' => a <> ","%char /\ a <> ")"%char /\ plain s'
  end.

(** One turn of the row loop of [forwardSubstitution], for row [i]. *)
Definition forwardSubstitutionRow (this : Matrix) (b : list value) (i : Z)
           (sol : list value) : completion (list value) :=
  let! currentDiag := Matrix.getElement this i i in
  if strictEqZero currentDiag then
    Throw (MatrixError "Unsolvable system: zero on diagonal" 814)
  else
    let! sum :=
      for_upM 0 i (fun j sum =>
        let! a := Matrix.getElement this i j in
        Ok (sum + toNumber (arr_get sol j) * toNumber a)%float) 0%float in
    Ok (arr_set Undefined sol i
          (Num ((toNumber (arr_get b i) - sum) / toNumber currentDiag)%float)).

(** The sum over the columns [j < i] of [sol[j] * A[i,j]], accumulated
    from column [0] up to column [i - 1]. *)
Definition headSum (A : Matrix) (sol : list value) (i : Z) : number :=
  for_up 0 i
    (fun j acc => (acc + toNumber (arr_get sol j) * entry A i j)%float) 0%float.

(** The value forward substitution stores for row [i], given the solution
    so far: [(b[i] - sum over j < i of sol[j] * A[i,j]) / A[i,i]]. *)
Definition solvedForward (A : Matrix) (b sol : list value) (i : Z) : number :=
  ((toNumber (arr_get b i) - headSum A sol i) / entry A i i)%float.

(** What holds of the solution when the row loop of forward substitution
    is about to treat row [k]: the rows above are solved. *)
Definition solvedAbove (A : Matrix) (b : list value) (k : Z) (sol : list value)
  : Prop :=
  Z.of_nat (length sol) = k
  /\ forall i, 0 <= i < k -> arr_get sol i = Num (solvedForward A b sol i).

(** The elements the triangular tests inspect are [=== 0]: those at
    [(i, j)], respectively at [(j, i)], for [j < i < columns]. On a square
    matrix these are the elements below, respectively above, the diagonal;
    the rows of a tall matrix from index [columns] on are not among the
    former. *)
Definition zeroBelowDiagonal (A : Matrix) : Prop :=
  forall i j, 0 <= j < i -> i < columns A -> (entry A i j =? 0)%float = true.

Definition zeroAboveDiagonal (A : Matrix) : Prop :=
  forall i j, 0 <= j < i -> i < columns A -> (entry A j i =? 0)%float = true.

(** The scan shared by [isUpperTriangular] and [isLowerTriangular]; [at]
    reads the element the scan inspects at the pair [(i, j)]. *)
Definition triangularScan (at_ : Z -> Z -> completion value) (columns_ : Z)
  : completion bool :=
  for_upM 1 columns_ (fun i ok =>
    for_upM 0 i (fun j ok =>
      if negb ok then Ok false
      else
        let! e := at_ i j in
        Ok (strictEqZero e)) ok) true.

(** Row [k] of the identity of dimension [n]: the [k]-th unit vector. *)
Definition unitVector (n k : Z) : list value :=
  map (fun j => Num (if k =? j then 1%float else 0%float)) (seqZ 0 n).

(** ** Concrete matrices *)

(** A non-negative integer below 2^53 as a number. *)
Definition numberOfZ (z : Z) : number := of_uint63 (Uint63.of_Z z).

Definition ofIntegers (entries : list (list Z)) : list (list value) :=
  map (map (fun z => Num (numberOfZ z))) entries.

(** The [n] x [n] entries that count 1, 2, 3, ... along the rows. *)
Definition counting (n : Z) : list (list value) :=
  map (fun i => map (fun j => Num (numberOfZ (i * n + j + 1))) (seqZ 0 n)) (seqZ 0 n).

(** [[1, 2], [3, 4]] *)
Definition sampleMatrix : Matrix :=
  mkMatrix "(2,2)" true false false 2 2 4 [1%float; 2%float; 3%float; 4%float].

(** [[1, 2, 3], [4, 5, 6]] *)
Definition sampleWide : Matrix :=
  mkMatrix "(2,3)" false false true 2 3 6
           [1%float; 2%float; 3%float; 4%float; 5%float; 6%float].

(** [[5, 6], [7, 8]] *)
Definition sampleMatrix' : Matrix :=
  mkMatrix "(2,2)" true false false 2 2 4 [5%float; 6%float; 7%float; 8%float].

(** [[2, 1], [0, 4]], upper triangular with a non-zero diagonal. *)
Definition sampleUpper : Matrix :=
  mkMatrix "(2,2)" true false false 2 2 4 [2%float; 1%float; 0%float; 4%float].

(** [[1, 2], [0, 0]], upper triangular with a zero on the diagonal. *)
Definition sampleSingular : Matrix :=
  mkMatrix "(2,2)" true false false 2 2 4 [1%float; 2%float; 0%float; 0%float].

(** [[2, 0], [1, 4]], lower triangular with a non-zero diagonal. *)
Definition sampleLower : Matrix :=
  mkMatrix "(2,2)" true false false 2 2 4 [2%float; 0%float; 1%float; 4%float].

(** [[1, 2], [0, 3], [5, 6]]: zero below the diagonal in its first two
    rows only. *)
Definition sampleTallUpper : Matrix :=
  mkMatrix "(3,2)" false true false 3 2 6
           [1%float; 2%float; 0%float; 3%float; 5%float; 6%float].

(** [[1, 2], [3, 4], [5, 6]] *)
Definition sampleTall : Matrix :=
  mkMatrix "(3,2)" false true false 3 2 6
           [1%float; 2%float; 3%float; 4%float; 5%float; 6%float].

(** [[0, 1], [0, 1]] and [[0, 1]]: the first column is zero. *)
Definition sampleZeroColumn : Matrix :=
  mkMatrix "(2,2)" true false false 2 2 4 [0%float; 1%float; 0%float; 1%float].

Definition sampleZeroColumnWide : Matrix :=
  mkMatrix "(1,2)" false false true 1 2 2 [0%float; 1%float].

(** ** The class over a store of objects *)

(** Above, a buffer is a value. Who writes where, and which buffer a
    result holds, is a matter of references: here every [Float32Array] and
    every [Matrix] is an object of a store, a variable holds the address of
    one, and the methods are transcribed once more with their reads and
    writes of the store. An ordinary array ([number[]]) stays a value: no
    method writes to one it is handed. *)
Module Heap.

Definition address := nat.

(** A [Matrix] object: its fields, [mElements] holding the address of a
    [Float32Array]. *)
Record object := mkObject {
  shape : string;
  isSquare : bool;
  isTall : bool;
  isWide : bool;
  rows : Z;
  columns : Z;
  size : Z;
  mElements : address
}.

Definition with_shape (s : string) (o : object) : object :=
  mkObject s (isSquare o) (isTall o) (isWide o) (rows o) (columns o) (size o) (mElements o).
Definition with_isSquare (b : bool) (o : object) : object :=
  mkObject (shape o) b (isTall o) (isWide o) (rows o) (columns o) (size o) (mElements o).
Definition with_isTall (b : bool) (o : object) : object :=
  mkObject (shape o) (isSquare o) b (isWide o) (rows o) (columns o) (size o) (mElements o).
Definition with_isWide (b : bool) (o : object) : object :=
  mkObject (shape o) (isSquare o) (isTall o) b (rows o) (columns o) (size o) (mElements o).
Definition with_rows (r : Z) (o : object) : object :=
  mkObject (shape o) (isSquare o) (isTall o) (isWide o) r (columns o) (size o) (mElements o).
Definition with_columns (c : Z) (o : object) : object :=
  mkObject (shape o) (isSquare o) (isTall o) (isWide o) (rows o) c (size o) (mElements o).
Definition with_mElements (a : address) (o : object) : object :=
  mkObject (shape o) (isSquare o) (isTall o) (isWide o) (rows o) (columns o) (size o) a.

(** The store: the typed arrays and the matrices allocated so far, each at
    the address that is its position. *)
Record heap := mkHeap {
  buffers : list Float32Array;
  objects : list object
}.

(** A computation runs from a store to a completion and the store it
    leaves, also when it throws. *)
Definition M (A : Type) : Type := heap -> completion A * heap.

Definition ret {A} (a : A) : M A := fun h => (Ok a, h).

Definition throw {A} (e : exn) : M A := fun h => (Throw e, h).

Definition bind {A B} (m : M A) (k : A -> M B) : M B :=
  fun h =>
    match m h with
    | (Ok a, h') => k a h'
    | (Throw e, h') => (Throw e, h')
    end.

(** A completion that does not depend on the store. *)
Definition lift {A} (c : completion A) : M A := fun h => (c, h).

Notation "'let*' x ':=' m 'in' k" := (bind m (fun x => k))
  (at level 10, x pattern, m at level 100, k at level 200).

(** The methods are typed: an address handed to one as a matrix or as a
    typed array holds one, and the [instanceof] tests pass. A read through
    an address that holds nothing is given a completion all the same, that
    of reading a property of [undefined], so that every computation runs
    from every store. *)
Definition undefinedRead : exn :=
  TypeError "Cannot read properties of undefined".

(** *** Typed arrays in the store *)

(** The values of the typed array at [a]. *)
Definition contents (a : address) : M Float32Array :=
  fun h =>
    match buffers h !! a with
    | Some buf => (Ok buf, h)
    | None => (Throw undefinedRead, h)
    end.

(** A new typed array holding [buf]. *)
Definition store (buf : Float32Array) : M address :=
  fun h => (Ok (length (buffers h)), mkHeap (buffers h ++ [buf]) (objects h)).

(** [new Float32Array(n)] *)
Definition newFloat32Array (n : Z) : M address :=
  let* buf := lift (f32_new n) in store buf.

(** [new Float32Array(a)] for a typed array [a]: a copy of it. *)
Definition copyFloat32Array (a : address) : M address :=
  let* buf := contents a in store buf.

(** [a.map(f)] on a typed array: a new typed array. *)
Definition mapFloat32Array (f : number -> number) (a : address) : M address :=
  let* buf := contents a in store (map (fun entry => fround (f entry)) buf).

(** [a.length] *)
Definition lengthOf (a : address) : M Z :=
  let* buf := contents a in ret (Z.of_nat (length buf)).

(** [a[i]] *)
Definition get (a : address) (i : Z) : M value :=
  let* buf := contents a in ret (f32_get buf i).

(** [a[i] = v] *)
Definition set (a : address) (i : Z) (v : value) : M unit :=
  fun h =>
    match buffers h !! a with
    | Some buf => (Ok tt, mkHeap (<[a := f32_set buf i v]> (buffers h)) (objects h))
    | None => (Throw undefinedRead, h)
    end.

(** *** Matrix objects in the store *)

(** [this.f] *)
Definition field {A} (f : object -> A) (this : address) : M A :=
  fun h =>
    match objects h !! this with
    | Some o => (Ok (f o), h)
    | None => (Throw undefinedRead, h)
    end.

(** [this.f = v], [update] being the change of that field. *)
Definition assign (this : address) (update : object -> object) : M unit :=
  fun h =>
    match objects h !! this with
    | Some o => (Ok tt, mkHeap (buffers h) (<[this := update o]> (objects h)))
    | None => (Throw undefinedRead, h)
    end.

(** A new object. *)
Definition allocate (o : object) : M address :=
  fun h => (Ok (length (objects h)), mkHeap (buffers h) (objects h ++ [o])).

(** [this.mElements[i]] and [this.mElements[i] = v] *)
Definition readElement (this : address) (i : Z) : M value :=
  let* a := field mElements this in get a i.

Definition writeElement (this : address) (i : Z) (v : value) : M unit :=
  let* a := field mElements this in set a i v.

(** *** Loops *)

Fixpoint loop_up {St} (n : nat) (i : Z) (body : Z -> St -> M St) (s : St) : M St :=
  match n with
  | O => ret s
  | S n' => bind (body i s) (loop_up n' (i + 1) body)
  end.
Definition for_up {St} (lo hi : Z) (body : Z -> St -> M St) (s : St) : M St :=
  loop_up (Z.to_nat (hi - lo)) lo body s.

Fixpoint loop_down {St} (n : nat) (i : Z) (body : Z -> St -> M St) (s : St) : M St :=
  match n with
  | O => ret s
  | S n' => bind (body i s) (loop_down n' (i - 1) body)
  end.
Definition for_down {St} (hi lo : Z) (body : Z -> St -> M St) (s : St) : M St :=
  loop_down (Z.to_nat (hi - lo)) hi body s.

Fixpoint loop_step {St} (fuel : nat) (k hi step : Z) (body : Z -> St -> M St) (s : St)
  : M St :=
  match fuel with
  | O => ret s
  | S fuel' =>
      if k <? hi then bind (body k s) (loop_step fuel' (k + step) hi step body)
      else ret s
  end.
Definition for_step {St} (lo hi step : Z) (body : Z -> St -> M St) (s : St) : M St :=
  loop_step (Z.to_nat (hi - lo)) lo hi step body s.

(** *** Collaborators that live outside src/matrix/Matrix.ts *)

(** Modelled from the spec: [MatrixUtils.clone] is not part of the sources
    at hand; the specification describes it as a deep structural clone of a
    matrix: new storage, same shape and flags. *)
Definition clone (A : address) : M address :=
  let* o := field id A in
  let* buf := copyFloat32Array (mElements o) in
  allocate (with_mElements buf o).

(** Modelled from the spec: [MatrixUtils.roundMatrixToZero] is not part of
    the sources at hand; the specification describes it as rounding
    near-zero entries to exact zero, gives [QRDecomposition] no effect on
    its receiver and has every operation but submatrix assignment allocate
    a fresh buffer for its result. The rounded entries go to a new
    matrix. *)
Definition roundMatrixToZero (threshold : number) (A : address) : M address :=
  let* o := field id A in
  let* buf :=
    mapFloat32Array
      (fun entry => if (abs entry <? threshold)%float then 0%float else entry)
      (mElements o) in
  allocate (with_mElements buf o).

(** *** Validation and updaters *)

Definition validateFloatArray (entries : address) : M unit :=
  let* n := lengthOf entries in
  for_up 0 n (fun i _ =>
    let* e := get entries i in
    if negb (isNumber e) || isNaN e
    then throw (MatrixError "Invalid Float32Array entries" 805)
    else ret tt) tt.

Definition updateSpecification (this : address) : M unit :=
  let* r := field rows this in
  let* c := field columns this in
  if r >? c then
    let* tall := field isTall this in assign this (with_isTall (negb tall))
  else if c >? r then
    let* wide := field isWide this in assign this (with_isWide (negb wide))
  else
    let* square := field isSquare this in assign this (with_isSquare (negb square)).

Definition updateShape (this : address) : M unit :=
  let* r := field rows this in
  let* c := field columns this in
  assign this (with_shape (Matrix.shapeOf r c)).

Definition updateMatrix (this : address) : M unit :=
  let* _ := updateSpecification this in
  updateShape this.

(** The object as the field initialisers and the constructor's assignments
    leave it, before [updateMatrix] runs. It is entered in the store once
    it has its buffer. *)
Definition initial (buf : address) (r c : Z) : object :=
  mkObject "0" false false false r c (r * c) buf.

(** [new Matrix(entries, rows, columns)] with a [Float32Array]: the buffer
    handed in becomes the buffer of the matrix. *)
Definition ofFloat32Array (entries : address) (r c : option Z) : M address :=
  match r, c with
  | Some r, Some c =>
      if (c <=? 0) || (r <=? 0) then
        throw (MatrixError "Rows and columns must be defined for Float32Array entries, be of type number and not be 0 or negative" 804)
      else
        let* _ := validateFloatArray entries in
        let* this := allocate (initial entries r c) in
        let* _ := updateMatrix this in
        ret this
  | _, _ =>
      throw (MatrixError "Rows and columns must be defined for Float32Array entries, be of type number and not be 0 or negative" 804)
  end.

(** [new Matrix(entries)] with a nested array. *)
Definition ofArray (entries : list (list value)) : M address :=
  if negb (Matrix.validateMatrixEntries entries) then
    throw (MatrixError "Invalid matrix entries" 803)
  else
    let numRows := Z.of_nat (length entries) in
    let numCols := Z.of_nat (length (Matrix.rowOf entries 0)) in
    let* buf := newFloat32Array (numRows * numCols) in
    let* this := allocate (initial buf numRows numCols) in
    let* _ :=
      for_up 0 numRows (fun i _ =>
        for_up 0 numCols (fun j _ =>
          let index := i * numCols + j in
          writeElement this index (arr_get (Matrix.rowOf entries i) j)) tt) tt in
    let* _ := updateMatrix this in
    ret this.

(** *** Getters and setters *)

Definition getElement (this : address) (row column : Z) : M value :=
  let* c := field columns this in
  let index := row * c + column in
  let* sz := field size this in
  if (index >? sz) || (index <? 0) then
    throw (MatrixError "Index out of bounds" 800)
  else readElement this index.

Definition getRow (this : address) (rowIndex : Z) : M (list value) :=
  let* r := field rows this in
  if (rowIndex <? 0) || (rowIndex >=? r) then
    throw (MatrixError "Row index out of bounds" 800)
  else
    let* c := field columns this in
    let startIndex := rowIndex * c in
    let endIndex := startIndex + c in
    for_up startIndex endIndex (fun i row =>
      let* e := readElement this i in ret (row ++ [e])) [].

Definition getColumn (this : address) (columnIndex : Z) : M (list value) :=
  let* r := field rows this in
  if (columnIndex <? 0) || (columnIndex >=? r) then
    throw (MatrixError "Row index out of bounds" 800)
  else
    let* c := field columns this in
    let startIndex := columnIndex in
    let endIndex := r * c + columnIndex in
    for_step startIndex endIndex c (fun i column =>
      let* e := readElement this i in ret (column ++ [e])) [].

Definition getSubmatrix (this : address) (startRow startCol sz : Z) : M address :=
  let* submatrixElements := newFloat32Array (sz * sz) in
  let* _ :=
    for_up 0 sz (fun i _ =>
      for_up 0 sz (fun j _ =>
        let index := i * sz + j in
        let* c := field columns this in
        let originalIndex := (startRow + i) * c + (startCol + j) in
        let* e := readElement this originalIndex in
        set submatrixElements index e) tt) tt in
  ofFloat32Array submatrixElements (Some sz) (Some sz).

(** The loop bounds are those of [Matrix.setSubmatrix] above. *)
Definition setSubmatrix (this : address) (startRow startCol : Z)
           (submatrixElements : address) : M unit :=
  let* len := lengthOf submatrixElements in
  let s := Z.sqrt len in
  let exact := s * s =? len in
  let bound := if exact then s else s + 1 in
  for_up 0 bound (fun i _ =>
    for_up 0 bound (fun j _ =>
      let* c := field columns this in
      let index := (startRow + i) * c + (startCol + j) in
      let* v := if exact || (i =? 0)
                then get submatrixElements (i * s + j)
                else ret Undefined in
      writeElement this index v) tt) tt.

(** *** Transpose *)

Definition transpose (this : address) : M address :=
  let* transposedMatrix := clone this in
  let* rows_ := field rows transposedMatrix in
  let* columns_ := field columns transposedMatrix in
  let* _ :=
    for_up 0 rows_ (fun i _ =>
      for_up 0 columns_ (fun j _ =>
        let* e := readElement this (i * columns_ + j) in
        writeElement transposedMatrix (j * rows_ + i) e) tt) tt in
  let* _ := assign transposedMatrix (with_rows columns_) in
  let* _ := assign transposedMatrix (with_columns rows_) in
  let* tall := field isTall transposedMatrix in
  let* _ :=
    if tall then
      let* _ := assign transposedMatrix (with_isTall false) in
      assign transposedMatrix (with_isWide true)
    else
      let* wide := field isWide transposedMatrix in
      if wide then
        let* _ := assign transposedMatrix (with_isTall true) in
        assign transposedMatrix (with_isWide false)
      else ret tt in
  let* _ := updateShape transposedMatrix in
  ret transposedMatrix.

(** *** Basic operations *)

Definition add (this B : address) : M address :=
  let* shapeA := field shape this in
  let* shapeB := field shape B in
  if negb (String.eqb shapeA shapeB) then
    throw (MatrixError "Invalid matrix dimensions for addition" 805)
  else
    let* elements := field mElements this in
    let* resultElements := copyFloat32Array elements in
    let* size_ := field size this in
    let* _ :=
      for_up 0 size_ (fun i _ =>
        let* x := get resultElements i in
        let* y := readElement B i in
        set resultElements i (Num (toNumber x + toNumber y)%float)) tt in
    let* r := field rows this in
    let* c := field columns this in
    ofFloat32Array resultElements (Some r) (Some c).

Definition subtract (this B : address) : M address :=
  let* shapeA := field shape this in
  let* shapeB := field shape B in
  if negb (String.eqb shapeA shapeB) then
    throw (MatrixError "Invalid matrix dimensions for subtraction" 805)
  else
    let* elements := field mElements this in
    let* resultElements := copyFloat32Array elements in
    let* size_ := field size this in
    let* _ :=
      for_up 0 size_ (fun i _ =>
        let* x := get resultElements i in
        let* y := readElement B i in
        set resultElements i (Num (toNumber x - toNumber y)%float)) tt in
    let* r := field rows this in
    let* c := field columns this in
    ofFloat32Array resultElements (Some r) (Some c).

Definition naiveMultiply (this B : address) : M address :=
  let* columnsA := field columns this in
  let* rowsB := field rows B in
  if negb (columnsA =? rowsB) then
    throw (MatrixError "Invalid matrix dimensions for multiplication" 807)
  else
    let* rows_ := field rows this in
    let* columns_ := field columns this in
    let* matrixColumns := field columns B in
    let* multipliersA := field mElements this in
    let* transposedB := transpose B in
    let* multipliersB := field mElements transposedB in
    let* result := newFloat32Array (rows_ * matrixColumns) in
    let unrollingFactor := Z.min columns_ 16 in
    let* _ :=
      for_up 0 rows_ (fun i _ =>
        let rowOffsetA := i * columns_ in
        let rowOffsetResult := i * matrixColumns in
        for_up 0 matrixColumns (fun j _ =>
          let colOffsetB := j * unrollingFactor in
          let* sum :=
            for_step 0 columns_ unrollingFactor (fun k sum =>
              let limit := Z.min (k + unrollingFactor) columns_ in
              for_up k limit (fun u sum =>
                let* x := get multipliersA (rowOffsetA + u) in
                let* y := get multipliersB (colOffsetB + u) in
                ret (sum + toNumber x * toNumber y)%float) sum)
              0%float in
          set result (rowOffsetResult + j) (Num sum)) tt) tt in
    ofFloat32Array result (Some rows_) (Some matrixColumns).

Definition scale (this : address) (scalar : number) : M address :=
  let* scaledMatrix := clone this in
  let* elements := field mElements scaledMatrix in
  let* scaled := mapFloat32Array (fun entry => (entry * scalar)%float) elements in
  let* _ := assign scaledMatrix (with_mElements scaled) in
  ret scaledMatrix.

(** One activation of [strassenMultiply] per unit of [depth], as above. *)
Fixpoint strassenRec (depth : nat) (this other : address) : M address :=
  match depth with
  | O => throw (RangeError "Maximum call stack size exceeded")
  | S depth' =>
      let* n := field rows this in
      let* squareA := field isSquare this in
      let* squareB := field isSquare other in
      let* columnsA := field columns this in
      let* rowsB := field rows other in
      if negb squareA || negb squareB
         || negb (columnsA =? rowsB) || negb (MathUtils.isPowerOfTwo n)
      then throw (Error "Matrices must be square and have dimensions that are powers of 2")
      else if n <=? 2 then naiveMultiply this other
      else
        let halfSize := n / 2 in
        let* A11 := getSubmatrix this 0 0 halfSize in
        let* A12 := getSubmatrix this 0 halfSize halfSize in
        let* A21 := getSubmatrix this halfSize 0 halfSize in
        let* A22 := getSubmatrix this halfSize halfSize halfSize in
        let* B11 := getSubmatrix other 0 0 halfSize in
        let* B12 := getSubmatrix other 0 halfSize halfSize in
        let* B21 := getSubmatrix other halfSize 0 halfSize in
        let* B22 := getSubmatrix other halfSize halfSize halfSize in
        let* P1 := (let* d := subtract B12 B22 in strassenRec depth' A11 d) in
        let* P2 := (let* s := add A11 A12 in strassenRec depth' s B22) in
        let* P3 := (let* s := add A21 A22 in strassenRec depth' s B11) in
        let* P4 := (let* d := subtract B21 B11 in strassenRec depth' A22 d) in
        let* P5 := (let* s := add A11 A22 in
                    let* t := add B11 B22 in strassenRec depth' s t) in
        let* P6 := (let* d := subtract A12 A22 in
                    let* t := add B21 B22 in strassenRec depth' d t) in
        let* P7 := (let* d := subtract A11 A21 in
                    let* t := add B11 B12 in strassenRec depth' d t) in
        let* C11 := (let* x := add P5 P4 in
                     let* y := subtract x P2 in add y P6) in
        let* C12 := add P1 P2 in
        let* C21 := add P3 P4 in
        let* C22 := (let* x := add P5 P1 in
                     let* y := subtract x P3 in subtract y P7) in
        let* zeros := newFloat32Array (n * n) in
        let* C := ofFloat32Array zeros (Some n) (Some n) in
        let* elements11 := field mElements C11 in
        let* _ := setSubmatrix C 0 0 elements11 in
        let* elements12 := field mElements C12 in
        let* _ := setSubmatrix C 0 halfSize elements12 in
        let* elements21 := field mElements C21 in
        let* _ := setSubmatrix C halfSize 0 elements21 in
        let* elements22 := field mElements C22 in
        let* _ := setSubmatrix C halfSize halfSize elements22 in
        ret C
  end.

Definition strassenMultiply (this other : address) : M address :=
  let* n := field rows this in
  strassenRec (S (Z.to_nat (Z.log2 n))) this other.

(** *** Static methods *)

Definition isUpperTriangular (A : address) : M bool :=
  let* columns_ := field columns A in
  for_up 1 columns_ (fun i ok =>
    for_up 0 i (fun j ok =>
      if negb ok then ret false
      else
        let* e := getElement A i j in
        ret (strictEqZero e)) ok) true.

Definition isLowerTriangular (A : address) : M bool :=
  let* columns_ := field columns A in
  for_up 1 columns_ (fun i ok =>
    for_up 0 i (fun j ok =>
      if negb ok then ret false
      else
        let* e := getElement A j i in
        ret (strictEqZero e)) ok) true.

Definition identity (dimension : Z) : M address :=
  if dimension <=? 0 then throw (MatrixError "Invalid argument" 606)
  else
    let entries :=
      JS.for_up 0 dimension (fun i entries =>
        let row :=
          JS.for_up 0 dimension (fun j row =>
            if i =? j then row ++ [Num 1%float] else row ++ [Num 0%float]) [] in
        entries ++ [row]) [] in
    ofArray entries.

(** *** Solving systems *)

Definition backSubstitution (this : address) (b : list value) : M (list value) :=
  let* upper := isUpperTriangular this in
  if negb upper then throw (MatrixError "Matrix is not upper triangular" 815)
  else
    let* rows_ := field rows this in
    let* columns_ := field columns this in
    for_down (rows_ - 1) (-1) (fun i sol =>
      let* currentDiag := getElement this i i in
      if strictEqZero currentDiag then
        throw (MatrixError "Unsolvable system: zero on diagonal" 814)
      else
        let* sum :=
          for_down (columns_ - 1) i (fun j sum =>
            let* a := getElement this i j in
            ret (sum + toNumber (arr_get sol j) * toNumber a)%float) 0%float in
        ret (arr_set Undefined sol i
               (Num ((toNumber (arr_get b i) - sum) / toNumber currentDiag)%float)))
      [].

Definition forwardSubstitution (this : address) (b : list value) : M (list value) :=
  let* lower := isLowerTriangular this in
  if negb lower then throw (MatrixError "Matrix is not lower triangular" 816)
  else
    let* rows_ := field rows this in
    for_up 0 rows_ (fun i sol =>
      let* currentDiag := getElement this i i in
      if strictEqZero currentDiag then
        throw (MatrixError "Unsolvable system: zero on diagonal" 814)
      else
        let* sum :=
          for_up 0 i (fun j sum =>
            let* a := getElement this i j in
            ret (sum + toNumber (arr_get sol j) * toNumber a)%float) 0%float in
        ret (arr_set Undefined sol i
               (Num ((toNumber (arr_get b i) - sum) / toNumber currentDiag)%float)))
      [].

(** *** Inverting *)

Definition invertUpper (this : address) : M address :=
  let* square := field isSquare this in
  if negb square then
    throw (MatrixError "Uninvertable matrix: not a square matrix" 812)
  else
    let* upper := isUpperTriangular this in
    if negb upper then throw (MatrixError "Matrix is not upper triangular" 815)
    else
      let* n := field rows this in
      let* identityMatrix := identity n in
      let* n := field rows this in
      let* invertedMatrixElements :=
        for_down (n - 1) (-1) (fun i inverted =>
          let* n := field rows this in
          let* rhs := getRow identityMatrix (n - i - 1) in
          let* solution := backSubstitution this rhs in
          ret (arr_set [] inverted i solution)) [] in
      let invertedMatrixElements := reverse invertedMatrixElements in
      let* inverse := ofArray invertedMatrixElements in
      transpose inverse.

Definition invertLower (this : address) : M address :=
  let* square := field isSquare this in
  if negb square then
    throw (MatrixError "Uninvertable matrix: not a square matrix" 812)
  else
    let* lower := isLowerTriangular this in
    if negb lower then throw (MatrixError "Matrix is not lower triangular" 815)
    else
      let* n := field rows this in
      let* identityMatrix := identity n in
      let* n := field rows this in
      let* invertedMatrixElements :=
        for_up 0 n (fun i inverted =>
          let* rhs := getRow identityMatrix i in
          let* solution := forwardSubstitution this rhs in
          ret (arr_set [] inverted i solution)) [] in
      let* inverse := ofArray invertedMatrixElements in
      transpose inverse.

(** *** Gram-Schmidt and QR *)

Section Orthogonalization.

Variable DELTA : number.

Definition subtractProjection (this : address) (orthogonalColumns : list (list value))
           (i j : Z) (orthogonalProjection : list value) : M (list value) :=
  let u := Matrix.columnOf orthogonalColumns j in
  let* v := getColumn this i in
  let uv := Matrix.dot u v in
  let uu := Matrix.dot u u in
  let scalar := (uv / uu)%float in
  let projectionOf_I_onto_J :=
    map (fun entry => Num (toNumber entry * scalar)%float) u in
  ret (imap (fun index entry =>
               Num (toNumber entry
                    - toNumber (arr_get projectionOf_I_onto_J (Z.of_nat index)))%float)
            orthogonalProjection).

Definition orthogonalizeColumn (this : address) (i : Z)
           (orthogonalColumns : list (list value)) : M (list (list value)) :=
  let* start := getColumn this i in
  let* orthogonalProjection :=
    for_up 0 i (subtractProjection this orthogonalColumns i) start in
  let* total :=
    lift (reduce_add (map (fun x => square (toNumber x)) orthogonalProjection)) in
  if (sqrt total <? DELTA)%float then
    throw (MatrixError "Cannot normalize a nearly-zero column. The given columns are not linearly independent." 704)
  else ret (orthogonalColumns ++ [orthogonalProjection]).

Definition gramSmith (this : address) : M address :=
  let* first := getColumn this 0 in
  let orthogonalColumns := [first] in
  let* columns_ := field columns this in
  let* orthogonalColumns :=
    for_up 1 columns_ (orthogonalizeColumn this) orthogonalColumns in
  let* normalizedColumns :=
    lift (foldr (fun column rest =>
                   JS.bind (Matrix.normalize column) (fun n =>
                   JS.bind rest (fun ns => Ok (n :: ns))))
                (Ok []) orthogonalColumns) in
  let transposedArray :=
    imap (fun colIndex _ =>
            map (fun row => arr_get row (Z.of_nat colIndex)) normalizedColumns)
         (Matrix.columnOf normalizedColumns 0) in
  ofArray transposedArray.

Definition QRDecomposition (this : address) : M (address * address) :=
  let* Q := gramSmith this in
  let* QT := transpose Q in
  let* R := naiveMultiply QT this in
  let* _ := roundMatrixToZero DELTA this in
  ret (Q, R).

End Orthogonalization.

(** *** What a call leaves of the store it found *)

(** Every typed array and every matrix of [h] is in [h'] as it was. *)
Definition untouched (h h' : heap) : Prop :=
  (forall a buf, buffers h !! a = Some buf -> buffers h' !! a = Some buf)
  /\ (forall this o, objects h !! this = Some o -> objects h' !! this = Some o).

(** [result] is a matrix of [h'] that [h] does not have, and its buffer is
    a typed array of [h'] that [h] does not have. *)
Definition freshMatrix (h h' : heap) (result : address) : Prop :=
  objects h !! result = None
  /\ exists o buf,
       objects h' !! result = Some o
       /\ buffers h' !! mElements o = Some buf
       /\ buffers h !! mElements o = None.

(** A computation is pure when, run from any store, it leaves that store
    untouched, whether it returns or throws, and the matrices it returns,
    listed by [matrices], are fresh. *)
Definition pure {A} (matrices : A -> list address) (m : M A) : Prop :=
  forall h,
    untouched h (m h).2
    /\ forall a, (m h).1 = Ok a -> Forall (freshMatrix h (m h).2) (matrices a).

(** [h'] differs from [h] at most in the values of the buffer of the
    matrix at [this]: the same objects, as many typed arrays, and every
    other typed array as it was. *)
Definition writtenInPlace (this : address) (h h' : heap) : Prop :=
  objects h' = objects h
  /\ length (buffers h') = length (buffers h)
  /\ forall a,
       (forall o, objects h !! this = Some o -> a <> mElements o) ->
       buffers h' !! a = buffers h !! a.

(** A property of the store that the computation keeps. *)
Definition preserves (P : heap -> Prop) {A} (m : M A) : Prop :=
  forall h, P h -> P (m h).2.

(** The store grows from [h0]: what [h0] holds stays as it is. *)
Definition extends (h0 h : heap) : Prop :=
  buffers h0 `prefix_of` buffers h /\ objects h0 `prefix_of` objects h.

Definition newBuffer (h0 : heap) (a : address) : Prop :=
  (length (buffers h0) <= a)%nat.

Definition newObject (h0 : heap) (this : address) : Prop :=
  (length (objects h0) <= this)%nat.

(** A typed array allocated since [h0] and present in [h]. *)
Definition allocatedBuffer (h0 : heap) (a : address) (h : heap) : Prop :=
  newBuffer h0 a /\ (a < length (buffers h))%nat.

(** The matrices allocated since [h0] hold buffers allocated since [h0]. *)
Definition separate (h0 h : heap) : Prop :=
  forall this o,
    newObject h0 this -> objects h !! this = Some o ->
    allocatedBuffer h0 (mElements o) h.

Definition inv (h0 h : heap) : Prop := extends h0 h /\ separate h0 h.

Definition grows (h h' : heap) : Prop :=
  (length (buffers h) <= length (buffers h'))%nat
  /\ (length (objects h) <= length (objects h'))%nat.

(** Run from [h], the computation keeps the invariant with respect to
    [h0], and what it returns satisfies [Q] in the store it leaves. *)
Definition runs (h0 : heap) {A} (m : M A) (h : heap) (Q : A -> heap -> Prop) : Prop :=
  inv h0 (m h).2
  /\ grows h (m h).2
  /\ match (m h).1 with
     | Ok a => Q a (m h).2
     | Throw _ => True
     end.

(** A matrix allocated since [h0] and present in [h]. *)
Definition allocated (h0 : heap) (this : address) (h : heap) : Prop :=
  newObject h0 this /\ (this < length (objects h))%nat.

End Heap.

(** The matrix, as a value, that the store holds at an address. *)
Definition load (h : Heap.heap) (this : Heap.address) : option Matrix :=
  match Heap.objects h !! this with
  | Some o =>
      match Heap.buffers h !! Heap.mElements o with
      | Some buf =>
          Some (mkMatrix (Heap.shape o) (Heap.isSquare o) (Heap.isTall o) (Heap.isWide o)
                         (Heap.rows o) (Heap.columns o) (Heap.size o) buf)
      | None => None
      end
  | None => None
  end.

(** What a computation over the store returns from [h], the matrix read
    back as a value. *)
Definition returned (m : Heap.M Heap.address) (h : Heap.heap)
  : completion (option Matrix) :=
  match m h with
  | (Ok this, h') => Ok (load h' this)
  | (Throw e, _) => Throw e
  end.

(** A store that holds the matrix [[1, 2], [3, 4]] and the typed array
    [9]. *)
Definition sampleStore : Heap.heap :=
  Heap.mkHeap [[1%float; 2%float; 3%float; 4%float]; [9%float]]
              [Heap.mkObject "(2,2)" true false false 2 2 4 0%nat].

(** * Loop rules *)

Section LoopRules.

Context {St : Type}.
Implicit Types (body : Z -> St -> St) (bodyM : Z -> St -> completion St).

Lemma loop_up_ind (P : Z -> St -> Prop) body n :
forall i s,
  P i s ->
  (forall k t, i <= k < i + Z.of_nat n -> P k t -> P (k + 1) (body k t)) ->
  P (i + Z.of_nat n) (loop_up n i body s).
Proof.
induction n as [|n IH]; intros i s Hs Hstep; simpl.
- replace (i + Z.of_nat 0) with i by lia. exact Hs.
- replace (i + Z.of_nat (S n)) with ((i + 1) + Z.of_nat n) by lia.
  apply IH.
  + apply Hstep; [lia | exact Hs].
  + intros k t Hk. apply Hstep. lia.
Qed.

(** The invariant rule of the counting loop. *)
Lemma for_up_ind (P : Z -> St -> Prop) lo hi body s :
lo <= hi ->
P lo s ->
(forall k t, lo <= k < hi -> P k t -> P (k + 1) (body k t)) ->
P hi (for_up lo hi body s).
Proof.
intros Hle Hs Hstep. unfold for_up.
pose proof (loop_up_ind P body (Z.to_nat (hi - lo)) lo s Hs) as Hrun.
replace (lo + Z.of_nat (Z.to_nat (hi - lo))) with hi in Hrun by lia.
apply Hrun. intros k t Hk. apply Hstep. lia.
Qed.

Lemma for_up_nil lo hi body s : hi <= lo -> for_up lo hi body s = s.
Proof.
intros H. unfold for_up. replace (Z.to_nat (hi - lo)) with O by lia. reflexivity.
Qed.

Lemma loop_up_app body n m :
forall i s,
  loop_up (n + m) i body s = loop_up m (i + Z.of_nat n) body (loop_up n i body s).
Proof.
induction n as [|n IH]; intros i s; simpl.
- replace (i + Z.of_nat 0) with i by lia. reflexivity.
- rewrite IH. f_equal. lia.
Qed.

(** A counting loop may be cut at any point of its range. *)
Lemma for_up_split lo mid hi body s :
lo <= mid <= hi ->
for_up lo hi body s = for_up mid hi body (for_up lo mid body s).
Proof.
intros H. unfold for_up.
replace (Z.to_nat (hi - lo)) with (Z.to_nat (mid - lo) + Z.to_nat (hi - mid))%nat by lia.
rewrite loop_up_app. f_equal. lia.
Qed.

Lemma loop_downM_ind (P : Z -> St -> Prop) bodyM n :
forall i s,
  P i s ->
  (forall k t, i - Z.of_nat n < k <= i -> P k t ->
               exists t', bodyM k t = Ok t' /\ P (k - 1) t') ->
  exists s', loop_downM n i bodyM s = Ok s' /\ P (i - Z.of_nat n) s'.
Proof.
induction n as [|n IH]; intros i s Hs Hstep; simpl.
- exists s. split; [reflexivity |]. replace (i - Z.of_nat 0) with i by lia. exact Hs.
- destruct (Hstep i s) as (t' & Hb & Ht'); [lia | exact Hs |].
  rewrite Hb. simpl.
  replace (i - Z.of_nat (S n)) with ((i - 1) - Z.of_nat n) by lia.
  apply IH; [exact Ht' |].
  intros k t Hk. apply Hstep. lia.
Qed.

(** The invariant rule of the descending loop whose body may throw: if
  every iteration completes and re-establishes the invariant, so does
  the loop. *)
Lemma for_downM_ind (P : Z -> St -> Prop) hi lo bodyM s :
lo <= hi ->
P hi s ->
(forall k t, lo < k <= hi -> P k t ->
             exists t', bodyM k t = Ok t' /\ P (k - 1) t') ->
exists s', for_downM hi lo bodyM s = Ok s' /\ P lo s'.
Proof.
intros Hle Hs Hstep. unfold for_downM.
destruct (loop_downM_ind P bodyM (Z.to_nat (hi - lo)) hi s Hs) as (s' & Hrun & Hs').
- intros k t Hk. apply Hstep. lia.
- exists s'. split; [exact Hrun |].
  replace (hi - Z.of_nat (Z.to_nat (hi - lo))) with lo in Hs' by lia. exact Hs'.
Qed.

Lemma loop_downM_throw (P : Z -> St -> Prop) (bad : Z -> bool) bodyM e n :
forall i s,
  P i s ->
  (forall k t, i - Z.of_nat n < k <= i -> P k t -> bad k = true ->
               bodyM k t = Throw e) ->
  (forall k t, i - Z.of_nat n < k <= i -> P k t -> bad k = false ->
               exists t', bodyM k t = Ok t' /\ P (k - 1) t') ->
  (exists j, i - Z.of_nat n < j <= i /\ bad j = true) ->
  loop_downM n i bodyM s = Throw e.
Proof.
induction n as [|n IH]; intros i s Hs Hbad Hgood (j & Hj & Hbj); simpl.
- lia.
- destruct (bad i) eqn:Hi.
  + rewrite (Hbad i s); [reflexivity | lia | exact Hs | exact Hi].
  + destruct (Hgood i s) as (t' & Hb & Ht'); [lia | exact Hs | exact Hi |].
    rewrite Hb. simpl. apply IH; [exact Ht' | | |].
    * intros k t Hk. apply Hbad. lia.
    * intros k t Hk. apply Hgood. lia.
    * exists j. split; [|exact Hbj].
      assert (j <> i) by (intros ->; congruence). lia.
Qed.

(** The descending loop throws as soon as it meets an index at which the
  body throws, provided the iterations before it complete. *)
Lemma for_downM_throw (P : Z -> St -> Prop) (bad : Z -> bool) hi lo bodyM e s :
P hi s ->
(forall k t, lo < k <= hi -> P k t -> bad k = true -> bodyM k t = Throw e) ->
(forall k t, lo < k <= hi -> P k t -> bad k = false ->
             exists t', bodyM k t = Ok t' /\ P (k - 1) t') ->
(exists j, lo < j <= hi /\ bad j = true) ->
for_downM hi lo bodyM s = Throw e.
Proof.
intros Hs Hbad Hgood (j & Hj & Hbj). unfold for_downM.
apply (loop_downM_throw P bad); [exact Hs | | |].
- intros k t Hk. apply Hbad. lia.
- intros k t Hk. apply Hgood. lia.
- exists j. split; [lia | exact Hbj].
Qed.

(** A loop whose body never throws is the loop of its results. *)
Lemma loop_downM_pure body bodyM n :
forall i s,
  (forall k t, i - Z.of_nat n < k <= i -> bodyM k t = Ok (body k t)) ->
  loop_downM n i bodyM s = Ok (loop_down n i body s).
Proof.
induction n as [|n IH]; intros i s Hpure; simpl; [reflexivity |].
rewrite Hpure by lia. simpl. apply IH.
intros k t Hk. apply Hpure. lia.
Qed.

Lemma for_downM_pure body bodyM hi lo s :
(forall k t, lo < k <= hi -> bodyM k t = Ok (body k t)) ->
for_downM hi lo bodyM s = Ok (for_down hi lo body s).
Proof.
intros Hpure. unfold for_downM, for_down. apply loop_downM_pure.
intros k t Hk. apply Hpure. lia.
Qed.

(** A descending loop only looks at its body on the range it runs over. *)
Lemma loop_down_ext body body' n :
forall i s,
  (forall k t, i - Z.of_nat n < k <= i -> body k t = body' k t) ->
  loop_down n i body s = loop_down n i body' s.
Proof.
induction n as [|n IH]; intros i s Hext; simpl; [reflexivity |].
rewrite Hext by lia. apply IH.
intros k t Hk. apply Hext. lia.
Qed.

Lemma for_down_ext body body' hi lo s :
(forall k t, lo < k <= hi -> body k t = body' k t) ->
for_down hi lo body s = for_down hi lo body' s.
Proof.
intros Hext. unfold for_down. apply loop_down_ext.
intros k t Hk. apply Hext. lia.
Qed.

Lemma loop_upM_ind (P : Z -> St -> Prop) bodyM n :
forall i s,
  P i s ->
  (forall k t, i <= k < i + Z.of_nat n -> P k t ->
               exists t', bodyM k t = Ok t' /\ P (k + 1) t') ->
  exists s', loop_upM n i bodyM s = Ok s' /\ P (i + Z.of_nat n) s'.
Proof.
induction n as [|n IH]; intros i s Hs Hstep; simpl.
- exists s. split; [reflexivity |]. replace (i + Z.of_nat 0) with i by lia. exact Hs.
- destruct (Hstep i s) as (t' & Hb & Ht'); [lia | exact Hs |].
  rewrite Hb. simpl.
  replace (i + Z.of_nat (S n)) with ((i + 1) + Z.of_nat n) by lia.
  apply IH; [exact Ht' |].
  intros k t Hk. apply Hstep. lia.
Qed.

Lemma for_upM_ind (P : Z -> St -> Prop) lo hi bodyM s :
lo <= hi ->
P lo s ->
(forall k t, lo <= k < hi -> P k t ->
             exists t', bodyM k t = Ok t' /\ P (k + 1) t') ->
exists s', for_upM lo hi bodyM s = Ok s' /\ P hi s'.
Proof.
intros Hle Hs Hstep. unfold for_upM.
destruct (loop_upM_ind P bodyM (Z.to_nat (hi - lo)) lo s Hs) as (s' & Hrun & Hs').
- intros k t Hk. apply Hstep. lia.
- exists s'. split; [exact Hrun |].
  replace (lo + Z.of_nat (Z.to_nat (hi - lo))) with hi in Hs' by lia. exact Hs'.
Qed.

End LoopRules.

(** * Typed-array facts *)

Lemma f32_set_length a i v : length (f32_set a i v) = length a.
Proof. unfold f32_set. destruct (i <? 0); [reflexivity | apply length_insert]. Qed.

Lemma f32_set_lookup_eq a i v :
  0 <= i < Z.of_nat (length a) ->
  f32_set a i v !! Z.to_nat i = Some (fround (toNumber v)).
Proof.
  intros Hi. unfold f32_set.
  destruct (Z.ltb_spec i 0); [lia |].
  apply list_lookup_insert_eq. lia.
Qed.

Lemma f32_set_lookup_ne a i k v :
  0 <= k -> i <> k -> f32_set a i v !! Z.to_nat k = a !! Z.to_nat k.
Proof.
  intros Hk Hne. unfold f32_set.
  destruct (Z.ltb_spec i 0); [reflexivity |].
  apply list_lookup_insert_ne. lia.
Qed.

Lemma f32_get_lookup a i x :
  0 <= i -> a !! Z.to_nat i = Some x -> f32_get a i = Num x.
Proof.
  intros Hi Hx. unfold f32_get.
  destruct (Z.ltb_spec i 0); [lia |]. rewrite Hx. reflexivity.
Qed.

Lemma f32_get_in_range a i :
  0 <= i < Z.of_nat (length a) -> exists x, a !! Z.to_nat i = Some x /\ f32_get a i = Num x.
Proof.
  intros Hi. destruct (lookup_lt_is_Some_2 a (Z.to_nat i)) as [x Hx]; [lia |].
  exists x. split; [exact Hx | apply f32_get_lookup; [lia | exact Hx]].
Qed.

(** Row-major indices determine their coordinates. *)
Lemma index_inj r i j i' j' :
  0 <= i < r -> 0 <= i' < r -> j * r + i = j' * r + i' -> j = j' /\ i = i'.
Proof.
  intros Hi Hi' Heq.
  assert (j = j') as ->.
  { destruct (Z.lt_trichotomy j j') as [Hlt | [Heq' | Hgt]]; [| exact Heq' |].
    - assert (r <= (j' - j) * r) by nia. lia.
    - assert (r <= (j - j') * r) by nia. lia. }
  split; [reflexivity | lia].
Qed.

(** The double loop that stores [val i j] at index [idx i j] for every
    cell of an [r] x [c] grid: when the indices are distinct and inside
    the buffer, every cell ends up holding its value, rounded. *)
Lemma grid_store_spec r c (idx : Z -> Z -> Z) (val : Z -> Z -> value) buf :
  0 <= r -> 0 <= c ->
  (forall i j, 0 <= i < r -> 0 <= j < c -> 0 <= idx i j < Z.of_nat (length buf)) ->
  (forall i j i' j', 0 <= i < r -> 0 <= j < c -> 0 <= i' < r -> 0 <= j' < c ->
                     idx i j = idx i' j' -> i = i' /\ j = j') ->
  let out :=
    for_up 0 r (fun i b => for_up 0 c (fun j b => f32_set b (idx i j) (val i j)) b) buf in
  length out = length buf
  /\ forall i j, 0 <= i < r -> 0 <= j < c ->
       out !! Z.to_nat (idx i j) = Some (fround (toNumber (val i j))).
Proof.
  intros Hr Hc Hin Hinj. cbv zeta.
  apply (for_up_ind
    (fun i out =>
       length out = length buf
       /\ forall i' j, 0 <= i' < i -> 0 <= j < c ->
            out !! Z.to_nat (idx i' j) = Some (fround (toNumber (val i' j))))).
  - exact Hr.
  - split; [reflexivity | intros; lia].
  - intros i out Hi [Hlo Hdone].
    destruct (for_up_ind
      (fun j out' =>
         length out' = length buf
         /\ forall i' j', 0 <= i' < r -> 0 <= j' < c ->
              (i' < i \/ (i' = i /\ j' < j)) ->
              out' !! Z.to_nat (idx i' j') = Some (fround (toNumber (val i' j'))))
      0 c (fun j b => f32_set b (idx i j) (val i j)) out Hc)
      as [Hlo' Hdone'].
    + split; [exact Hlo |].
      intros i' j' Hi' Hj' [Hlt | [_ Hlt]]; [apply Hdone; lia | lia].
    + intros j out' Hj [Hlo' Hdone'].
      split; [rewrite f32_set_length; exact Hlo' |].
      intros i' j' Hi' Hj' Hcase.
      destruct (Z.eq_dec (idx i' j') (idx i j)) as [Heq | Hne].
      * destruct (Hinj i' j' i j) as [-> ->]; try assumption; try lia.
        apply f32_set_lookup_eq. rewrite Hlo'. apply Hin; lia.
      * rewrite f32_set_lookup_ne; [| apply Hin; lia | congruence].
        apply Hdone'; [exact Hi' | exact Hj' |].
        destruct Hcase as [Hlt | [-> Hle]]; [left; exact Hlt |].
        right. split; [reflexivity |].
        assert (j' <> j) by (intros ->; apply Hne; reflexivity). lia.
    + split; [exact Hlo' |].
      intros i' j Hi' Hj. apply Hdone'; [lia | exact Hj |].
      destruct (Z.eq_dec i' i) as [-> | Hne]; [right; lia | left; lia].
Qed.

(** * Transposition *)

Lemma scatter_spec r c src buf :
  0 <= r -> 0 <= c ->
  Z.of_nat (length buf) = r * c ->
  length (scatter r c src buf) = length buf
  /\ forall i j, 0 <= i < r -> 0 <= j < c ->
       scatter r c src buf !! Z.to_nat (j * r + i)
       = Some (fround (toNumber (f32_get src (i * c + j)))).
Proof.
  intros Hr Hc Hlen. unfold scatter.
  apply (grid_store_spec r c (fun i j => j * r + i)
           (fun i j => f32_get src (i * c + j)) buf Hr Hc).
  - intros i j Hi Hj. nia.
  - intros i j i' j' Hi Hj Hi' Hj' Heq.
    destruct (index_inj r i j i' j' Hi Hi' Heq) as [-> ->]. auto.
Qed.

Lemma scatter_degenerate r c src buf : r <= 0 \/ c <= 0 -> scatter r c src buf = buf.
Proof.
  intros [Hr | Hc]; unfold scatter.
  - apply for_up_nil. exact Hr.
  - destruct (Z_le_gt_dec r 0) as [Hr | Hr]; [apply for_up_nil; exact Hr |].
    apply (for_up_ind (fun _ out => out = buf)); [lia | reflexivity |].
    intros k t _ ->. apply for_up_nil. exact Hc.
Qed.

Lemma transpose_rows A : rows (Matrix.transpose A) = columns A.
Proof.
  unfold Matrix.transpose, MatrixUtils.clone. simpl.
  destruct (isTall A); [reflexivity |]. destruct (isWide A); reflexivity.
Qed.

Lemma transpose_columns A : columns (Matrix.transpose A) = rows A.
Proof.
  unfold Matrix.transpose, MatrixUtils.clone. simpl.
  destruct (isTall A); [reflexivity |]. destruct (isWide A); reflexivity.
Qed.

Lemma transpose_mElements A :
  mElements (Matrix.transpose A)
  = scatter (rows A) (columns A) (mElements A) (mElements A).
Proof.
  unfold Matrix.transpose, MatrixUtils.clone. simpl.
  destruct (isTall A); [reflexivity |]. destruct (isWide A); reflexivity.
Qed.

(** Scattering twice, with the dimensions swapped, restores a buffer of
    single-precision values. *)
Lemma scatter_twice r c buf :
  Z.of_nat (length buf) = r * c ->
  Forall isFloat32 buf ->
  scatter c r (scatter r c buf buf) (scatter r c buf buf) = buf.
Proof.
  intros Hlen Hf32.
  destruct (Z_le_gt_dec r 0) as [Hr | Hr].
  { rewrite (scatter_degenerate r c) by (left; exact Hr).
    apply scatter_degenerate. right. exact Hr. }
  destruct (Z_le_gt_dec c 0) as [Hc | Hc].
  { rewrite (scatter_degenerate r c) by (right; exact Hc).
    apply scatter_degenerate. left. exact Hc. }
  destruct (scatter_spec r c buf buf) as [Hlen1 Hget1]; [lia | lia | exact Hlen |].
  set (mid := scatter r c buf buf) in *.
  destruct (scatter_spec c r mid mid) as [Hlen2 Hget2]; [lia | lia | lia |].
  apply list_eq. intros n.
  destruct (le_lt_dec (length buf) n) as [Hout | Hin].
  - rewrite !lookup_ge_None_2; [reflexivity | lia | lia].
  - set (p := Z.of_nat n).
    assert (Hp : 0 <= p < r * c) by lia.
    set (i := p mod c). set (j := p / c).
    assert (Hi : 0 <= i < c) by (apply Z.mod_pos_bound; lia).
    assert (Hpij : p = j * c + i).
    { unfold i, j. pose proof (Z.div_mod p c). lia. }
    assert (Hj : 0 <= j < r).
    { split; [apply Z.div_pos; lia | apply Z.div_lt_upper_bound; lia]. }
    replace n with (Z.to_nat (j * c + i)) by lia.
    rewrite (Hget2 i j Hi Hj).
    destruct (f32_get_in_range buf (j * c + i)) as (x & Hx & Hgx); [lia |].
    rewrite (f32_get_lookup mid (i * r + j) (fround x)); [| nia |].
    + simpl. rewrite Hx. f_equal.
      assert (Hfx : isFloat32 x).
      { eapply Forall_lookup_1; [exact Hf32 | exact Hx]. }
      unfold isFloat32 in Hfx. rewrite Hfx. exact Hfx.
    + rewrite (Hget1 j i Hj Hi). rewrite Hgx. reflexivity.
Qed.

(** C9. For every matrix whose storage holds its [rows * columns]
    single-precision values, transposing twice gives back the same rows,
    the same columns and the same stored elements, bit for bit. *)
Theorem transpose_transpose (A : Matrix) :
  storageFits A ->
  Forall isFloat32 (mElements A) ->
  rows (Matrix.transpose (Matrix.transpose A)) = rows A
  /\ columns (Matrix.transpose (Matrix.transpose A)) = columns A
  /\ mElements (Matrix.transpose (Matrix.transpose A)) = mElements A.
Proof.
  intros Hfit Hf32.
  split; [| split].
  - rewrite transpose_rows. apply transpose_columns.
  - rewrite transpose_columns. apply transpose_rows.
  - rewrite transpose_mElements, transpose_rows, transpose_columns.
    rewrite transpose_mElements. apply scatter_twice; assumption.
Qed.

Lemma transpose_transpose_witness :
  storageFits sampleWide
  /\ Forall isFloat32 (mElements sampleWide)
  /\ rows (Matrix.transpose (Matrix.transpose sampleWide)) = rows sampleWide
  /\ columns (Matrix.transpose (Matrix.transpose sampleWide)) = columns sampleWide
  /\ mElements (Matrix.transpose (Matrix.transpose sampleWide)) = mElements sampleWide.
Proof.
  assert (Hfit : storageFits sampleWide) by reflexivity.
  assert (Hf32 : Forall isFloat32 (mElements sampleWide)).
  { simpl. repeat (constructor; [vm_compute; reflexivity |]). constructor. }
  split; [exact Hfit |]. split; [exact Hf32 |].
  apply (transpose_transpose sampleWide Hfit Hf32).
Defined.

(** * Rounding never produces NaN *)

Section Rounding.

Variables prec emax : Z.

Lemma shr_1_nonneg mrs : 0 <= shr_m mrs -> 0 <= shr_m (shr_1 mrs).
Proof.
destruct mrs as [m r s]. destruct m as [| p | p]; simpl; intros H;
  try (destruct p; simpl; lia); lia.
Qed.

Lemma iter_shr_1_nonneg p :
forall mrs, 0 <= shr_m mrs -> 0 <= shr_m (SpecFloat.iter_pos shr_1 p mrs).
Proof.
induction p as [p IH | p IH |]; intros mrs H; simpl.
- apply IH, IH, shr_1_nonneg, H.
- apply IH, IH, H.
- apply shr_1_nonneg, H.
Qed.

Lemma shr_fexp_nonneg m e l :
0 <= m -> 0 <= shr_m (fst (shr_fexp prec emax m e l)).
Proof.
intros H. unfold shr_fexp, shr.
assert (Hrec : 0 <= shr_m (shr_record_of_loc m l)).
{ destruct l as [| []]; simpl; exact H. }
destruct (fexp prec emax (Zdigits2 m + e) - e); simpl;
  [exact Hrec | apply iter_shr_1_nonneg, Hrec | exact Hrec].
Qed.

Lemma round_nearest_even_nonneg m l : 0 <= m -> 0 <= round_nearest_even m l.
Proof.
intros H. destruct l as [| []]; simpl; try lia.
destruct (Z.even m); lia.
Qed.

Lemma binary_round_aux_not_nan sx mx ex lx :
0 <= mx -> binary_round_aux prec emax sx mx ex lx <> S754_nan.
Proof.
intros H. unfold binary_round_aux.
pose proof (shr_fexp_nonneg mx ex lx H) as H1.
destruct (shr_fexp prec emax mx ex lx) as [mrs' e']. simpl in H1.
pose proof (shr_fexp_nonneg _ e' loc_Exact
              (round_nearest_even_nonneg _ (loc_of_shr_record mrs') H1)) as H2.
destruct (shr_fexp prec emax _ e' loc_Exact) as [mrs'' e'']. simpl in H2.
destruct (shr_m mrs'') as [| p | p]; [discriminate | | lia].
destruct (e'' <=? emax - prec); discriminate.
Qed.

Lemma binary_round_not_nan sx mx ex : binary_round prec emax sx mx ex <> S754_nan.
Proof.
unfold binary_round.
destruct (shl_align mx ex _) as [mz ez].
apply binary_round_aux_not_nan. lia.
Qed.

Lemma binary_normalize_not_nan m e szero :
binary_normalize prec emax m e szero <> S754_nan.
Proof.
destruct m; simpl; [discriminate | apply binary_round_not_nan ..].
Qed.

Lemma SFldexp_not_nan f e : f <> S754_nan -> SFldexp prec emax f e <> S754_nan.
Proof.
destruct f; simpl; intros H; try exact H. apply binary_round_not_nan.
Qed.

End Rounding.

Lemma SFeqb_refl x : x <> S754_nan -> SFeqb x x = true.
Proof.
  intros H. destruct x as [s | s | | s m e]; unfold SFeqb; simpl.
  - reflexivity.
  - destruct s; reflexivity.
  - congruence.
  - destruct s; rewrite Z.compare_refl, Pos.compare_cont_refl; reflexivity.
Qed.

Lemma is_nan_Prim2SF x : is_nan x = false <-> Prim2SF x <> S754_nan.
Proof.
  unfold is_nan. rewrite FloatAxioms.eqb_spec. split.
  - intros H Hn. rewrite Hn in H. discriminate.
  - intros H. rewrite (SFeqb_refl _ H). reflexivity.
Qed.

Lemma SF2Prim_finite_not_nan s m e : is_nan (SF2Prim (S754_finite s m e)) = false.
Proof.
  apply is_nan_Prim2SF. unfold SF2Prim.
  assert (H : Prim2SF (Z.ldexp (of_uint63 (Uint63.of_Z (Z.pos m))) e) <> S754_nan).
  { unfold Z.ldexp. rewrite ldshiftexp_spec.
    apply SFldexp_not_nan. rewrite of_uint63_spec.
    apply binary_normalize_not_nan. }
  destruct s; [| exact H].
  rewrite opp_spec. destruct (Prim2SF _); simpl; congruence.
Qed.

(** Storing a number that is not NaN stores a number that is not NaN
    (an infinity when it is too large for single precision). *)
Lemma fround_not_nan x : is_nan x = false -> is_nan (fround x) = false.
Proof.
  intros H. unfold fround.
  destruct (Prim2SF x) as [s | s | | s m e]; try exact H.
  pose proof (binary_round_not_nan 24 128 s m e) as Hr.
  destruct (binary_round 24 128 s m e) as [s' | s' | | s' m' e'].
  - destruct s'; reflexivity.
  - destruct s'; reflexivity.
  - congruence.
  - apply SF2Prim_finite_not_nan.
Qed.

(** * The chunked addition *)

Section ChunkedLoop.

Context {St : Type} (step : Z -> St -> St).

Lemma ceilDiv_covers size p : 1 <= p -> size <= p * Matrix.ceilDiv size p.
Proof.
  intros Hp. unfold Matrix.ceilDiv.
  pose proof (Z.mul_div_le (- size) p). lia.
Qed.

Lemma ceilDiv_sign size p :
  1 <= p -> (0 < size -> 1 <= Matrix.ceilDiv size p)
            /\ (size <= 0 -> Matrix.ceilDiv size p <= 0).
Proof.
  intros Hp. unfold Matrix.ceilDiv. split; intros Hs.
  - assert ((- size) / p < 0) by (apply Z.div_lt_upper_bound; lia). lia.
  - assert (0 <= (- size) / p) by (apply Z.div_pos; lia). lia.
Qed.

(** Running the chunks [[i * c, min (i * c + c) size)] for [i < p] one
    after the other is the single loop over [[0, size)]. *)
Lemma chunks_cover size p s0 :
  1 <= p ->
  let c := Matrix.ceilDiv size p in
  for_up 0 p (fun i s => for_up (i * c) (Z.min (i * c + c) size) step s) s0
  = for_up 0 size step s0.
Proof.
  intros Hp c.
  destruct (ceilDiv_sign size p Hp) as [Hpos Hneg].
  pose proof (ceilDiv_covers size p Hp) as Hcov. fold c in Hpos, Hneg, Hcov.
  destruct (Z_lt_le_dec 0 size) as [Hsz | Hsz].
  - specialize (Hpos Hsz).
    pose proof (for_up_ind
      (fun i s => s = for_up 0 (Z.min (i * c) size) step s0) 0 p
      (fun i s => for_up (i * c) (Z.min (i * c + c) size) step s) s0) as Hinv.
    rewrite Hinv.
    + f_equal. nia.
    + lia.
    + simpl. rewrite for_up_nil; [reflexivity | lia].
    + intros k t Hk ->.
      destruct (Z_le_gt_dec (k * c) size) as [Hin | Hout].
      * replace (Z.min (k * c) size) with (k * c) by lia.
        replace (Z.min ((k + 1) * c) size) with (Z.min (k * c + c) size) by (f_equal; lia).
        symmetry. apply for_up_split. nia.
      * rewrite (for_up_nil (k * c)); [| lia].
        f_equal. nia.
  - specialize (Hneg Hsz).
    rewrite (for_up_nil 0 size); [| lia].
    apply (for_up_ind (fun _ s => s = s0)); [lia | reflexivity |].
    intros k t Hk ->. apply for_up_nil. nia.
Qed.

End ChunkedLoop.

(** C8. For every pair of matrices and every positive number of execution
    units, [addasync] settles to exactly what [add] returns: the same
    matrix, element for element, or the same error. *)
Theorem addasync_agrees_with_add (numProcessors : Z) (A B : Matrix) :
  1 <= numProcessors ->
  Matrix.addasync numProcessors A B = Matrix.add A B.
Proof.
  intros Hp. unfold Matrix.addasync, Matrix.add.
  destruct (negb (String.eqb (shape A) (shape B))); [reflexivity |].
  f_equal.
  apply (chunks_cover
           (fun j res => f32_set res j
              (Num (toNumber (f32_get res j) + toNumber (f32_get (mElements B) j))%float))).
  exact Hp.
Qed.

Lemma addasync_agrees_with_add_witness :
  1 <= 4
  /\ Matrix.addasync 4 sampleMatrix sampleMatrix' = Matrix.add sampleMatrix sampleMatrix'.
Proof.
  split; [lia |].
  apply (addasync_agrees_with_add 4 sampleMatrix sampleMatrix'). lia.
Defined.

(** * Facts about numbers *)

Lemma SFmul_comm prec emax x y : SFmul prec emax x y = SFmul prec emax y x.
Proof.
  destruct x as [sx | sx | | sx mx ex], y as [sy | sy | | sy my ey]; simpl;
    try reflexivity; try (rewrite xorb_comm; reflexivity).
  rewrite xorb_comm, Pos.mul_comm, Z.add_comm. reflexivity.
Qed.

(** Multiplication of numbers is commutative. *)
Lemma number_mul_comm (x y : number) : (x * y)%float = (y * x)%float.
Proof.
  apply Prim2SF_inj. rewrite !mul_spec. apply SFmul_comm.
Qed.

(** * Ordinary arrays *)

Lemma arr_get_set_eq sol i v : 0 <= i -> arr_get (arr_set Undefined sol i v) i = v.
Proof.
  intros Hi. unfold arr_get, arr_set.
  destruct (Z.ltb_spec i 0); [lia |].
  destruct (Nat.ltb_spec (Z.to_nat i) (length sol)) as [Hlt | Hge].
  - rewrite list_lookup_insert_eq by exact Hlt. reflexivity.
  - rewrite lookup_app_r by lia.
    rewrite lookup_app_r by (rewrite length_replicate; lia).
    rewrite length_replicate.
    replace (Z.to_nat i - length sol - (Z.to_nat i - length sol))%nat with O by lia.
    reflexivity.
Qed.

Lemma arr_get_set_ne sol i k v :
  0 <= i -> i <> k -> arr_get (arr_set Undefined sol i v) k = arr_get sol k.
Proof.
  intros Hi Hne. unfold arr_get, arr_set.
  destruct (Z.ltb_spec i 0); [lia |].
  destruct (Z.ltb_spec k 0); [reflexivity |].
  destruct (Nat.ltb_spec (Z.to_nat i) (length sol)) as [Hlt | Hge].
  - rewrite list_lookup_insert_ne by lia. reflexivity.
  - destruct (lt_dec (Z.to_nat k) (length sol)) as [Hk | Hk].
    + rewrite lookup_app_l by exact Hk. reflexivity.
    + rewrite lookup_app_r by lia.
      rewrite (lookup_ge_None_2 sol) by lia.
      destruct (lt_dec (Z.to_nat k) (Z.to_nat i)) as [Hki | Hki].
      * rewrite lookup_app_l by (rewrite length_replicate; lia).
        rewrite lookup_replicate_2 by lia. reflexivity.
      * rewrite lookup_ge_None_2; [reflexivity |].
        rewrite length_app, length_replicate. simpl. lia.
Qed.

Lemma arr_set_length sol i v :
  0 <= i ->
  length (arr_set Undefined sol i v) = Nat.max (length sol) (S (Z.to_nat i)).
Proof.
  intros Hi. unfold arr_set.
  destruct (Z.ltb_spec i 0); [lia |].
  destruct (Nat.ltb_spec (Z.to_nat i) (length sol)) as [Hlt | Hge].
  - rewrite length_insert. lia.
  - rewrite !length_app, length_replicate. simpl. lia.
Qed.

(** * Back substitution *)

Section BackSubstitution.

Variable A : Matrix.
Variable b : list value.

Hypothesis Hsquare : rows A = columns A.
Hypothesis Hrows : 0 < rows A.
Hypothesis Hsize : size A = rows A * columns A.
Hypothesis Hfits : storageFits A.

Lemma getElement_in_range i j :
  0 <= i < rows A -> 0 <= j < columns A ->
  Matrix.getElement A i j = Ok (Num (entry A i j)).
Proof.
  intros Hi Hj. unfold Matrix.getElement, entry.
  assert (Hidx : 0 <= i * columns A + j < rows A * columns A) by nia.
  destruct (Z.gtb_spec (i * columns A + j) (size A)); [lia |].
  destruct (Z.ltb_spec (i * columns A + j) 0); [lia |]. simpl.
  unfold storageFits in Hfits.
  destruct (f32_get_in_range (mElements A) (i * columns A + j)) as (x & _ & ->); [lia |].
  reflexivity.
Qed.

Lemma tailSum_ext sol sol' i :
  (forall j, i < j -> arr_get sol j = arr_get sol' j) ->
  tailSum A sol i = tailSum A sol' i.
Proof.
  intros Hagree. unfold tailSum. apply for_down_ext.
  intros k t Hk. rewrite (Hagree k) by lia. reflexivity.
Qed.

Lemma row_zero i sol :
  0 <= i < rows A ->
  (entry A i i =? 0)%float = true ->
  Matrix.backSubstitutionRow A b i sol
  = Throw (MatrixError "Unsolvable system: zero on diagonal" 814).
Proof.
  intros Hi Hz. unfold Matrix.backSubstitutionRow.
  rewrite getElement_in_range by lia. simpl. rewrite Hz. reflexivity.
Qed.

Lemma row_solved i sol :
  0 <= i < rows A ->
  (entry A i i =? 0)%float = false ->
  Matrix.backSubstitutionRow A b i sol
  = Ok (arr_set Undefined sol i (Num (solved A b sol i))).
Proof.
  intros Hi Hz. unfold Matrix.backSubstitutionRow.
  rewrite getElement_in_range by lia. simpl. rewrite Hz.
  rewrite (for_downM_pure
             (fun j acc => (acc + entry A i j * toNumber (arr_get sol j))%float)).
  - reflexivity.
  - intros k t Hk. rewrite getElement_in_range by lia. simpl.
    rewrite (number_mul_comm (toNumber (arr_get sol k))). reflexivity.
Qed.

Lemma solvedBelow_step k sol :
  0 <= k < rows A ->
  solvedBelow A b k sol ->
  solvedBelow A b (k - 1) (arr_set Undefined sol k (Num (solved A b sol k))).
Proof.
  intros Hk [Hlen Hsol].
  assert (Hext : forall i, k <= i ->
            solved A b (arr_set Undefined sol k (Num (solved A b sol k))) i = solved A b sol i).
  { intros i Hi. unfold solved. f_equal. f_equal.
    apply tailSum_ext. intros j Hj. apply arr_get_set_ne; lia. }
  split.
  - left. rewrite arr_set_length by lia.
    destruct Hlen as [Hlen | [-> ->]]; simpl; lia.
  - intros i Hi. rewrite Hext by lia.
    destruct (Z.eq_dec i k) as [-> | Hne].
    + apply arr_get_set_eq. lia.
    + rewrite arr_get_set_ne by lia. apply Hsol. lia.
Qed.

Lemma backSubstitution_singular :
  Matrix.isUpperTriangular A = Ok true ->
  (exists i, 0 <= i < rows A /\ (entry A i i =? 0)%float = true) ->
  Matrix.backSubstitution A b
  = Throw (MatrixError "Unsolvable system: zero on diagonal" 814).
Proof.
  intros Hupper (i & Hi & Hz). unfold Matrix.backSubstitution.
  rewrite Hupper. simpl.
  apply (for_downM_throw (solvedBelow A b) (fun k => (entry A k k =? 0)%float)).
  - split; [right; split; [lia | reflexivity] | intros; lia].
  - intros k t Hk _ Hbad. apply row_zero; [lia | exact Hbad].
  - intros k t Hk Ht Hgood. eexists. split.
    + apply row_solved; [lia | exact Hgood].
    + apply solvedBelow_step; [lia | exact Ht].
  - exists i. split; [lia | exact Hz].
Qed.

Lemma backSubstitution_regular :
  Matrix.isUpperTriangular A = Ok true ->
  (forall i, 0 <= i < rows A -> (entry A i i =? 0)%float = false) ->
  exists sol,
    Matrix.backSubstitution A b = Ok sol
    /\ Z.of_nat (length sol) = rows A
    /\ forall i, 0 <= i < rows A ->
         arr_get sol i
         = Num ((toNumber (arr_get b i) - tailSum A sol i) / entry A i i)%float.
Proof.
  intros Hupper Hnz. unfold Matrix.backSubstitution.
  rewrite Hupper. simpl.
  destruct (for_downM_ind (solvedBelow A b) (rows A - 1) (-1)
              (Matrix.backSubstitutionRow A b) []) as (sol & Hrun & [Hlen Hsol]).
  - lia.
  - split; [right; split; [lia | reflexivity] | intros; lia].
  - intros k t Hk Ht. eexists. split.
    + apply row_solved; [lia | apply Hnz; lia].
    + apply solvedBelow_step; [lia | exact Ht].
  - exists sol. split; [exact Hrun |]. split.
    + destruct Hlen as [Hlen | [Hk _]]; [exact Hlen | lia].
    + intros i Hi. apply Hsol. lia.
Qed.

End BackSubstitution.

(** C7. Back substitution on a square upper-triangular matrix: a zero on
    the diagonal raises the singular-system error (code 814); otherwise the
    call returns a vector [sol] of [rows] numbers with
    [sol[i] = (b[i] - sum over j > i of A[i,j] * sol[j]) / A[i,i]], the
    sum being accumulated from the last column down. *)
Theorem backSubstitution_spec (A : Matrix) (b : list value) :
  rows A = columns A ->
  0 < rows A ->
  size A = rows A * columns A ->
  storageFits A ->
  Matrix.isUpperTriangular A = Ok true ->
  ((exists i, 0 <= i < rows A /\ (entry A i i =? 0)%float = true) ->
   Matrix.backSubstitution A b
   = Throw (MatrixError "Unsolvable system: zero on diagonal" 814))
  /\ ((forall i, 0 <= i < rows A -> (entry A i i =? 0)%float = false) ->
      exists sol,
        Matrix.backSubstitution A b = Ok sol
        /\ Z.of_nat (length sol) = rows A
        /\ forall i, 0 <= i < rows A ->
             arr_get sol i
             = Num ((toNumber (arr_get b i) - tailSum A sol i) / entry A i i)%float).
Proof.
  intros Hsq Hrows Hsize Hfits Hupper. split.
  - apply backSubstitution_singular; assumption.
  - apply backSubstitution_regular; assumption.
Qed.

Lemma backSubstitution_spec_witness :
  (exists sol,
      Matrix.backSubstitution sampleUpper [Num 1%float; Num 2%float] = Ok sol
      /\ Z.of_nat (length sol) = rows sampleUpper
      /\ forall i, 0 <= i < rows sampleUpper ->
           arr_get sol i
           = Num ((toNumber (arr_get [Num 1%float; Num 2%float] i)
                   - tailSum sampleUpper sol i) / entry sampleUpper i i)%float)
  /\ Matrix.backSubstitution sampleSingular [Num 1%float; Num 2%float]
     = Throw (MatrixError "Unsolvable system: zero on diagonal" 814).
Proof.
  split.
  - apply (proj2 (backSubstitution_spec sampleUpper [Num 1%float; Num 2%float]
                    eq_refl eq_refl eq_refl eq_refl eq_refl)).
    intros i Hi. simpl in Hi.
    assert (Hcases : i = 0 \/ i = 1) by lia.
    destruct Hcases as [-> | ->]; reflexivity.
  - apply (proj1 (backSubstitution_spec sampleSingular [Num 1%float; Num 2%float]
                    eq_refl eq_refl eq_refl eq_refl eq_refl)).
    exists 1. split; [simpl; lia | reflexivity].
Defined.

(** * Completions *)

Lemma bind_Ok {A B} (m : completion A) (k : A -> completion B) b :
  JS.bind m k = Ok b -> exists a, m = Ok a /\ k a = Ok b.
Proof.
  destruct m as [a | e]; simpl; intros H; [| discriminate].
  exists a. split; [reflexivity | exact H].
Qed.

(** * What loops preserve *)

Lemma for_up_preserves {St} (P : St -> Prop) lo hi (body : Z -> St -> St) s :
  P s ->
  (forall k t, lo <= k < hi -> P t -> P (body k t)) ->
  P (for_up lo hi body s).
Proof.
  intros Hs Hstep.
  destruct (Z_le_gt_dec lo hi) as [Hle | Hgt].
  - apply (for_up_ind (fun _ t => P t)); [exact Hle | exact Hs | exact Hstep].
  - rewrite for_up_nil by lia. exact Hs.
Qed.

Lemma f32_set_noNaN a i v :
  noNaN a -> is_nan (toNumber v) = false -> noNaN (f32_set a i v).
Proof.
  intros Ha Hv. unfold f32_set, noNaN in *.
  destruct (i <? 0); [exact Ha |].
  apply Forall_insert; [exact Ha | apply fround_not_nan, Hv].
Qed.

Lemma f32_get_noNaN a i :
  noNaN a -> 0 <= i < Z.of_nat (length a) -> is_nan (toNumber (f32_get a i)) = false.
Proof.
  intros Ha Hi.
  destruct (f32_get_in_range a i Hi) as (x & Hx & ->). simpl.
  exact (Forall_lookup_1 _ _ _ _ Ha Hx).
Qed.

Lemma f32_new_spec n buf :
  f32_new n = Ok buf -> 0 <= n /\ Z.of_nat (length buf) = n /\ noNaN buf.
Proof.
  unfold f32_new. destruct (Z.ltb_spec n 0); [discriminate |].
  intros [= <-]. rewrite length_replicate. split; [lia |]. split; [lia |].
  apply Forall_replicate. reflexivity.
Qed.

(** * The constructor *)

Ltac solve_cmp :=
  rewrite ?Z.gtb_ltb;
  first [ apply Z.eqb_eq; lia | apply Z.eqb_neq; lia
        | apply Z.ltb_lt; lia | apply Z.ltb_ge; lia ].

Lemma updateMatrix_initial buf r c :
  0 < r -> 0 < c ->
  Z.of_nat (length buf) = r * c ->
  noNaN buf ->
  wellFormed (Matrix.updateMatrix (Matrix.initial buf r c)).
Proof.
  intros Hr Hc Hlen Hnan.
  unfold Matrix.updateMatrix, Matrix.updateSpecification, Matrix.initial. simpl.
  destruct (Z.gtb_spec r c) as [Hgt | Hle]; [| destruct (Z.gtb_spec c r) as [Hgt' | Hle']];
    (constructor; simpl;
     [ lia | lia | reflexivity | exact Hlen | exact Hnan
     | unfold classified; simpl; repeat split; symmetry; solve_cmp
     | reflexivity ]).
Qed.

Lemma validateFloatArray_Ok buf u :
  Matrix.validateFloatArray buf = Ok u -> noNaN buf.
Proof.
  unfold Matrix.validateFloatArray.
  destruct (forallb _ buf) eqn:Hall; [| discriminate]. intros _.
  unfold noNaN. apply Forall_forall. intros x Hx.
  rewrite forallb_forall in Hall.
  specialize (Hall x (proj1 (list_elem_of_In _ _) Hx)).
  unfold isNaN in Hall. simpl in Hall. apply negb_true_iff in Hall. exact Hall.
Qed.

(** What the flat-buffer form yields: the buffer itself, unchecked against
    the dimensions. *)
Lemma ofFloat32Array_Ok buf r c M :
  Matrix.ofFloat32Array buf r c = Ok M ->
  exists r' c',
    r = Some r' /\ c = Some c' /\ 0 < r' /\ 0 < c' /\ noNaN buf
    /\ M = Matrix.updateMatrix (Matrix.initial buf r' c').
Proof.
  unfold Matrix.ofFloat32Array.
  destruct r as [r' |]; [| discriminate]. destruct c as [c' |]; [| discriminate].
  destruct (Z.leb_spec c' 0) as [? | Hc]; [discriminate |].
  destruct (Z.leb_spec r' 0) as [? | Hr]; [discriminate |]. simpl.
  intros Hrun. apply bind_Ok in Hrun as (u & Hval & [= <-]).
  exists r', c'. repeat split; try lia; try reflexivity.
  eapply validateFloatArray_Ok, Hval.
Qed.

Lemma ofFloat32Array_wellFormed buf r c M :
  Matrix.ofFloat32Array buf (Some r) (Some c) = Ok M ->
  Z.of_nat (length buf) = r * c ->
  wellFormed M /\ rows M = r /\ columns M = c /\ mElements M = buf.
Proof.
  intros H Hlen.
  apply ofFloat32Array_Ok in H as (r' & c' & [= <-] & [= <-] & Hr & Hc & Hnan & ->).
  split; [apply updateMatrix_initial; assumption |].
  unfold Matrix.updateMatrix, Matrix.updateSpecification, Matrix.initial. simpl.
  destruct (r >? c); [| destruct (c >? r)]; simpl; auto.
Qed.

Lemma updateMatrix_initial_fields buf r c :
  rows (Matrix.updateMatrix (Matrix.initial buf r c)) = r
  /\ columns (Matrix.updateMatrix (Matrix.initial buf r c)) = c
  /\ mElements (Matrix.updateMatrix (Matrix.initial buf r c)) = buf.
Proof.
  unfold Matrix.updateMatrix, Matrix.updateSpecification, Matrix.initial. simpl.
  destruct (r >? c); [| destruct (c >? r)]; simpl; auto.
Qed.

(** Entries that pass [validateMatrixEntries]: a non-empty rectangle of
    numbers, none of them NaN. *)
Lemma validateMatrixEntries_true entries :
  Matrix.validateMatrixEntries entries = true ->
  let numCols := length (Matrix.rowOf entries 0) in
  (0 < length entries)%nat /\ (0 < numCols)%nat
  /\ forall i j, 0 <= i < Z.of_nat (length entries) -> 0 <= j < Z.of_nat numCols ->
       is_nan (toNumber (arr_get (Matrix.rowOf entries i) j)) = false.
Proof.
  unfold Matrix.validateMatrixEntries.
  destruct entries as [| first rest]; [discriminate |].
  destruct (Nat.eqb_spec (length first) 0) as [| Hcols]; [discriminate |].
  intros Hall. cbv zeta.
  assert (Hrow0 : Matrix.rowOf (first :: rest) 0 = first) by reflexivity.
  rewrite Hrow0.
  split; [simpl; lia |]. split; [lia |].
  intros i j Hi Hj.
  rewrite forallb_forall in Hall.
  unfold Matrix.rowOf. destruct (Z.ltb_spec i 0); [lia |].
  destruct (lookup_lt_is_Some_2 (first :: rest) (Z.to_nat i)) as [row Hrow]; [lia |].
  rewrite Hrow. simpl.
  specialize (Hall row (proj1 (list_elem_of_In _ _) (list_elem_of_lookup_2 _ _ _ Hrow))).
  apply andb_true_iff in Hall as [Hlen Hvalid].
  apply Nat.eqb_eq in Hlen.
  unfold arr_get. destruct (Z.ltb_spec j 0); [lia |].
  destruct (lookup_lt_is_Some_2 row (Z.to_nat j)) as [v Hv]; [lia |].
  rewrite Hv.
  rewrite forallb_forall in Hvalid.
  specialize (Hvalid v (proj1 (list_elem_of_In _ _) (list_elem_of_lookup_2 _ _ _ Hv))).
  unfold Matrix.validEntry, isNaN in Hvalid.
  apply andb_true_iff in Hvalid as [_ Hvalid].
  apply negb_true_iff in Hvalid. exact Hvalid.
Qed.

Lemma ofArray_wellFormed entries M :
  Matrix.ofArray entries = Ok M -> wellFormed M.
Proof.
  unfold Matrix.ofArray.
  destruct (Matrix.validateMatrixEntries entries) eqn:Hvalid; [| discriminate]. simpl.
  apply validateMatrixEntries_true in Hvalid as (Hrows & Hcols & Hentries).
  set (numRows := Z.of_nat (length entries)) in *.
  set (numCols := Z.of_nat (length (Matrix.rowOf entries 0))) in *.
  intros Hrun. apply bind_Ok in Hrun as (buf & Hnew & [= <-]).
  apply f32_new_spec in Hnew as (_ & Hlen & Hnan).
  apply updateMatrix_initial; [lia | lia | |].
  - apply (for_up_preserves (fun b => Z.of_nat (length b) = numRows * numCols));
      [exact Hlen |].
    intros i b _ Hb. apply for_up_preserves; [exact Hb |].
    intros j b' _ Hb'. rewrite f32_set_length. exact Hb'.
  - apply for_up_preserves; [exact Hnan |].
    intros i b Hi Hb. apply for_up_preserves; [exact Hb |].
    intros j b' Hj Hb'. apply f32_set_noNaN; [exact Hb' |].
    apply Hentries; lia.
Qed.

(** * Operations that return through the constructor *)

Lemma add_Ok A B M :
  Matrix.add A B = Ok M ->
  wellFormed A ->
  wellFormed M /\ rows M = rows A /\ columns M = columns A.
Proof.
  unfold Matrix.add. destruct (negb _); [discriminate |].
  intros Hrun HA.
  apply ofFloat32Array_wellFormed in Hrun as (Hwf & Hr & Hc & _); [auto |].
  apply for_up_preserves; [apply (wf_storage _ HA) |].
  intros i b _ Hb. rewrite f32_set_length. exact Hb.
Qed.

Lemma subtract_Ok A B M :
  Matrix.subtract A B = Ok M ->
  wellFormed A ->
  wellFormed M /\ rows M = rows A /\ columns M = columns A.
Proof.
  unfold Matrix.subtract. destruct (negb _); [discriminate |].
  intros Hrun HA.
  apply ofFloat32Array_wellFormed in Hrun as (Hwf & Hr & Hc & _); [auto |].
  apply for_up_preserves; [apply (wf_storage _ HA) |].
  intros i b _ Hb. rewrite f32_set_length. exact Hb.
Qed.

Lemma naiveMultiply_Ok A B M :
  Matrix.naiveMultiply A B = Ok M ->
  wellFormed M /\ rows M = rows A /\ columns M = columns B.
Proof.
  unfold Matrix.naiveMultiply. destruct (negb _); [discriminate |].
  intros Hrun. apply bind_Ok in Hrun as (buf & Hnew & Hrun).
  apply f32_new_spec in Hnew as (_ & Hlen & _).
  apply ofFloat32Array_wellFormed in Hrun as (Hwf & Hr & Hc & _); [auto |].
  apply for_up_preserves; [exact Hlen |].
  intros i b _ Hb. apply for_up_preserves; [exact Hb |].
  intros j b' _ Hb'. rewrite f32_set_length. exact Hb'.
Qed.

Lemma getSubmatrix_Ok A startRow startCol sz M :
  Matrix.getSubmatrix A startRow startCol sz = Ok M ->
  wellFormed M /\ rows M = sz /\ columns M = sz.
Proof.
  unfold Matrix.getSubmatrix.
  intros Hrun. apply bind_Ok in Hrun as (buf & Hnew & Hrun).
  apply f32_new_spec in Hnew as (_ & Hlen & _).
  apply ofFloat32Array_wellFormed in Hrun as (Hwf & Hr & Hc & _); [auto |].
  apply for_up_preserves; [exact Hlen |].
  intros i b _ Hb. apply for_up_preserves; [exact Hb |].
  intros j b' _ Hb'. rewrite f32_set_length. exact Hb'.
Qed.

(** * Transposition keeps the invariants *)

Lemma scatter_noNaN r c src buf :
  0 <= r -> 0 <= c ->
  Z.of_nat (length src) = r * c ->
  noNaN src -> noNaN buf -> noNaN (scatter r c src buf).
Proof.
  intros Hr Hc Hlen Hsrc Hbuf. unfold scatter.
  apply for_up_preserves; [exact Hbuf |].
  intros i b Hi Hb. apply for_up_preserves; [exact Hb |].
  intros j b' Hj Hb'. apply f32_set_noNaN; [exact Hb' |].
  apply f32_get_noNaN; [exact Hsrc | nia].
Qed.

Lemma transpose_wellFormed A : wellFormed A -> wellFormed (Matrix.transpose A).
Proof.
  intros [Hr Hc Hsz Hfit Hnan (Hsq & Htall & Hwide) Hshape].
  unfold storageFits in Hfit.
  destruct (scatter_spec (rows A) (columns A) (mElements A) (mElements A))
    as [Hlen _]; [lia | lia | exact Hfit |].
  constructor.
  - rewrite transpose_rows. exact Hc.
  - rewrite transpose_columns. exact Hr.
  - rewrite transpose_rows, transpose_columns.
    unfold Matrix.transpose, MatrixUtils.clone. simpl.
    destruct (isTall A); [simpl; lia |]. destruct (isWide A); simpl; lia.
  - unfold storageFits.
    rewrite transpose_rows, transpose_columns, transpose_mElements. lia.
  - rewrite transpose_mElements.
    apply scatter_noNaN; [lia | lia | exact Hfit | exact Hnan | exact Hnan].
  - unfold classified. rewrite transpose_rows, transpose_columns.
    unfold Matrix.transpose, MatrixUtils.clone. simpl.
    rewrite Hsq, Htall, Hwide, (Z.eqb_sym (columns A)).
    destruct (Z.gtb_spec (rows A) (columns A)); simpl;
      [| destruct (Z.gtb_spec (columns A) (rows A)); simpl];
      repeat split; try reflexivity; symmetry; solve_cmp.
  - rewrite transpose_rows, transpose_columns.
    unfold Matrix.transpose, MatrixUtils.clone. simpl.
    destruct (isTall A); [reflexivity |]. destruct (isWide A); reflexivity.
Qed.

(** * Submatrix assignment and Strassen's recursion *)

Lemma setSubmatrix_wellFormed C startRow startCol sub s :
  wellFormed C ->
  0 <= s -> Z.of_nat (length sub) = s * s -> noNaN sub ->
  wellFormed (Matrix.setSubmatrix C startRow startCol sub)
  /\ rows (Matrix.setSubmatrix C startRow startCol sub) = rows C
  /\ columns (Matrix.setSubmatrix C startRow startCol sub) = columns C.
Proof.
  intros [Hr Hc Hsz Hfit Hnan Hflags Hshape] Hs Hlen Hsub.
  unfold Matrix.setSubmatrix. rewrite Hlen, Z.sqrt_square by exact Hs.
  rewrite Z.eqb_refl. simpl.
  split; [| split; reflexivity].
  constructor; simpl; try assumption.
  - unfold storageFits in *. simpl.
    apply (for_up_preserves
             (fun b => Z.of_nat (length b) = rows C * columns C)); [exact Hfit |].
    intros i b _ Hb. apply for_up_preserves; [exact Hb |].
    intros j b' _ Hb'. rewrite f32_set_length. exact Hb'.
  - apply for_up_preserves; [exact Hnan |].
    intros i b Hi Hb. apply for_up_preserves; [exact Hb |].
    intros j b' Hj Hb'. apply f32_set_noNaN; [exact Hb' |].
    apply f32_get_noNaN; [exact Hsub | nia].
Qed.

Tactic Notation "bind_inv" hyp(H) ident(x) ident(Hx) :=
  apply bind_Ok in H as (x & Hx & H).

Lemma strassenRec_Ok depth :
  forall A B M,
    classified A -> classified B ->
    Matrix.strassenRec depth A B = Ok M ->
    wellFormed M /\ rows M = rows A /\ columns M = rows A.
Proof.
  induction depth as [| depth IH]; intros A B M HA HB Hrun; simpl in Hrun;
    [discriminate |].
  destruct (isSquare A) eqn:HsqA; [| discriminate].
  destruct (isSquare B) eqn:HsqB; [| discriminate].
  destruct (Z.eqb_spec (columns A) (rows B)) as [Hinner |]; [| discriminate].
  destruct (MathUtils.isPowerOfTwo (rows A)); [| discriminate]. simpl in Hrun.
  assert (HsquareA : rows A = columns A).
  { destruct HA as (Hsq & _). rewrite HsqA in Hsq.
    symmetry in Hsq. apply Z.eqb_eq in Hsq. exact Hsq. }
  assert (HsquareB : rows B = columns B).
  { destruct HB as (Hsq & _). rewrite HsqB in Hsq.
    symmetry in Hsq. apply Z.eqb_eq in Hsq. exact Hsq. }
  destruct (rows A <=? 2).
  { apply naiveMultiply_Ok in Hrun as (Hwf & Hr & Hc).
    split; [exact Hwf |]. split; [exact Hr | lia]. }
  set (h := rows A / 2) in *.
  bind_inv Hrun A11 HA11. apply getSubmatrix_Ok in HA11 as (WA11 & RA11 & CA11).
  bind_inv Hrun A12 HA12. apply getSubmatrix_Ok in HA12 as (WA12 & RA12 & CA12).
  bind_inv Hrun A21 HA21. apply getSubmatrix_Ok in HA21 as (WA21 & RA21 & CA21).
  bind_inv Hrun A22 HA22. apply getSubmatrix_Ok in HA22 as (WA22 & RA22 & CA22).
  bind_inv Hrun B11 HB11. apply getSubmatrix_Ok in HB11 as (WB11 & RB11 & CB11).
  bind_inv Hrun B12 HB12. apply getSubmatrix_Ok in HB12 as (WB12 & RB12 & CB12).
  bind_inv Hrun B21 HB21. apply getSubmatrix_Ok in HB21 as (WB21 & RB21 & CB21).
  bind_inv Hrun B22 HB22. apply getSubmatrix_Ok in HB22 as (WB22 & RB22 & CB22).
  bind_inv Hrun P1 HP1. bind_inv HP1 d1 Hd1.
  apply subtract_Ok in Hd1 as (Wd1 & _ & _); [| exact WB12].
  apply IH in HP1 as (WP1 & RP1 & CP1); [| exact (wf_flags _ WA11) | exact (wf_flags _ Wd1)].
  bind_inv Hrun P2 HP2. bind_inv HP2 s2 Hs2.
  apply add_Ok in Hs2 as (Ws2 & Rs2 & _); [| exact WA11].
  apply IH in HP2 as (WP2 & RP2 & CP2); [| exact (wf_flags _ Ws2) | exact (wf_flags _ WB22)].
  bind_inv Hrun P3 HP3. bind_inv HP3 s3 Hs3.
  apply add_Ok in Hs3 as (Ws3 & Rs3 & _); [| exact WA21].
  apply IH in HP3 as (WP3 & RP3 & CP3); [| exact (wf_flags _ Ws3) | exact (wf_flags _ WB11)].
  bind_inv Hrun P4 HP4. bind_inv HP4 d4 Hd4.
  apply subtract_Ok in Hd4 as (Wd4 & _ & _); [| exact WB21].
  apply IH in HP4 as (WP4 & RP4 & CP4); [| exact (wf_flags _ WA22) | exact (wf_flags _ Wd4)].
  bind_inv Hrun P5 HP5. bind_inv HP5 s5 Hs5. bind_inv HP5 t5 Ht5.
  apply add_Ok in Hs5 as (Ws5 & Rs5 & _); [| exact WA11].
  apply add_Ok in Ht5 as (Wt5 & _ & _); [| exact WB11].
  apply IH in HP5 as (WP5 & RP5 & CP5); [| exact (wf_flags _ Ws5) | exact (wf_flags _ Wt5)].
  bind_inv Hrun P6 HP6. bind_inv HP6 d6 Hd6. bind_inv HP6 t6 Ht6.
  apply subtract_Ok in Hd6 as (Wd6 & Rd6 & _); [| exact WA12].
  apply add_Ok in Ht6 as (Wt6 & _ & _); [| exact WB21].
  apply IH in HP6 as (WP6 & RP6 & CP6); [| exact (wf_flags _ Wd6) | exact (wf_flags _ Wt6)].
  bind_inv Hrun P7 HP7. bind_inv HP7 d7 Hd7. bind_inv HP7 t7 Ht7.
  apply subtract_Ok in Hd7 as (Wd7 & Rd7 & _); [| exact WA11].
  apply add_Ok in Ht7 as (Wt7 & _ & _); [| exact WB11].
  apply IH in HP7 as (WP7 & RP7 & CP7); [| exact (wf_flags _ Wd7) | exact (wf_flags _ Wt7)].
  bind_inv Hrun C11 HC11. bind_inv HC11 x1 Hx1. bind_inv HC11 y1 Hy1.
  apply add_Ok in Hx1 as (Wx1 & Rx1 & Cx1); [| exact WP5].
  apply subtract_Ok in Hy1 as (Wy1 & Ry1 & Cy1); [| exact Wx1].
  apply add_Ok in HC11 as (WC11 & RC11 & CC11); [| exact Wy1].
  bind_inv Hrun C12 HC12.
  apply add_Ok in HC12 as (WC12 & RC12 & CC12); [| exact WP1].
  bind_inv Hrun C21 HC21.
  apply add_Ok in HC21 as (WC21 & RC21 & CC21); [| exact WP3].
  bind_inv Hrun C22 HC22. bind_inv HC22 x2 Hx2. bind_inv HC22 y2 Hy2.
  apply add_Ok in Hx2 as (Wx2 & Rx2 & Cx2); [| exact WP5].
  apply subtract_Ok in Hy2 as (Wy2 & Ry2 & Cy2); [| exact Wx2].
  apply subtract_Ok in HC22 as (WC22 & RC22 & CC22); [| exact Wy2].
  bind_inv Hrun zeros Hzeros. apply f32_new_spec in Hzeros as (_ & Hlen & _).
  bind_inv Hrun C HC.
  apply ofFloat32Array_wellFormed in HC as (WC & RC & CC & _); [| exact Hlen].
  injection Hrun as <-.
  assert (Hh : 0 <= h) by (pose proof (wf_rows _ WA11); lia).
  assert (Hblock : forall X, wellFormed X -> rows X = h -> columns X = h ->
                             Z.of_nat (length (mElements X)) = h * h /\ noNaN (mElements X)).
  { intros X WX RX CX. split; [| apply (wf_noNaN _ WX)].
    pose proof (wf_storage _ WX) as HfitX. unfold storageFits in HfitX.
    rewrite HfitX, RX, CX. reflexivity. }
  destruct (Hblock C11 WC11) as [L11 N11]; [lia | lia |].
  destruct (Hblock C12 WC12) as [L12 N12]; [lia | lia |].
  destruct (Hblock C21 WC21) as [L21 N21]; [lia | lia |].
  destruct (Hblock C22 WC22) as [L22 N22]; [lia | lia |].
  destruct (setSubmatrix_wellFormed C 0 0 (mElements C11) h WC Hh L11 N11)
    as (W1 & R1 & C1).
  destruct (setSubmatrix_wellFormed _ 0 h (mElements C12) h W1 Hh L12 N12)
    as (W2 & R2 & C2).
  destruct (setSubmatrix_wellFormed _ h 0 (mElements C21) h W2 Hh L21 N21)
    as (W3 & R3 & C3).
  destruct (setSubmatrix_wellFormed _ h h (mElements C22) h W3 Hh L22 N22)
    as (W4 & R4 & C4).
  split; [exact W4 |]. split; lia.
Qed.

Lemma strassenMultiply_Ok A B M :
  classified A -> classified B ->
  Matrix.strassenMultiply A B = Ok M -> wellFormed M.
Proof.
  intros HA HB Hrun. unfold Matrix.strassenMultiply in Hrun.
  apply strassenRec_Ok in Hrun as (HM & _); assumption.
Qed.

(** * Factories, inverses and decompositions end in the constructor *)

Lemma identity_Ok n M : Matrix.identity n = Ok M -> wellFormed M.
Proof.
  unfold Matrix.identity. destruct (n <=? 0); [discriminate |].
  apply ofArray_wellFormed.
Qed.

Lemma ones_Ok r c M : Matrix.ones r c = Ok M -> wellFormed M.
Proof.
  unfold Matrix.ones. destruct (_ || _); [discriminate |].
  apply ofArray_wellFormed.
Qed.

Lemma invertUpper_Ok A M : Matrix.invertUpper A = Ok M -> wellFormed M.
Proof.
  unfold Matrix.invertUpper. destruct (negb (isSquare A)); [discriminate |].
  intros Hrun. bind_inv Hrun upper Hupper.
  destruct (negb upper); [discriminate |].
  bind_inv Hrun identityMatrix Hid. bind_inv Hrun inverted Hinv.
  bind_inv Hrun inverse Hinverse. injection Hrun as <-.
  apply transpose_wellFormed, (ofArray_wellFormed _ _ Hinverse).
Qed.

Lemma invertLower_Ok A M : Matrix.invertLower A = Ok M -> wellFormed M.
Proof.
  unfold Matrix.invertLower. destruct (negb (isSquare A)); [discriminate |].
  intros Hrun. bind_inv Hrun lower Hlower.
  destruct (negb lower); [discriminate |].
  bind_inv Hrun identityMatrix Hid. bind_inv Hrun inverted Hinv.
  bind_inv Hrun inverse Hinverse. injection Hrun as <-.
  apply transpose_wellFormed, (ofArray_wellFormed _ _ Hinverse).
Qed.

Lemma gramSmith_Ok DELTA A M : Matrix.gramSmith DELTA A = Ok M -> wellFormed M.
Proof.
  unfold Matrix.gramSmith. intros Hrun.
  bind_inv Hrun col0 Hcol0. bind_inv Hrun cols Hcols.
  bind_inv Hrun normalized Hnorm.
  apply (ofArray_wellFormed _ _ Hrun).
Qed.

Lemma zeros_Ok r c M : Matrix.zeros r c = Ok M -> wellFormed M.
Proof.
  unfold Matrix.zeros. destruct (_ || _); [discriminate |].
  apply ofArray_wellFormed.
Qed.

Lemma reshape_Ok array newRows newColumns M :
  Matrix.reshape array newRows newColumns = Ok M -> wellFormed M.
Proof.
  unfold Matrix.reshape. destruct (negb _); [discriminate |].
  destruct (for_up _ _ _ _) as [[newEntries rowIndex] colIndex].
  apply ofArray_wellFormed.
Qed.

Lemma QRDecomposition_Ok DELTA A qr :
  Matrix.QRDecomposition DELTA A = Ok qr ->
  wellFormed (Matrix.Q qr) /\ wellFormed (Matrix.R qr).
Proof.
  unfold Matrix.QRDecomposition. intros Hrun.
  bind_inv Hrun q Hq. bind_inv Hrun r Hr. injection Hrun as <-. simpl.
  split; [apply (gramSmith_Ok _ _ _ Hq) | apply (naiveMultiply_Ok _ _ _ Hr)].
Qed.

Lemma classified_exactlyOne M :
  classified M -> exactlyOne (isSquare M) (isTall M) (isWide M).
Proof.
  intros (-> & -> & ->). unfold exactlyOne.
  destruct (Z.lt_trichotomy (rows M) (columns M)) as [Hlt | [Heq | Hgt]].
  - right. right. repeat split; solve_cmp.
  - left. repeat split; solve_cmp.
  - right. left. repeat split; solve_cmp.
Qed.

(** * Operations that do not go through the constructor *)

Lemma wellFormed_wellShaped M : wellFormed M -> wellShaped M.
Proof. intros [? ? ? ? ? ? ?]. constructor; assumption. Qed.

Lemma wellShaped_wellFormed M : wellShaped M -> noNaN (mElements M) -> wellFormed M.
Proof. intros [? ? ? ? ? ?] ?. constructor; assumption. Qed.

(** The sum and the difference only need the receiver's buffer to fit:
    the constructor tests the values they store. *)
Lemma add_fits A B M :
  Matrix.add A B = Ok M -> storageFits A -> wellFormed M.
Proof.
  unfold Matrix.add. destruct (negb _); [discriminate |].
  intros Hrun HA.
  apply ofFloat32Array_wellFormed in Hrun as (Hwf & _); [exact Hwf |].
  apply for_up_preserves; [exact HA |].
  intros i b _ Hb. rewrite f32_set_length. exact Hb.
Qed.

Lemma subtract_fits A B M :
  Matrix.subtract A B = Ok M -> storageFits A -> wellFormed M.
Proof.
  unfold Matrix.subtract. destruct (negb _); [discriminate |].
  intros Hrun HA.
  apply ofFloat32Array_wellFormed in Hrun as (Hwf & _); [exact Hwf |].
  apply for_up_preserves; [exact HA |].
  intros i b _ Hb. rewrite f32_set_length. exact Hb.
Qed.

Lemma addasync_fits numProcessors A B M :
  Matrix.addasync numProcessors A B = Ok M -> storageFits A -> wellFormed M.
Proof.
  unfold Matrix.addasync. destruct (negb _); [discriminate |].
  intros Hrun HA.
  apply ofFloat32Array_wellFormed in Hrun as (Hwf & _); [exact Hwf |].
  apply for_up_preserves; [exact HA |].
  intros i b _ Hb. apply for_up_preserves; [exact Hb |].
  intros j b' _ Hb'. rewrite f32_set_length. exact Hb'.
Qed.

(** [scale] works on a clone and replaces its buffer by one of the same
    length. *)
Lemma scale_wellShaped A scalar : wellShaped A -> wellShaped (Matrix.scale A scalar).
Proof.
  intros [Hr Hc Hsz Hfit Hflags Hshape].
  unfold Matrix.scale, MatrixUtils.clone.
  constructor; simpl; try assumption.
  unfold storageFits in *. simpl. rewrite length_map. exact Hfit.
Qed.

(** [setElement] and [setSubmatrix] write into the buffer and touch nothing
    else. *)
Lemma setElement_wellShaped A row column x A' :
  wellShaped A -> Matrix.setElement A row column x = Ok A' -> wellShaped A'.
Proof.
  intros [Hr Hc Hsz Hfit Hflags Hshape].
  unfold Matrix.setElement. destruct (_ || _); [discriminate |].
  intros [= <-]. constructor; simpl; try assumption.
  unfold storageFits in *. simpl. rewrite f32_set_length. exact Hfit.
Qed.

Lemma setSubmatrix_wellShaped A startRow startCol submatrixElements :
  wellShaped A ->
  wellShaped (Matrix.setSubmatrix A startRow startCol submatrixElements).
Proof.
  intros [Hr Hc Hsz Hfit Hflags Hshape].
  unfold Matrix.setSubmatrix.
  constructor; simpl; try assumption.
  unfold storageFits in *. simpl.
  apply (for_up_preserves
           (fun b => Z.of_nat (length b) = rows A * columns A)); [exact Hfit |].
  intros i b _ Hb. apply for_up_preserves; [exact Hb |].
  intros j b' _ Hb'. rewrite f32_set_length. exact Hb'.
Qed.

Lemma transpose_wellShaped A : wellShaped A -> wellShaped (Matrix.transpose A).
Proof.
  intros [Hr Hc Hsz Hfit (Hsq & Htall & Hwide) Hshape].
  unfold storageFits in Hfit.
  destruct (scatter_spec (rows A) (columns A) (mElements A) (mElements A))
    as [Hlen _]; [lia | lia | exact Hfit |].
  constructor.
  - rewrite transpose_rows. exact Hc.
  - rewrite transpose_columns. exact Hr.
  - rewrite transpose_rows, transpose_columns.
    unfold Matrix.transpose, MatrixUtils.clone. simpl.
    destruct (isTall A); [simpl; lia |]. destruct (isWide A); simpl; lia.
  - unfold storageFits.
    rewrite transpose_rows, transpose_columns, transpose_mElements. lia.
  - unfold classified. rewrite transpose_rows, transpose_columns.
    unfold Matrix.transpose, MatrixUtils.clone. simpl.
    rewrite Hsq, Htall, Hwide, (Z.eqb_sym (columns A)).
    destruct (Z.gtb_spec (rows A) (columns A)); simpl;
      [| destruct (Z.gtb_spec (columns A) (rows A)); simpl];
      repeat split; try reflexivity; symmetry; solve_cmp.
  - rewrite transpose_rows, transpose_columns.
    unfold Matrix.transpose, MatrixUtils.clone. simpl.
    destruct (isTall A); [reflexivity |]. destruct (isWide A); reflexivity.
Qed.

Lemma numbersOnly_noNaN buf : numbersOnly buf = true -> noNaN buf.
Proof.
  unfold numbersOnly, noNaN. intros H. apply Forall_forall. intros x Hx.
  rewrite forallb_forall in H.
  specialize (H x (proj1 (list_elem_of_In _ _) Hx)).
  apply negb_true_iff in H. exact H.
Qed.

Lemma scale_noNaN A scalar :
  numbersOnly (map (fun entry => entry * scalar)%float (mElements A)) = true ->
  noNaN (mElements (Matrix.scale A scalar)).
Proof.
  intros H. apply numbersOnly_noNaN in H.
  unfold Matrix.scale, MatrixUtils.clone, noNaN in *. simpl.
  rewrite Forall_map in H. rewrite Forall_map.
  eapply Forall_impl; [exact H |]. intros x Hx. simpl in *.
  apply fround_not_nan, Hx.
Qed.

Lemma setElement_noNaN A row column x A' :
  noNaN (mElements A) -> is_nan x = false ->
  Matrix.setElement A row column x = Ok A' -> noNaN (mElements A').
Proof.
  intros HA Hx. unfold Matrix.setElement. destruct (_ || _); [discriminate |].
  intros [= <-]. simpl. apply f32_set_noNaN; [exact HA | exact Hx].
Qed.

Lemma setSubmatrix_noNaN A startRow startCol submatrixElements :
  wellShaped A -> noNaN (mElements A) ->
  squareBlock submatrixElements = true -> numbersOnly submatrixElements = true ->
  noNaN (mElements (Matrix.setSubmatrix A startRow startCol submatrixElements)).
Proof.
  intros HA Hnan Hsquare Hblock.
  unfold squareBlock in Hsquare. apply Z.eqb_eq in Hsquare.
  destruct (setSubmatrix_wellFormed A startRow startCol submatrixElements
              (Z.sqrt (Z.of_nat (length submatrixElements))))
    as (Hwf & _).
  - apply wellShaped_wellFormed; assumption.
  - apply Z.sqrt_nonneg.
  - symmetry. exact Hsquare.
  - apply numbersOnly_noNaN, Hblock.
  - apply (wf_noNaN _ Hwf).
Qed.

Lemma transpose_noNaN A :
  wellShaped A -> noNaN (mElements A) -> noNaN (mElements (Matrix.transpose A)).
Proof.
  intros HA Hnan.
  apply (wf_noNaN _ (transpose_wellFormed A (wellShaped_wellFormed A HA Hnan))).
Qed.

Lemma produced_wellShaped v M :
  produced v M -> wellShaped M /\ (v = true -> noNaN (mElements M)).
Proof.
  assert (Hwf : forall X, wellFormed X ->
                          wellShaped X /\ (true = true -> noNaN (mElements X))).
  { intros X HX. split; [apply wellFormed_wellShaped, HX |].
    intros _. apply (wf_noNaN _ HX). }
  induction 1 as
    [ entries M H | buf r c M Hlen H
    | v A row column x A' _ [IHA IHnan] H | v A sr sc sub _ [IHA IHnan]
    | v A B M _ [IHA _] H | p v A B M _ [IHA _] H | v A B M _ [IHA _] H
    | v A scalar _ [IHA IHnan] | A B M H
    | v w A B M _ [IHA _] _ [IHB _] H | v A _ [IHA IHnan]
    | A sr sc sz M H | n M H | r c M H | r c M H | array nr nc M H
    | A M H | A M H | DELTA A M H | DELTA A qr H | DELTA A qr H ].
  - apply Hwf, (ofArray_wellFormed _ _ H).
  - apply Hwf, (ofFloat32Array_wellFormed _ _ _ _ H Hlen).
  - split; [apply (setElement_wellShaped _ _ _ _ _ IHA H) |].
    intros Hv. apply andb_true_iff in Hv as [Hv Hx]. apply negb_true_iff in Hx.
    apply (setElement_noNaN _ _ _ _ _ (IHnan Hv) Hx H).
  - split; [apply (setSubmatrix_wellShaped _ _ _ _ IHA) |].
    intros Hv. apply andb_true_iff in Hv as [Hv Hblock].
    apply andb_true_iff in Hv as [Hv Hsquare].
    apply (setSubmatrix_noNaN _ _ _ _ IHA (IHnan Hv) Hsquare Hblock).
  - apply Hwf, (add_fits _ _ _ H (ws_storage _ IHA)).
  - apply Hwf, (addasync_fits _ _ _ _ H (ws_storage _ IHA)).
  - apply Hwf, (subtract_fits _ _ _ H (ws_storage _ IHA)).
  - split; [apply (scale_wellShaped _ _ IHA) |].
    intros Hv. apply andb_true_iff in Hv as [_ Hproducts].
    apply (scale_noNaN _ _ Hproducts).
  - apply Hwf, (naiveMultiply_Ok _ _ _ H).
  - apply Hwf, (strassenMultiply_Ok _ _ _ (ws_flags _ IHA) (ws_flags _ IHB) H).
  - split; [apply (transpose_wellShaped _ IHA) |].
    intros Hv. apply (transpose_noNaN _ IHA (IHnan Hv)).
  - apply Hwf, (getSubmatrix_Ok _ _ _ _ _ H).
  - apply Hwf, (identity_Ok _ _ H).
  - apply Hwf, (ones_Ok _ _ _ H).
  - apply Hwf, (zeros_Ok _ _ _ H).
  - apply Hwf, (reshape_Ok _ _ _ _ H).
  - apply Hwf, (invertUpper_Ok _ _ H).
  - apply Hwf, (invertLower_Ok _ _ H).
  - apply Hwf, (gramSmith_Ok _ _ _ H).
  - apply Hwf, (QRDecomposition_Ok _ _ _ H).
  - apply Hwf, (QRDecomposition_Ok _ _ _ H).
Qed.

(** C3, as the class implements it. Take the matrices built by the
    constructor (the flat form from a buffer of [rows * columns] values),
    those returned by add, addasync, subtract, scale, naiveMultiply,
    strassenMultiply, transpose, getSubmatrix, identity, ones, zeros,
    reshape, invertUpper, invertLower, gramSmith or QRDecomposition applied
    to such matrices, and such matrices after setElement or setSubmatrix
    has written to them. Each of them holds [rows * columns] values;
    exactly one of its square, tall and wide flags is set, the one that
    compares its rows with its columns; and its shape label is the one of
    its rows and columns. None of its values is NaN, as long as no product
    that scale has stored is NaN, setElement has not been given NaN, and
    setSubmatrix has been given blocks without NaN whose length is a
    perfect square. *)
Theorem produced_invariants (validated : bool) (M : Matrix) :
  produced validated M ->
  storageFits M
  /\ (validated = true -> noNaN (mElements M))
  /\ exactlyOne (isSquare M) (isTall M) (isWide M)
  /\ classified M
  /\ shape M = Matrix.shapeOf (rows M) (columns M).
Proof.
  intros H. apply produced_wellShaped in H as [[_ _ _ Hfit Hflags Hshape] Hnan].
  repeat split; try assumption; try apply Hflags.
  apply classified_exactlyOne, Hflags.
Qed.

(** The transpose of [[1, 2, 3], [4, 5, 6]] scaled by 2, whose values are
    known not to be NaN, and [[1, 2], [3, 4]] scaled by NaN, whose values
    are not. *)
Lemma produced_invariants_witness :
  (produced true (Matrix.scale (Matrix.transpose sampleWide) 2%float)
   /\ storageFits (Matrix.scale (Matrix.transpose sampleWide) 2%float)
   /\ (true = true
       -> noNaN (mElements (Matrix.scale (Matrix.transpose sampleWide) 2%float)))
   /\ exactlyOne (isSquare (Matrix.scale (Matrix.transpose sampleWide) 2%float))
                 (isTall (Matrix.scale (Matrix.transpose sampleWide) 2%float))
                 (isWide (Matrix.scale (Matrix.transpose sampleWide) 2%float))
   /\ classified (Matrix.scale (Matrix.transpose sampleWide) 2%float)
   /\ shape (Matrix.scale (Matrix.transpose sampleWide) 2%float)
      = Matrix.shapeOf (rows (Matrix.scale (Matrix.transpose sampleWide) 2%float))
                       (columns (Matrix.scale (Matrix.transpose sampleWide) 2%float)))
  /\ (produced false (Matrix.scale sampleMatrix nan)
      /\ storageFits (Matrix.scale sampleMatrix nan)
      /\ (false = true -> noNaN (mElements (Matrix.scale sampleMatrix nan)))
      /\ exactlyOne (isSquare (Matrix.scale sampleMatrix nan))
                    (isTall (Matrix.scale sampleMatrix nan))
                    (isWide (Matrix.scale sampleMatrix nan))
      /\ classified (Matrix.scale sampleMatrix nan)
      /\ shape (Matrix.scale sampleMatrix nan)
         = Matrix.shapeOf (rows (Matrix.scale sampleMatrix nan))
                          (columns (Matrix.scale sampleMatrix nan))).
Proof.
  assert (Hwide : produced true sampleWide).
  { apply (produced_ofArray (ofIntegers [[1; 2; 3]; [4; 5; 6]])). vm_compute. reflexivity. }
  assert (Hsquare : produced true sampleMatrix).
  { apply (produced_ofArray (ofIntegers [[1; 2]; [3; 4]])). vm_compute. reflexivity. }
  assert (H : produced true (Matrix.scale (Matrix.transpose sampleWide) 2%float)).
  { exact (produced_scale true _ 2%float (produced_transpose true _ Hwide)). }
  assert (H' : produced false (Matrix.scale sampleMatrix nan)).
  { exact (produced_scale true _ nan Hsquare). }
  split.
  - split; [exact H | apply (produced_invariants true _ H)].
  - split; [exact H' | apply (produced_invariants false _ H')].
Defined.

(** C3 as stated fails. The flat-buffer form accepts a buffer of three
    values for a 2 x 2 matrix. The nested form accepts a finite number
    beyond the single-precision range, which it stores as an infinity.
    Scaling that matrix by zero stores NaN, which a transposition of the
    result keeps. [setElement] given NaN stores it, and so does
    [setSubmatrix] given a block that holds NaN; given the block [1, 2],
    whose length is not a perfect square, [setSubmatrix] stores NaN as
    well, in the second row. *)
Lemma constructed_invariants_fail :
  (exists M,
      Matrix.ofFloat32Array [1%float; 2%float; 3%float] (Some 2) (Some 2) = Ok M
      /\ ~ storageFits M)
  /\ (exists M,
         is_finite 0x1p+130%float = true
         /\ Matrix.ofArray [[Num 0x1p+130%float]] = Ok M
         /\ (exists x, mElements M !! 0%nat = Some x /\ is_finite x = false)
         /\ (exists y, mElements (Matrix.scale M 0%float) !! 0%nat = Some y
                       /\ is_nan y = true)
         /\ exists y,
             mElements (Matrix.transpose (Matrix.scale M 0%float)) !! 0%nat = Some y
             /\ is_nan y = true)
  /\ (exists M M',
         Matrix.ofArray [[Num 1%float]] = Ok M
         /\ Matrix.setElement M 0 0 nan = Ok M'
         /\ (exists y, mElements M' !! 0%nat = Some y /\ is_nan y = true)
         /\ exists y, mElements (Matrix.setSubmatrix M 0 0 [nan]) !! 0%nat = Some y
                      /\ is_nan y = true)
  /\ (exists y,
         mElements (Matrix.setSubmatrix sampleMatrix 0 0 [1%float; 2%float]) !! 2%nat
         = Some y
         /\ is_nan y = true).
Proof.
  split; [| split; [| split]].
  - eexists. split; [vm_compute; reflexivity |].
    unfold storageFits. simpl. lia.
  - eexists. split; [reflexivity |]. split; [vm_compute; reflexivity |].
    split; [| split]; eexists; (split; [vm_compute; reflexivity | reflexivity]).
  - eexists. eexists. split; [vm_compute; reflexivity |].
    split; [vm_compute; reflexivity |].
    split; eexists; (split; [vm_compute; reflexivity | reflexivity]).
  - eexists. split; [vm_compute; reflexivity | reflexivity].
Qed.

(** * What [getRow] does *)

(** A loop that pushes one value per index collects the values in order. *)
Lemma for_up_collect {A} (f : Z -> A) lo hi acc :
  lo <= hi ->
  for_up lo hi (fun i row => row ++ [f i]) acc = acc ++ map f (seqZ lo (hi - lo)).
Proof.
  intros Hle.
  apply (for_up_ind (fun i row => row = acc ++ map f (seqZ lo (i - lo)))).
  - exact Hle.
  - rewrite Z.sub_diag. simpl. rewrite app_nil_r. reflexivity.
  - intros k row Hk ->.
    replace (k + 1 - lo) with ((k - lo) + 1) by lia.
    rewrite seqZ_app by lia. rewrite map_app, <- app_assoc.
    replace (lo + (k - lo)) with k by lia. reflexivity.
Qed.

(** [getRow] raises the out-of-bounds error exactly when the row index is
    outside [0, rows), and otherwise returns the stored row. *)
Lemma getRow_spec A k :
  (k < 0 \/ rows A <= k ->
   Matrix.getRow A k = Throw (MatrixError "Row index out of bounds" 800))
  /\ (0 <= k < rows A -> 0 <= columns A ->
      Matrix.getRow A k
      = Ok (map (fun j => f32_get (mElements A) (k * columns A + j))
                (seqZ 0 (columns A)))).
Proof.
  unfold Matrix.getRow. split.
  - intros Hout.
    destruct (Z.ltb_spec k 0); [reflexivity |].
    destruct (Z.geb_spec k (rows A)); [reflexivity | lia].
  - intros Hin Hcols.
    destruct (Z.ltb_spec k 0); [lia |].
    destruct (Z.geb_spec k (rows A)); [lia |]. simpl. f_equal.
    rewrite for_up_collect by lia. simpl.
    replace (k * columns A + columns A - k * columns A) with (columns A) by lia.
    replace (seqZ (k * columns A) (columns A))
      with (Z.add (k * columns A) <$> seqZ 0 (columns A))
      by (rewrite fmap_add_seqZ, Z.add_0_r; reflexivity).
    change (map ?f ?l) with (f <$> l).
    rewrite <- list_fmap_compose. reflexivity.
Qed.

(** * What [naiveMultiply] computes up to sixteen columns *)

Lemma loop_up_ext {St} (body body' : Z -> St -> St) n :
  forall i s,
    (forall k t, i <= k < i + Z.of_nat n -> body k t = body' k t) ->
    loop_up n i body s = loop_up n i body' s.
Proof.
  induction n as [| n IH]; intros i s Hext; simpl; [reflexivity |].
  rewrite Hext by lia. apply IH. intros k t Hk. apply Hext. lia.
Qed.

Lemma for_up_ext {St} (body body' : Z -> St -> St) lo hi s :
  (forall k t, lo <= k < hi -> body k t = body' k t) ->
  for_up lo hi body s = for_up lo hi body' s.
Proof.
  intros Hext. unfold for_up. apply loop_up_ext.
  intros k t Hk. apply Hext. lia.
Qed.

(** A stepping loop whose step is the whole range runs its body once. *)
Lemma for_step_single {St} (body : Z -> St -> St) c s :
  0 < c -> for_step 0 c c body s = body 0 s.
Proof.
  intros Hc. unfold for_step.
  destruct (Z.to_nat (c - 0)) as [| n] eqn:Hn; [lia |]. simpl.
  destruct (Z.ltb_spec 0 c); [| lia].
  destruct n as [| n]; simpl; [reflexivity |].
  destruct (Z.ltb_spec (0 + c) c); [lia | reflexivity].
Qed.

(** Up to sixteen columns, [naiveMultiply] computes every entry of the
    product: the dot product of the row and the column, accumulated from
    the first term on and rounded to single precision when stored. *)
Lemma naiveMultiply_small A B P :
  wellFormed A -> wellFormed B ->
  Forall isFloat32 (mElements B) ->
  columns A <= 16 ->
  Matrix.naiveMultiply A B = Ok P ->
  rows P = rows A /\ columns P = columns B
  /\ forall i j, 0 <= i < rows A -> 0 <= j < columns B ->
       entry P i j = fround (dotProduct A B i j).
Proof.
  intros HA HB Hf32 Hsmall. unfold Matrix.naiveMultiply.
  destruct (Z.eqb_spec (columns A) (rows B)) as [Hinner |]; [| discriminate].
  cbn [negb]. cbv zeta. intros Hrun. bind_inv Hrun buf Hnew.
  apply f32_new_spec in Hnew as (_ & Hlen & _).
  pose proof (wf_rows _ HA) as HrA. pose proof (wf_columns _ HA) as HcA.
  pose proof (wf_rows _ HB) as HrB. pose proof (wf_columns _ HB) as HcB.
  pose proof (wf_storage _ HA) as HfitA. pose proof (wf_storage _ HB) as HfitB.
  unfold storageFits in HfitA, HfitB.
  replace (Z.min (columns A) 16) with (columns A) in Hrun by lia.
  match type of Hrun with
  | Matrix.ofFloat32Array ?o _ _ = _ => set (out := o) in Hrun
  end.
  destruct (grid_store_spec (rows A) (columns B)
              (fun i j => i * columns B + j)
              (fun i j => Num (dotProduct A B i j)) buf) as [Hlo Hget].
  { lia. }
  { lia. }
  { intros i j Hi Hj. nia. }
  { intros i j i' j' Hi Hj Hi' Hj' Heq.
    destruct (index_inj (columns B) j i j' i' Hj Hj' Heq) as [-> ->]. auto. }
  assert (Hout : out
                 = for_up 0 (rows A) (fun i b =>
                     for_up 0 (columns B) (fun j b =>
                       f32_set b (i * columns B + j) (Num (dotProduct A B i j))) b) buf).
  { unfold out. apply for_up_ext. intros i b Hi.
    apply for_up_ext. intros j b' Hj. f_equal. f_equal.
    rewrite for_step_single by lia.
    replace (Z.min (0 + columns A) (columns A)) with (columns A) by lia.
    unfold dotProduct. apply for_up_ext. intros u acc Hu.
    f_equal. f_equal. unfold entry.
    rewrite transpose_mElements.
    destruct (scatter_spec (rows B) (columns B) (mElements B) (mElements B))
      as [_ Hsc]; [lia | lia | exact HfitB |].
    destruct (f32_get_in_range (mElements B) (u * columns B + j)) as (x & Hx & Hgx);
      [nia |].
    rewrite (f32_get_lookup _ (j * columns A + u) (fround x)); [| nia |].
    - rewrite Hgx. simpl.
      exact (Forall_lookup_1 _ _ _ _ Hf32 Hx).
    - rewrite Hinner. rewrite (Hsc u j) by lia. rewrite Hgx. reflexivity. }
  apply ofFloat32Array_Ok in Hrun
    as (r' & c' & [= <-] & [= <-] & _ & _ & _ & ->).
  destruct (updateMatrix_initial_fields out (rows A) (columns B)) as (Hr & Hc & Hm).
  split; [exact Hr |]. split; [exact Hc |].
  intros i j Hi Hj. unfold entry. rewrite Hm, Hc, Hout.
  rewrite (f32_get_lookup _ _ (fround (dotProduct A B i j))); [reflexivity | nia |].
  apply (Hget i j Hi Hj).
Qed.

(** * NaN and zero in arithmetic *)

Lemma Prim2SF_nan_eq x : Prim2SF x = S754_nan -> x = nan.
Proof. intros H. apply Prim2SF_inj. rewrite H. reflexivity. Qed.

Lemma eqb_zero_zeroNumber x : (x =? 0)%float = true -> zeroNumber x.
Proof.
  rewrite FloatAxioms.eqb_spec. change (Prim2SF 0) with (S754_zero false).
  destruct (Prim2SF x) as [s | s | | s m e] eqn:Hx; unfold SFeqb; simpl.
  - intros _. exists s. exact Hx.
  - destruct s; discriminate.
  - discriminate.
  - destruct s; discriminate.
Qed.

Lemma add_nan_l x : (nan + x)%float = nan.
Proof. apply Prim2SF_inj. rewrite add_spec. reflexivity. Qed.

Lemma add_nan_r x : (x + nan)%float = nan.
Proof.
  apply Prim2SF_inj. rewrite add_spec. change (Prim2SF nan) with S754_nan.
  destruct (Prim2SF x); reflexivity.
Qed.

Lemma sub_nan_r x : (x - nan)%float = nan.
Proof.
  apply Prim2SF_inj. rewrite sub_spec. change (Prim2SF nan) with S754_nan.
  destruct (Prim2SF x); reflexivity.
Qed.

Lemma mul_nan_l x : (nan * x)%float = nan.
Proof. apply Prim2SF_inj. rewrite mul_spec. reflexivity. Qed.

Lemma mul_nan_r x : (x * nan)%float = nan.
Proof.
  apply Prim2SF_inj. rewrite mul_spec. change (Prim2SF nan) with S754_nan.
  destruct (Prim2SF x); reflexivity.
Qed.

Lemma div_nan_l x : (nan / x)%float = nan.
Proof. apply Prim2SF_inj. rewrite div_spec. reflexivity. Qed.

Lemma div_nan_r x : (x / nan)%float = nan.
Proof.
  apply Prim2SF_inj. rewrite div_spec. change (Prim2SF nan) with S754_nan.
  destruct (Prim2SF x); reflexivity.
Qed.

Lemma ltb_nan_l x : (nan <? x)%float = false.
Proof. rewrite ltb_spec. reflexivity. Qed.

Lemma mul_zero_zero x y : zeroNumber x -> zeroNumber y -> zeroNumber (x * y).
Proof.
  intros [s Hx] [t Hy]. exists (xorb s t).
  rewrite mul_spec, Hx, Hy. reflexivity.
Qed.

Lemma mul_zero_any x y : zeroNumber x -> zeroOrNaN (x * y).
Proof.
  intros [s Hx].
  destruct (Prim2SF y) as [t | t | | t m e] eqn:Hy.
  - left. exists (xorb s t). rewrite mul_spec, Hx, Hy. reflexivity.
  - right. apply Prim2SF_nan_eq. rewrite mul_spec, Hx, Hy. reflexivity.
  - right. apply Prim2SF_nan_eq. rewrite mul_spec, Hx, Hy. reflexivity.
  - left. exists (xorb s t). rewrite mul_spec, Hx, Hy. reflexivity.
Qed.

Lemma add_zero_zero x y : zeroNumber x -> zeroNumber y -> zeroNumber (x + y).
Proof.
  intros [s Hx] [t Hy].
  destruct s, t; eexists; rewrite add_spec, Hx, Hy; reflexivity.
Qed.

Lemma add_zeroOrNaN x y : zeroOrNaN x -> zeroOrNaN y -> zeroOrNaN (x + y).
Proof.
  intros [Hx | ->] [Hy | ->].
  - left. apply add_zero_zero; assumption.
  - right. apply add_nan_r.
  - right. apply add_nan_l.
  - right. apply add_nan_l.
Qed.

Lemma div_zeroOrNaN_zero x y : zeroOrNaN x -> zeroNumber y -> (x / y)%float = nan.
Proof.
  intros [[s Hx] | ->] [t Hy]; [| apply div_nan_l].
  apply Prim2SF_nan_eq. rewrite div_spec, Hx, Hy. reflexivity.
Qed.

Lemma sqrt_zero x : zeroNumber x -> zeroNumber (sqrt x).
Proof.
  intros [s Hx]. exists s. rewrite sqrt_spec, Hx. reflexivity.
Qed.

(** A zero times the reciprocal of a zero is NaN. *)
Lemma mul_zero_reciprocal_zero x y :
  zeroNumber x -> zeroNumber y -> (x * (1 / y))%float = nan.
Proof.
  intros [s Hx] [t Hy]. apply Prim2SF_nan_eq.
  rewrite mul_spec, div_spec, Hx, Hy. reflexivity.
Qed.

(** * Columns *)

Lemma loop_step_collect {A} (f : Z -> A) step n :
  0 < step ->
  forall fuel lo acc,
    (n <= fuel)%nat ->
    loop_step fuel lo (lo + Z.of_nat n * step) step (fun i col => col ++ [f i]) acc
    = acc ++ map (fun t => f (lo + t * step)) (seqZ 0 (Z.of_nat n)).
Proof.
  intros Hstep. induction n as [| n IH]; intros fuel lo acc Hfuel.
  - simpl. rewrite app_nil_r.
    destruct fuel as [| fuel]; simpl; [reflexivity |].
    destruct (Z.ltb_spec lo (lo + Z.of_nat 0 * step)); [lia | reflexivity].
  - destruct fuel as [| fuel]; [lia |]. simpl loop_step.
    destruct (Z.ltb_spec lo (lo + Z.of_nat (S n) * step)); [| nia].
    replace (lo + Z.of_nat (S n) * step) with ((lo + step) + Z.of_nat n * step) by lia.
    rewrite IH by lia.
    rewrite (seqZ_cons 0 (Z.of_nat (S n))) by lia.
    replace (Z.pred (Z.of_nat (S n))) with (Z.of_nat n) by lia.
    change (Z.succ 0) with (1 + 0).
    rewrite <- (fmap_add_seqZ 1 0 (Z.of_nat n)).
    simpl map. rewrite <- app_assoc. simpl. f_equal.
    replace (lo + 0 * step) with lo by lia. f_equal.
    change (map ?g ?l) with (g <$> l).
    rewrite <- list_fmap_compose. apply list_fmap_ext.
    intros i t _. simpl. f_equal. lia.
Qed.

(** [getColumn] on an index below the number of rows: the values found
    at that offset in every row. *)
Lemma getColumn_Ok A k :
  0 <= k < rows A -> 0 < columns A ->
  Matrix.getColumn A k
  = Ok (map (fun i => f32_get (mElements A) (k + i * columns A)) (seqZ 0 (rows A))).
Proof.
  intros Hk Hc. unfold Matrix.getColumn.
  destruct (Z.ltb_spec k 0); [lia |].
  destruct (Z.geb_spec k (rows A)); [lia |]. simpl. f_equal.
  unfold for_step.
  replace (rows A * columns A + k) with (k + Z.of_nat (Z.to_nat (rows A)) * columns A)
    by lia.
  rewrite (loop_step_collect _ (columns A) (Z.to_nat (rows A)) Hc) by nia.
  simpl. rewrite Z2Nat.id by lia. reflexivity.
Qed.

Lemma arr_get_Forall (P : value -> Prop) l i :
  Forall P l -> 0 <= i < Z.of_nat (length l) -> P (arr_get l i).
Proof.
  intros Hl Hi. unfold arr_get.
  destruct (Z.ltb_spec i 0); [lia |].
  destruct (lookup_lt_is_Some_2 l (Z.to_nat i)) as [v Hv]; [lia |].
  rewrite Hv. exact (Forall_lookup_1 _ _ _ _ Hl Hv).
Qed.

(** * Dot products of degenerate columns *)

Lemma zeroNumber_0 : zeroNumber 0.
Proof. exists false. reflexivity. Qed.

Lemma dot_zero_any u v : Forall zeroValue u -> zeroOrNaN (Matrix.dot u v).
Proof.
  intros Hu. unfold Matrix.dot.
  apply (for_up_ind (fun _ acc => zeroOrNaN acc)); [lia | left; apply zeroNumber_0 |].
  intros k acc Hk Hacc. apply add_zeroOrNaN; [exact Hacc |].
  destruct (arr_get_Forall _ u k Hu) as (x & -> & Hx); [lia |].
  apply mul_zero_any, Hx.
Qed.

Lemma dot_zero_zero u : Forall zeroValue u -> zeroNumber (Matrix.dot u u).
Proof.
  intros Hu. unfold Matrix.dot.
  apply (for_up_ind (fun _ acc => zeroNumber acc)); [lia | apply zeroNumber_0 |].
  intros k acc Hk Hacc. apply add_zero_zero; [exact Hacc |].
  destruct (arr_get_Forall _ u k Hu) as (x & -> & Hx); [lia |].
  apply mul_zero_zero; exact Hx.
Qed.

Lemma dot_nan u v : Forall nanValue u -> u <> [] -> Matrix.dot u v = nan.
Proof.
  intros Hu Hne. unfold Matrix.dot.
  assert (Hlen : 1 <= Z.of_nat (length u)) by (destruct u; [congruence | simpl; lia]).
  apply (for_up_ind (fun i acc => 1 <= i -> acc = nan) 0 (Z.of_nat (length u)));
    [lia | lia | | exact Hlen].
  intros k acc Hk _ _.
  pose proof (arr_get_Forall _ u k Hu) as Hnan. unfold nanValue in Hnan.
  rewrite Hnan by lia. rewrite mul_nan_l. apply add_nan_r.
Qed.

(** The projection coefficient onto a degenerate column is NaN. *)
Lemma projection_scalar_nan u v :
  degenerate u -> (Matrix.dot u v / Matrix.dot u u)%float = nan.
Proof.
  intros [Hz | Hn].
  - apply div_zeroOrNaN_zero; [apply dot_zero_any | apply dot_zero_zero]; exact Hz.
  - destruct u as [| x u]; [reflexivity |].
    rewrite (dot_nan (x :: u) v Hn) by discriminate. apply div_nan_l.
Qed.

Lemma subtract_projection_nan (u op : list value) :
  let proj := map (fun entry => Num (toNumber entry * nan)%float) u in
  let op' := imap (fun index entry =>
                     Num (toNumber entry
                          - toNumber (arr_get proj (Z.of_nat index)))%float) op in
  Forall nanValue op' /\ length op' = length op.
Proof.
  cbv zeta. split; [| apply length_imap].
  apply Forall_lookup_2. intros i v Hv.
  rewrite list_lookup_imap in Hv.
  destruct (op !! i) as [e |]; [| discriminate]. injection Hv as <-.
  unfold nanValue. simpl.
  assert (Hp : toNumber (arr_get (map (fun entry => Num (toNumber entry * nan)%float) u)
                                 (Z.of_nat i)) = nan).
  { unfold arr_get. destruct (Z.ltb_spec (Z.of_nat i) 0); [reflexivity |].
    rewrite Nat2Z.id. change (map ?g ?l) with (g <$> l).
    rewrite list_lookup_fmap.
    destruct (u !! i); simpl; [apply mul_nan_r | reflexivity]. }
  rewrite Hp. apply sub_nan_r.
Qed.

Lemma fold_add_nan l : fold_left (fun acc y => (acc + y)%float) l nan = nan.
Proof.
  induction l as [| y l IH]; simpl; [reflexivity |]. rewrite add_nan_l. exact IH.
Qed.

Lemma fold_add_zero l x :
  zeroNumber x -> Forall zeroNumber l ->
  zeroNumber (fold_left (fun acc y => (acc + y)%float) l x).
Proof.
  revert x. induction l as [| y l IH]; intros x Hx Hl; simpl; [exact Hx |].
  apply Forall_cons in Hl as [Hy Hl].
  apply IH; [apply add_zero_zero; assumption | exact Hl].
Qed.

Lemma squares_nan op :
  Forall nanValue op -> op <> [] ->
  reduce_add (map (fun x => square (toNumber x)) op) = Ok nan.
Proof.
  intros Hop Hne. destruct op as [| v op]; [congruence |].
  apply Forall_cons in Hop as [Hv _]. unfold nanValue in Hv.
  simpl. rewrite Hv. unfold square at 2. rewrite mul_nan_l.
  rewrite fold_add_nan. reflexivity.
Qed.

Lemma squares_zero op :
  Forall zeroValue op -> op <> [] ->
  exists total, reduce_add (map (fun x => square (toNumber x)) op) = Ok total
                /\ zeroNumber total.
Proof.
  intros Hop Hne. destruct op as [| v op]; [congruence |].
  apply Forall_cons in Hop as [(x & -> & Hx) Hop].
  simpl. eexists. split; [reflexivity |].
  apply fold_add_zero; [apply mul_zero_zero; exact Hx |].
  apply Forall_lookup_2. intros i y Hy.
  change (map ?g ?l) with (g <$> l) in Hy. rewrite list_lookup_fmap in Hy.
  destruct (op !! i) as [w |] eqn:Hw; [| discriminate]. injection Hy as <-.
  destruct (Forall_lookup_1 _ _ _ _ Hop Hw) as (z & -> & Hz).
  apply mul_zero_zero; exact Hz.
Qed.

(** Normalizing a degenerate column yields NaN in every position. *)
Lemma normalize_degenerate u :
  degenerate u -> u <> [] ->
  exists n, Matrix.normalize u = Ok n /\ Forall nanValue n /\ n <> [].
Proof.
  intros Hu Hne. unfold Matrix.normalize.
  assert (Hmap : forall (g : value -> value), map g u <> []).
  { intros g. destruct u; [congruence | discriminate]. }
  destruct Hu as [Hz | Hn].
  - destruct (squares_zero u Hz Hne) as (total & -> & Htotal). simpl.
    eexists. split; [reflexivity |]. split; [| apply Hmap].
    apply Forall_lookup_2. intros i v Hv.
    change (map ?g ?l) with (g <$> l) in Hv. rewrite list_lookup_fmap in Hv.
    destruct (u !! i) as [w |] eqn:Hw; [| discriminate]. injection Hv as <-.
    destruct (Forall_lookup_1 _ _ _ _ Hz Hw) as (z & -> & Hzero).
    unfold nanValue. simpl.
    apply mul_zero_reciprocal_zero; [exact Hzero | apply sqrt_zero, Htotal].
  - rewrite (squares_nan u Hn Hne). simpl.
    eexists. split; [reflexivity |]. split; [| apply Hmap].
    apply Forall_lookup_2. intros i v Hv.
    change (map ?g ?l) with (g <$> l) in Hv. rewrite list_lookup_fmap in Hv.
    destruct (u !! i) as [w |]; [| discriminate]. injection Hv as <-.
    unfold nanValue. simpl.
    change (1 / sqrt nan)%float with nan. apply mul_nan_r.
Qed.

(** * Gram-Schmidt on a matrix whose first column is zero *)

Lemma columnOf_degenerate cols j :
  Forall (fun u => degenerate u /\ u <> []) cols ->
  degenerate (Matrix.columnOf cols j).
Proof.
  intros Hcols. unfold Matrix.columnOf.
  destruct (j <? 0); [left; constructor |].
  destruct (cols !! Z.to_nat j) as [u |] eqn:Hu; simpl.
  - exact (proj1 (Forall_lookup_1 _ _ _ _ Hcols Hu)).
  - left. constructor.
Qed.

Lemma normalize_all cols :
  Forall (fun u => degenerate u /\ u <> []) cols ->
  exists ns,
    foldr (fun column rest =>
             let! n := Matrix.normalize column in
             let! ns := rest in
             Ok (n :: ns)) (Ok []) cols = Ok ns
    /\ Forall (fun n => Forall nanValue n /\ n <> []) ns
    /\ length ns = length cols.
Proof.
  induction cols as [| u cols IH]; intros Hcols.
  - exists []. repeat split. constructor.
  - apply Forall_cons in Hcols as [[Hu Hne] Hcols].
    destruct (IH Hcols) as (ns & Hns & Hall & Hlen).
    destruct (normalize_degenerate u Hu Hne) as (n & Hn & Hnan & Hnne).
    exists (n :: ns). simpl. rewrite Hn. simpl. rewrite Hns. simpl.
    repeat split; [| simpl; lia].
    constructor; [split; assumption | exact Hall].
Qed.

Lemma validEntry_nan v : nanValue v -> Matrix.validEntry v = false.
Proof.
  unfold nanValue, Matrix.validEntry, isNaN. intros ->.
  apply andb_false_r.
Qed.

(** The rows rebuilt from columns that hold NaN everywhere do not pass
    the constructor's validation. *)
Lemma transposed_invalid ns :
  ns <> [] ->
  Forall (fun n => Forall nanValue n /\ n <> []) ns ->
  Matrix.validateMatrixEntries
    (imap (fun colIndex _ => map (fun row => arr_get row (Z.of_nat colIndex)) ns)
          (Matrix.columnOf ns 0))
  = false.
Proof.
  intros Hne Hall. destruct ns as [| n0 rest]; [congruence |].
  apply Forall_cons in Hall as [[Hn0 Hn0ne] _].
  destruct n0 as [| v0 r]; [congruence |].
  apply Forall_cons in Hn0 as [Hv0 _].
  change (Matrix.columnOf ((v0 :: r) :: rest) 0) with (v0 :: r).
  simpl imap. change (arr_get (v0 :: r) (Z.of_nat 0)) with v0.
  unfold Matrix.validateMatrixEntries. simpl length. simpl Nat.eqb.
  simpl forallb. rewrite (validEntry_nan v0 Hv0).
  simpl. rewrite andb_false_r. reflexivity.
Qed.

(** The counting loop whose body may throw: it throws at the first index
    whose body throws, provided the iterations before it complete. *)
Lemma loop_upM_throw_at {St} (P : Z -> St -> Prop) (bodyM : Z -> St -> completion St) e n :
  forall m i s,
    (m < n)%nat ->
    P i s ->
    (forall k t, i <= k < i + Z.of_nat m -> P k t ->
                 exists t', bodyM k t = Ok t' /\ P (k + 1) t') ->
    (forall t, P (i + Z.of_nat m) t -> bodyM (i + Z.of_nat m) t = Throw e) ->
    loop_upM n i bodyM s = Throw e.
Proof.
  induction n as [| n IH]; intros m i s Hm Hs Hok Hthrow; [lia |].
  simpl. destruct m as [| m].
  - rewrite Z.add_0_r in Hthrow. rewrite (Hthrow s Hs). reflexivity.
  - destruct (Hok i s) as (t' & Hb & Ht'); [lia | exact Hs |].
    rewrite Hb. simpl. apply (IH m); [lia | exact Ht' | |].
    + intros k t Hk. apply Hok. lia.
    + replace (i + 1 + Z.of_nat m) with (i + Z.of_nat (S m)) by lia. exact Hthrow.
Qed.

Lemma for_upM_throw_at {St} (P : Z -> St -> Prop) (bodyM : Z -> St -> completion St)
      e lo mid hi s :
  lo <= mid < hi ->
  P lo s ->
  (forall k t, lo <= k < mid -> P k t ->
               exists t', bodyM k t = Ok t' /\ P (k + 1) t') ->
  (forall t, P mid t -> bodyM mid t = Throw e) ->
  for_upM lo hi bodyM s = Throw e.
Proof.
  intros Hmid Hs Hok Hthrow. unfold for_upM.
  apply (loop_upM_throw_at P bodyM e _ (Z.to_nat (mid - lo))); [lia | exact Hs | |].
  - intros k t Hk. apply Hok. lia.
  - replace (lo + Z.of_nat (Z.to_nat (mid - lo))) with mid by lia. exact Hthrow.
Qed.

Section ZeroFirstColumn.

Variable DELTA : number.
Variable A : Matrix.

Hypothesis Hrows : 0 < rows A.
Hypothesis Hcolumns : 0 < columns A.
Hypothesis Hfits : storageFits A.
Hypothesis Hzero : forall i, 0 <= i < rows A -> (entry A i 0 =? 0)%float = true.

Lemma getColumn_nonempty k col :
  0 <= k < rows A -> Matrix.getColumn A k = Ok col -> col <> [].
Proof.
  intros Hk. rewrite getColumn_Ok by lia. intros [= <-].
  rewrite (seqZ_cons 0 (rows A)) by lia. discriminate.
Qed.

Lemma first_column_zero col :
  Matrix.getColumn A 0 = Ok col -> Forall zeroValue col.
Proof.
  rewrite getColumn_Ok by lia. intros [= <-].
  apply Forall_lookup_2. intros n v Hv.
  change (map ?g ?l) with (g <$> l) in Hv. rewrite list_lookup_fmap in Hv.
  destruct (seqZ 0 (rows A) !! n) as [i |] eqn:Hi; [| discriminate].
  injection Hv as <-.
  apply lookup_seqZ in Hi as [-> Hn].
  unfold storageFits in Hfits.
  destruct (f32_get_in_range (mElements A) (0 + (0 + Z.of_nat n) * columns A))
    as (x & _ & Hx); [nia |].
  exists x. split; [exact Hx |].
  apply eqb_zero_zeroNumber.
  specialize (Hzero (Z.of_nat n)). unfold entry in Hzero.
  replace (Z.of_nat n * columns A + 0) with (0 + (0 + Z.of_nat n) * columns A)
    in Hzero by lia.
  rewrite Hx in Hzero. apply Hzero. lia.
Qed.

(** Taking away a projection onto a degenerate column leaves NaN in every
    position. *)
Lemma subtractProjection_degenerate cols i j op :
  0 <= i < rows A ->
  Forall (fun u => degenerate u /\ u <> []) cols ->
  exists op',
    Matrix.subtractProjection A cols i j op = Ok op'
    /\ Forall nanValue op' /\ length op' = length op.
Proof.
  intros Hi Hcols. unfold Matrix.subtractProjection.
  rewrite getColumn_Ok by lia. cbn [JS.bind]. cbv zeta.
  rewrite (projection_scalar_nan _ _ (columnOf_degenerate cols j Hcols)).
  eexists. split; [reflexivity |].
  apply subtract_projection_nan.
Qed.

(** A column after the first comes out as NaN everywhere, and the norm of
    such a column does not compare below the tolerance. *)
Lemma orthogonalizeColumn_degenerate cols i :
  1 <= i < rows A ->
  Forall (fun u => degenerate u /\ u <> []) cols ->
  exists cols',
    Matrix.orthogonalizeColumn DELTA A i cols = Ok cols'
    /\ Forall (fun u => degenerate u /\ u <> []) cols'.
Proof.
  intros Hi Hcols. unfold Matrix.orthogonalizeColumn.
  rewrite getColumn_Ok by lia. cbn [JS.bind].
  set (start := map _ (seqZ 0 (rows A))).
  assert (Hstart : start <> []).
  { unfold start. rewrite (seqZ_cons 0 (rows A)) by lia. discriminate. }
  destruct (for_upM_ind
              (fun j op => op <> [] /\ (1 <= j -> Forall nanValue op))
              0 i (Matrix.subtractProjection A cols i) start)
    as (op & Hop & Hopne & Hopnan).
  - lia.
  - split; [exact Hstart | intros; lia].
  - intros j op' Hj [Hne' _].
    destruct (subtractProjection_degenerate cols i j op') as (op'' & Hrun & Hnan & Hlen);
      [lia | exact Hcols |].
    exists op''. split; [exact Hrun |]. split; [| intros _; exact Hnan].
    intros Hnil. apply (f_equal length) in Hnil. rewrite Hlen in Hnil.
    destruct op'; [congruence | discriminate].
  - rewrite Hop. cbn [JS.bind].
    rewrite (squares_nan op (Hopnan ltac:(lia)) Hopne). cbn [JS.bind].
    change (sqrt nan) with nan. rewrite ltb_nan_l.
    eexists. split; [reflexivity |].
    apply Forall_app. split; [exact Hcols |].
    constructor; [| constructor]. split; [right; apply Hopnan; lia | exact Hopne].
Qed.

Lemma orthogonalizeColumn_out_of_range cols :
  Matrix.orthogonalizeColumn DELTA A (rows A) cols
  = Throw (MatrixError "Row index out of bounds" 800).
Proof.
  unfold Matrix.orthogonalizeColumn, Matrix.getColumn.
  destruct (Z.ltb_spec (rows A) 0); [lia |].
  destruct (Z.geb_spec (rows A) (rows A)); [reflexivity | lia].
Qed.

(** With at least as many rows as columns the call ends in the
    constructor, which rejects the NaN entries. *)
Lemma gramSmith_zero_first_column :
  columns A <= rows A ->
  Matrix.gramSmith DELTA A = Throw (MatrixError "Invalid matrix entries" 803).
Proof.
  intros Htall. unfold Matrix.gramSmith.
  destruct (Matrix.getColumn A 0) as [col0 | e] eqn:Hcol0;
    [| rewrite getColumn_Ok in Hcol0 by lia; discriminate].
  cbn [JS.bind]. cbv zeta.
  destruct (for_upM_ind
              (fun _ cols => Forall (fun u => degenerate u /\ u <> []) cols /\ cols <> [])
              1 (columns A) (Matrix.orthogonalizeColumn DELTA A) [col0])
    as (cols & Hrun & Hcols & Hne).
  - lia.
  - split; [| discriminate].
    constructor; [| constructor].
    split; [left; apply first_column_zero; exact Hcol0
           | apply (getColumn_nonempty 0); [lia | exact Hcol0]].
  - intros i cols' Hi [Hcols' Hne'].
    destruct (orthogonalizeColumn_degenerate cols' i) as (cols'' & Hstep & Hcols'');
      [lia | exact Hcols' |].
    exists cols''. split; [exact Hstep |]. split; [exact Hcols'' |].
    unfold Matrix.orthogonalizeColumn in Hstep.
    intros ->. clear Hcols''.
    revert Hstep. rewrite getColumn_Ok by lia. cbn [JS.bind].
    destruct (for_upM _ _ _ _); cbn [JS.bind]; [| discriminate].
    destruct (reduce_add _); cbn [JS.bind]; [| discriminate].
    destruct (_ <? _)%float; [discriminate |].
    intros [= Hnil]. destruct cols'; discriminate.
  - rewrite Hrun. cbn [JS.bind].
    destruct (normalize_all cols Hcols) as (ns & Hns & Hall & Hlen).
    rewrite Hns. cbn [JS.bind].
    unfold Matrix.ofArray.
    rewrite transposed_invalid; [reflexivity | | exact Hall].
    destruct ns; [destruct cols; [congruence | discriminate] | discriminate].
Qed.

(** With more columns than rows the call ends in [getColumn], which turns
    the column of index [rows] away. *)
Lemma gramSmith_zero_first_column_short :
  rows A < columns A ->
  Matrix.gramSmith DELTA A = Throw (MatrixError "Row index out of bounds" 800).
Proof.
  intros Hwide. unfold Matrix.gramSmith.
  destruct (Matrix.getColumn A 0) as [col0 | e] eqn:Hcol0;
    [| rewrite getColumn_Ok in Hcol0 by lia; discriminate].
  cbn [JS.bind]. cbv zeta.
  rewrite (for_upM_throw_at
             (fun _ cols => Forall (fun u => degenerate u /\ u <> []) cols)
             (Matrix.orthogonalizeColumn DELTA A)
             (MatrixError "Row index out of bounds" 800) 1 (rows A) (columns A) [col0]).
  - reflexivity.
  - lia.
  - constructor; [| constructor].
    split; [left; apply first_column_zero; exact Hcol0
           | apply (getColumn_nonempty 0); [lia | exact Hcol0]].
  - intros i cols' Hi Hcols'. apply orthogonalizeColumn_degenerate; [lia | exact Hcols'].
  - intros cols' _. apply orthogonalizeColumn_out_of_range.
Qed.

End ZeroFirstColumn.

(** * The defects, evaluated *)

(** C6. The claim asks that a square matrix times the identity be the
    matrix, also beyond dimension 16. On the 17 x 17 matrix counting
    1, 2, 3, ... along its rows, [naiveMultiply] by [identity(17)] puts 3
    at row 0, column 1, where the matrix holds 2: it reads the transposed
    right operand from offset [j * 16] instead of [j * columns]. *)
Theorem naiveMultiply_identity_17 :
  (let! A := Matrix.ofArray (counting 17) in
   let! Id := Matrix.identity 17 in
   let! P := Matrix.naiveMultiply A Id in
   Ok (entry A 0 1, entry P 0 1))
  = Ok (2%float, 3%float).
Proof. vm_compute. reflexivity. Qed.

(** C1. The claim asks that [naiveMultiply] and [strassenMultiply] agree
    on square matrices of a power-of-two dimension. On the 32 x 32 matrix
    counting 1, 2, 3, ... along its rows and [identity(32)], Strassen's
    product holds 2 at row 0, column 1, as the matrix does, and the naive
    product holds 18. *)
Theorem strassen_naive_disagree_32 :
  (let! A := Matrix.ofArray (counting 32) in
   let! Id := Matrix.identity 32 in
   let! viaNaive := Matrix.naiveMultiply A Id in
   let! viaStrassen := Matrix.strassenMultiply A Id in
   Ok (entry A 0 1, entry viaStrassen 0 1, entry viaNaive 0 1))
  = Ok (2%float, 2%float, 18%float).
Proof. vm_compute. reflexivity. Qed.

(** C5. The claim asks that the inverse of an invertible upper-triangular
    matrix times the matrix be the identity. [identity(17)] is upper
    triangular, [invertUpper] returns it unchanged at row 1, column 1, and
    the naive product of the two holds 0 there instead of 1. *)
Theorem invertUpper_naiveMultiply_17 :
  (let! A := Matrix.identity 17 in
   let! V := Matrix.invertUpper A in
   let! P := Matrix.naiveMultiply V A in
   Ok (Matrix.isUpperTriangular A, entry A 1 1, entry V 1 1, entry P 1 1))
  = Ok (Ok true, 1%float, 1%float, 0%float).
Proof. vm_compute. reflexivity. Qed.

(** C2. The claim asks that the accessors raise the out-of-bounds error
    exactly when the row or the column index is out of range. [getColumn]
    compares the column index with the number of rows: on a 2 x 3 matrix
    column 2 is refused, on a 3 x 2 matrix column 2 is served, with an
    undefined last element. [getElement] checks the flat index only and
    lets it equal the size: on a 2 x 2 matrix (0, 2) yields the element at
    (1, 0) and (2, 0) yields undefined. *)
Theorem accessor_bounds_fail :
  (let! A := Matrix.ofArray (ofIntegers [[1; 2; 3]; [4; 5; 6]]) in
   Matrix.getColumn A 2)
  = Throw (MatrixError "Row index out of bounds" 800)
  /\ (let! A := Matrix.ofArray (ofIntegers [[1; 2]; [3; 4]; [5; 6]]) in
      Matrix.getColumn A 2)
     = Ok [Num 3%float; Num 5%float; Undefined]
  /\ (let! A := Matrix.ofArray (ofIntegers [[1; 2]; [3; 4]]) in
      Matrix.getElement A 0 2)
     = Ok (Num 3%float)
  /\ (let! A := Matrix.ofArray (ofIntegers [[1; 2]; [3; 4]]) in
      Matrix.getElement A 2 0)
     = Ok Undefined.
Proof. repeat split; vm_compute; reflexivity. Qed.

(** C10. The claim asks that a matrix whose first column is zero fail in
    the constructor with the invalid-entries error. On the 1 x 2 matrix
    [[0, 1]], whatever the tolerance, [gramSmith] fails before that:
    [getColumn(1)] raises the out-of-bounds error, the column index being
    compared with the number of rows. *)
Theorem gramSmith_zero_column_wide (DELTA : number) :
  (let! A := Matrix.ofArray (ofIntegers [[0; 1]]) in Matrix.gramSmith DELTA A)
  = Throw (MatrixError "Row index out of bounds" 800).
Proof. vm_compute. reflexivity. Qed.

(** * Who writes where: the class over a store *)

Module HeapFacts.
Import Heap.

Section Rules.

Variable h0 : heap.

Lemma grows_refl h : grows h h.
Proof. unfold grows. lia. Qed.

Lemma grows_trans h1 h2 h3 : grows h1 h2 -> grows h2 h3 -> grows h1 h3.
Proof. unfold grows. lia. Qed.

Lemma allocated_grows this h h' : allocated h0 this h -> grows h h' -> allocated h0 this h'.
Proof. unfold allocated, grows. intros [? ?] [? ?]. split; [assumption | lia]. Qed.

Lemma allocatedBuffer_grows a h h' :
  allocatedBuffer h0 a h -> grows h h' -> allocatedBuffer h0 a h'.
Proof. unfold allocatedBuffer, grows. intros [? ?] [? ?]. split; [assumption | lia]. Qed.

Lemma separate_grows h h' :
  separate h0 h -> objects h' = objects h ->
  (length (buffers h) <= length (buffers h'))%nat -> separate h0 h'.
Proof.
  intros Hsep Hobj Hlen this o Hthis Ho. rewrite Hobj in Ho.
  destruct (Hsep this o Hthis Ho) as [Hnew Hlt]. split; [exact Hnew | lia].
Qed.

Lemma runs_ret {A} (a : A) h (Q : A -> heap -> Prop) :
  inv h0 h -> Q a h -> runs h0 (ret a) h Q.
Proof. intros Hinv HQ. split; [exact Hinv | split; [apply grows_refl | exact HQ]]. Qed.

Lemma runs_throw {A} e h (Q : A -> heap -> Prop) :
  inv h0 h -> runs h0 (throw e) h Q.
Proof. intros Hinv. split; [exact Hinv | split; [apply grows_refl | exact I]]. Qed.

Lemma runs_lift {A} (c : completion A) h (Q : A -> heap -> Prop) :
  inv h0 h -> (forall a, c = Ok a -> Q a h) -> runs h0 (lift c) h Q.
Proof.
  intros Hinv HQ. unfold runs, lift. simpl.
  split; [exact Hinv | split; [apply grows_refl |]].
  destruct c; [apply HQ; reflexivity | exact I].
Qed.

Lemma runs_bind {A B} (m : M A) (k : A -> M B) h (Q : B -> heap -> Prop) :
  runs h0 m h (fun a h1 => runs h0 (k a) h1 Q) -> runs h0 (bind m k) h Q.
Proof.
  unfold runs, bind. destruct (m h) as [[a | e] h1]; simpl.
  - intros (_ & Hg & Hinv & Hg' & HQ).
    split; [exact Hinv |]. split; [exact (grows_trans _ _ _ Hg Hg') | exact HQ].
  - intros (Hinv & Hg & _). split; [exact Hinv | split; [exact Hg | exact I]].
Qed.

Lemma runs_mono {A} (m : M A) h (Q Q' : A -> heap -> Prop) :
  runs h0 m h Q ->
  (forall a h', inv h0 h' -> grows h h' -> Q a h' -> Q' a h') ->
  runs h0 m h Q'.
Proof.
  unfold runs. intros (Hinv & Hg & HQ) Himp.
  split; [exact Hinv |]. split; [exact Hg |].
  destruct ((m h).1); [apply Himp; assumption | exact I].
Qed.

(** *** The primitives *)

Lemma runs_contents a h (Q : Float32Array -> heap -> Prop) :
  inv h0 h -> (forall buf, buffers h !! a = Some buf -> Q buf h) ->
  runs h0 (contents a) h Q.
Proof.
  intros Hinv HQ. unfold runs, contents.
  destruct (buffers h !! a) as [buf |]; simpl;
    (split; [exact Hinv | split; [apply grows_refl |]]);
    [apply HQ; reflexivity | exact I].
Qed.

Lemma runs_store buf h :
  inv h0 h -> runs h0 (store buf) h (fun a h' => allocatedBuffer h0 a h').
Proof.
  intros [[Hb Ho] Hsep]. unfold runs, store. simpl.
  split; [split; [split |] |].
  - simpl. apply prefix_app_r. exact Hb.
  - exact Ho.
  - apply (separate_grows h); [exact Hsep | reflexivity |].
    simpl. rewrite length_app. lia.
  - split; [unfold grows; simpl; rewrite length_app; lia |].
    unfold allocatedBuffer, newBuffer. simpl. rewrite length_app. simpl.
    split; [apply prefix_length; exact Hb | lia].
Qed.

Lemma runs_set a i v h :
  inv h0 h -> newBuffer h0 a -> runs h0 (set a i v) h (fun _ _ => True).
Proof.
  intros [[Hb Ho] Hsep] Ha. unfold runs, set.
  destruct (buffers h !! a) as [buf |]; simpl.
  - split; [split; [split |] |].
    + simpl. destruct Hb as [k ->].
      rewrite insert_app_r_alt by exact Ha. apply prefix_app_r. reflexivity.
    + exact Ho.
    + apply (separate_grows h); [exact Hsep | reflexivity |].
      simpl. rewrite length_insert. lia.
    + split; [unfold grows; simpl; rewrite length_insert; lia | exact I].
  - split; [split; [split |] |]; try assumption.
    split; [apply grows_refl | exact I].
Qed.

Lemma runs_field {A} (f : object -> A) this h (Q : A -> heap -> Prop) :
  inv h0 h -> (forall o, objects h !! this = Some o -> Q (f o) h) ->
  runs h0 (field f this) h Q.
Proof.
  intros Hinv HQ. unfold runs, field.
  destruct (objects h !! this) as [o |]; simpl;
    (split; [exact Hinv | split; [apply grows_refl |]]);
    [apply HQ; reflexivity | exact I].
Qed.

Lemma runs_assign this update h :
  inv h0 h -> newObject h0 this ->
  (forall o, objects h !! this = Some o ->
             allocatedBuffer h0 (mElements o) h ->
             allocatedBuffer h0 (mElements (update o)) h) ->
  runs h0 (assign this update) h (fun _ _ => True).
Proof.
  intros [[Hb Ho] Hsep] Hthis Hupdate. unfold runs, assign.
  destruct (objects h !! this) as [o |] eqn:Hlook; simpl.
  - split; [split; [split |] |].
    + exact Hb.
    + simpl. destruct Ho as [k Hk]. rewrite Hk.
      rewrite insert_app_r_alt by exact Hthis. apply prefix_app_r. reflexivity.
    + intros r o' Hr Ho'. simpl in Ho'.
      destruct (decide (r = this)) as [-> | Hne].
      * rewrite list_lookup_insert_eq in Ho' by (eapply lookup_lt_Some, Hlook).
        injection Ho' as <-. apply (Hupdate o eq_refl), (Hsep this o Hthis Hlook).
      * rewrite list_lookup_insert_ne in Ho' by congruence.
        apply (Hsep r o' Hr Ho').
    + split; [| exact I]. unfold grows. simpl. rewrite length_insert. lia.
  - split; [split; [split |] |]; try assumption.
    split; [apply grows_refl | exact I].
Qed.

Lemma runs_allocate o h :
  inv h0 h -> allocatedBuffer h0 (mElements o) h ->
  runs h0 (allocate o) h (fun this h' => allocated h0 this h').
Proof.
  intros [[Hb Ho] Hsep] Hbuf. unfold runs, allocate. simpl.
  split; [split; [split |] |].
  - exact Hb.
  - simpl. apply prefix_app_r. exact Ho.
  - intros r o' Hr Ho'. simpl in Ho'.
    apply lookup_app_Some in Ho' as [Hold | [_ Hnew]].
    + apply (Hsep r o' Hr Hold).
    + destruct (r - length (objects h))%nat; simpl in Hnew; [| discriminate].
      injection Hnew as <-. exact Hbuf.
  - split.
    + unfold grows. simpl. rewrite length_app. lia.
    + unfold allocated, newObject. simpl. rewrite length_app. simpl.
      split; [apply prefix_length; exact Ho | lia].
Qed.

Lemma allocatedBuffer_newBuffer a h : allocatedBuffer h0 a h -> newBuffer h0 a.
Proof. intros [H _]. exact H. Qed.

(** *** What is built from the primitives *)

Lemma runs_lengthOf a h (Q : Z -> heap -> Prop) :
  inv h0 h -> (forall n, Q n h) -> runs h0 (lengthOf a) h Q.
Proof.
  intros Hinv HQ. unfold lengthOf. apply runs_bind, runs_contents; [exact Hinv |].
  intros buf _. apply runs_ret; [exact Hinv | apply HQ].
Qed.

Lemma runs_get a i h (Q : value -> heap -> Prop) :
  inv h0 h -> (forall v, Q v h) -> runs h0 (get a i) h Q.
Proof.
  intros Hinv HQ. unfold get. apply runs_bind, runs_contents; [exact Hinv |].
  intros buf _. apply runs_ret; [exact Hinv | apply HQ].
Qed.

Lemma runs_readElement this i h (Q : value -> heap -> Prop) :
  inv h0 h -> (forall v, Q v h) -> runs h0 (readElement this i) h Q.
Proof.
  intros Hinv HQ. unfold readElement. apply runs_bind, runs_field; [exact Hinv |].
  intros o _. apply runs_get; assumption.
Qed.

Lemma runs_newFloat32Array n h :
  inv h0 h -> runs h0 (newFloat32Array n) h (fun a h' => allocatedBuffer h0 a h').
Proof.
  intros Hinv. unfold newFloat32Array. apply runs_bind, runs_lift; [exact Hinv |].
  intros buf _. apply runs_store, Hinv.
Qed.

Lemma runs_copyFloat32Array a h :
  inv h0 h -> runs h0 (copyFloat32Array a) h (fun a' h' => allocatedBuffer h0 a' h').
Proof.
  intros Hinv. unfold copyFloat32Array. apply runs_bind, runs_contents; [exact Hinv |].
  intros buf _. apply runs_store, Hinv.
Qed.

Lemma runs_mapFloat32Array f a h :
  inv h0 h -> runs h0 (mapFloat32Array f a) h (fun a' h' => allocatedBuffer h0 a' h').
Proof.
  intros Hinv. unfold mapFloat32Array. apply runs_bind, runs_contents; [exact Hinv |].
  intros buf _. apply runs_store, Hinv.
Qed.

(** A write through a matrix allocated since [h0] goes to a buffer
    allocated since [h0]. *)
Lemma runs_writeElement this i v h :
  inv h0 h -> newObject h0 this -> runs h0 (writeElement this i v) h (fun _ _ => True).
Proof.
  intros Hinv Hthis. unfold writeElement. apply runs_bind, runs_field; [exact Hinv |].
  intros o Ho. apply runs_set; [exact Hinv |].
  apply (proj2 Hinv this o Hthis Ho).
Qed.

(** A change of a field other than [mElements]. *)
Lemma runs_assign_field this update h :
  inv h0 h -> newObject h0 this ->
  (forall o, mElements (update o) = mElements o) ->
  runs h0 (assign this update) h (fun _ _ => True).
Proof.
  intros Hinv Hthis Hsame. apply runs_assign; [exact Hinv | exact Hthis |].
  intros o _ Hbuf. rewrite Hsame. exact Hbuf.
Qed.

Lemma runs_assign_mElements this a h :
  inv h0 h -> newObject h0 this -> allocatedBuffer h0 a h ->
  runs h0 (assign this (with_mElements a)) h (fun _ _ => True).
Proof.
  intros Hinv Hthis Ha. apply runs_assign; [exact Hinv | exact Hthis |].
  intros o _ _. exact Ha.
Qed.

(** *** Loops: the body keeps the invariant, so the loop does *)

Lemma runs_loop_up {St} n (body : Z -> St -> M St) :
  (forall i s h, inv h0 h -> runs h0 (body i s) h (fun _ _ => True)) ->
  forall i s h, inv h0 h -> runs h0 (loop_up n i body s) h (fun _ _ => True).
Proof.
  intros Hbody. induction n as [| n IH]; intros i s h Hinv; simpl.
  - apply runs_ret; [exact Hinv | exact I].
  - apply runs_bind. eapply runs_mono; [apply Hbody, Hinv |].
    intros s' h' Hinv' _ _. apply IH, Hinv'.
Qed.

Lemma runs_for_up {St} lo hi (body : Z -> St -> M St) s h :
  inv h0 h ->
  (forall i s h, inv h0 h -> runs h0 (body i s) h (fun _ _ => True)) ->
  runs h0 (for_up lo hi body s) h (fun _ _ => True).
Proof. intros Hinv Hbody. apply runs_loop_up; assumption. Qed.

Lemma runs_loop_down {St} n (body : Z -> St -> M St) :
  (forall i s h, inv h0 h -> runs h0 (body i s) h (fun _ _ => True)) ->
  forall i s h, inv h0 h -> runs h0 (loop_down n i body s) h (fun _ _ => True).
Proof.
  intros Hbody. induction n as [| n IH]; intros i s h Hinv; simpl.
  - apply runs_ret; [exact Hinv | exact I].
  - apply runs_bind. eapply runs_mono; [apply Hbody, Hinv |].
    intros s' h' Hinv' _ _. apply IH, Hinv'.
Qed.

Lemma runs_for_down {St} hi lo (body : Z -> St -> M St) s h :
  inv h0 h ->
  (forall i s h, inv h0 h -> runs h0 (body i s) h (fun _ _ => True)) ->
  runs h0 (for_down hi lo body s) h (fun _ _ => True).
Proof. intros Hinv Hbody. apply runs_loop_down; assumption. Qed.

Lemma runs_loop_step {St} fuel hi step (body : Z -> St -> M St) :
  (forall i s h, inv h0 h -> runs h0 (body i s) h (fun _ _ => True)) ->
  forall k s h, inv h0 h -> runs h0 (loop_step fuel k hi step body s) h (fun _ _ => True).
Proof.
  intros Hbody. induction fuel as [| fuel IH]; intros k s h Hinv; simpl.
  - apply runs_ret; [exact Hinv | exact I].
  - destruct (k <? hi); [| apply runs_ret; [exact Hinv | exact I]].
    apply runs_bind. eapply runs_mono; [apply Hbody, Hinv |].
    intros s' h' Hinv' _ _. apply IH, Hinv'.
Qed.

Lemma runs_for_step {St} lo hi step (body : Z -> St -> M St) s h :
  inv h0 h ->
  (forall i s h, inv h0 h -> runs h0 (body i s) h (fun _ _ => True)) ->
  runs h0 (for_step lo hi step body s) h (fun _ _ => True).
Proof. intros Hinv Hbody. apply runs_loop_step; assumption. Qed.

Lemma allocated_newObject this h : allocated h0 this h -> newObject h0 this.
Proof. intros [H _]. exact H. Qed.

End Rules.

Create HintDb heap.

(** Facts about what has been allocated follow from the lengths of the
    stores met on the way. *)
Ltac lengths :=
  cbv beta in *; cbn [fst snd];
  unfold allocated, allocatedBuffer, newObject, newBuffer, grows in *;
  cbn [mElements initial with_mElements] in *;
  repeat match goal with H : _ /\ _ |- _ => destruct H end;
  repeat split; (assumption || lia).

#[local] Hint Resolve runs_store runs_set runs_allocate runs_newFloat32Array
  runs_copyFloat32Array runs_mapFloat32Array runs_writeElement
  runs_assign_mElements : heap.
#[local] Hint Extern 1 (allocatedBuffer _ _ _) => solve [lengths] : heap.
#[local] Hint Extern 1 (allocated _ _ _) => solve [lengths] : heap.
#[local] Hint Extern 1 (newBuffer _ _) => solve [lengths] : heap.
#[local] Hint Extern 1 (newObject _ _) => solve [lengths] : heap.

(** One step of a computation: a read leaves the store as it is, a write
    or a call is replaced by what is known of it. *)
Ltac finish :=
  cbv beta in *; cbn [fst snd];
  first [ exact I | assumption | solve [lengths] ].

Ltac step :=
  lazymatch goal with
  | |- runs _ (bind _ _) _ _ => apply runs_bind
  | |- runs _ (ret _) _ _ => apply runs_ret; [assumption | cbv beta]
  | |- runs _ (throw _) _ _ => apply runs_throw; assumption
  | |- runs _ (lift _) _ _ => apply runs_lift; [assumption | intros ? _]
  | |- runs _ (field _ _) _ _ => apply runs_field; [assumption | intros ? ?]
  | |- runs _ (get _ _) _ _ => apply runs_get; [assumption | intros ?]
  | |- runs _ (lengthOf _) _ _ => apply runs_lengthOf; [assumption | intros ?]
  | |- runs _ (readElement _ _) _ _ => apply runs_readElement; [assumption | intros ?]
  | |- runs _ (for_up _ _ _ _) _ _ =>
      eapply runs_mono;
      [apply runs_for_up; [assumption | intros ? ? ? ?] | intros ? ? ? ? _]
  | |- runs _ (for_down _ _ _ _) _ _ =>
      eapply runs_mono;
      [apply runs_for_down; [assumption | intros ? ? ? ?] | intros ? ? ? ? _]
  | |- runs _ (for_step _ _ _ _ _) _ _ =>
      eapply runs_mono;
      [apply runs_for_step; [assumption | intros ? ? ? ?] | intros ? ? ? ? _]
  | |- runs _ (assign _ (with_mElements _)) _ _ =>
      eapply runs_mono;
      [apply runs_assign_mElements; eauto with heap | intros ? ? ? ? _]
  | |- runs _ (assign _ _) _ _ =>
      eapply runs_mono;
      [apply runs_assign_field; [assumption | eauto with heap | intros ?; reflexivity]
      | intros ? ? ? ? _]
  | |- runs _ (if ?b then _ else _) _ _ => destruct b
  | |- runs _ _ _ _ =>
      eapply runs_mono; [solve [eauto 4 with heap] | intros ? ? ? ? ?; cbv beta in *]
  | |- _ => finish
  end.

Ltac steps := repeat step.

Section Operations.

Variable h0 : heap.

Lemma validateFloatArray_runs entries h :
  inv h0 h -> runs h0 (validateFloatArray entries) h (fun _ _ => True).
Proof. intros Hinv. unfold validateFloatArray. steps. Qed.

Lemma updateSpecification_runs this h :
  inv h0 h -> newObject h0 this -> runs h0 (updateSpecification this) h (fun _ _ => True).
Proof. intros Hinv Hthis. unfold updateSpecification. steps. Qed.

Lemma updateShape_runs this h :
  inv h0 h -> newObject h0 this -> runs h0 (updateShape this) h (fun _ _ => True).
Proof. intros Hinv Hthis. unfold updateShape. steps. Qed.

#[local] Hint Resolve validateFloatArray_runs updateSpecification_runs updateShape_runs : heap.

Lemma updateMatrix_runs this h :
  inv h0 h -> newObject h0 this -> runs h0 (updateMatrix this) h (fun _ _ => True).
Proof. intros Hinv Hthis. unfold updateMatrix. steps. Qed.

#[local] Hint Resolve updateMatrix_runs : heap.

(** The flat form keeps the buffer it is handed: the matrix is separate
    from the store [h0] when that buffer is. *)
Lemma ofFloat32Array_runs entries r c h :
  inv h0 h -> allocatedBuffer h0 entries h ->
  runs h0 (ofFloat32Array entries r c) h (fun this h' => allocated h0 this h').
Proof.
  intros Hinv Hentries. unfold ofFloat32Array.
  destruct r as [r |]; [| steps]. destruct c as [c |]; [| steps].
  steps.
Qed.

Lemma ofArray_runs entries h :
  inv h0 h -> runs h0 (ofArray entries) h (fun this h' => allocated h0 this h').
Proof. intros Hinv. unfold ofArray. steps. Qed.

#[local] Hint Resolve ofFloat32Array_runs ofArray_runs : heap.

Lemma getElement_runs this row column h :
  inv h0 h -> runs h0 (getElement this row column) h (fun _ _ => True).
Proof. intros Hinv. unfold getElement. steps. Qed.

Lemma getRow_runs this rowIndex h :
  inv h0 h -> runs h0 (getRow this rowIndex) h (fun _ _ => True).
Proof. intros Hinv. unfold getRow. steps. Qed.

Lemma getColumn_runs this columnIndex h :
  inv h0 h -> runs h0 (getColumn this columnIndex) h (fun _ _ => True).
Proof. intros Hinv. unfold getColumn. steps. Qed.

Lemma getSubmatrix_runs this startRow startCol sz h :
  inv h0 h ->
  runs h0 (getSubmatrix this startRow startCol sz) h (fun M h' => allocated h0 M h').
Proof. intros Hinv. unfold getSubmatrix. steps. Qed.

(** [setSubmatrix] writes to its receiver: it keeps the store [h0] as it
    is when the receiver has been allocated since. *)
Lemma setSubmatrix_runs this startRow startCol submatrixElements h :
  inv h0 h -> newObject h0 this ->
  runs h0 (setSubmatrix this startRow startCol submatrixElements) h (fun _ _ => True).
Proof. intros Hinv Hthis. unfold setSubmatrix. steps. Qed.

#[local] Hint Resolve getElement_runs getRow_runs getColumn_runs getSubmatrix_runs
  setSubmatrix_runs : heap.

Lemma clone_runs A h :
  inv h0 h -> runs h0 (clone A) h (fun M h' => allocated h0 M h').
Proof. intros Hinv. unfold clone. steps. Qed.

Lemma roundMatrixToZero_runs threshold A h :
  inv h0 h -> runs h0 (roundMatrixToZero threshold A) h (fun M h' => allocated h0 M h').
Proof. intros Hinv. unfold roundMatrixToZero. steps. Qed.

#[local] Hint Resolve clone_runs roundMatrixToZero_runs : heap.

Lemma transpose_runs this h :
  inv h0 h -> runs h0 (transpose this) h (fun M h' => allocated h0 M h').
Proof. intros Hinv. unfold transpose. steps. Qed.

#[local] Hint Resolve transpose_runs : heap.

Lemma add_runs this B h :
  inv h0 h -> runs h0 (add this B) h (fun M h' => allocated h0 M h').
Proof. intros Hinv. unfold add. steps. Qed.

Lemma subtract_runs this B h :
  inv h0 h -> runs h0 (subtract this B) h (fun M h' => allocated h0 M h').
Proof. intros Hinv. unfold subtract. steps. Qed.

Lemma naiveMultiply_runs this B h :
  inv h0 h -> runs h0 (naiveMultiply this B) h (fun M h' => allocated h0 M h').
Proof. intros Hinv. unfold naiveMultiply. steps. Qed.

Lemma scale_runs this scalar h :
  inv h0 h -> runs h0 (scale this scalar) h (fun M h' => allocated h0 M h').
Proof. intros Hinv. unfold scale. steps. Qed.

#[local] Hint Resolve add_runs subtract_runs naiveMultiply_runs scale_runs : heap.

Lemma strassenRec_runs depth :
  forall this other h,
    inv h0 h -> runs h0 (strassenRec depth this other) h (fun M h' => allocated h0 M h').
Proof.
  induction depth as [| depth IH]; intros this other h Hinv;
    cbn [strassenRec]; steps.
Qed.

#[local] Hint Resolve strassenRec_runs : heap.

Lemma strassenMultiply_runs this other h :
  inv h0 h -> runs h0 (strassenMultiply this other) h (fun M h' => allocated h0 M h').
Proof. intros Hinv. unfold strassenMultiply. steps. Qed.

Lemma isUpperTriangular_runs A h :
  inv h0 h -> runs h0 (isUpperTriangular A) h (fun _ _ => True).
Proof. intros Hinv. unfold isUpperTriangular. steps. Qed.

Lemma isLowerTriangular_runs A h :
  inv h0 h -> runs h0 (isLowerTriangular A) h (fun _ _ => True).
Proof. intros Hinv. unfold isLowerTriangular. steps. Qed.

Lemma identity_runs dimension h :
  inv h0 h -> runs h0 (identity dimension) h (fun M h' => allocated h0 M h').
Proof. intros Hinv. unfold identity. steps. Qed.

#[local] Hint Resolve strassenMultiply_runs isUpperTriangular_runs isLowerTriangular_runs
  identity_runs : heap.

Lemma backSubstitution_runs this b h :
  inv h0 h -> runs h0 (backSubstitution this b) h (fun _ _ => True).
Proof. intros Hinv. unfold backSubstitution. steps. Qed.

Lemma forwardSubstitution_runs this b h :
  inv h0 h -> runs h0 (forwardSubstitution this b) h (fun _ _ => True).
Proof. intros Hinv. unfold forwardSubstitution. steps. Qed.

#[local] Hint Resolve backSubstitution_runs forwardSubstitution_runs : heap.

Lemma invertUpper_runs this h :
  inv h0 h -> runs h0 (invertUpper this) h (fun M h' => allocated h0 M h').
Proof. intros Hinv. unfold invertUpper. steps. Qed.

Lemma invertLower_runs this h :
  inv h0 h -> runs h0 (invertLower this) h (fun M h' => allocated h0 M h').
Proof. intros Hinv. unfold invertLower. steps. Qed.

Lemma subtractProjection_runs this orthogonalColumns i j orthogonalProjection h :
  inv h0 h ->
  runs h0 (subtractProjection this orthogonalColumns i j orthogonalProjection) h
       (fun _ _ => True).
Proof. intros Hinv. unfold subtractProjection. steps. Qed.

#[local] Hint Resolve subtractProjection_runs : heap.

Lemma orthogonalizeColumn_runs DELTA this i orthogonalColumns h :
  inv h0 h ->
  runs h0 (orthogonalizeColumn DELTA this i orthogonalColumns) h (fun _ _ => True).
Proof. intros Hinv. unfold orthogonalizeColumn. steps. Qed.

#[local] Hint Resolve orthogonalizeColumn_runs : heap.

Lemma gramSmith_runs DELTA this h :
  inv h0 h -> runs h0 (gramSmith DELTA this) h (fun M h' => allocated h0 M h').
Proof. intros Hinv. unfold gramSmith. steps. Qed.

#[local] Hint Resolve gramSmith_runs : heap.

Lemma QRDecomposition_runs DELTA this h :
  inv h0 h ->
  runs h0 (QRDecomposition DELTA this) h
       (fun qr h' => allocated h0 qr.1 h' /\ allocated h0 qr.2 h').
Proof. intros Hinv. unfold QRDecomposition. steps. Qed.

End Operations.

(** *** From the invariant to purity *)

Lemma inv_refl h : inv h h.
Proof.
  split; [split; reflexivity |].
  intros this o Hthis Ho. apply lookup_lt_Some in Ho.
  unfold newObject in Hthis. lia.
Qed.

Lemma inv_untouched h h' : inv h h' -> untouched h h'.
Proof.
  intros [[Hb Ho] _]. split.
  - intros a buf Ha. apply (prefix_lookup_Some _ _ _ _ Ha Hb).
  - intros this o Hthis. apply (prefix_lookup_Some _ _ _ _ Hthis Ho).
Qed.

Lemma allocated_freshMatrix h h' this :
  inv h h' -> allocated h this h' -> freshMatrix h h' this.
Proof.
  intros [_ Hsep] [Hnew Hlt]. split; [apply lookup_ge_None_2; exact Hnew |].
  destruct (lookup_lt_is_Some_2 _ _ Hlt) as [o Ho].
  destruct (Hsep this o Hnew Ho) as [Hbuf Hbuflt].
  destruct (lookup_lt_is_Some_2 _ _ Hbuflt) as [buf Hb].
  exists o, buf. split; [exact Ho |]. split; [exact Hb |].
  apply lookup_ge_None_2. exact Hbuf.
Qed.

Lemma runs_pure {A} (matrices : A -> list address) (m : M A) :
  (forall h, runs h m h (fun a h' => Forall (fun this => allocated h this h') (matrices a))) ->
  pure matrices m.
Proof.
  intros Hruns h. destruct (Hruns h) as (Hinv & _ & HQ).
  split; [apply inv_untouched, Hinv |].
  intros a Ha. rewrite Ha in HQ.
  eapply Forall_impl; [exact HQ |].
  intros this Hthis. apply allocated_freshMatrix; assumption.
Qed.

(** An operation that returns one matrix, and one that returns none. *)
Lemma pure_matrix (m : M address) :
  (forall h0 h, inv h0 h -> runs h0 m h (fun this h' => allocated h0 this h')) ->
  pure (fun this => [this]) m.
Proof.
  intros Hruns. apply runs_pure. intros h.
  eapply runs_mono; [apply Hruns, inv_refl |].
  intros this h' _ _ Hthis. constructor; [exact Hthis | constructor].
Qed.

Lemma pure_value {A} (m : M A) :
  (forall h0 h, inv h0 h -> runs h0 m h (fun _ _ => True)) ->
  pure (fun _ => []) m.
Proof.
  intros Hruns. apply runs_pure. intros h.
  eapply runs_mono; [apply Hruns, inv_refl |].
  intros a h' _ _ _. constructor.
Qed.

(** *** A write in place *)

Section Preserved.

Variable P : heap -> Prop.

Lemma preserves_ret {A} (a : A) : preserves P (ret a).
Proof. intros h Hh. exact Hh. Qed.

Lemma preserves_throw {A} e : preserves P (@throw A e).
Proof. intros h Hh. exact Hh. Qed.

Lemma preserves_bind {A B} (m : M A) (k : A -> M B) :
  preserves P m -> (forall a, preserves P (k a)) -> preserves P (bind m k).
Proof.
  intros Hm Hk h Hh. unfold bind. specialize (Hm h Hh).
  destruct (m h) as [[a | e] h1]; simpl in *; [apply Hk, Hm | exact Hm].
Qed.

Lemma preserves_contents a : preserves P (contents a).
Proof. intros h Hh. unfold contents. destruct (buffers h !! a); exact Hh. Qed.

Lemma preserves_field {A} (f : object -> A) this : preserves P (field f this).
Proof. intros h Hh. unfold field. destruct (objects h !! this); exact Hh. Qed.

Lemma preserves_lengthOf a : preserves P (lengthOf a).
Proof.
  apply preserves_bind; [apply preserves_contents | intros; apply preserves_ret].
Qed.

Lemma preserves_get a i : preserves P (get a i).
Proof.
  apply preserves_bind; [apply preserves_contents | intros; apply preserves_ret].
Qed.

Lemma preserves_loop_up {St} n (body : Z -> St -> M St) :
  (forall i s, preserves P (body i s)) ->
  forall i s, preserves P (loop_up n i body s).
Proof.
  intros Hbody. induction n as [| n IH]; intros i s; simpl.
  - apply preserves_ret.
  - apply preserves_bind; [apply Hbody | intros s'; apply IH].
Qed.

Lemma preserves_for_up {St} lo hi (body : Z -> St -> M St) s :
  (forall i s, preserves P (body i s)) -> preserves P (for_up lo hi body s).
Proof. intros Hbody. apply preserves_loop_up, Hbody. Qed.

End Preserved.

Lemma writtenInPlace_refl this h : writtenInPlace this h h.
Proof. repeat split. Qed.

Lemma preserves_writeElement this h0 i v :
  preserves (writtenInPlace this h0) (writeElement this i v).
Proof.
  intros h (Hobj & Hlen & Hbuf). unfold writeElement, bind, field, set.
  destruct (objects h !! this) as [o |] eqn:Ho; simpl; [| repeat split; assumption].
  destruct (buffers h !! mElements o) as [buf |] eqn:Hb; simpl;
    [| repeat split; assumption].
  split; [exact Hobj |]. split; [simpl; rewrite length_insert; exact Hlen |].
  intros a Ha. simpl. rewrite Hobj in Ho.
  rewrite list_lookup_insert_ne by (intros Heq; apply (Ha o Ho); symmetry; exact Heq).
  apply Hbuf, Ha.
Qed.

Lemma setSubmatrix_writtenInPlace this startRow startCol submatrixElements h :
  writtenInPlace this h (setSubmatrix this startRow startCol submatrixElements h).2.
Proof.
  cut (preserves (writtenInPlace this h)
                 (setSubmatrix this startRow startCol submatrixElements)).
  { intros Hkeeps. apply Hkeeps, writtenInPlace_refl. }
  unfold setSubmatrix.
  apply preserves_bind; [apply preserves_lengthOf |]. intros len.
  apply preserves_for_up. intros i _. apply preserves_for_up. intros j _.
  apply preserves_bind; [apply preserves_field |]. intros c.
  apply preserves_bind.
  - destruct (_ || _); [apply preserves_get | apply preserves_ret].
  - intros v. apply preserves_writeElement.
Qed.

End HeapFacts.

(** On the store that holds [[1, 2], [3, 4]], the methods over the store
    return the matrices that the methods over values return. *)
Lemma store_agrees_on_sample :
  load sampleStore 0%nat = Some sampleMatrix
  /\ returned (Heap.add 0%nat 0%nat) sampleStore
     = (let! M := Matrix.add sampleMatrix sampleMatrix in Ok (Some M))
  /\ returned (Heap.subtract 0%nat 0%nat) sampleStore
     = (let! M := Matrix.subtract sampleMatrix sampleMatrix in Ok (Some M))
  /\ returned (Heap.scale 0%nat 3%float) sampleStore
     = Ok (Some (Matrix.scale sampleMatrix 3%float))
  /\ returned (Heap.naiveMultiply 0%nat 0%nat) sampleStore
     = (let! M := Matrix.naiveMultiply sampleMatrix sampleMatrix in Ok (Some M))
  /\ returned (Heap.strassenMultiply 0%nat 0%nat) sampleStore
     = (let! M := Matrix.strassenMultiply sampleMatrix sampleMatrix in Ok (Some M))
  /\ returned (Heap.transpose 0%nat) sampleStore
     = Ok (Some (Matrix.transpose sampleMatrix))
  /\ returned (Heap.gramSmith 0x1p-20%float 0%nat) sampleStore
     = (let! M := Matrix.gramSmith 0x1p-20%float sampleMatrix in Ok (Some M))
  /\ returned (Heap.bind (Heap.ofArray (ofIntegers [[1; 2]; [0; 4]])) Heap.invertUpper)
              sampleStore
     = (let! A := Matrix.ofArray (ofIntegers [[1; 2]; [0; 4]]) in
        let! M := Matrix.invertUpper A in Ok (Some M))
  /\ returned (Heap.bind (Heap.ofArray (ofIntegers [[1; 0]; [3; 4]])) Heap.invertLower)
              sampleStore
     = (let! A := Matrix.ofArray (ofIntegers [[1; 0]; [3; 4]]) in
        let! M := Matrix.invertLower A in Ok (Some M)).
Proof. repeat split; vm_compute; reflexivity. Qed.


(** * Further properties of the class, method by method *)

(** * Buffers in row-major order *)

Lemma tabulate_length r c f :
  0 <= r -> 0 <= c -> Z.of_nat (length (tabulate r c f)) = r * c.
Proof.
  intros Hr Hc. unfold tabulate. rewrite length_map, length_seqZ. nia.
Qed.

Lemma tabulate_lookup r c f i j :
  0 <= i < r -> 0 <= j < c ->
  tabulate r c f !! Z.to_nat (i * c + j) = Some (f i j).
Proof.
  intros Hi Hj. unfold tabulate.
  change (map ?g ?l) with (g <$> l). rewrite list_lookup_fmap.
  rewrite (lookup_seqZ_lt 0 (r * c) (Z.to_nat (i * c + j))) by nia.
  simpl. f_equal.
  replace (0 + Z.of_nat (Z.to_nat (i * c + j))) with (i * c + j) by nia.
  assert (Hd : (i * c + j) / c = i) by (symmetry; apply (Z.div_unique _ c i j); lia).
  assert (Hm : (i * c + j) mod c = j) by (symmetry; apply (Z.mod_unique _ c i j); lia).
  rewrite Hd, Hm. reflexivity.
Qed.

Lemma tabulate_unique r c f (buf : list float) :
  0 <= r -> 0 < c ->
  Z.of_nat (length buf) = r * c ->
  (forall i j, 0 <= i < r -> 0 <= j < c -> buf !! Z.to_nat (i * c + j) = Some (f i j)) ->
  buf = tabulate r c f.
Proof.
  intros Hr Hc Hlen Hbuf. apply list_eq. intros n.
  destruct (decide (Z.of_nat n < r * c)) as [Hn | Hn].
  - pose proof (Z.div_mod (Z.of_nat n) c ltac:(lia)) as Hdm.
    pose proof (Z.mod_pos_bound (Z.of_nat n) c Hc) as Hmod.
    assert (Hdiv : 0 <= Z.of_nat n / c < r).
    { split; [apply Z.div_pos; lia |]. apply Z.div_lt_upper_bound; lia. }
    replace n with (Z.to_nat ((Z.of_nat n / c) * c + Z.of_nat n mod c)) by lia.
    rewrite Hbuf, tabulate_lookup by lia. reflexivity.
  - rewrite (lookup_ge_None_2 buf) by lia.
    rewrite lookup_ge_None_2; [reflexivity |].
    pose proof (tabulate_length r c f Hr ltac:(lia)). lia.
Qed.

Lemma entry_tabulate r c f A i j :
  mElements A = tabulate r c f -> columns A = c ->
  0 <= i < r -> 0 <= j < c ->
  entry A i j = f i j.
Proof.
  intros Hbuf Hc Hi Hj. unfold entry. rewrite Hbuf, Hc.
  rewrite (f32_get_lookup _ _ (f i j)); [reflexivity | nia |].
  apply tabulate_lookup; assumption.
Qed.

Lemma entry_lookup A i j :
  storageFits A -> 0 <= i < rows A -> 0 <= j < columns A ->
  mElements A !! Z.to_nat (i * columns A + j) = Some (entry A i j).
Proof.
  intros Hfits Hi Hj. unfold entry.
  destruct (f32_get_in_range (mElements A) (i * columns A + j)) as (x & Hx & Hget).
  { unfold storageFits in Hfits. nia. }
  rewrite Hget. exact Hx.
Qed.

(** The buffer of a matrix whose storage fits is the table of its entries. *)
Lemma mElements_tabulate A :
  storageFits A -> 0 <= rows A -> 0 < columns A ->
  mElements A = tabulate (rows A) (columns A) (entry A).
Proof.
  intros Hfits Hr Hc. apply tabulate_unique; [exact Hr | exact Hc | exact Hfits |].
  intros i j Hi Hj. apply entry_lookup; assumption.
Qed.

(** * The constructor on nested arrays *)

Lemma matrixOf_wellFormed buf r c :
  0 < r -> 0 < c -> Z.of_nat (length buf) = r * c -> noNaN buf ->
  wellFormed (matrixOf buf r c).
Proof. apply updateMatrix_initial. Qed.

Lemma matrixOf_fields buf r c :
  rows (matrixOf buf r c) = r /\ columns (matrixOf buf r c) = c
  /\ mElements (matrixOf buf r c) = buf.
Proof. apply updateMatrix_initial_fields. Qed.

(** A well-formed matrix is determined by its dimensions and its buffer. *)
Lemma wellFormed_matrixOf A :
  wellFormed A -> A = matrixOf (mElements A) (rows A) (columns A).
Proof.
  intros [Hr Hc Hsize Hfits Hnan (Hsq & Htall & Hwide) Hshape].
  destruct A as [sh sq tall wide r c sz buf]. simpl in *. subst.
  unfold matrixOf, Matrix.updateMatrix, Matrix.updateSpecification, Matrix.initial.
  simpl. rewrite !Z.gtb_ltb.
  destruct (Z.ltb_spec c r); [| destruct (Z.ltb_spec r c)]; simpl;
    unfold Matrix.updateShape; simpl; f_equal; solve_cmp.
Qed.

Lemma acceptable_validate entries :
  acceptable entries <-> Matrix.validateMatrixEntries entries = true.
Proof.
  unfold acceptable, rectangular, Matrix.validateMatrixEntries. split.
  - intros (r & c & Hr & Hc & [Hlen Hrect] & Hnum).
    destruct entries as [| first rest]; [simpl in Hlen; lia |].
    pose proof (Forall_inv Hrect) as Hfirst. simpl in Hfirst.
    destruct (Nat.eqb_spec (length first) 0) as [| _]; [lia |].
    apply forallb_forall. intros row Hrow.
    apply list_elem_of_In in Hrow.
    rewrite Forall_forall in Hrect, Hnum.
    apply andb_true_iff. split.
    + apply Nat.eqb_eq. specialize (Hrect row Hrow). simpl in Hrect. lia.
    + apply forallb_forall. intros v Hv. apply list_elem_of_In in Hv.
      specialize (Hnum row Hrow). rewrite Forall_forall in Hnum.
      destruct (Hnum v Hv) as (x & -> & Hx).
      unfold Matrix.validEntry, isNaN. simpl. rewrite Hx. reflexivity.
  - destruct entries as [| first rest]; [discriminate |].
    destruct (Nat.eqb_spec (length first) 0) as [| Hfirst]; [discriminate |].
    intros Hall. rewrite forallb_forall in Hall.
    exists (Z.of_nat (length (first :: rest))), (Z.of_nat (length first)).
    split; [simpl; lia |]. split; [lia |]. split; [split; [reflexivity |] |].
    + apply Forall_forall. intros row Hrow. apply list_elem_of_In in Hrow.
      specialize (Hall row Hrow). apply andb_true_iff in Hall as [Hlen _].
      apply Nat.eqb_eq in Hlen. lia.
    + apply Forall_forall. intros row Hrow. apply list_elem_of_In in Hrow.
      specialize (Hall row Hrow). apply andb_true_iff in Hall as [_ Hvalid].
      rewrite forallb_forall in Hvalid.
      apply Forall_forall. intros v Hv. apply list_elem_of_In in Hv.
      specialize (Hvalid v Hv). unfold Matrix.validEntry, isNaN in Hvalid.
      apply andb_true_iff in Hvalid as [Hnum Hnan].
      destruct v as [| x]; [discriminate |].
      exists x. split; [reflexivity |]. apply negb_true_iff in Hnan. exact Hnan.
Qed.

Lemma rectangular_rowOf entries r c i :
  rectangular entries r c -> 0 <= i < r ->
  Z.of_nat (length (Matrix.rowOf entries i)) = c.
Proof.
  intros [Hlen Hrect] Hi. unfold Matrix.rowOf.
  destruct (Z.ltb_spec i 0); [lia |].
  destruct (lookup_lt_is_Some_2 entries (Z.to_nat i)) as [row Hrow]; [lia |].
  rewrite Hrow. simpl.
  exact (Forall_lookup_1 _ _ _ _ Hrect Hrow).
Qed.

(** The constructor's double loop stores [entries[i][j]], rounded, at
    [i * numCols + j]. *)
Lemma ofArray_stores entries r c :
  0 < r -> 0 < c -> rectangular entries r c ->
  Forall (Forall properNumber) entries ->
  Matrix.ofArray entries
  = Ok (matrixOf (tabulate r c (fun i j => fround (toNumber (cell entries i j)))) r c).
Proof.
  intros Hr Hc Hrect Hnum.
  assert (Hvalid : Matrix.validateMatrixEntries entries = true).
  { apply acceptable_validate. exists r, c. auto. }
  unfold Matrix.ofArray. rewrite Hvalid. cbn [negb]. cbv zeta.
  rewrite (rectangular_rowOf entries r c 0 Hrect) by lia.
  destruct Hrect as [Hlen Hrect]. rewrite Hlen.
  unfold f32_new. destruct (Z.ltb_spec (r * c) 0); [nia |].
  cbn [JS.bind].
  destruct (grid_store_spec r c (fun i j => i * c + j) (cell entries)
              (replicate (Z.to_nat (r * c)) 0%float)) as [Hlo Hget].
  - lia.
  - lia.
  - intros i j Hi Hj. rewrite length_replicate. nia.
  - intros i j i' j' Hi Hj Hi' Hj' Heq.
    destruct (index_inj c j i j' i') as [-> ->]; [lia | lia | lia |]. split; reflexivity.
  - unfold matrixOf. do 3 f_equal.
    apply tabulate_unique; [lia | lia | |].
    + unfold cell in Hlo. rewrite Hlo, length_replicate. nia.
    + intros i j Hi Hj. apply (Hget i j Hi Hj).
Qed.

Lemma tabulate_ext r c f f' :
  0 <= r -> 0 < c ->
  (forall i j, 0 <= i < r -> 0 <= j < c -> f i j = f' i j) ->
  tabulate r c f = tabulate r c f'.
Proof.
  intros Hr Hc Hext. apply tabulate_unique; [exact Hr | exact Hc | |].
  - apply tabulate_length; lia.
  - intros i j Hi Hj. rewrite tabulate_lookup by assumption. f_equal. apply Hext; assumption.
Qed.

Lemma tabulate_noNaN r c f :
  0 <= r -> 0 < c ->
  (forall i j, 0 <= i < r -> 0 <= j < c -> is_nan (f i j) = false) ->
  noNaN (tabulate r c f).
Proof.
  intros Hr Hc Hf. unfold noNaN, tabulate. apply Forall_forall. intros x Hx.
  change (map ?g ?l) with (g <$> l) in Hx.
  apply list_elem_of_fmap in Hx as (k & -> & Hk).
  apply elem_of_seqZ in Hk.
  apply Hf.
  - split; [apply Z.div_pos; lia | apply Z.div_lt_upper_bound; lia].
  - apply Z.mod_pos_bound. exact Hc.
Qed.

(** * Nested arrays given by a formula *)

(** The nested array of [r] rows and [c] columns whose element [(i, j)]
    is [g i j]. *)
Lemma cell_table (g : Z -> Z -> value) r c i j :
  0 <= i < r -> 0 <= j < c ->
  cell (map (fun i => map (g i) (seqZ 0 c)) (seqZ 0 r)) i j = g i j.
Proof.
  intros Hi Hj. unfold cell, Matrix.rowOf, arr_get.
  destruct (Z.ltb_spec i 0); [lia |]. destruct (Z.ltb_spec j 0); [lia |].
  change (map ?h ?l) with (h <$> l). rewrite list_lookup_fmap.
  rewrite (lookup_seqZ_lt 0 r (Z.to_nat i)) by lia. simpl.
  rewrite list_lookup_fmap.
  rewrite (lookup_seqZ_lt 0 c (Z.to_nat j)) by lia. simpl.
  f_equal; lia.
Qed.

Lemma table_rectangular (g : Z -> Z -> value) r c :
  0 <= r -> 0 <= c ->
  rectangular (map (fun i => map (g i) (seqZ 0 c)) (seqZ 0 r)) r c.
Proof.
  intros Hr Hc. split.
  - rewrite length_map, length_seqZ. lia.
  - apply Forall_forall. intros row Hrow.
    change (map ?h ?l) with (h <$> l) in Hrow.
    apply list_elem_of_fmap in Hrow as (i & -> & _).
    rewrite length_map, length_seqZ. lia.
Qed.

Lemma table_proper (g : Z -> Z -> value) r c :
  (forall i j, 0 <= i < r -> 0 <= j < c -> properNumber (g i j)) ->
  Forall (Forall properNumber) (map (fun i => map (g i) (seqZ 0 c)) (seqZ 0 r)).
Proof.
  intros Hg. apply Forall_forall. intros row Hrow.
  change (map ?h ?l) with (h <$> l) in Hrow.
  apply list_elem_of_fmap in Hrow as (i & -> & Hi). apply elem_of_seqZ in Hi.
  apply Forall_forall. intros v Hv.
  change (map ?h ?l) with (h <$> l) in Hv.
  apply list_elem_of_fmap in Hv as (j & -> & Hj). apply elem_of_seqZ in Hj.
  apply Hg; lia.
Qed.

Lemma ofArray_table (g : Z -> Z -> value) r c :
  0 < r -> 0 < c ->
  (forall i j, 0 <= i < r -> 0 <= j < c -> properNumber (g i j)) ->
  Matrix.ofArray (map (fun i => map (g i) (seqZ 0 c)) (seqZ 0 r))
  = Ok (matrixOf (tabulate r c (fun i j => fround (toNumber (g i j)))) r c).
Proof.
  intros Hr Hc Hg.
  rewrite (ofArray_stores _ r c Hr Hc);
    [| apply table_rectangular; lia | apply table_proper; exact Hg].
  do 2 f_equal. apply tabulate_ext; [lia | lia |].
  intros i j Hi Hj. rewrite cell_table by assumption. reflexivity.
Qed.

Lemma replicate_table {A} (v : A) r c :
  0 <= r -> 0 <= c ->
  replicate (Z.to_nat r) (replicate (Z.to_nat c) v)
  = map (fun _ => map (fun _ => v) (seqZ 0 c)) (seqZ 0 r).
Proof.
  intros Hr Hc.
  assert (Hrep : forall {B} (w : B) n, 0 <= n ->
             replicate (Z.to_nat n) w = map (fun _ => w) (seqZ 0 n)).
  { intros B w n Hn. apply list_eq. intros k.
    change (map ?h ?l) with (h <$> l). rewrite list_lookup_fmap.
    destruct (decide (Z.of_nat k < n)) as [Hk | Hk].
    - rewrite (lookup_seqZ_lt 0 n k) by lia. simpl.
      apply lookup_replicate_2. lia.
    - rewrite (lookup_seqZ_ge 0 n k) by lia. simpl.
      apply lookup_ge_None_2. rewrite length_replicate. lia. }
  rewrite (Hrep _ v c Hc). apply Hrep. exact Hr.
Qed.

(** * The factories *)

Lemma identity_entries n :
  0 <= n ->
  for_up 0 n (fun i entries =>
    let row :=
      for_up 0 n (fun j row =>
        if i =? j then row ++ [Num 1%float] else row ++ [Num 0%float]) [] in
    entries ++ [row]) []
  = map (fun i => map (fun j => if i =? j then Num 1%float else Num 0%float) (seqZ 0 n))
        (seqZ 0 n).
Proof.
  intros Hn. cbv zeta.
  rewrite (for_up_ext _ (fun i entries =>
             entries ++ [map (fun j => if i =? j then Num 1%float else Num 0%float)
                             (seqZ 0 n)])).
  - rewrite for_up_collect by lia. rewrite Z.sub_0_r. reflexivity.
  - intros i entries Hi. f_equal. f_equal.
    rewrite (for_up_ext _ (fun j row =>
               row ++ [if i =? j then Num 1%float else Num 0%float])).
    + rewrite for_up_collect by lia. rewrite Z.sub_0_r. reflexivity.
    + intros j row Hj. destruct (i =? j); reflexivity.
Qed.

Lemma identity_matrixOf n :
  0 < n ->
  Matrix.identity n
  = Ok (matrixOf (tabulate n n (fun i j => if i =? j then 1%float else 0%float)) n n).
Proof.
  intros Hn. unfold Matrix.identity.
  destruct (Z.leb_spec n 0); [lia |].
  pose proof (identity_entries n ltac:(lia)) as Hentries. cbv zeta in Hentries.
  rewrite Hentries.
  rewrite (ofArray_table (fun i j => if i =? j then Num 1%float else Num 0%float) n n Hn Hn).
  - do 2 f_equal. apply tabulate_ext; [lia | lia |].
    intros i j _ _. destruct (i =? j); vm_compute; reflexivity.
  - intros i j _ _. destruct (i =? j); eexists; split; reflexivity.
Qed.

Lemma constant_matrixOf (x : float) r c :
  0 < r -> 0 < c -> is_nan x = false ->
  Matrix.ofArray (replicate (Z.to_nat r) (replicate (Z.to_nat c) (Num x)))
  = Ok (matrixOf (tabulate r c (fun _ _ => fround x)) r c).
Proof.
  intros Hr Hc Hx. rewrite replicate_table by lia.
  apply (ofArray_table (fun _ _ => Num x) r c Hr Hc).
  intros i j _ _. exists x. split; [reflexivity | exact Hx].
Qed.

Lemma ones_matrixOf r c :
  0 < r -> 0 < c ->
  Matrix.ones r c = Ok (matrixOf (tabulate r c (fun _ _ => 1%float)) r c).
Proof.
  intros Hr Hc. unfold Matrix.ones.
  destruct (Z.leb_spec r 0); [lia |]. destruct (Z.leb_spec c 0); [lia |]. simpl orb. cbv iota.
  rewrite constant_matrixOf by (assumption || reflexivity). reflexivity.
Qed.

Lemma zeros_matrixOf r c :
  0 < r -> 0 < c ->
  Matrix.zeros r c = Ok (matrixOf (tabulate r c (fun _ _ => 0%float)) r c).
Proof.
  intros Hr Hc. unfold Matrix.zeros.
  destruct (Z.leb_spec r 0); [lia |]. destruct (Z.leb_spec c 0); [lia |]. simpl orb. cbv iota.
  rewrite constant_matrixOf by (assumption || reflexivity). reflexivity.
Qed.

(** * Reading a matrix back *)

Lemma getElement_entry A i j :
  size A = rows A * columns A -> storageFits A ->
  0 <= i < rows A -> 0 <= j < columns A ->
  Matrix.getElement A i j = Ok (Num (entry A i j)).
Proof.
  intros Hsize Hfits Hi Hj. unfold Matrix.getElement, entry.
  assert (Hidx : 0 <= i * columns A + j < rows A * columns A) by nia.
  destruct (Z.gtb_spec (i * columns A + j) (size A)); [lia |].
  destruct (Z.ltb_spec (i * columns A + j) 0); [lia |]. simpl.
  unfold storageFits in Hfits.
  destruct (f32_get_in_range (mElements A) (i * columns A + j)) as (x & _ & ->); [lia |].
  reflexivity.
Qed.

Lemma for_upM_collect {B} (f : Z -> completion B) (g : Z -> B) lo hi acc :
  lo <= hi ->
  (forall k, lo <= k < hi -> f k = Ok (g k)) ->
  for_upM lo hi (fun i acc => let! x := f i in Ok (acc ++ [x])) acc
  = Ok (acc ++ map g (seqZ lo (hi - lo))).
Proof.
  intros Hle Hf.
  destruct (for_upM_ind (fun i l => l = acc ++ map g (seqZ lo (i - lo)))
              lo hi (fun i acc => let! x := f i in Ok (acc ++ [x])) acc Hle)
    as (l & Hrun & ->).
  - rewrite Z.sub_diag. simpl. rewrite app_nil_r. reflexivity.
  - intros k l Hk ->. rewrite (Hf k Hk). cbn [JS.bind].
    eexists. split; [reflexivity |].
    replace (k + 1 - lo) with ((k - lo) + 1) by lia.
    rewrite seqZ_app by lia. rewrite map_app, <- app_assoc.
    replace (lo + (k - lo)) with k by lia. reflexivity.
  - exact Hrun.
Qed.

Lemma toArray_table A :
  wellFormed A ->
  Matrix.toArray A
  = Ok (map (fun i => map (fun j => Num (entry A i j)) (seqZ 0 (columns A)))
            (seqZ 0 (rows A))).
Proof.
  intros [Hr Hc Hsize Hfits _ _ _]. unfold Matrix.toArray.
  rewrite (for_upM_collect _
             (fun i => map (fun j => Num (entry A i j)) (seqZ 0 (columns A)))).
  - rewrite Z.sub_0_r. reflexivity.
  - lia.
  - intros i Hi.
    rewrite (for_upM_collect _ (fun j => Num (entry A i j))).
    + rewrite Z.sub_0_r. reflexivity.
    + lia.
    + intros j Hj. apply getElement_entry; assumption.
Qed.

Lemma entry_not_nan A i j :
  storageFits A -> noNaN (mElements A) ->
  0 <= i < rows A -> 0 <= j < columns A ->
  is_nan (entry A i j) = false.
Proof.
  intros Hfits Hnan Hi Hj.
  pose proof (entry_lookup A i j Hfits Hi Hj) as Hx.
  exact (Forall_lookup_1 _ _ _ _ Hnan Hx).
Qed.

Lemma entry_isFloat32 A i j :
  storageFits A -> Forall isFloat32 (mElements A) ->
  0 <= i < rows A -> 0 <= j < columns A ->
  fround (entry A i j) = entry A i j.
Proof.
  intros Hfits Hf32 Hi Hj.
  pose proof (entry_lookup A i j Hfits Hi Hj) as Hx.
  exact (Forall_lookup_1 _ _ _ _ Hf32 Hx).
Qed.

(** A rectangular nested array is the table of its cells. *)
Lemma rectangular_table entries r c :
  rectangular entries r c ->
  entries = map (fun i => map (fun j => cell entries i j) (seqZ 0 c)) (seqZ 0 r).
Proof.
  intros [Hlen Hrect]. apply list_eq. intros n.
  change (map ?h ?l) with (h <$> l). rewrite list_lookup_fmap.
  destruct (decide (Z.of_nat n < r)) as [Hn | Hn].
  - rewrite (lookup_seqZ_lt 0 r n) by lia.
    rewrite Z.add_0_l. cbn [fmap option_fmap option_map].
    destruct (lookup_lt_is_Some_2 entries n) as [row Hrow]; [lia |].
    rewrite Hrow. f_equal.
    pose proof (Forall_lookup_1 _ _ _ _ Hrect Hrow) as Hrowlen. simpl in Hrowlen.
    apply list_eq. intros m. rewrite list_lookup_fmap.
    destruct (decide (Z.of_nat m < c)) as [Hm | Hm].
    + rewrite (lookup_seqZ_lt 0 c m) by lia.
      rewrite !Z.add_0_l. cbn [fmap option_fmap option_map].
      unfold cell, Matrix.rowOf, arr_get.
      destruct (Z.ltb_spec (Z.of_nat n) 0); [lia |].
      destruct (Z.ltb_spec (Z.of_nat m) 0); [lia |].
      rewrite !Nat2Z.id, Hrow. simpl.
      destruct (lookup_lt_is_Some_2 row m) as [v Hv]; [lia |].
      rewrite Hv. reflexivity.
    + rewrite (lookup_seqZ_ge 0 c m) by lia. simpl.
      apply lookup_ge_None_2. lia.
  - rewrite (lookup_seqZ_ge 0 r n) by lia. simpl.
    apply lookup_ge_None_2. lia.
Qed.

(** * Reshaping *)

Lemma arr_set_append {A} (hole : A) (a : list A) v :
  arr_set hole a (Z.of_nat (length a)) v = a ++ [v].
Proof.
  unfold arr_set. destruct (Z.ltb_spec (Z.of_nat (length a)) 0); [lia |].
  rewrite Nat2Z.id. rewrite Nat.ltb_irrefl, Nat.sub_diag. reflexivity.
Qed.

Lemma arr_set_update {A} (hole : A) (a : list A) i v :
  0 <= i < Z.of_nat (length a) -> arr_set hole a i v = <[Z.to_nat i := v]> a.
Proof.
  intros Hi. unfold arr_set. destruct (Z.ltb_spec i 0); [lia |].
  destruct (Nat.ltb_spec (Z.to_nat i) (length a)); [reflexivity | lia].
Qed.

Lemma concat_lookup_rectangular entries :
  forall r c i j,
    rectangular entries r c -> 0 <= i < r -> 0 <= j < c ->
    concat entries !! Z.to_nat (i * c + j) = Some (cell entries i j).
Proof.
  induction entries as [| row rest IH]; intros r c i j [Hlen Hrect] Hi Hj.
  - simpl in Hlen. lia.
  - pose proof (Forall_inv Hrect) as Hrow. simpl in Hrow.
    pose proof (Forall_inv_tail Hrect) as Hrest.
    simpl concat. destruct (decide (i = 0)) as [-> | Hne].
    + rewrite lookup_app_l by lia.
      unfold cell, Matrix.rowOf, arr_get. simpl.
      destruct (Z.ltb_spec j 0); [lia |].
      replace (Z.to_nat (0 * c + j)) with (Z.to_nat j) by lia.
      destruct (lookup_lt_is_Some_2 row (Z.to_nat j)) as [v Hv]; [lia |].
      rewrite Hv. reflexivity.
    + rewrite lookup_app_r by nia.
      replace (Z.to_nat (i * c + j) - length row)%nat
        with (Z.to_nat ((i - 1) * c + j)) by nia.
      rewrite (IH (r - 1) c (i - 1) j); [| split; [simpl in Hlen; lia | exact Hrest] | lia | lia].
      f_equal. unfold cell, Matrix.rowOf.
      destruct (Z.ltb_spec (i - 1) 0); [lia |]. destruct (Z.ltb_spec i 0); [lia |].
      replace (Z.to_nat i) with (S (Z.to_nat (i - 1))) by lia. reflexivity.
Qed.

Lemma concat_length_rectangular (entries : list (list value)) c :
  Forall (fun row => Z.of_nat (length row) = c) entries ->
  Z.of_nat (length (concat entries)) = Z.of_nat (length entries) * c.
Proof.
  induction 1 as [| row rest Hrow _ IH]; [reflexivity |].
  simpl. rewrite length_app. lia.
Qed.

Section Reshape.

Variable array : list value.
Variable c : Z.
Hypothesis Hc : 0 < c.

Lemma rowOf_last (full : list (list value)) last :
  Matrix.rowOf (full ++ [last]) (Z.of_nat (length full)) = last.
Proof.
  unfold Matrix.rowOf. destruct (Z.ltb_spec (Z.of_nat (length full)) 0); [lia |].
  rewrite Nat2Z.id, lookup_app_r, Nat.sub_diag by lia. reflexivity.
Qed.

Lemma reshaped_step i state :
  0 <= i < Z.of_nat (length array) ->
  reshaped array c i state -> reshaped array c (i + 1) (Matrix.reshapeStep array c i state).
Proof.
  intros Hi. destruct state as [[newEntries rowIndex] colIndex].
  intros [Hcat Hshape].
  destruct (lookup_lt_is_Some_2 array (Z.to_nat i)) as [v Hv]; [lia |].
  assert (Hget : arr_get array i = v).
  { unfold arr_get. destruct (Z.ltb_spec i 0); [lia |]. rewrite Hv. reflexivity. }
  assert (Htake : take (Z.to_nat (i + 1)) array = take (Z.to_nat i) array ++ [v]).
  { replace (Z.to_nat (i + 1)) with (S (Z.to_nat i)) by lia. apply take_S_r. exact Hv. }
  unfold Matrix.reshapeStep. rewrite Hget.
  destruct Hshape as [(-> & -> & ->) | (full & last & -> & Hfull & Hlast & Hcol & ->)].
  - destruct (Z.eqb_spec 0 c); [lia |].
    change (Matrix.hasRow [] 0) with false. cbn [negb].
    change (arr_set [] [] 0 []) with [@nil value].
    change (Matrix.rowOf [[]] 0) with (@nil value).
    change (arr_set Undefined [] 0 v) with [v].
    change (arr_set [] [[]] 0 [v]) with [[v]].
    split.
    + rewrite Htake, <- Hcat. reflexivity.
    + right. exists [], [v]. repeat split; simpl; try lia. constructor.
  - destruct (Z.eqb_spec colIndex c) as [-> | Hne].
    + (* the row is full: a new one is opened *)
      assert (Hno : Matrix.hasRow (full ++ [last]) (Z.of_nat (length full) + 1) = false).
      { unfold Matrix.hasRow. rewrite length_app. simpl.
        apply andb_false_iff. right. apply Z.ltb_ge. lia. }
      rewrite Hno. cbn [negb].
      replace (Z.of_nat (length full) + 1) with (Z.of_nat (length (full ++ [last])))
        by (rewrite length_app; simpl; lia).
      rewrite arr_set_append.
      rewrite rowOf_last.
      change (arr_set Undefined [] 0 v) with [v].
      rewrite arr_set_update by (rewrite !length_app; simpl; lia).
      rewrite Nat2Z.id.
      replace (length (full ++ [last])) with (length (full ++ [last]) + 0)%nat at 1 by lia.
      rewrite insert_app_r. simpl.
      split.
      * rewrite concat_app, Htake, <- Hcat. reflexivity.
      * right. exists (full ++ [last]), [v]. repeat split; simpl; try lia.
        apply Forall_app. split; [exact Hfull |]. constructor; [exact Hlast | constructor].
    + (* the element joins the last row *)
      assert (Hyes : Matrix.hasRow (full ++ [last]) (Z.of_nat (length full)) = true).
      { unfold Matrix.hasRow. rewrite length_app. simpl.
        apply andb_true_iff. split; [apply Z.leb_le; lia | apply Z.ltb_lt; lia]. }
      rewrite Hyes. cbn [negb].
      rewrite rowOf_last. rewrite <- Hlast, arr_set_append.
      rewrite arr_set_update by (rewrite length_app; simpl; lia).
      rewrite Nat2Z.id.
      replace (length full) with (length full + 0)%nat at 1 by lia.
      rewrite insert_app_r. simpl.
      split.
      * rewrite concat_app, Htake, <- Hcat, concat_app. simpl.
        rewrite !app_nil_r, app_assoc. reflexivity.
      * right. exists full, (last ++ [v]).
        rewrite length_app. simpl. repeat split; try lia. exact Hfull.
Qed.

Lemma reshape_loop :
  reshaped array c (Z.of_nat (length array))
           (for_up 0 (Z.of_nat (length array)) (Matrix.reshapeStep array c) ([], 0, 0)).
Proof.
  apply (for_up_ind (reshaped array c)).
  - lia.
  - split; [reflexivity | left; auto].
  - intros i state Hi. apply reshaped_step. lia.
Qed.

End Reshape.

Lemma reshape_matrixOf array r c :
  0 < r -> 0 < c ->
  Z.of_nat (length array) = r * c ->
  Forall properNumber array ->
  Matrix.reshape array r c
  = Ok (matrixOf (map (fun v => fround (toNumber v)) array) r c).
Proof.
  intros Hr Hc Hlen Hnum. unfold Matrix.reshape.
  destruct (Z.eqb_spec (Z.of_nat (length array)) (r * c)); [| lia]. cbn [negb].
  pose proof (reshape_loop array c Hc) as Hloop.
  destruct (for_up 0 (Z.of_nat (length array)) (Matrix.reshapeStep array c) ([], 0, 0))
    as [[newEntries rowIndex] colIndex].
  destruct Hloop as [Hcat Hshape]. rewrite Nat2Z.id, firstn_all in Hcat.
  destruct Hshape as [(-> & _ & _) | (full & last & -> & Hfull & Hlast & Hcol & _)].
  { simpl in Hcat. rewrite <- Hcat in Hlen. simpl in Hlen.
    assert (0 < r * c) by (apply Z.mul_pos_pos; assumption). lia. }
  assert (Hall : Forall (fun row => Z.of_nat (length row) = c) (full ++ [last])).
  { assert (Hcount : Z.of_nat (length (concat (full ++ [last])))
                     = Z.of_nat (length full) * c + colIndex).
    { rewrite concat_app, length_app, Nat2Z.inj_add, (concat_length_rectangular full c Hfull).
      simpl. rewrite length_app. simpl. lia. }
    rewrite Hcat, Hlen in Hcount.
    assert (colIndex = c).
    { set (n := Z.of_nat (length full)) in *.
      assert (Hd : colIndex = (r - n) * c) by lia.
      destruct (Z.lt_trichotomy (r - n) 1) as [Hlt | [Heq | Hgt]].
      - assert ((r - n) * c <= 0) by (apply Z.mul_nonpos_nonneg; lia). lia.
      - rewrite Heq in Hd. lia.
      - assert (2 * c <= (r - n) * c) by (apply Z.mul_le_mono_nonneg_r; lia). lia. }
    subst colIndex.
    apply Forall_app. split; [exact Hfull |]. constructor; [lia | constructor]. }
  assert (Hrect : rectangular (full ++ [last]) r c).
  { split; [| exact Hall].
    pose proof (concat_length_rectangular _ c Hall) as Hcount.
    rewrite Hcat, Hlen in Hcount. nia. }
  rewrite (ofArray_stores _ r c Hr Hc Hrect).
  - do 2 f_equal. symmetry. apply tabulate_unique; [lia | exact Hc | |].
    + rewrite length_map. exact Hlen.
    + intros i j Hi Hj.
      change (map ?h ?l) with (h <$> l). rewrite list_lookup_fmap.
      rewrite <- Hcat, (concat_lookup_rectangular _ r c i j Hrect Hi Hj). reflexivity.
  - rewrite <- Hcat in Hnum. apply Forall_concat. exact Hnum.
Qed.

(** * Rows, columns and single elements *)

Lemma f32_get_entry A i j :
  storageFits A -> 0 <= i < rows A -> 0 <= j < columns A ->
  f32_get (mElements A) (i * columns A + j) = Num (entry A i j).
Proof.
  intros Hfits Hi Hj. unfold entry.
  destruct (f32_get_in_range (mElements A) (i * columns A + j)) as (x & _ & ->);
    [unfold storageFits in Hfits; nia | reflexivity].
Qed.

Lemma f32_get_beyond (buf : list float) k :
  Z.of_nat (length buf) <= k -> f32_get buf k = Undefined.
Proof.
  intros Hk. unfold f32_get. destruct (Z.ltb_spec k 0); [reflexivity |].
  rewrite lookup_ge_None_2 by lia. reflexivity.
Qed.

Lemma getRow_row A k :
  wellFormed A -> 0 <= k < rows A ->
  Matrix.getRow A k = Ok (map (fun j => Num (entry A k j)) (seqZ 0 (columns A))).
Proof.
  intros [Hr Hc _ Hfits _ _ _] Hk.
  destruct (getRow_spec A k) as [_ Hrow]. rewrite Hrow by lia. f_equal.
  apply list_eq. intros n. change (map ?h ?l) with (h <$> l).
  rewrite !list_lookup_fmap.
  destruct (seqZ 0 (columns A) !! n) as [j |] eqn:Hj; [| reflexivity]. simpl.
  apply lookup_seqZ in Hj as [-> Hn]. f_equal.
  apply f32_get_entry; [exact Hfits | lia | lia].
Qed.

Lemma getColumn_column A k :
  wellFormed A -> 0 <= k < rows A -> k < columns A ->
  Matrix.getColumn A k = Ok (map (fun i => Num (entry A i k)) (seqZ 0 (rows A))).
Proof.
  intros [Hr Hc _ Hfits _ _ _] Hk Hkc.
  rewrite getColumn_Ok by lia. f_equal.
  apply list_eq. intros n. change (map ?h ?l) with (h <$> l).
  rewrite !list_lookup_fmap.
  destruct (seqZ 0 (rows A) !! n) as [i |] eqn:Hi; [| reflexivity]. simpl.
  apply lookup_seqZ in Hi as [-> Hn]. f_equal.
  replace (k + (0 + Z.of_nat n) * columns A) with ((0 + Z.of_nat n) * columns A + k) by lia.
  apply f32_get_entry; [exact Hfits | lia | lia].
Qed.

Lemma getColumn_throws A k :
  k < 0 \/ rows A <= k ->
  Matrix.getColumn A k = Throw (MatrixError "Row index out of bounds" 800).
Proof.
  intros Hk. unfold Matrix.getColumn.
  destruct (Z.ltb_spec k 0); [reflexivity |].
  destruct (Z.geb_spec k (rows A)); [reflexivity | lia].
Qed.

(** * Storing into a grid leaves the other indices alone *)

Lemma grid_store_frame r c (idx : Z -> Z -> Z) (val : Z -> Z -> value) buf k :
  0 <= k ->
  (forall i j, 0 <= i < r -> 0 <= j < c -> idx i j <> k) ->
  for_up 0 r (fun i b => for_up 0 c (fun j b => f32_set b (idx i j) (val i j)) b) buf
    !! Z.to_nat k
  = buf !! Z.to_nat k.
Proof.
  intros Hk Hmiss.
  apply (for_up_preserves (fun b => b !! Z.to_nat k = buf !! Z.to_nat k)); [reflexivity |].
  intros i b Hi Hb.
  apply (for_up_preserves (fun b => b !! Z.to_nat k = buf !! Z.to_nat k)); [exact Hb |].
  intros j b' Hj Hb'. rewrite f32_set_lookup_ne; [exact Hb' | exact Hk |].
  apply Hmiss; assumption.
Qed.

(** * The constructor on a buffer *)

Lemma validateFloatArray_noNaN buf :
  noNaN buf -> Matrix.validateFloatArray buf = Ok tt.
Proof.
  intros Hnan. unfold Matrix.validateFloatArray.
  replace (forallb _ buf) with true; [reflexivity |].
  symmetry. apply forallb_forall. intros x Hx. apply list_elem_of_In in Hx.
  unfold noNaN in Hnan. rewrite Forall_forall in Hnan.
  unfold isNaN. simpl. rewrite (Hnan x Hx). reflexivity.
Qed.

Lemma validateFloatArray_NaN (buf : list float) k :
  buf !! k = Some nan ->
  Matrix.validateFloatArray buf
  = Throw (MatrixError "Invalid Float32Array entries" 805).
Proof.
  intros Hk. unfold Matrix.validateFloatArray.
  destruct (forallb _ buf) eqn:Hall; [| reflexivity].
  rewrite forallb_forall in Hall.
  specialize (Hall nan (proj1 (list_elem_of_In _ _) (list_elem_of_lookup_2 _ _ _ Hk))).
  discriminate.
Qed.

Lemma ofFloat32Array_matrixOf buf r c :
  0 < r -> 0 < c -> noNaN buf ->
  Matrix.ofFloat32Array buf (Some r) (Some c) = Ok (matrixOf buf r c).
Proof.
  intros Hr Hc Hnan. unfold Matrix.ofFloat32Array.
  destruct (Z.leb_spec c 0); [lia |]. destruct (Z.leb_spec r 0); [lia |]. simpl.
  rewrite validateFloatArray_noNaN by exact Hnan. reflexivity.
Qed.

Lemma ofFloat32Array_NaN (buf : list float) r c k :
  0 < r -> 0 < c -> buf !! k = Some nan ->
  Matrix.ofFloat32Array buf (Some r) (Some c)
  = Throw (MatrixError "Invalid Float32Array entries" 805).
Proof.
  intros Hr Hc Hk. unfold Matrix.ofFloat32Array.
  destruct (Z.leb_spec c 0); [lia |]. destruct (Z.leb_spec r 0); [lia |]. simpl.
  rewrite (validateFloatArray_NaN buf k Hk). reflexivity.
Qed.

(** * Submatrices *)

Lemma getSubmatrix_matrixOf A startRow startCol sz :
  wellFormed A -> 0 < sz ->
  0 <= startRow -> startRow + sz <= rows A ->
  0 <= startCol -> startCol + sz <= columns A ->
  Matrix.getSubmatrix A startRow startCol sz
  = Ok (matrixOf (tabulate sz sz (fun i j => fround (entry A (startRow + i) (startCol + j))))
                 sz sz).
Proof.
  intros [Hr Hc _ Hfits Hnan _ _] Hsz Hsr Hsr' Hsc Hsc'.
  unfold Matrix.getSubmatrix, f32_new.
  destruct (Z.ltb_spec (sz * sz) 0); [nia |]. cbn [JS.bind].
  destruct (grid_store_spec sz sz (fun i j => i * sz + j)
              (fun i j => f32_get (mElements A)
                            ((startRow + i) * columns A + (startCol + j)))
              (replicate (Z.to_nat (sz * sz)) 0%float)) as [Hlo Hget].
  - lia.
  - lia.
  - intros i j Hi Hj. rewrite length_replicate. nia.
  - intros i j i' j' Hi Hj Hi' Hj' Heq.
    destruct (index_inj sz j i j' i') as [-> ->]; [lia | lia | lia |]. split; reflexivity.
  - assert (Hbuf : for_up 0 sz (fun i b =>
                     for_up 0 sz (fun j b =>
                       f32_set b (i * sz + j)
                         (f32_get (mElements A)
                            ((startRow + i) * columns A + (startCol + j)))) b)
                     (replicate (Z.to_nat (sz * sz)) 0%float)
                   = tabulate sz sz
                       (fun i j => fround (entry A (startRow + i) (startCol + j)))).
    { apply tabulate_unique; [lia | lia | |].
      - rewrite Hlo, length_replicate. nia.
      - intros i j Hi Hj. rewrite (Hget i j Hi Hj).
        rewrite f32_get_entry by (assumption || lia). reflexivity. }
    rewrite Hbuf. apply ofFloat32Array_matrixOf; [lia | lia |].
    apply tabulate_noNaN; [lia | lia |].
    intros i j Hi Hj. apply fround_not_nan.
    apply entry_not_nan; (assumption || lia).
Qed.

Lemma fround_nan : fround nan = nan.
Proof. reflexivity. Qed.

Lemma getSubmatrix_beyond_rows A startRow startCol sz :
  storageFits A -> 0 < sz -> 0 <= startCol -> 0 <= columns A ->
  rows A < startRow + sz ->
  Matrix.getSubmatrix A startRow startCol sz
  = Throw (MatrixError "Invalid Float32Array entries" 805).
Proof.
  intros Hfits Hsz Hsc Hc Hbeyond.
  unfold Matrix.getSubmatrix, f32_new.
  destruct (Z.ltb_spec (sz * sz) 0); [nia |]. cbn [JS.bind].
  destruct (grid_store_spec sz sz (fun i j => i * sz + j)
              (fun i j => f32_get (mElements A)
                            ((startRow + i) * columns A + (startCol + j)))
              (replicate (Z.to_nat (sz * sz)) 0%float)) as [_ Hget].
  - lia.
  - lia.
  - intros i j Hi Hj. rewrite length_replicate. nia.
  - intros i j i' j' Hi Hj Hi' Hj' Heq.
    destruct (index_inj sz j i j' i') as [-> ->]; [lia | lia | lia |]. split; reflexivity.
  - specialize (Hget (sz - 1) 0 ltac:(lia) ltac:(lia)). cbv beta in Hget.
    rewrite f32_get_beyond in Hget by (unfold storageFits in Hfits; nia).
    apply (ofFloat32Array_NaN _ sz sz _ Hsz Hsz Hget).
Qed.

Lemma getSubmatrix_no_size A startRow startCol sz :
  sz <= 0 ->
  Matrix.getSubmatrix A startRow startCol sz
  = Throw (MatrixError "Rows and columns must be defined for Float32Array entries, be of type number and not be 0 or negative" 804).
Proof.
  intros Hsz. unfold Matrix.getSubmatrix, f32_new.
  destruct (Z.ltb_spec (sz * sz) 0); [nia |]. cbn [JS.bind].
  unfold Matrix.ofFloat32Array. destruct (Z.leb_spec sz 0); [reflexivity | lia].
Qed.

(** * Writing one element *)

Lemma flat_index_range r c i j :
  0 <= i < r -> 0 <= j < c -> 0 <= i * c + j < r * c.
Proof.
  intros Hi Hj.
  assert (0 <= i * c) by (apply Z.mul_nonneg_nonneg; lia).
  assert (i * c <= (r - 1) * c) by (apply Z.mul_le_mono_nonneg_r; lia).
  lia.
Qed.

Lemma setElement_in_range A i j v :
  size A = rows A * columns A ->
  0 <= i < rows A -> 0 <= j < columns A ->
  Matrix.setElement A i j v
  = Ok (with_mElements A (f32_set (mElements A) (i * columns A + j) (Num v))).
Proof.
  intros Hsize Hi Hj. unfold Matrix.setElement.
  assert (Hidx : 0 <= i * columns A + j < rows A * columns A) by nia.
  destruct (Z.gtb_spec (i * columns A + j) (size A)); [lia |].
  destruct (Z.ltb_spec (i * columns A + j) 0); [lia |]. reflexivity.
Qed.

Lemma entry_set_eq A i j v :
  storageFits A -> 0 <= i < rows A -> 0 <= j < columns A ->
  entry (with_mElements A (f32_set (mElements A) (i * columns A + j) (Num v))) i j
  = fround v.
Proof.
  intros Hfits Hi Hj. unfold entry. simpl.
  rewrite (f32_get_lookup _ _ (fround v)); [reflexivity | nia |].
  apply f32_set_lookup_eq. unfold storageFits in Hfits. nia.
Qed.

Lemma entry_set_ne A i j i' j' v :
  0 <= i' < rows A -> 0 <= j' < columns A -> 0 <= j < columns A -> 0 <= i < rows A ->
  (i', j') <> (i, j) ->
  entry (with_mElements A (f32_set (mElements A) (i * columns A + j) (Num v))) i' j'
  = entry A i' j'.
Proof.
  intros Hi' Hj' Hj Hi Hne. unfold entry. simpl.
  unfold f32_get. destruct (Z.ltb_spec (i' * columns A + j') 0); [reflexivity |].
  rewrite f32_set_lookup_ne; [reflexivity | lia |].
  intros Heq. apply Hne.
  destruct (index_inj (columns A) j i j' i') as [-> ->]; [lia | lia | lia | reflexivity].
Qed.

(** * Writing a block *)

Lemma setSubmatrix_square C startRow startCol sub s :
  0 <= s -> Z.of_nat (length sub) = s * s ->
  Matrix.setSubmatrix C startRow startCol sub
  = with_mElements C
      (for_up 0 s (fun i buf =>
         for_up 0 s (fun j buf =>
           f32_set buf ((startRow + i) * columns C + (startCol + j))
                   (f32_get sub (i * s + j))) buf) (mElements C)).
Proof.
  intros Hs Hlen. unfold Matrix.setSubmatrix.
  rewrite Hlen, Z.sqrt_square by exact Hs. rewrite Z.eqb_refl. reflexivity.
Qed.

Section Block.

Variable C : Matrix.
Variables startRow startCol s : Z.
Variable sub : list float.

Hypothesis Hfits : storageFits C.
Hypothesis Hs : 0 < s.
Hypothesis Hlen : Z.of_nat (length sub) = s * s.
Hypothesis HstartRow : 0 <= startRow.
Hypothesis HendRow : startRow + s <= rows C.
Hypothesis HstartCol : 0 <= startCol.
Hypothesis HendCol : startCol + s <= columns C.

Lemma block_index_inj i j i' j' :
  0 <= i < s -> 0 <= j < s -> 0 <= i' < s -> 0 <= j' < s ->
  (startRow + i) * columns C + (startCol + j)
  = (startRow + i') * columns C + (startCol + j') ->
  i = i' /\ j = j'.
Proof.
  intros Hi Hj Hi' Hj' Heq.
  destruct (index_inj (columns C) (startCol + j) (startRow + i)
                      (startCol + j') (startRow + i')) as [H1 H2]; [lia | lia | lia |].
  lia.
Qed.

Lemma setSubmatrix_inside i j :
  0 <= i < s -> 0 <= j < s ->
  entry (Matrix.setSubmatrix C startRow startCol sub) (startRow + i) (startCol + j)
  = fround (toNumber (f32_get sub (i * s + j))).
Proof.
  intros Hi Hj. rewrite (setSubmatrix_square C startRow startCol sub s) by lia.
  unfold entry. simpl.
  destruct (grid_store_spec s s
              (fun i j => (startRow + i) * columns C + (startCol + j))
              (fun i j => f32_get sub (i * s + j)) (mElements C)) as [_ Hget].
  - lia.
  - lia.
  - intros i0 j0 Hi0 Hj0. unfold storageFits in Hfits. rewrite Hfits.
    apply flat_index_range; lia.
  - intros. apply block_index_inj; assumption.
  - pose proof (flat_index_range (rows C) (columns C) (startRow + i) (startCol + j)
                  ltac:(lia) ltac:(lia)) as Hidx.
    rewrite (f32_get_lookup _ ((startRow + i) * columns C + (startCol + j)) _
               ltac:(lia) (Hget i j Hi Hj)).
    reflexivity.
Qed.

Lemma setSubmatrix_outside i j :
  0 <= i < rows C -> 0 <= j < columns C ->
  ~ (startRow <= i < startRow + s /\ startCol <= j < startCol + s) ->
  entry (Matrix.setSubmatrix C startRow startCol sub) i j = entry C i j.
Proof.
  intros Hi Hj Hout. rewrite (setSubmatrix_square C startRow startCol sub s) by lia.
  unfold entry. simpl. unfold f32_get.
  destruct (Z.ltb_spec (i * columns C + j) 0); [reflexivity |].
  rewrite grid_store_frame; [reflexivity | lia |].
  intros i0 j0 Hi0 Hj0 Heq. apply Hout.
  destruct (index_inj (columns C) (startCol + j0) (startRow + i0) j i) as [H1 H2];
    [lia | lia | lia |]. lia.
Qed.

End Block.

(** * Transposition, entry by entry *)

Lemma transpose_entry_at A i j :
  storageFits A -> 0 <= i < rows A -> 0 <= j < columns A ->
  entry (Matrix.transpose A) j i = fround (entry A i j).
Proof.
  intros Hfits Hi Hj. unfold entry.
  rewrite transpose_columns, transpose_mElements.
  destruct (scatter_spec (rows A) (columns A) (mElements A) (mElements A))
    as [_ Hget]; [lia | lia | exact Hfits |].
  rewrite (f32_get_lookup _ (j * rows A + i) _ ltac:(nia) (Hget i j Hi Hj)). reflexivity.
Qed.

(** * Addition and subtraction, entry by entry *)

Lemma combine_spec op n other buf :
  Z.of_nat (length buf) = n ->
  length (combine op n other buf) = length buf
  /\ forall k x, 0 <= k < n -> buf !! Z.to_nat k = Some x ->
       combine op n other buf !! Z.to_nat k
       = Some (fround (op x (toNumber (f32_get other k)))).
Proof.
  intros Hlen. unfold combine.
  cut (let res := for_up 0 n (fun i res =>
                    f32_set res i
                      (Num (op (toNumber (f32_get res i)) (toNumber (f32_get other i)))))
                    buf in
       length res = length buf
       /\ (forall k x, 0 <= k < n -> buf !! Z.to_nat k = Some x ->
             res !! Z.to_nat k = Some (fround (op x (toNumber (f32_get other k)))))
       /\ (forall k, n <= k -> res !! Z.to_nat k = buf !! Z.to_nat k)).
  { cbv zeta. intros (H1 & H2 & _). split; assumption. }
  cbv zeta.
  apply (for_up_ind
    (fun i res =>
       length res = length buf
       /\ (forall k x, 0 <= k < i -> buf !! Z.to_nat k = Some x ->
             res !! Z.to_nat k = Some (fround (op x (toNumber (f32_get other k)))))
       /\ (forall k, i <= k -> res !! Z.to_nat k = buf !! Z.to_nat k))
    0 n).
  - lia.
  - split; [reflexivity |]. split; [intros; lia | reflexivity].
  - intros i res Hi (Hlo & Hdone & Hrest).
    split; [rewrite f32_set_length; exact Hlo |]. split.
    + intros k x Hk Hx. destruct (Z.eq_dec k i) as [-> | Hne].
      * rewrite f32_set_lookup_eq by lia. simpl.
        rewrite (f32_get_lookup res i x); [reflexivity | lia |].
        rewrite Hrest by lia. exact Hx.
      * rewrite f32_set_lookup_ne by lia. apply Hdone; [lia | exact Hx].
    + intros k Hk. rewrite f32_set_lookup_ne by lia. apply Hrest. lia.
Qed.

Lemma add_combine A B :
  Matrix.add A B
  = if negb (String.eqb (shape A) (shape B)) then
      Throw (MatrixError "Invalid matrix dimensions for addition" 805)
    else Matrix.ofFloat32Array (combine PrimFloat.add (size A) (mElements B) (mElements A))
                               (Some (rows A)) (Some (columns A)).
Proof. reflexivity. Qed.

Lemma subtract_combine A B :
  Matrix.subtract A B
  = if negb (String.eqb (shape A) (shape B)) then
      Throw (MatrixError "Invalid matrix dimensions for subtraction" 805)
    else Matrix.ofFloat32Array (combine PrimFloat.sub (size A) (mElements B) (mElements A))
                               (Some (rows A)) (Some (columns A)).
Proof. reflexivity. Qed.

Lemma combine_tabulate op A B :
  wellFormed A -> storageFits B -> rows B = rows A -> columns B = columns A ->
  combine op (size A) (mElements B) (mElements A)
  = tabulate (rows A) (columns A) (fun i j => fround (op (entry A i j) (entry B i j))).
Proof.
  intros [Hr Hc Hsize Hfits _ _ _] HfitsB HrB HcB.
  destruct (combine_spec op (size A) (mElements B) (mElements A)) as [Hlen Hget].
  { rewrite Hsize. exact Hfits. }
  apply tabulate_unique; [lia | lia | rewrite Hlen; exact Hfits |].
  intros i j Hi Hj.
  pose proof (flat_index_range (rows A) (columns A) i j Hi Hj) as Hidx.
  rewrite (Hget (i * columns A + j) (entry A i j)); [| lia | apply entry_lookup; assumption].
  do 3 f_equal. unfold entry. rewrite HcB. reflexivity.
Qed.

Lemma same_shape A B :
  wellFormed A -> wellFormed B -> rows B = rows A -> columns B = columns A ->
  String.eqb (shape A) (shape B) = true.
Proof.
  intros HA HB Hr Hc. rewrite (wf_shape _ HA), (wf_shape _ HB), Hr, Hc.
  apply String.eqb_refl.
Qed.

(** * Arithmetic of numbers *)

Lemma SFadd_comm prec emax x y : SFadd prec emax x y = SFadd prec emax y x.
Proof.
  destruct x as [sx | sx | | sx mx ex], y as [sy | sy | | sy my ey]; simpl;
    try reflexivity; try (destruct sx, sy; reflexivity).
  rewrite Z.min_comm, Z.add_comm. reflexivity.
Qed.

Lemma number_add_comm (x y : number) : (x + y)%float = (y + x)%float.
Proof. apply Prim2SF_inj. rewrite !add_spec. apply SFadd_comm. Qed.

Lemma sub_self x : finiteNumber x -> (x - x)%float = 0%float.
Proof.
  unfold finiteNumber. intros Hx. apply Prim2SF_inj. rewrite sub_spec.
  change (Prim2SF 0) with (S754_zero false).
  destruct (Prim2SF x) as [s | s | | s m e]; try contradiction.
  - destruct s; reflexivity.
  - unfold SF64sub, SFsub. rewrite Z.sub_diag. reflexivity.
Qed.

Lemma sub_self_infinite x :
  is_nan x = false -> ~ finiteNumber x -> (x - x)%float = nan.
Proof.
  unfold finiteNumber. intros Hnan Hx. apply is_nan_Prim2SF in Hnan.
  apply Prim2SF_inj. rewrite sub_spec.
  change (Prim2SF nan) with S754_nan.
  destruct (Prim2SF x) as [s | s | | s m e]; try (exfalso; apply Hx; exact I).
  - destruct s; reflexivity.
  - congruence.
Qed.

(** * Shape labels tell the dimensions apart *)

Lemma plain_pretty_N_char n : pretty_N_char n <> ","%char /\ pretty_N_char n <> ")"%char.
Proof.
  unfold pretty_N_char.
  repeat match goal with |- context [match ?x with _ => _ end] => destruct x end;
    split; discriminate.
Qed.

Lemma plain_pretty_N_go x : forall s, plain s -> plain (pretty_N_go x s).
Proof.
  induction (N.lt_wf_0 x) as [x _ IH]. intros s Hs.
  destruct (N.eq_dec x 0%N) as [-> | Hx].
  - rewrite pretty_N_go_0. exact Hs.
  - rewrite pretty_N_go_step by lia. apply IH.
    + apply N.div_lt; lia.
    + destruct (plain_pretty_N_char (x mod 10)%N) as [H1 H2]. simpl. auto.
Qed.

Lemma plain_pretty_Z (z : Z) : plain (pretty z).
Proof.
  assert (HN : forall n : N, plain (pretty n)).
  { intros n. unfold pretty, pretty_N. destruct (decide (n = 0%N)).
    - simpl. repeat split; discriminate.
    - apply plain_pretty_N_go. exact I. }
  unfold pretty, pretty_Z. destruct z as [| p | p].
  - simpl. repeat split; discriminate.
  - apply HN.
  - simpl. split; [discriminate |]. split; [discriminate |]. apply HN.
Qed.

Lemma split_at_separator sep a : forall a' b b',
  sep = ","%char \/ sep = ")"%char ->
  plain a -> plain a' ->
  a +:+ String sep b = a' +:+ String sep b' -> a = a' /\ b = b'.
Proof.
  induction a as [| x a IH]; intros [| x' a'] b b' Hsep Ha Ha' Heq; simpl in *.
  - injection Heq as ->. auto.
  - injection Heq as -> _. destruct Ha' as (H1 & H2 & _). destruct Hsep; congruence.
  - injection Heq as -> _. destruct Ha as (H1 & H2 & _). destruct Hsep; congruence.
  - injection Heq as -> Heq.
    destruct Ha as (_ & _ & Ha). destruct Ha' as (_ & _ & Ha').
    destruct (IH a' b b' Hsep Ha Ha' Heq) as [-> ->]. auto.
Qed.

Lemma shapeOf_inj r c r' c' :
  Matrix.shapeOf r c = Matrix.shapeOf r' c' -> r = r' /\ c = c'.
Proof.
  unfold Matrix.shapeOf. intros Heq. simpl in Heq. injection Heq as Heq.
  apply split_at_separator in Heq as [Hr Hc];
    [| left; reflexivity | apply plain_pretty_Z | apply plain_pretty_Z].
  apply (inj pretty) in Hr.
  apply (split_at_separator ")"%char) in Hc as [Hc _];
    [| right; reflexivity | apply plain_pretty_Z | apply plain_pretty_Z].
  apply (inj pretty) in Hc. auto.
Qed.

Lemma different_shape A B :
  wellFormed A -> wellFormed B ->
  rows B <> rows A \/ columns B <> columns A ->
  String.eqb (shape A) (shape B) = false.
Proof.
  intros HA HB Hne. apply String.eqb_neq. intros Heq.
  rewrite (wf_shape _ HA), (wf_shape _ HB) in Heq.
  apply shapeOf_inj in Heq as [Hr Hc]. destruct Hne; congruence.
Qed.

(** * More loop rules *)

Lemma loop_upM_throw {St} (P : Z -> St -> Prop) (bad : Z -> bool)
      (bodyM : Z -> St -> completion St) e n :
  forall i s,
    P i s ->
    (forall k t, i <= k < i + Z.of_nat n -> P k t -> bad k = true ->
                 bodyM k t = Throw e) ->
    (forall k t, i <= k < i + Z.of_nat n -> P k t -> bad k = false ->
                 exists t', bodyM k t = Ok t' /\ P (k + 1) t') ->
    (exists j, i <= j < i + Z.of_nat n /\ bad j = true) ->
    loop_upM n i bodyM s = Throw e.
Proof.
  induction n as [| n IH]; intros i s Hs Hbad Hgood (j & Hj & Hbj); simpl.
  - lia.
  - destruct (bad i) eqn:Hi.
    + rewrite (Hbad i s); [reflexivity | lia | exact Hs | exact Hi].
    + destruct (Hgood i s) as (t' & Hb & Ht'); [lia | exact Hs | exact Hi |].
      rewrite Hb. simpl. apply IH; [exact Ht' | | |].
      * intros k t Hk. apply Hbad. lia.
      * intros k t Hk. apply Hgood. lia.
      * exists j. split; [| exact Hbj].
        assert (j <> i) by (intros ->; congruence). lia.
Qed.

Lemma for_upM_throw {St} (P : Z -> St -> Prop) (bad : Z -> bool)
      (bodyM : Z -> St -> completion St) e lo hi s :
  P lo s ->
  (forall k t, lo <= k < hi -> P k t -> bad k = true -> bodyM k t = Throw e) ->
  (forall k t, lo <= k < hi -> P k t -> bad k = false ->
               exists t', bodyM k t = Ok t' /\ P (k + 1) t') ->
  (exists j, lo <= j < hi /\ bad j = true) ->
  for_upM lo hi bodyM s = Throw e.
Proof.
  intros Hs Hbad Hgood (j & Hj & Hbj). unfold for_upM.
  apply (loop_upM_throw P bad); [exact Hs | | |].
  - intros k t Hk. apply Hbad. lia.
  - intros k t Hk. apply Hgood. lia.
  - exists j. split; [lia | exact Hbj].
Qed.

Lemma for_upM_pure {St} (body : Z -> St -> St) (bodyM : Z -> St -> completion St) lo hi s :
  lo <= hi ->
  (forall k t, lo <= k < hi -> bodyM k t = Ok (body k t)) ->
  for_upM lo hi bodyM s = Ok (for_up lo hi body s).
Proof.
  intros Hle Hpure.
  destruct (for_upM_ind (fun k t => t = for_up lo k body s) lo hi bodyM s Hle)
    as (t & Hrun & ->).
  - rewrite for_up_nil by lia. reflexivity.
  - intros k t Hk ->. rewrite Hpure by exact Hk. exists (body k (for_up lo k body s)).
    split; [reflexivity |].
    assert (Hone : forall t, for_up k (k + 1) body t = body k t).
    { intros t. unfold for_up. replace (k + 1 - k) with 1 by lia. reflexivity. }
    rewrite (for_up_split lo k (k + 1)) by lia. rewrite Hone. reflexivity.

  - exact Hrun.
Qed.

(** * The triangular tests *)

Lemma isUpperTriangular_scan A :
  Matrix.isUpperTriangular A
  = triangularScan (fun i j => Matrix.getElement A i j) (columns A).
Proof. reflexivity. Qed.

Lemma isLowerTriangular_scan A :
  Matrix.isLowerTriangular A
  = triangularScan (fun i j => Matrix.getElement A j i) (columns A).
Proof. reflexivity. Qed.

Lemma triangularScan_spec (at_ : Z -> Z -> completion value) (x : Z -> Z -> number) c :
  (forall i j, 0 <= j < i -> i < c -> at_ i j = Ok (Num (x i j))) ->
  exists ok,
    triangularScan at_ c = Ok ok
    /\ (ok = true <-> forall i j, 0 <= j < i -> i < c -> (x i j =? 0)%float = true).
Proof.
  intros Hat. unfold triangularScan.
  destruct (Z.le_gt_cases c 1) as [Hsmall | Hc].
  { exists true. unfold for_upM. replace (Z.to_nat (c - 1)) with 0%nat by lia.
    split; [reflexivity |]. split; [intros _ i j Hj Hi; lia | reflexivity]. }
  destruct (for_upM_ind
    (fun i ok => ok = true <->
                 forall i' j, 0 <= j < i' -> i' < i -> (x i' j =? 0)%float = true)
    1 c
    (fun i ok =>
       for_upM 0 i (fun j ok =>
         if negb ok then Ok false
         else let! e := at_ i j in Ok (strictEqZero e)) ok) true) as (ok & Hrun & Hok).
  - lia.
  - split; [intros _ i' j Hj Hi'; lia | reflexivity].
  - intros i ok Hi Hinv.
    destruct (for_upM_ind
      (fun j ok' => ok' = true <->
                    (forall i' j', 0 <= j' < i' -> i' < i -> (x i' j' =? 0)%float = true)
                    /\ forall j', 0 <= j' < j -> (x i j' =? 0)%float = true)
      0 i
      (fun j ok => if negb ok then Ok false
                   else let! e := at_ i j in Ok (strictEqZero e)) ok)
      as (ok' & Hrun' & Hok').
    + lia.
    + rewrite Hinv. split; [intros H; split; [exact H | intros; lia] | intros [H _]; exact H].
    + intros j t Hj Ht. destruct t; cbn [negb].
      * rewrite Hat by lia. cbn [JS.bind strictEqZero].
        eexists. split; [reflexivity |].
        destruct Ht as [Ht _]. destruct (Ht eq_refl) as [Hrows Hrow].
        split.
        -- intros Hz. split; [exact Hrows |].
           intros j' Hj'. destruct (Z.eq_dec j' j) as [-> | Hne]; [exact Hz | apply Hrow; lia].
        -- intros [_ Hall]. apply Hall. lia.
      * exists false. split; [reflexivity |].
        split; [discriminate |]. intros [Hrows Hrow].
        apply Ht. split; [exact Hrows | intros j' Hj'; apply Hrow; lia].
    + exists ok'. split; [exact Hrun' |]. rewrite Hok'. split.
      * intros [Hrows Hrow] i' j Hj Hi'.
        destruct (Z.eq_dec i' i) as [-> | Hne]; [apply Hrow; lia | apply Hrows; lia].
      * intros Hall. split; [intros i' j' Hj' Hi'; apply Hall; lia |].
        intros j' Hj'. apply Hall; lia.
  - exists ok. split; [exact Hrun | exact Hok].
Qed.

Lemma isUpperTriangular_spec_gen A :
  size A = rows A * columns A -> storageFits A -> columns A <= rows A ->
  exists ok, Matrix.isUpperTriangular A = Ok ok /\ (ok = true <-> zeroBelowDiagonal A).
Proof.
  intros Hsize Hfits Hc. rewrite isUpperTriangular_scan.
  apply (triangularScan_spec _ (fun i j => entry A i j)).
  intros i j Hj Hi. apply getElement_entry; (assumption || lia).
Qed.

Lemma isLowerTriangular_spec_gen A :
  size A = rows A * columns A -> storageFits A -> columns A <= rows A ->
  exists ok, Matrix.isLowerTriangular A = Ok ok /\ (ok = true <-> zeroAboveDiagonal A).
Proof.
  intros Hsize Hfits Hc. rewrite isLowerTriangular_scan.
  apply (triangularScan_spec _ (fun i j => entry A j i)).
  intros i j Hj Hi. apply getElement_entry; (assumption || lia).
Qed.

(** * Forward substitution *)

Lemma forwardSubstitution_rows A b :
  Matrix.forwardSubstitution A b
  = let! lower := Matrix.isLowerTriangular A in
    if negb lower then Throw (MatrixError "Matrix is not lower triangular" 816)
    else for_upM 0 (rows A) (forwardSubstitutionRow A b) [].
Proof. reflexivity. Qed.

Section ForwardSubstitution.

Variable A : Matrix.
Variable b : list value.

Hypothesis Hsquare : rows A = columns A.
Hypothesis Hsize : size A = rows A * columns A.
Hypothesis Hfits : storageFits A.

Lemma headSum_ext sol sol' i :
  (forall j, 0 <= j < i -> arr_get sol j = arr_get sol' j) ->
  headSum A sol i = headSum A sol' i.
Proof.
  intros Hext. unfold headSum. apply for_up_ext.
  intros j acc Hj. rewrite Hext by lia. reflexivity.
Qed.

Lemma forward_row_zero i sol :
  0 <= i < rows A ->
  (entry A i i =? 0)%float = true ->
  forwardSubstitutionRow A b i sol
  = Throw (MatrixError "Unsolvable system: zero on diagonal" 814).
Proof.
  intros Hi Hz. unfold forwardSubstitutionRow.
  rewrite getElement_entry by (assumption || lia). simpl. rewrite Hz. reflexivity.
Qed.

Lemma forward_row_solved i sol :
  0 <= i < rows A ->
  (entry A i i =? 0)%float = false ->
  forwardSubstitutionRow A b i sol
  = Ok (arr_set Undefined sol i (Num (solvedForward A b sol i))).
Proof.
  intros Hi Hz. unfold forwardSubstitutionRow.
  rewrite getElement_entry by (assumption || lia). simpl. rewrite Hz.
  rewrite (for_upM_pure
             (fun j acc => (acc + toNumber (arr_get sol j) * entry A i j)%float)).
  - reflexivity.
  - lia.
  - intros k t Hk. rewrite getElement_entry by (assumption || lia). reflexivity.
Qed.

Lemma solvedAbove_step k sol :
  0 <= k ->
  solvedAbove A b k sol ->
  solvedAbove A b (k + 1) (arr_set Undefined sol k (Num (solvedForward A b sol k))).
Proof.
  intros Hk [Hlen Hsol].
  assert (Hext : forall i, i <= k ->
            solvedForward A b (arr_set Undefined sol k (Num (solvedForward A b sol k))) i
            = solvedForward A b sol i).
  { intros i Hi. unfold solvedForward. f_equal. f_equal.
    apply headSum_ext. intros j Hj. apply arr_get_set_ne; lia. }
  split.
  - rewrite arr_set_length by lia. lia.
  - intros i Hi. rewrite Hext by lia.
    destruct (Z.eq_dec i k) as [-> | Hne].
    + apply arr_get_set_eq. lia.
    + rewrite arr_get_set_ne by lia. apply Hsol. lia.
Qed.

Lemma forwardSubstitution_singular :
  Matrix.isLowerTriangular A = Ok true ->
  (exists i, 0 <= i < rows A /\ (entry A i i =? 0)%float = true) ->
  Matrix.forwardSubstitution A b
  = Throw (MatrixError "Unsolvable system: zero on diagonal" 814).
Proof.
  intros Hlower (i & Hi & Hz). rewrite forwardSubstitution_rows, Hlower. simpl.
  apply (for_upM_throw (solvedAbove A b) (fun k => (entry A k k =? 0)%float)).
  - split; [reflexivity | intros; lia].
  - intros k t Hk _ Hbad. apply forward_row_zero; [lia | exact Hbad].
  - intros k t Hk Ht Hgood. eexists. split.
    + apply forward_row_solved; [lia | exact Hgood].
    + apply solvedAbove_step; [lia | exact Ht].
  - exists i. split; [lia | exact Hz].
Qed.

Lemma forwardSubstitution_regular :
  0 <= rows A ->
  Matrix.isLowerTriangular A = Ok true ->
  (forall i, 0 <= i < rows A -> (entry A i i =? 0)%float = false) ->
  exists sol,
    Matrix.forwardSubstitution A b = Ok sol
    /\ Z.of_nat (length sol) = rows A
    /\ forall i, 0 <= i < rows A -> arr_get sol i = Num (solvedForward A b sol i).
Proof.
  intros Hrows Hlower Hnz. rewrite forwardSubstitution_rows, Hlower. simpl.
  destruct (for_upM_ind (solvedAbove A b) 0 (rows A)
              (forwardSubstitutionRow A b) []) as (sol & Hrun & [Hlen Hsol]).
  - lia.
  - split; [reflexivity | intros; lia].
  - intros k t Hk Ht. eexists. split.
    + apply forward_row_solved; [lia | apply Hnz; lia].
    + apply solvedAbove_step; [lia | exact Ht].
  - exists sol. split; [exact Hrun |]. split; [exact Hlen | exact Hsol].
Qed.

End ForwardSubstitution.

(** * Loops that are known to have completed *)

Lemma loop_downM_inv {St} (P : Z -> St -> Prop) (bodyM : Z -> St -> completion St) n :
  forall i s s',
    P i s ->
    (forall k t t', i - Z.of_nat n < k <= i -> P k t -> bodyM k t = Ok t' -> P (k - 1) t') ->
    loop_downM n i bodyM s = Ok s' -> P (i - Z.of_nat n) s'.
Proof.
  induction n as [| n IH]; intros i s s' Hs Hstep Hrun; simpl in Hrun.
  - injection Hrun as <-. replace (i - Z.of_nat 0) with i by lia. exact Hs.
  - apply bind_Ok in Hrun as (t & Hbody & Hrun).
    replace (i - Z.of_nat (S n)) with (i - 1 - Z.of_nat n) by lia.
    apply (IH (i - 1) t s'); [| | exact Hrun].
    + apply (Hstep i s t); [lia | exact Hs | exact Hbody].
    + intros k u u' Hk. apply Hstep. lia.
Qed.

Lemma for_downM_inv {St} (P : Z -> St -> Prop) (bodyM : Z -> St -> completion St)
      hi lo s s' :
  lo <= hi ->
  P hi s ->
  (forall k t t', lo < k <= hi -> P k t -> bodyM k t = Ok t' -> P (k - 1) t') ->
  for_downM hi lo bodyM s = Ok s' -> P lo s'.
Proof.
  intros Hle Hs Hstep Hrun. unfold for_downM in Hrun.
  replace lo with (hi - Z.of_nat (Z.to_nat (hi - lo))) by lia.
  apply (loop_downM_inv P bodyM _ hi s s'); [exact Hs | | exact Hrun].
  intros k t t' Hk. apply Hstep. lia.
Qed.

Lemma loop_upM_inv {St} (P : Z -> St -> Prop) (bodyM : Z -> St -> completion St) n :
  forall i s s',
    P i s ->
    (forall k t t', i <= k < i + Z.of_nat n -> P k t -> bodyM k t = Ok t' -> P (k + 1) t') ->
    loop_upM n i bodyM s = Ok s' -> P (i + Z.of_nat n) s'.
Proof.
  induction n as [| n IH]; intros i s s' Hs Hstep Hrun; simpl in Hrun.
  - injection Hrun as <-. replace (i + Z.of_nat 0) with i by lia. exact Hs.
  - apply bind_Ok in Hrun as (t & Hbody & Hrun).
    replace (i + Z.of_nat (S n)) with (i + 1 + Z.of_nat n) by lia.
    apply (IH (i + 1) t s'); [| | exact Hrun].
    + apply (Hstep i s t); [lia | exact Hs | exact Hbody].
    + intros k u u' Hk. apply Hstep. lia.
Qed.

Lemma for_upM_inv {St} (P : Z -> St -> Prop) (bodyM : Z -> St -> completion St)
      lo hi s s' :
  lo <= hi ->
  P lo s ->
  (forall k t t', lo <= k < hi -> P k t -> bodyM k t = Ok t' -> P (k + 1) t') ->
  for_upM lo hi bodyM s = Ok s' -> P hi s'.
Proof.
  intros Hle Hs Hstep Hrun. unfold for_upM in Hrun.
  replace hi with (lo + Z.of_nat (Z.to_nat (hi - lo))) by lia.
  apply (loop_upM_inv P bodyM _ lo s s'); [exact Hs | | exact Hrun].
  intros k t t' Hk. apply Hstep. lia.
Qed.

(** * Arrays of rows *)

Lemma rows_set_length (rows_ : list (list value)) i v :
  0 <= i ->
  length (arr_set [] rows_ i v) = Nat.max (length rows_) (S (Z.to_nat i)).
Proof.
  intros Hi. unfold arr_set.
  destruct (Z.ltb_spec i 0); [lia |].
  destruct (Nat.ltb_spec (Z.to_nat i) (length rows_)) as [Hlt | Hge].
  - rewrite length_insert. lia.
  - rewrite !length_app, length_replicate. simpl. lia.
Qed.

Lemma rowOf_set_eq (rows_ : list (list value)) i v :
  0 <= i -> Matrix.rowOf (arr_set [] rows_ i v) i = v.
Proof.
  intros Hi. unfold Matrix.rowOf, arr_set.
  destruct (Z.ltb_spec i 0); [lia |].
  destruct (Nat.ltb_spec (Z.to_nat i) (length rows_)) as [Hlt | Hge].
  - rewrite list_lookup_insert_eq by exact Hlt. reflexivity.
  - rewrite lookup_app_r by lia.
    rewrite lookup_app_r by (rewrite length_replicate; lia).
    rewrite length_replicate.
    replace (Z.to_nat i - length rows_ - (Z.to_nat i - length rows_))%nat with O by lia.
    reflexivity.
Qed.

Lemma rowOf_set_ne (rows_ : list (list value)) i k v :
  0 <= i -> i <> k -> Matrix.rowOf (arr_set [] rows_ i v) k = Matrix.rowOf rows_ k.
Proof.
  intros Hi Hne. unfold Matrix.rowOf, arr_set.
  destruct (Z.ltb_spec i 0); [lia |].
  destruct (Z.ltb_spec k 0); [reflexivity |].
  destruct (Nat.ltb_spec (Z.to_nat i) (length rows_)) as [Hlt | Hge].
  - rewrite list_lookup_insert_ne by lia. reflexivity.
  - destruct (Nat.lt_ge_cases (Z.to_nat k) (length rows_)) as [Hk | Hk].
    + rewrite lookup_app_l by lia. reflexivity.
    + rewrite lookup_app_r by lia.
      rewrite (lookup_ge_None_2 rows_) by lia. simpl.
      destruct (Nat.lt_ge_cases (Z.to_nat k - length rows_) (Z.to_nat i - length rows_))
        as [Hk' | Hk'].
      * rewrite lookup_app_l by (rewrite length_replicate; lia).
        rewrite lookup_replicate_2 by lia. reflexivity.
      * rewrite lookup_app_r by (rewrite length_replicate; lia).
        rewrite length_replicate.
        destruct (Z.to_nat k - length rows_ - (Z.to_nat i - length rows_))%nat
          as [| m] eqn:Hm; [lia |].
        reflexivity.
Qed.

Lemma rowOf_reverse (rows_ : list (list value)) k :
  0 <= k < Z.of_nat (length rows_) ->
  Matrix.rowOf (reverse rows_) k = Matrix.rowOf rows_ (Z.of_nat (length rows_) - 1 - k).
Proof.
  intros Hk. unfold Matrix.rowOf.
  destruct (Z.ltb_spec k 0); [lia |].
  destruct (Z.ltb_spec (Z.of_nat (length rows_) - 1 - k) 0); [lia |].
  rewrite reverse_lookup by lia.
  do 2 f_equal. lia.
Qed.

(** * Rows of the identity *)

Lemma identity_wellFormed n :
  0 < n ->
  wellFormed (matrixOf (tabulate n n (fun i j => if i =? j then 1%float else 0%float)) n n).
Proof.
  intros Hn. apply matrixOf_wellFormed; [lia | lia | apply tabulate_length; lia |].
  apply tabulate_noNaN; [lia | lia |].
  intros i j _ _. destruct (i =? j); reflexivity.
Qed.

Lemma identity_positive n Id : Matrix.identity n = Ok Id -> 0 < n.
Proof.
  unfold Matrix.identity. destruct (Z.leb_spec n 0); [discriminate | lia].
Qed.

Lemma getRow_identity n Id k :
  Matrix.identity n = Ok Id -> 0 <= k < n ->
  Matrix.getRow Id k = Ok (unitVector n k).
Proof.
  intros Hid Hk. pose proof (identity_positive n Id Hid) as Hn.
  rewrite identity_matrixOf in Hid by exact Hn. injection Hid as <-.
  destruct (matrixOf_fields (tabulate n n (fun i j => if i =? j then 1%float else 0%float)) n n)
    as (Hr & Hc & Hbuf).
  rewrite getRow_row; [| apply identity_wellFormed; exact Hn | rewrite Hr; exact Hk].
  rewrite Hc. f_equal. unfold unitVector.
  apply list_eq. intros m. change (map ?h ?l) with (h <$> l).
  rewrite !list_lookup_fmap.
  destruct (seqZ 0 n !! m) as [j |] eqn:Hj; [| reflexivity]. simpl.
  apply lookup_seqZ in Hj as [-> Hm]. do 2 f_equal.
  apply (entry_tabulate n n (fun i j => if i =? j then 1%float else 0%float));
    [exact Hbuf | exact Hc | lia | lia].
Qed.

(** * What a successful construction tells *)

Lemma ofArray_Ok_entries entries M :
  Matrix.ofArray entries = Ok M ->
  wellFormed M
  /\ rows M = Z.of_nat (length entries)
  /\ columns M = Z.of_nat (length (Matrix.rowOf entries 0))
  /\ forall i j, 0 <= i < rows M -> 0 <= j < columns M ->
       entry M i j = fround (toNumber (cell entries i j)).
Proof.
  intros Hrun. pose proof (ofArray_wellFormed _ _ Hrun) as Hwf.
  split; [exact Hwf |].
  assert (Hvalid : Matrix.validateMatrixEntries entries = true).
  { unfold Matrix.ofArray in Hrun.
    destruct (Matrix.validateMatrixEntries entries); [reflexivity | discriminate]. }
  apply acceptable_validate in Hvalid as (r & c & Hr & Hc & Hrect & Hnum).
  rewrite (ofArray_stores entries r c Hr Hc Hrect Hnum) in Hrun. injection Hrun as <-.
  destruct (matrixOf_fields
              (tabulate r c (fun i j => fround (toNumber (cell entries i j)))) r c)
    as (Hrows & Hcols & Hbuf).
  rewrite Hrows, Hcols, (rectangular_rowOf entries r c 0 Hrect) by lia.
  split; [symmetry; apply Hrect |]. split; [reflexivity |].
  intros i j Hi Hj.
  apply (entry_tabulate r c (fun i j => fround (toNumber (cell entries i j))));
    assumption.
Qed.

Lemma diagonal_cases A n :
  0 <= n ->
  (exists i, 0 <= i < n /\ (entry A i i =? 0)%float = true)
  \/ (forall i, 0 <= i < n -> (entry A i i =? 0)%float = false).
Proof.
  intros Hn. rewrite <- (Z2Nat.id n Hn). clear Hn.
  induction (Z.to_nat n) as [| m IH].
  - right. intros i Hi. lia.
  - destruct IH as [(i & Hi & Hz) | Hall].
    + left. exists i. split; [lia | exact Hz].
    + destruct (entry A (Z.of_nat m) (Z.of_nat m) =? 0)%float eqn:Hm.
      * left. exists (Z.of_nat m). split; [lia | exact Hm].
      * right. intros i Hi. destruct (Z.eq_dec i (Z.of_nat m)) as [-> | Hne];
          [exact Hm | apply Hall; lia].
Qed.

Lemma wellFormed_square A : wellFormed A -> isSquare A = true -> rows A = columns A.
Proof.
  intros HA Hsq. destruct (wf_flags _ HA) as (Hflag & _ & _).
  rewrite Hsq in Hflag. symmetry in Hflag. apply Z.eqb_eq in Hflag. exact Hflag.
Qed.

Lemma backSubstitution_length A b sol :
  wellFormed A -> rows A = columns A ->
  Matrix.backSubstitution A b = Ok sol -> Z.of_nat (length sol) = rows A.
Proof.
  intros HA Hsq Hrun.
  assert (Hupper : Matrix.isUpperTriangular A = Ok true).
  { unfold Matrix.backSubstitution in Hrun.
    destruct (Matrix.isUpperTriangular A) as [[|] | e]; [reflexivity | discriminate..]. }
  destruct (diagonal_cases A (rows A)) as [Hz | Hnz]; [pose proof (wf_rows _ HA); lia | |].
  - rewrite (backSubstitution_singular A b Hsq (wf_rows _ HA) (wf_size _ HA)
               (wf_storage _ HA) Hupper Hz) in Hrun.
    discriminate.
  - destruct (backSubstitution_regular A b Hsq (wf_rows _ HA) (wf_size _ HA)
                (wf_storage _ HA) Hupper Hnz) as (sol' & Hrun' & Hlen & _).
    congruence.
Qed.

Lemma forwardSubstitution_length A b sol :
  wellFormed A -> rows A = columns A ->
  Matrix.forwardSubstitution A b = Ok sol -> Z.of_nat (length sol) = rows A.
Proof.
  intros HA Hsq Hrun.
  assert (Hlower : Matrix.isLowerTriangular A = Ok true).
  { unfold Matrix.forwardSubstitution in Hrun.
    destruct (Matrix.isLowerTriangular A) as [[|] | e]; [reflexivity | discriminate..]. }
  destruct (diagonal_cases A (rows A)) as [Hz | Hnz]; [pose proof (wf_rows _ HA); lia | |].
  - rewrite (forwardSubstitution_singular A b Hsq (wf_size _ HA)
               (wf_storage _ HA) Hlower Hz) in Hrun.
    discriminate.
  - destruct (forwardSubstitution_regular A b Hsq (wf_size _ HA)
                (wf_storage _ HA) ltac:(pose proof (wf_rows _ HA); lia) Hlower Hnz)
      as (sol' & Hrun' & Hlen & _).
    congruence.
Qed.

(** * The inverses, column by column *)

(** What the constructor and the transposition make of the rows
    [solutions]: the entry [(j, k)] is element [j] of row [k], rounded on
    the way into each of the two buffers. *)
Lemma transposed_solutions (solutions : list (list value)) inverse n :
  0 < n ->
  Z.of_nat (length solutions) = n ->
  Z.of_nat (length (Matrix.rowOf solutions 0)) = n ->
  Matrix.ofArray solutions = Ok inverse ->
  rows (Matrix.transpose inverse) = n
  /\ columns (Matrix.transpose inverse) = n
  /\ forall j k, 0 <= j < n -> 0 <= k < n ->
       entry (Matrix.transpose inverse) j k
       = fround (fround (toNumber (arr_get (Matrix.rowOf solutions k) j))).
Proof.
  intros Hn Hlen Hlen0 Hrun.
  apply ofArray_Ok_entries in Hrun as (Hwf & Hr & Hc & Hentry).
  rewrite transpose_rows, transpose_columns.
  split; [lia |]. split; [lia |].
  intros j k Hj Hk.
  rewrite transpose_entry_at; [| apply (wf_storage _ Hwf) | lia | lia].
  rewrite Hentry by lia. reflexivity.
Qed.

Lemma invertUpper_solutions A V :
  wellFormed A ->
  Matrix.invertUpper A = Ok V ->
  rows V = rows A /\ columns V = rows A
  /\ forall k, 0 <= k < rows A ->
       exists sol,
         Matrix.backSubstitution A (unitVector (rows A) k) = Ok sol
         /\ forall j, 0 <= j < rows A ->
              entry V j k = fround (fround (toNumber (arr_get sol j))).
Proof.
  intros HA. unfold Matrix.invertUpper.
  destruct (isSquare A) eqn:Hsquare; [| discriminate]. cbn [negb].
  pose proof (wellFormed_square A HA Hsquare) as Hsq.
  pose proof (wf_rows _ HA) as Hn. set (n := rows A) in *.
  intros Hrun. bind_inv Hrun upper Hupper.
  destruct upper; [| discriminate]. cbn [negb] in Hrun.
  bind_inv Hrun identityMatrix Hid. bind_inv Hrun inverted Hloop.
  bind_inv Hrun inverse Hinverse. injection Hrun as <-.
  assert (Hinv : Z.of_nat (length inverted) = n
                 /\ forall k, 0 <= k < n ->
                      Matrix.backSubstitution A (unitVector n (n - k - 1))
                      = Ok (Matrix.rowOf inverted k)).
  { apply (for_downM_inv
             (fun i inv =>
                ((i = n - 1 /\ inv = []) \/ Z.of_nat (length inv) = n)
                /\ forall k, i < k < n ->
                     Matrix.backSubstitution A (unitVector n (n - k - 1))
                     = Ok (Matrix.rowOf inv k))) in Hloop.
    - destruct Hloop as [[[Hneg _] | Hlen] Hrows]; [lia |].
      split; [exact Hlen | intros k Hk; apply Hrows; lia].
    - lia.
    - split; [left; split; reflexivity | intros; lia].
    - intros i inv inv' Hi [Hlen Hrows] Hbody.
      rewrite (getRow_identity n identityMatrix (n - i - 1) Hid) in Hbody by lia.
      cbn [JS.bind] in Hbody.
      bind_inv Hbody solution Hsol. injection Hbody as <-.
      split.
      + right. rewrite rows_set_length by lia.
        destruct Hlen as [[-> ->] | Hlen]; simpl; lia.
      + intros k Hk. destruct (Z.eq_dec k i) as [-> | Hne].
        * rewrite rowOf_set_eq by lia. exact Hsol.
        * rewrite rowOf_set_ne by lia. apply Hrows. lia. }
  destruct Hinv as [Hlen Hrows].
  assert (Hrev : forall k, 0 <= k < n ->
            Matrix.backSubstitution A (unitVector n k)
            = Ok (Matrix.rowOf (reverse inverted) k)).
  { intros k Hk. rewrite rowOf_reverse by lia. rewrite <- Hrows by lia.
    do 2 f_equal. lia. }
  destruct (transposed_solutions (reverse inverted) inverse n) as (Hr & Hc & Hentry).
  - exact Hn.
  - rewrite length_reverse. exact Hlen.
  - apply (backSubstitution_length A (unitVector n 0)); [exact HA | exact Hsq |].
    apply Hrev. lia.
  - exact Hinverse.
  - split; [exact Hr |]. split; [exact Hc |].
    intros k Hk. exists (Matrix.rowOf (reverse inverted) k).
    split; [apply Hrev; exact Hk |].
    intros j Hj. apply Hentry; assumption.
Qed.

Lemma invertLower_solutions A V :
  wellFormed A ->
  Matrix.invertLower A = Ok V ->
  rows V = rows A /\ columns V = rows A
  /\ forall k, 0 <= k < rows A ->
       exists sol,
         Matrix.forwardSubstitution A (unitVector (rows A) k) = Ok sol
         /\ forall j, 0 <= j < rows A ->
              entry V j k = fround (fround (toNumber (arr_get sol j))).
Proof.
  intros HA. unfold Matrix.invertLower.
  destruct (isSquare A) eqn:Hsquare; [| discriminate]. cbn [negb].
  pose proof (wellFormed_square A HA Hsquare) as Hsq.
  pose proof (wf_rows _ HA) as Hn. set (n := rows A) in *.
  intros Hrun. bind_inv Hrun lower Hlower.
  destruct lower; [| discriminate]. cbn [negb] in Hrun.
  bind_inv Hrun identityMatrix Hid. bind_inv Hrun inverted Hloop.
  bind_inv Hrun inverse Hinverse. injection Hrun as <-.
  assert (Hinv : Z.of_nat (length inverted) = n
                 /\ forall k, 0 <= k < n ->
                      Matrix.forwardSubstitution A (unitVector n k)
                      = Ok (Matrix.rowOf inverted k)).
  { apply (for_upM_inv
             (fun i inv =>
                Z.of_nat (length inv) = i
                /\ forall k, 0 <= k < i ->
                     Matrix.forwardSubstitution A (unitVector n k)
                     = Ok (Matrix.rowOf inv k))) in Hloop.
    - exact Hloop.
    - lia.
    - split; [reflexivity | intros; lia].
    - intros i inv inv' Hi [Hlen Hrows] Hbody.
      rewrite (getRow_identity n identityMatrix i Hid) in Hbody by lia.
      cbn [JS.bind] in Hbody.
      bind_inv Hbody solution Hsol. injection Hbody as <-.
      split.
      + rewrite rows_set_length by lia. lia.
      + intros k Hk. destruct (Z.eq_dec k i) as [-> | Hne].
        * rewrite rowOf_set_eq by lia. exact Hsol.
        * rewrite rowOf_set_ne by lia. apply Hrows. lia. }
  destruct Hinv as [Hlen Hrows].
  destruct (transposed_solutions inverted inverse n) as (Hr & Hc & Hentry).
  - exact Hn.
  - exact Hlen.
  - apply (forwardSubstitution_length A (unitVector n 0)); [exact HA | exact Hsq |].
    apply Hrows. lia.
  - exact Hinverse.
  - split; [exact Hr |]. split; [exact Hc |].
    intros k Hk. exists (Matrix.rowOf inverted k).
    split; [apply Hrows; exact Hk |].
    intros j Hj. apply Hentry; assumption.
Qed.

(** * Sums and differences of matrices *)

Lemma is_nan_true x : is_nan x = true -> x = nan.
Proof.
  intros H. destruct (is_nan x) eqn:Hx; [| discriminate].
  apply Prim2SF_nan_eq.
  destruct (Prim2SF x) as [s | s | | s m e] eqn:Hsf; [| | reflexivity |];
    assert (Hno : is_nan x = false) by (apply is_nan_Prim2SF; rewrite Hsf; discriminate);
    congruence.
Qed.

Lemma tabulate_holds_nan r c f i j :
  0 <= i < r -> 0 <= j < c -> f i j = nan ->
  tabulate r c f !! Z.to_nat (i * c + j) = Some nan.
Proof.
  intros Hi Hj Hf. rewrite tabulate_lookup by assumption. rewrite Hf. reflexivity.
Qed.

Section Pointwise.

Variables A B : Matrix.
Hypothesis HA : wellFormed A.
Hypothesis HB : wellFormed B.
Hypothesis Hrows : rows B = rows A.
Hypothesis Hcolumns : columns B = columns A.

Lemma add_buffer :
  Matrix.add A B
  = Matrix.ofFloat32Array
      (tabulate (rows A) (columns A) (fun i j => fround (entry A i j + entry B i j)))
      (Some (rows A)) (Some (columns A)).
Proof.
  rewrite add_combine, (same_shape A B HA HB Hrows Hcolumns). cbn [negb].
  rewrite (combine_tabulate PrimFloat.add A B HA (wf_storage _ HB) Hrows Hcolumns).
  reflexivity.
Qed.

Lemma subtract_buffer :
  Matrix.subtract A B
  = Matrix.ofFloat32Array
      (tabulate (rows A) (columns A) (fun i j => fround (entry A i j - entry B i j)))
      (Some (rows A)) (Some (columns A)).
Proof.
  rewrite subtract_combine, (same_shape A B HA HB Hrows Hcolumns). cbn [negb].
  rewrite (combine_tabulate PrimFloat.sub A B HA (wf_storage _ HB) Hrows Hcolumns).
  reflexivity.
Qed.

End Pointwise.

(** A buffer given by a formula makes a matrix when no value is NaN, and
    is turned away otherwise. *)
Lemma ofFloat32Array_tabulate r c f :
  0 < r -> 0 < c ->
  ((forall i j, 0 <= i < r -> 0 <= j < c -> is_nan (f i j) = false) ->
   Matrix.ofFloat32Array (tabulate r c (fun i j => fround (f i j))) (Some r) (Some c)
   = Ok (matrixOf (tabulate r c (fun i j => fround (f i j))) r c))
  /\ ((exists i j, 0 <= i < r /\ 0 <= j < c /\ is_nan (f i j) = true) ->
      Matrix.ofFloat32Array (tabulate r c (fun i j => fround (f i j))) (Some r) (Some c)
      = Throw (MatrixError "Invalid Float32Array entries" 805)).
Proof.
  intros Hr Hc. split.
  - intros Hf. apply ofFloat32Array_matrixOf; [exact Hr | exact Hc |].
    apply tabulate_noNaN; [lia | lia |].
    intros i j Hi Hj. apply fround_not_nan, Hf; assumption.
  - intros (i & j & Hi & Hj & Hnan).
    apply (ofFloat32Array_NaN _ r c (Z.to_nat (i * c + j)) Hr Hc).
    apply tabulate_holds_nan; [exact Hi | exact Hj |].
    rewrite (is_nan_true _ Hnan). reflexivity.
Qed.

Lemma matrixOf_entries f r c :
  0 < r -> 0 < c ->
  (forall i j, 0 <= i < r -> 0 <= j < c -> is_nan (f i j) = false) ->
  let M := matrixOf (tabulate r c f) r c in
  wellFormed M /\ rows M = r /\ columns M = c
  /\ forall i j, 0 <= i < r -> 0 <= j < c -> entry M i j = f i j.
Proof.
  intros Hr Hc Hf M.
  destruct (matrixOf_fields (tabulate r c f) r c) as (Hrows & Hcols & Hbuf).
  split; [| split; [exact Hrows | split; [exact Hcols |]]].
  - apply matrixOf_wellFormed; [exact Hr | exact Hc | apply tabulate_length; lia |].
    apply tabulate_noNaN; [lia | lia | exact Hf].
  - intros i j Hi Hj. apply (entry_tabulate r c f); assumption.
Qed.

(** * What the solvers and the inverses turn away *)

Lemma isUpperTriangular_false A :
  wellFormed A -> rows A = columns A -> ~ zeroBelowDiagonal A ->
  Matrix.isUpperTriangular A = Ok false.
Proof.
  intros HA Hsq Hno.
  destruct (isUpperTriangular_spec_gen A (wf_size _ HA) (wf_storage _ HA) ltac:(lia))
    as (ok & Hrun & Hok).
  destruct ok; [exfalso; apply Hno, Hok; reflexivity | exact Hrun].
Qed.

Lemma isUpperTriangular_true A :
  wellFormed A -> rows A = columns A -> zeroBelowDiagonal A ->
  Matrix.isUpperTriangular A = Ok true.
Proof.
  intros HA Hsq Hyes.
  destruct (isUpperTriangular_spec_gen A (wf_size _ HA) (wf_storage _ HA) ltac:(lia))
    as (ok & Hrun & Hok).
  rewrite (proj2 Hok Hyes) in Hrun. exact Hrun.
Qed.

Lemma isLowerTriangular_false A :
  wellFormed A -> rows A = columns A -> ~ zeroAboveDiagonal A ->
  Matrix.isLowerTriangular A = Ok false.
Proof.
  intros HA Hsq Hno.
  destruct (isLowerTriangular_spec_gen A (wf_size _ HA) (wf_storage _ HA) ltac:(lia))
    as (ok & Hrun & Hok).
  destruct ok; [exfalso; apply Hno, Hok; reflexivity | exact Hrun].
Qed.

Lemma isLowerTriangular_true A :
  wellFormed A -> rows A = columns A -> zeroAboveDiagonal A ->
  Matrix.isLowerTriangular A = Ok true.
Proof.
  intros HA Hsq Hyes.
  destruct (isLowerTriangular_spec_gen A (wf_size _ HA) (wf_storage _ HA) ltac:(lia))
    as (ok & Hrun & Hok).
  rewrite (proj2 Hok Hyes) in Hrun. exact Hrun.
Qed.

Lemma wellFormed_not_square A : wellFormed A -> rows A <> columns A -> isSquare A = false.
Proof.
  intros HA Hne. destruct (wf_flags _ HA) as (-> & _ & _). apply Z.eqb_neq. exact Hne.
Qed.

Lemma wellFormed_is_square A : wellFormed A -> rows A = columns A -> isSquare A = true.
Proof.
  intros HA Heq. destruct (wf_flags _ HA) as (-> & _ & _). apply Z.eqb_eq. exact Heq.
Qed.

Lemma for_downM_first {St} (bodyM : Z -> St -> completion St) hi lo s e :
  lo < hi -> bodyM hi s = Throw e -> for_downM hi lo bodyM s = Throw e.
Proof.
  intros Hlt Hbody. unfold for_downM.
  destruct (Z.to_nat (hi - lo)) as [| n] eqn:Hn; [lia |].
  simpl. rewrite Hbody. reflexivity.
Qed.

Lemma for_upM_first {St} (bodyM : Z -> St -> completion St) lo hi s e :
  lo < hi -> bodyM lo s = Throw e -> for_upM lo hi bodyM s = Throw e.
Proof.
  intros Hlt Hbody. unfold for_upM.
  destruct (Z.to_nat (hi - lo)) as [| n] eqn:Hn; [lia |].
  simpl. rewrite Hbody. reflexivity.
Qed.

Lemma invertUpper_singular A :
  wellFormed A -> rows A = columns A -> zeroBelowDiagonal A ->
  (exists i, 0 <= i < rows A /\ (entry A i i =? 0)%float = true) ->
  Matrix.invertUpper A
  = Throw (MatrixError "Unsolvable system: zero on diagonal" 814).
Proof.
  intros HA Hsq Hupper Hz. unfold Matrix.invertUpper.
  rewrite (wellFormed_is_square A HA Hsq). cbn [negb].
  rewrite (isUpperTriangular_true A HA Hsq Hupper). cbn [JS.bind negb].
  pose proof (wf_rows _ HA) as Hn.
  rewrite identity_matrixOf by exact Hn. cbn [JS.bind].
  rewrite (for_downM_first _ _ _ _
             (MatrixError "Unsolvable system: zero on diagonal" 814)); [reflexivity | lia |].
  rewrite (getRow_identity (rows A) _ (rows A - (rows A - 1) - 1)
             (identity_matrixOf (rows A) Hn)) by lia.
  cbn [JS.bind].
  rewrite (backSubstitution_singular A _ Hsq Hn (wf_size _ HA) (wf_storage _ HA)
             (isUpperTriangular_true A HA Hsq Hupper) Hz).
  reflexivity.
Qed.

Lemma invertLower_singular A :
  wellFormed A -> rows A = columns A -> zeroAboveDiagonal A ->
  (exists i, 0 <= i < rows A /\ (entry A i i =? 0)%float = true) ->
  Matrix.invertLower A
  = Throw (MatrixError "Unsolvable system: zero on diagonal" 814).
Proof.
  intros HA Hsq Hlower Hz. unfold Matrix.invertLower.
  rewrite (wellFormed_is_square A HA Hsq). cbn [negb].
  rewrite (isLowerTriangular_true A HA Hsq Hlower). cbn [JS.bind negb].
  pose proof (wf_rows _ HA) as Hn.
  rewrite identity_matrixOf by exact Hn. cbn [JS.bind].
  rewrite (for_upM_first _ _ _ _
             (MatrixError "Unsolvable system: zero on diagonal" 814)); [reflexivity | lia |].
  rewrite (getRow_identity (rows A) _ 0 (identity_matrixOf (rows A) Hn)) by lia.
  cbn [JS.bind].
  rewrite (forwardSubstitution_singular A _ Hsq (wf_size _ HA) (wf_storage _ HA)
             (isLowerTriangular_true A HA Hsq Hlower) Hz).
  reflexivity.
Qed.

(** * Dot products *)

Lemma dot_comm u v : length u = length v -> Matrix.dot u v = Matrix.dot v u.
Proof.
  intros Hlen. unfold Matrix.dot. rewrite Hlen. apply for_up_ext.
  intros i acc _. rewrite number_mul_comm. reflexivity.
Qed.

Lemma dot_short u v :
  (length v < length u)%nat -> Matrix.dot u v = nan.
Proof.
  intros Hlen. unfold Matrix.dot.
  rewrite (for_up_split 0 (Z.of_nat (length v) + 1) (Z.of_nat (length u))) by lia.
  rewrite (for_up_split 0 (Z.of_nat (length v)) (Z.of_nat (length v) + 1)) by lia.
  set (acc := for_up 0 (Z.of_nat (length v)) _ 0%float).
  assert (Hstep : for_up (Z.of_nat (length v)) (Z.of_nat (length v) + 1)
                    (fun i dotProduct =>
                       (dotProduct + toNumber (arr_get u i) * toNumber (arr_get v i))%float)
                    acc = nan).
  { unfold for_up. replace (Z.of_nat (length v) + 1 - Z.of_nat (length v)) with 1 by lia.
    simpl. unfold arr_get at 2.
    destruct (Z.ltb_spec (Z.of_nat (length v)) 0); [lia |].
    rewrite Nat2Z.id, (lookup_ge_None_2 v) by lia. simpl.
    rewrite mul_nan_r, add_nan_r. reflexivity. }
  rewrite Hstep.
  apply (for_up_preserves (fun x => x = nan)); [reflexivity |].
  intros k t _ ->. apply add_nan_l.
Qed.

(** * Integer matrices *)

Lemma isIntMatrix_tabulate r c f :
  0 <= r -> 0 < c ->
  (forall i j, 0 <= i < r -> 0 <= j < c -> isInteger (f i j) = true) ->
  Matrix.isIntMatrix (matrixOf (tabulate r c f) r c) = true.
Proof.
  intros Hr Hc Hf. unfold Matrix.isIntMatrix.
  destruct (matrixOf_fields (tabulate r c f) r c) as (_ & _ & ->).
  apply forallb_forall. intros x Hx. apply list_elem_of_In in Hx.
  unfold tabulate in Hx. change (map ?g ?l) with (g <$> l) in Hx.
  apply list_elem_of_fmap in Hx as (k & -> & Hk). apply elem_of_seqZ in Hk.
  apply Hf.
  - split; [apply Z.div_pos; lia | apply Z.div_lt_upper_bound; lia].
  - apply Z.mod_pos_bound. exact Hc.
Qed.

(** * The transpose as a table *)

Lemma transpose_matrixOf A :
  wellFormed A ->
  Matrix.transpose A
  = matrixOf (tabulate (columns A) (rows A) (fun j i => fround (entry A i j)))
             (columns A) (rows A).
Proof.
  intros HA. pose proof (transpose_wellFormed A HA) as HT.
  rewrite (wellFormed_matrixOf _ HT).
  rewrite transpose_rows, transpose_columns. f_equal.
  apply tabulate_unique; [pose proof (wf_columns _ HA); lia | apply (wf_rows _ HA) | |].
  - pose proof (wf_storage _ HT) as Hfit. unfold storageFits in Hfit.
    rewrite transpose_rows, transpose_columns in Hfit. exact Hfit.
  - intros j i Hj Hi.
    pose proof (entry_lookup (Matrix.transpose A) j i (wf_storage _ HT)) as Hlook.
    rewrite transpose_rows, transpose_columns in Hlook.
    rewrite Hlook by lia. f_equal.
    apply transpose_entry_at; [apply (wf_storage _ HA) | lia | lia].
Qed.

(** * Arrays that agree element by element *)

Lemma arr_get_lookup (l : list value) i v :
  l !! i = Some v -> arr_get l (Z.of_nat i) = v.
Proof.
  intros Hv. unfold arr_get. destruct (Z.ltb_spec (Z.of_nat i) 0); [lia |].
  rewrite Nat2Z.id, Hv. reflexivity.
Qed.

Lemma arr_get_ext (l l' : list value) :
  length l = length l' ->
  (forall i, 0 <= i < Z.of_nat (length l) -> arr_get l i = arr_get l' i) ->
  l = l'.
Proof.
  intros Hlen Hext. apply list_eq. intros n.
  destruct (decide (n < length l)%nat) as [Hn | Hn].
  - destruct (lookup_lt_is_Some_2 l n Hn) as [v Hv].
    destruct (lookup_lt_is_Some_2 l' n ltac:(lia)) as [v' Hv'].
    rewrite Hv, Hv'. f_equal.
    rewrite <- (arr_get_lookup l n v Hv), <- (arr_get_lookup l' n v' Hv').
    apply Hext. lia.
  - rewrite !lookup_ge_None_2 by lia. reflexivity.
Qed.

Lemma rowOf_ext (l l' : list (list value)) :
  length l = length l' ->
  (forall i, 0 <= i < Z.of_nat (length l) -> Matrix.rowOf l i = Matrix.rowOf l' i) ->
  l = l'.
Proof.
  intros Hlen Hext. apply list_eq. intros n.
  destruct (decide (n < length l)%nat) as [Hn | Hn].
  - destruct (lookup_lt_is_Some_2 l n Hn) as [v Hv].
    destruct (lookup_lt_is_Some_2 l' n ltac:(lia)) as [v' Hv'].
    rewrite Hv, Hv'. f_equal.
    specialize (Hext (Z.of_nat n) ltac:(lia)). unfold Matrix.rowOf in Hext.
    destruct (Z.ltb_spec (Z.of_nat n) 0); [lia |].
    rewrite Nat2Z.id, Hv, Hv' in Hext. exact Hext.
  - rewrite !lookup_ge_None_2 by lia. reflexivity.
Qed.

Lemma arr_get_unitVector n k i :
  0 <= i < n -> arr_get (unitVector n k) i = Num (if k =? i then 1%float else 0%float).
Proof.
  intros Hi. unfold arr_get, unitVector.
  destruct (Z.ltb_spec i 0); [lia |].
  change (map ?h ?l) with (h <$> l). rewrite list_lookup_fmap.
  rewrite (lookup_seqZ_lt 0 n (Z.to_nat i)) by lia. simpl.
  replace (0 + Z.of_nat (Z.to_nat i)) with i by lia. reflexivity.
Qed.

Lemma unitVector_length n k : 0 <= n -> Z.of_nat (length (unitVector n k)) = n.
Proof. intros Hn. unfold unitVector. rewrite length_map, length_seqZ. lia. Qed.

Lemma for_down_preserves {St} (P : St -> Prop) hi lo (body : Z -> St -> St) s :
  P s ->
  (forall k t, lo < k <= hi -> P t -> P (body k t)) ->
  P (for_down hi lo body s).
Proof.
  intros Hs Hstep. unfold for_down.
  assert (Hgen : forall n i t, i - Z.of_nat n >= lo -> i <= hi -> P t ->
                               P (loop_down n i body t)).
  { induction n as [| n IH]; intros i t Hlo Hhi Ht; simpl; [exact Ht |].
    apply IH; [lia | lia |]. apply Hstep; [lia | exact Ht]. }
  destruct (Z.le_gt_cases lo hi).
  - apply Hgen; [lia | lia | exact Hs].
  - replace (Z.to_nat (hi - lo)) with 0%nat by lia. exact Hs.
Qed.

(** * The identity is its own inverse *)

Section IdentityInverse.

Variable n : Z.
Hypothesis Hn : 0 < n.

Let Id := matrixOf (tabulate n n (fun i j => if i =? j then 1%float else 0%float)) n n.

Lemma Id_facts :
  wellFormed Id /\ rows Id = n /\ columns Id = n
  /\ forall i j, 0 <= i < n -> 0 <= j < n ->
       entry Id i j = if i =? j then 1%float else 0%float.
Proof.
  apply (matrixOf_entries (fun i j => if i =? j then 1%float else 0%float) n n Hn Hn).
  intros i j _ _. destruct (i =? j); reflexivity.
Qed.

Lemma Id_zeroBelowDiagonal : zeroBelowDiagonal Id.
Proof.
  destruct Id_facts as (_ & _ & Hc & Hentry).
  intros i j Hj Hi. rewrite Hc in Hi. rewrite Hentry by lia.
  destruct (Z.eqb_spec i j); [lia | reflexivity].
Qed.

Lemma Id_zeroAboveDiagonal : zeroAboveDiagonal Id.
Proof.
  destruct Id_facts as (_ & _ & Hc & Hentry).
  intros i j Hj Hi. rewrite Hc in Hi. rewrite Hentry by lia.
  destruct (Z.eqb_spec j i); [lia | reflexivity].
Qed.

Lemma Id_diagonal i : 0 <= i < rows Id -> (entry Id i i =? 0)%float = false.
Proof.
  destruct Id_facts as (_ & Hr & _ & Hentry).
  intros Hi. rewrite Hr in Hi. rewrite Hentry by lia.
  rewrite Z.eqb_refl. reflexivity.
Qed.

Lemma zero_one_product (x : float) :
  x = 0%float \/ x = 1%float -> (0 + 0 * x)%float = 0%float /\ (0 + x * 0)%float = 0%float.
Proof. intros [-> | ->]; split; reflexivity. Qed.

Lemma zero_one_quotient (x : float) :
  x = 0%float \/ x = 1%float -> ((x - 0) / 1)%float = x.
Proof. intros [-> | ->]; reflexivity. Qed.

Lemma unit_zero_one k i : 
  (if k =? i then 1%float else 0%float) = 0%float
  \/ (if k =? i then 1%float else 0%float) = 1%float.
Proof. destruct (k =? i); auto. Qed.

Lemma backSubstitution_Id k :
  0 <= k < n ->
  Matrix.backSubstitution Id (unitVector n k) = Ok (unitVector n k).
Proof.
  intros Hk. destruct Id_facts as (Hwf & Hr & Hc & Hentry).
  assert (Hsq : rows Id = columns Id) by lia.
  destruct (backSubstitution_regular Id (unitVector n k) Hsq
              ltac:(lia) (wf_size _ Hwf) (wf_storage _ Hwf)
              (isUpperTriangular_true Id Hwf Hsq Id_zeroBelowDiagonal) Id_diagonal)
    as (sol & Hrun & Hlen & Hsol).
  rewrite Hrun. f_equal.
  assert (Hall : forall m, (m <= Z.to_nat n)%nat ->
            forall i, n - Z.of_nat m <= i < n ->
              arr_get sol i = Num (if k =? i then 1%float else 0%float)).
  { induction m as [| m IH]; intros Hm i Hi; [lia |].
    destruct (Z.eq_dec i (n - Z.of_nat (S m))) as [-> | Hne]; [| apply IH; lia].
    set (i := n - Z.of_nat (S m)) in *.
    rewrite Hsol by lia. f_equal.
    assert (Htail : tailSum Id sol i = 0%float).
    { unfold tailSum.
      apply (for_down_preserves (fun x => x = 0%float)); [reflexivity |].
      intros j t Hj ->. rewrite Hc in Hj.
      rewrite Hentry by lia. destruct (Z.eqb_spec i j); [lia |].
      rewrite (IH ltac:(lia) j) by lia. simpl.
      apply (zero_one_product _ (unit_zero_one k j)). }
    rewrite Htail, Hentry by lia. rewrite Z.eqb_refl.
    rewrite arr_get_unitVector by lia. simpl.
    apply (zero_one_quotient _ (unit_zero_one k i)). }
  apply arr_get_ext.
  - pose proof (unitVector_length n k ltac:(lia)). lia.
  - intros i Hi. rewrite arr_get_unitVector by lia.
    apply (Hall (Z.to_nat n)); lia.
Qed.

Lemma forwardSubstitution_Id k :
  0 <= k < n ->
  Matrix.forwardSubstitution Id (unitVector n k) = Ok (unitVector n k).
Proof.
  intros Hk. destruct Id_facts as (Hwf & Hr & Hc & Hentry).
  assert (Hsq : rows Id = columns Id) by lia.
  destruct (forwardSubstitution_regular Id (unitVector n k) Hsq
              (wf_size _ Hwf) (wf_storage _ Hwf) ltac:(lia)
              (isLowerTriangular_true Id Hwf Hsq Id_zeroAboveDiagonal) Id_diagonal)
    as (sol & Hrun & Hlen & Hsol).
  rewrite Hrun. f_equal.
  assert (Hall : forall m, (m <= Z.to_nat n)%nat ->
            forall i, 0 <= i < Z.of_nat m ->
              arr_get sol i = Num (if k =? i then 1%float else 0%float)).
  { induction m as [| m IH]; intros Hm i Hi; [lia |].
    destruct (Z.eq_dec i (Z.of_nat m)) as [-> | Hne]; [| apply IH; lia].
    set (i := Z.of_nat m) in *.
    rewrite Hsol by lia. unfold solvedForward. f_equal.
    assert (Hhead : headSum Id sol i = 0%float).
    { unfold headSum.
      apply (for_up_preserves (fun x => x = 0%float)); [reflexivity |].
      intros j t Hj ->.
      rewrite Hentry by lia. destruct (Z.eqb_spec i j); [lia |].
      rewrite (IH ltac:(lia) j) by lia. simpl.
      apply (zero_one_product _ (unit_zero_one k j)). }
    rewrite Hhead, Hentry by lia. rewrite Z.eqb_refl.
    rewrite arr_get_unitVector by lia. simpl.
    apply (zero_one_quotient _ (unit_zero_one k i)). }
  apply arr_get_ext.
  - pose proof (unitVector_length n k ltac:(lia)). lia.
  - intros i Hi. rewrite arr_get_unitVector by lia.
    apply (Hall (Z.to_nat n)); lia.
Qed.

Lemma unit_rows_matrix :
  Matrix.ofArray (map (fun k => unitVector n k) (seqZ 0 n)) = Ok Id.
Proof.
  unfold unitVector.
  rewrite (ofArray_table (fun k j => Num (if k =? j then 1%float else 0%float)) n n Hn Hn).
  - unfold Id. do 2 f_equal. apply tabulate_ext; [lia | lia |].
    intros i j _ _. destruct (i =? j); reflexivity.
  - intros i j _ _. destruct (i =? j); eexists; split; reflexivity.
Qed.

Lemma transpose_Id : Matrix.transpose Id = Id.
Proof.
  destruct Id_facts as (Hwf & Hr & Hc & Hentry).
  rewrite (transpose_matrixOf Id Hwf), Hr, Hc. unfold Id at 2. f_equal.
  apply tabulate_ext; [lia | lia |].
  intros j i Hj Hi. rewrite Hentry by lia. rewrite (Z.eqb_sym i j).
  destruct (j =? i); reflexivity.
Qed.

Lemma unit_rows (rows_ : list (list value)) :
  Z.of_nat (length rows_) = n ->
  (forall k, 0 <= k < n -> Matrix.rowOf rows_ k = unitVector n k) ->
  rows_ = map (fun k => unitVector n k) (seqZ 0 n).
Proof.
  intros Hlen Hrows. apply rowOf_ext.
  - rewrite length_map, length_seqZ. lia.
  - intros k Hk. rewrite Hrows by lia.
    unfold Matrix.rowOf. destruct (Z.ltb_spec k 0); [lia |].
    change (map ?h ?l) with (h <$> l). rewrite list_lookup_fmap.
    rewrite (lookup_seqZ_lt 0 n (Z.to_nat k)) by lia. simpl.
    f_equal. lia.
Qed.

Lemma invertUpper_Id : Matrix.invertUpper Id = Ok Id.
Proof.
  destruct Id_facts as (Hwf & Hr & Hc & Hentry).
  assert (Hsq : rows Id = columns Id) by lia.
  unfold Matrix.invertUpper.
  rewrite (wellFormed_is_square Id Hwf Hsq). cbn [negb].
  rewrite (isUpperTriangular_true Id Hwf Hsq Id_zeroBelowDiagonal). cbn [JS.bind negb].
  rewrite Hr, (identity_matrixOf n Hn). cbn [JS.bind]. fold Id.
  destruct (for_downM_ind
              (fun i inv =>
                 ((i = n - 1 /\ inv = []) \/ Z.of_nat (length inv) = n)
                 /\ forall k, i < k < n -> Matrix.rowOf inv k = unitVector n (n - k - 1))
              (n - 1) (-1)
              (fun i inverted =>
                 let! rhs := Matrix.getRow Id (n - i - 1) in
                 let! solution := Matrix.backSubstitution Id rhs in
                 Ok (arr_set [] inverted i solution)) [])
    as (inverted & Hloop & [Hlen Hrows]).
  - lia.
  - split; [left; split; reflexivity | intros; lia].
  - intros i inv Hi [Hlen Hrows].
    rewrite (getRow_identity n Id (n - i - 1) (identity_matrixOf n Hn)) by lia.
    cbn [JS.bind]. rewrite backSubstitution_Id by lia. cbn [JS.bind].
    eexists. split; [reflexivity |]. split.
    + right. rewrite rows_set_length by lia.
      destruct Hlen as [[-> ->] | Hlen]; simpl; lia.
    + intros k Hk. destruct (Z.eq_dec k i) as [-> | Hne].
      * rewrite rowOf_set_eq by lia. reflexivity.
      * rewrite rowOf_set_ne by lia. apply Hrows. lia.
  - rewrite Hloop. cbn [JS.bind].
    destruct Hlen as [[Hneg _] | Hlen]; [lia |].
    rewrite (unit_rows (reverse inverted)).
    + rewrite unit_rows_matrix. cbn [JS.bind]. rewrite transpose_Id. reflexivity.
    + rewrite length_reverse. exact Hlen.
    + intros k Hk. rewrite rowOf_reverse by lia. rewrite Hrows by lia. f_equal. lia.
Qed.

Lemma invertLower_Id : Matrix.invertLower Id = Ok Id.
Proof.
  destruct Id_facts as (Hwf & Hr & Hc & Hentry).
  assert (Hsq : rows Id = columns Id) by lia.
  unfold Matrix.invertLower.
  rewrite (wellFormed_is_square Id Hwf Hsq). cbn [negb].
  rewrite (isLowerTriangular_true Id Hwf Hsq Id_zeroAboveDiagonal). cbn [JS.bind negb].
  rewrite Hr, (identity_matrixOf n Hn). cbn [JS.bind]. fold Id.
  destruct (for_upM_ind
              (fun i inv =>
                 Z.of_nat (length inv) = i
                 /\ forall k, 0 <= k < i -> Matrix.rowOf inv k = unitVector n k)
              0 n
              (fun i inverted =>
                 let! rhs := Matrix.getRow Id i in
                 let! solution := Matrix.forwardSubstitution Id rhs in
                 Ok (arr_set [] inverted i solution)) [])
    as (inverted & Hloop & [Hlen Hrows]).
  - lia.
  - split; [reflexivity | intros; lia].
  - intros i inv Hi [Hlen Hrows].
    rewrite (getRow_identity n Id i (identity_matrixOf n Hn)) by lia.
    cbn [JS.bind]. rewrite forwardSubstitution_Id by lia. cbn [JS.bind].
    eexists. split; [reflexivity |]. split.
    + rewrite rows_set_length by lia. lia.
    + intros k Hk. destruct (Z.eq_dec k i) as [-> | Hne].
      * rewrite rowOf_set_eq by lia. reflexivity.
      * rewrite rowOf_set_ne by lia. apply Hrows. lia.
  - rewrite Hloop. cbn [JS.bind].
    rewrite (unit_rows inverted Hlen Hrows).
    rewrite unit_rows_matrix. cbn [JS.bind]. rewrite transpose_Id. reflexivity.
Qed.

End IdentityInverse.

(** * The concrete matrices are well formed *)

Ltac sample_wellFormed :=
  constructor;
  [ reflexivity | reflexivity | reflexivity | reflexivity
  | repeat constructor | repeat split | reflexivity ].

Lemma sampleMatrix_wellFormed : wellFormed sampleMatrix.
Proof. sample_wellFormed. Qed.

Lemma sampleMatrix'_wellFormed : wellFormed sampleMatrix'.
Proof. sample_wellFormed. Qed.

Lemma sampleWide_wellFormed : wellFormed sampleWide.
Proof. sample_wellFormed. Qed.

Lemma sampleTall_wellFormed : wellFormed sampleTall.
Proof. sample_wellFormed. Qed.

Lemma sampleUpper_wellFormed : wellFormed sampleUpper.
Proof. sample_wellFormed. Qed.

Lemma sampleLower_wellFormed : wellFormed sampleLower.
Proof. sample_wellFormed. Qed.

Lemma sampleSingular_wellFormed : wellFormed sampleSingular.
Proof. sample_wellFormed. Qed.

(** * The constructor and the factories *)

(** X1. [new Matrix(entries)] on a nested array: when the array has at
    least one row and one column, rows of one length and only numbers
    other than NaN, the matrix has as many rows as the array and as many
    columns as its first row, and holds [entries[i][j]] rounded to single
    precision at [(i, j)]; any other nested array is turned away with
    error 803. *)
Theorem ofArray_spec (entries : list (list value)) :
  (acceptable entries ->
   exists M,
     Matrix.ofArray entries = Ok M
     /\ wellFormed M
     /\ rows M = Z.of_nat (length entries)
     /\ columns M = Z.of_nat (length (Matrix.rowOf entries 0))
     /\ forall i j, 0 <= i < rows M -> 0 <= j < columns M ->
          entry M i j = fround (toNumber (cell entries i j)))
  /\ (~ acceptable entries ->
      Matrix.ofArray entries = Throw (MatrixError "Invalid matrix entries" 803)).
Proof.
  split.
  - intros Hok. pose proof Hok as (r & c & Hr & Hc & Hrect & Hnum).
    eexists. split; [apply (ofArray_stores entries r c Hr Hc Hrect Hnum) |].
    apply ofArray_Ok_entries. apply (ofArray_stores entries r c Hr Hc Hrect Hnum).
  - intros Hno. unfold Matrix.ofArray.
    destruct (Matrix.validateMatrixEntries entries) eqn:Hvalid; [| reflexivity].
    exfalso. apply Hno, acceptable_validate, Hvalid.
Qed.

(** X2. [Matrix.identity(n)]: a dimension of zero or less is error 606;
    otherwise the result is the [n] x [n] matrix with 1 on the diagonal
    and 0 elsewhere. *)
Theorem identity_spec (n : Z) :
  (n <= 0 -> Matrix.identity n = Throw (MatrixError "Invalid argument" 606))
  /\ (0 < n ->
      exists M,
        Matrix.identity n = Ok M
        /\ wellFormed M /\ rows M = n /\ columns M = n
        /\ forall i j, 0 <= i < n -> 0 <= j < n ->
             entry M i j = if i =? j then 1%float else 0%float).
Proof.
  split.
  - intros Hn. unfold Matrix.identity. destruct (Z.leb_spec n 0); [reflexivity | lia].
  - intros Hn. eexists. split; [apply identity_matrixOf; exact Hn |].
    apply (matrixOf_entries (fun i j => if i =? j then 1%float else 0%float) n n Hn Hn).
    intros i j _ _. destruct (i =? j); reflexivity.
Qed.

(** X3. [Matrix.ones(r, c)] and [Matrix.zeros(r, c)]: a row or column
    count of zero or less is error 606; otherwise the results are the
    [r] x [c] matrices that hold 1, respectively 0, everywhere. *)
Theorem ones_zeros_spec (r c : Z) :
  (r <= 0 \/ c <= 0 ->
   Matrix.ones r c = Throw (MatrixError "Invalid argument" 606)
   /\ Matrix.zeros r c = Throw (MatrixError "Invalid argument" 606))
  /\ (0 < r -> 0 < c ->
      exists M1 M0,
        Matrix.ones r c = Ok M1 /\ Matrix.zeros r c = Ok M0
        /\ wellFormed M1 /\ rows M1 = r /\ columns M1 = c
        /\ wellFormed M0 /\ rows M0 = r /\ columns M0 = c
        /\ forall i j, 0 <= i < r -> 0 <= j < c ->
             entry M1 i j = 1%float /\ entry M0 i j = 0%float).
Proof.
  split.
  - intros Hbad. unfold Matrix.ones, Matrix.zeros.
    destruct (Z.leb_spec r 0); [split; reflexivity |].
    destruct (Z.leb_spec c 0); [split; reflexivity | lia].
  - intros Hr Hc.
    destruct (matrixOf_entries (fun _ _ => 1%float) r c Hr Hc) as (Hw1 & Hr1 & Hc1 & He1);
      [reflexivity |].
    destruct (matrixOf_entries (fun _ _ => 0%float) r c Hr Hc) as (Hw0 & Hr0 & Hc0 & He0);
      [reflexivity |].
    exists (matrixOf (tabulate r c (fun _ _ => 1%float)) r c),
           (matrixOf (tabulate r c (fun _ _ => 0%float)) r c).
    split; [apply ones_matrixOf; assumption |].
    split; [apply zeros_matrixOf; assumption |].
    repeat (split; [assumption |]).
    intros i j Hi Hj. split; [apply He1 | apply He0]; assumption.
Qed.

(** * Arrays in and out *)

(** X4. Reading a matrix out with [toArray] and constructing a matrix
    from the result gives the matrix back, field by field, when the
    matrix is well formed and its buffer holds single-precision values. *)
Theorem toArray_ofArray (A : Matrix) :
  wellFormed A ->
  Forall isFloat32 (mElements A) ->
  (let! array := Matrix.toArray A in Matrix.ofArray array) = Ok A.
Proof.
  intros HA Hf32. rewrite (toArray_table A HA). cbn [JS.bind].
  rewrite (ofArray_table (fun i j => Num (entry A i j)) (rows A) (columns A)
             (wf_rows _ HA) (wf_columns _ HA)).
  - f_equal. etransitivity; [| symmetry; apply (wellFormed_matrixOf A HA)]. f_equal.
    rewrite (mElements_tabulate A (wf_storage _ HA))
      by (pose proof (wf_rows _ HA); pose proof (wf_columns _ HA); lia).
    apply tabulate_ext; [pose proof (wf_rows _ HA); lia | apply (wf_columns _ HA) |].
    intros i j Hi Hj. simpl. apply entry_isFloat32; (assumption || apply (wf_storage _ HA)).
  - intros i j Hi Hj. exists (entry A i j). split; [reflexivity |].
    apply entry_not_nan; [apply (wf_storage _ HA) | apply (wf_noNaN _ HA) | |]; assumption.
Qed.

Lemma toArray_ofArray_witness :
  wellFormed sampleWide
  /\ Forall isFloat32 (mElements sampleWide)
  /\ (let! array := Matrix.toArray sampleWide in Matrix.ofArray array) = Ok sampleWide.
Proof.
  assert (Hf32 : Forall isFloat32 (mElements sampleWide)).
  { repeat (constructor; [vm_compute; reflexivity |]). constructor. }
  split; [exact sampleWide_wellFormed |]. split; [exact Hf32 |].
  apply (toArray_ofArray sampleWide sampleWide_wellFormed Hf32).
Defined.

(** X5. A matrix constructed from a nested array reads out, with
    [toArray], as that array with every element rounded to single
    precision. *)
Theorem ofArray_toArray (entries : list (list value)) (M : Matrix) :
  Matrix.ofArray entries = Ok M ->
  Matrix.toArray M
  = Ok (map (map (fun v => Num (fround (toNumber v)))) entries).
Proof.
  intros Hrun.
  destruct (ofArray_Ok_entries entries M Hrun) as (Hwf & Hr & Hc & Hentry).
  assert (Hvalid : Matrix.validateMatrixEntries entries = true).
  { unfold Matrix.ofArray in Hrun.
    destruct (Matrix.validateMatrixEntries entries); [reflexivity | discriminate]. }
  apply acceptable_validate in Hvalid as (r & c & Hrpos & Hcpos & Hrect & Hnum).
  assert (Hr' : rows M = r) by (rewrite Hr; apply Hrect).
  assert (Hc' : columns M = c)
    by (rewrite Hc; apply (rectangular_rowOf entries r c 0 Hrect); lia).
  rewrite (toArray_table M Hwf), Hr', Hc'. f_equal.
  rewrite (rectangular_table entries r c Hrect) at 1.
  rewrite map_map. apply map_ext_in. intros i Hi.
  apply list_elem_of_In, elem_of_seqZ in Hi.
  rewrite map_map. apply map_ext_in. intros j Hj.
  apply list_elem_of_In, elem_of_seqZ in Hj.
  rewrite Hentry by lia. reflexivity.
Qed.

Lemma ofArray_toArray_witness :
  Matrix.ofArray (ofIntegers [[1; 2]; [3; 4]]) = Ok sampleMatrix
  /\ Matrix.toArray sampleMatrix
     = Ok (map (map (fun v => Num (fround (toNumber v)))) (ofIntegers [[1; 2]; [3; 4]])).
Proof.
  assert (H : Matrix.ofArray (ofIntegers [[1; 2]; [3; 4]]) = Ok sampleMatrix)
    by (vm_compute; reflexivity).
  split; [exact H | apply (ofArray_toArray _ _ H)].
Defined.

(** X6. [Matrix.reshape(array, r, c)]: an array whose length is not
    [r * c] is error 806; an array of [r * c] numbers other than NaN, with
    [r] and [c] positive, becomes the [r] x [c] matrix that holds
    [array[i * c + j]], rounded to single precision, at [(i, j)]. *)
Theorem reshape_spec (array : list value) (r c : Z) :
  (Z.of_nat (length array) <> r * c ->
   Matrix.reshape array r c = Throw (MatrixError "Invalid reshape dimensions" 806))
  /\ (0 < r -> 0 < c ->
      Z.of_nat (length array) = r * c ->
      Forall properNumber array ->
      exists M,
        Matrix.reshape array r c = Ok M
        /\ wellFormed M /\ rows M = r /\ columns M = c
        /\ forall i j, 0 <= i < r -> 0 <= j < c ->
             entry M i j = fround (toNumber (arr_get array (i * c + j)))).
Proof.
  split.
  - intros Hne. unfold Matrix.reshape.
    destruct (Z.eqb_spec (Z.of_nat (length array)) (r * c)); [contradiction | reflexivity].
  - intros Hr Hc Hlen Hnum.
    eexists. split; [apply (reshape_matrixOf array r c Hr Hc Hlen Hnum) |].
    destruct (matrixOf_fields (map (fun v => fround (toNumber v)) array) r c)
      as (Hrows & Hcols & Hbuf).
    split; [| split; [exact Hrows | split; [exact Hcols |]]].
    + apply matrixOf_wellFormed; [exact Hr | exact Hc | rewrite length_map; exact Hlen |].
      unfold noNaN. rewrite Forall_map. eapply Forall_impl; [exact Hnum |].
      intros v (x & -> & Hx). simpl. apply fround_not_nan. exact Hx.
    + intros i j Hi Hj. unfold entry. rewrite Hbuf, Hcols.
      pose proof (flat_index_range r c i j Hi Hj) as Hidx.
      destruct (lookup_lt_is_Some_2 array (Z.to_nat (i * c + j))) as [v Hv]; [lia |].
      rewrite (f32_get_lookup _ (i * c + j) (fround (toNumber v))); [| lia |].
      * simpl. unfold arr_get. destruct (Z.ltb_spec (i * c + j) 0); [lia |].
        rewrite Hv. reflexivity.
      * change (map ?h ?l) with (h <$> l). rewrite list_lookup_fmap, Hv. reflexivity.
Qed.

(** * Rows, columns, elements and blocks *)

(** X7. [getRow(k)] on a well-formed matrix: error 800 when [k] is
    negative or not below the row count, and otherwise the elements of
    row [k] from the first column to the last. *)
Theorem getRow_entries (A : Matrix) (k : Z) :
  wellFormed A ->
  (k < 0 \/ rows A <= k ->
   Matrix.getRow A k = Throw (MatrixError "Row index out of bounds" 800))
  /\ (0 <= k < rows A ->
      Matrix.getRow A k
      = Ok (map (fun j => Num (entry A k j)) (seqZ 0 (columns A)))).
Proof.
  intros HA. split.
  - apply (proj1 (getRow_spec A k)).
  - apply (getRow_row A k HA).
Qed.

Lemma getRow_entries_witness :
  Matrix.getRow sampleWide 2 = Throw (MatrixError "Row index out of bounds" 800)
  /\ Matrix.getRow sampleWide 1
     = Ok (map (fun j => Num (entry sampleWide 1 j)) (seqZ 0 (columns sampleWide))).
Proof.
  split.
  - apply (proj1 (getRow_entries sampleWide 2 sampleWide_wellFormed)). right. simpl. lia.
  - apply (proj2 (getRow_entries sampleWide 1 sampleWide_wellFormed)). simpl. lia.
Defined.

(** X8. [getColumn(k)] on a well-formed matrix, as the code has it: the
    index is compared with the row count, so the call is error 800 when
    [k] is negative or not below the row count; when [k] is below both the
    row count and the column count the result is column [k] from the
    first row to the last. *)
Theorem getColumn_entries (A : Matrix) (k : Z) :
  wellFormed A ->
  (k < 0 \/ rows A <= k ->
   Matrix.getColumn A k = Throw (MatrixError "Row index out of bounds" 800))
  /\ (0 <= k < rows A -> k < columns A ->
      Matrix.getColumn A k
      = Ok (map (fun i => Num (entry A i k)) (seqZ 0 (rows A)))).
Proof.
  intros HA. split.
  - apply getColumn_throws.
  - apply (getColumn_column A k HA).
Qed.

Lemma getColumn_entries_witness :
  Matrix.getColumn sampleWide 2 = Throw (MatrixError "Row index out of bounds" 800)
  /\ Matrix.getColumn sampleTall 1
     = Ok (map (fun i => Num (entry sampleTall i 1)) (seqZ 0 (rows sampleTall))).
Proof.
  split.
  - apply (proj1 (getColumn_entries sampleWide 2 sampleWide_wellFormed)). right. simpl. lia.
  - apply (proj2 (getColumn_entries sampleTall 1 sampleTall_wellFormed)); simpl; lia.
Defined.

(** X9. [setElement(i, j, v)] with [i] and [j] in range writes [v],
    rounded to single precision, where [getElement(i, j)] reads it, leaves
    every other element and the dimensions as they were, and accepts any
    number [v], NaN included. *)
Theorem setElement_getElement (A : Matrix) (i j : Z) (v : number) :
  wellFormed A ->
  0 <= i < rows A -> 0 <= j < columns A ->
  exists A',
    Matrix.setElement A i j v = Ok A'
    /\ rows A' = rows A /\ columns A' = columns A
    /\ Matrix.getElement A' i j = Ok (Num (fround v))
    /\ forall i' j', 0 <= i' < rows A -> 0 <= j' < columns A -> (i', j') <> (i, j) ->
         Matrix.getElement A' i' j' = Matrix.getElement A i' j'.
Proof.
  intros HA Hi Hj.
  pose proof (wf_size _ HA) as Hsize. pose proof (wf_storage _ HA) as Hfits.
  set (A' := with_mElements A (f32_set (mElements A) (i * columns A + j) (Num v))).
  assert (Hfits' : storageFits A').
  { unfold storageFits, A'. simpl. rewrite f32_set_length. exact Hfits. }
  exists A'. split; [apply setElement_in_range; assumption |].
  split; [reflexivity |]. split; [reflexivity |]. split.
  - rewrite (getElement_entry A' i j Hsize Hfits' Hi Hj). do 2 f_equal.
    apply entry_set_eq; assumption.
  - intros i' j' Hi' Hj' Hne.
    rewrite (getElement_entry A' i' j' Hsize Hfits' Hi' Hj').
    rewrite (getElement_entry A i' j' Hsize Hfits Hi' Hj'). do 2 f_equal.
    apply entry_set_ne; assumption.
Qed.

Lemma setElement_getElement_witness :
  exists A',
    Matrix.setElement sampleWide 1 2 nan = Ok A'
    /\ rows A' = rows sampleWide /\ columns A' = columns sampleWide
    /\ Matrix.getElement A' 1 2 = Ok (Num (fround nan))
    /\ forall i' j', 0 <= i' < rows sampleWide -> 0 <= j' < columns sampleWide ->
         (i', j') <> (1, 2) ->
         Matrix.getElement A' i' j' = Matrix.getElement sampleWide i' j'.
Proof.
  apply (setElement_getElement sampleWide 1 2 nan sampleWide_wellFormed); simpl; lia.
Defined.

(** X10. [getSubmatrix(startRow, startCol, size)] on a well-formed
    matrix: a size of zero or less is error 804; a block that reaches
    below the last row is error 805, the values read there being
    [undefined]; a block inside the matrix is returned as a [size] x
    [size] matrix of the elements at [(startRow + i, startCol + j)]. *)
Theorem getSubmatrix_spec (A : Matrix) (startRow startCol sz : Z) :
  wellFormed A ->
  (sz <= 0 ->
   Matrix.getSubmatrix A startRow startCol sz
   = Throw (MatrixError "Rows and columns must be defined for Float32Array entries, be of type number and not be 0 or negative" 804))
  /\ (0 < sz -> 0 <= startCol -> rows A < startRow + sz ->
      Matrix.getSubmatrix A startRow startCol sz
      = Throw (MatrixError "Invalid Float32Array entries" 805))
  /\ (0 < sz -> 0 <= startRow -> startRow + sz <= rows A ->
      0 <= startCol -> startCol + sz <= columns A ->
      exists M,
        Matrix.getSubmatrix A startRow startCol sz = Ok M
        /\ wellFormed M /\ rows M = sz /\ columns M = sz
        /\ forall i j, 0 <= i < sz -> 0 <= j < sz ->
             entry M i j = fround (entry A (startRow + i) (startCol + j))).
Proof.
  intros HA. split; [apply getSubmatrix_no_size |]. split.
  - intros Hsz Hsc Hbeyond.
    apply getSubmatrix_beyond_rows;
      [apply (wf_storage _ HA) | exact Hsz | exact Hsc
      | pose proof (wf_columns _ HA); lia | exact Hbeyond].
  - intros Hsz Hsr Hsr' Hsc Hsc'.
    eexists. split; [apply getSubmatrix_matrixOf; assumption |].
    apply (matrixOf_entries
             (fun i j => fround (entry A (startRow + i) (startCol + j))) sz sz Hsz Hsz).
    intros i j Hi Hj. apply fround_not_nan.
    apply entry_not_nan; [apply (wf_storage _ HA) | apply (wf_noNaN _ HA) | lia | lia].
Qed.

Lemma getSubmatrix_spec_witness :
  Matrix.getSubmatrix sampleWide 1 0 2
  = Throw (MatrixError "Invalid Float32Array entries" 805)
  /\ exists M,
       Matrix.getSubmatrix sampleWide 0 1 2 = Ok M
       /\ wellFormed M /\ rows M = 2 /\ columns M = 2
       /\ forall i j, 0 <= i < 2 -> 0 <= j < 2 ->
            entry M i j = fround (entry sampleWide (0 + i) (1 + j)).
Proof.
  split.
  - apply (proj1 (proj2 (getSubmatrix_spec sampleWide 1 0 2 sampleWide_wellFormed)));
      simpl; lia.
  - apply (proj2 (proj2 (getSubmatrix_spec sampleWide 0 1 2 sampleWide_wellFormed)));
      simpl; lia.
Defined.





(** X13. The transpose of a well-formed [r] x [c] matrix is a
    well-formed [c] x [r] matrix whose element [(j, i)] is the element
    [(i, j)] of the receiver, rounded to single precision on the way into
    the new buffer. *)
Theorem transpose_entries (A : Matrix) :
  wellFormed A ->
  wellFormed (Matrix.transpose A)
  /\ rows (Matrix.transpose A) = columns A
  /\ columns (Matrix.transpose A) = rows A
  /\ forall i j, 0 <= i < rows A -> 0 <= j < columns A ->
       entry (Matrix.transpose A) j i = fround (entry A i j).
Proof.
  intros HA. split; [apply transpose_wellFormed; exact HA |].
  split; [apply transpose_rows |]. split; [apply transpose_columns |].
  intros i j Hi Hj. apply transpose_entry_at; [apply (wf_storage _ HA) | |]; assumption.
Qed.

Lemma transpose_entries_witness :
  wellFormed (Matrix.transpose sampleWide)
  /\ rows (Matrix.transpose sampleWide) = columns sampleWide
  /\ columns (Matrix.transpose sampleWide) = rows sampleWide
  /\ forall i j, 0 <= i < rows sampleWide -> 0 <= j < columns sampleWide ->
       entry (Matrix.transpose sampleWide) j i = fround (entry sampleWide i j).
Proof. apply (transpose_entries sampleWide sampleWide_wellFormed). Defined.

(** * Addition and subtraction *)

(** X14. [A.add(B)] on well-formed matrices of the same dimensions: when
    no sum of two corresponding elements is NaN the result is the
    well-formed matrix of these sums, each rounded to single precision;
    when some sum is NaN (an infinity added to the opposite infinity) the
    call ends in the constructor's error 805. *)
Theorem add_entries (A B : Matrix) :
  wellFormed A -> wellFormed B ->
  rows B = rows A -> columns B = columns A ->
  ((forall i j, 0 <= i < rows A -> 0 <= j < columns A ->
      is_nan (entry A i j + entry B i j) = false) ->
   exists M,
     Matrix.add A B = Ok M
     /\ wellFormed M /\ rows M = rows A /\ columns M = columns A
     /\ forall i j, 0 <= i < rows A -> 0 <= j < columns A ->
          entry M i j = fround (entry A i j + entry B i j))
  /\ ((exists i j, 0 <= i < rows A /\ 0 <= j < columns A
                   /\ is_nan (entry A i j + entry B i j) = true) ->
      Matrix.add A B = Throw (MatrixError "Invalid Float32Array entries" 805)).
Proof.
  intros HA HB Hr Hc. rewrite (add_buffer A B HA HB Hr Hc).
  destruct (ofFloat32Array_tabulate (rows A) (columns A)
              (fun i j => (entry A i j + entry B i j)%float)
              (wf_rows _ HA) (wf_columns _ HA)) as [Hok Hbad].
  split; [| exact Hbad].
  intros Hsums. eexists. split; [apply Hok; exact Hsums |].
  apply (matrixOf_entries (fun i j => fround (entry A i j + entry B i j))
           (rows A) (columns A) (wf_rows _ HA) (wf_columns _ HA)).
  intros i j Hi Hj. apply fround_not_nan, Hsums; assumption.
Qed.

Lemma add_entries_witness :
  exists M,
    Matrix.add sampleMatrix sampleMatrix' = Ok M
    /\ wellFormed M /\ rows M = rows sampleMatrix /\ columns M = columns sampleMatrix
    /\ forall i j, 0 <= i < rows sampleMatrix -> 0 <= j < columns sampleMatrix ->
         entry M i j = fround (entry sampleMatrix i j + entry sampleMatrix' i j).
Proof.
  apply (proj1 (add_entries sampleMatrix sampleMatrix'
                  sampleMatrix_wellFormed sampleMatrix'_wellFormed eq_refl eq_refl)).
  intros i j Hi Hj. simpl in Hi, Hj.
  assert (Hi' : i = 0 \/ i = 1) by lia. assert (Hj' : j = 0 \/ j = 1) by lia.
  destruct Hi' as [-> | ->], Hj' as [-> | ->]; reflexivity.
Defined.

(** X15. Addition of well-formed matrices of the same dimensions is
    commutative: [A.add(B)] and [B.add(A)] return the same matrix, or
    fail with the same error. *)
Theorem add_comm (A B : Matrix) :
  wellFormed A -> wellFormed B ->
  rows B = rows A -> columns B = columns A ->
  Matrix.add A B = Matrix.add B A.
Proof.
  intros HA HB Hr Hc.
  rewrite (add_buffer A B HA HB Hr Hc).
  rewrite (add_buffer B A HB HA (eq_sym Hr) (eq_sym Hc)).
  rewrite Hr, Hc. f_equal.
  apply tabulate_ext; [pose proof (wf_rows _ HA); lia | apply (wf_columns _ HA) |].
  intros i j _ _. rewrite number_add_comm. reflexivity.
Qed.

Lemma add_comm_witness :
  Matrix.add sampleMatrix sampleMatrix' = Matrix.add sampleMatrix' sampleMatrix.
Proof.
  apply (add_comm sampleMatrix sampleMatrix'
           sampleMatrix_wellFormed sampleMatrix'_wellFormed eq_refl eq_refl).
Defined.

(** X16. [add] and [subtract] compare the shape labels of their
    operands; on well-formed matrices that is the comparison of the
    dimensions: operands that differ in their row count or in their
    column count are turned away with error 805. *)
Theorem add_subtract_mismatch (A B : Matrix) :
  wellFormed A -> wellFormed B ->
  rows B <> rows A \/ columns B <> columns A ->
  Matrix.add A B
  = Throw (MatrixError "Invalid matrix dimensions for addition" 805)
  /\ Matrix.subtract A B
     = Throw (MatrixError "Invalid matrix dimensions for subtraction" 805).
Proof.
  intros HA HB Hne.
  rewrite add_combine, subtract_combine, (different_shape A B HA HB Hne).
  split; reflexivity.
Qed.

Lemma add_subtract_mismatch_witness :
  Matrix.add sampleMatrix sampleWide
  = Throw (MatrixError "Invalid matrix dimensions for addition" 805)
  /\ Matrix.subtract sampleMatrix sampleWide
     = Throw (MatrixError "Invalid matrix dimensions for subtraction" 805).
Proof.
  apply (add_subtract_mismatch sampleMatrix sampleWide
           sampleMatrix_wellFormed sampleWide_wellFormed).
  right. simpl. lia.
Defined.

(** X17. Subtracting a well-formed matrix from itself: when every
    element is finite the result is the matrix [Matrix.zeros] returns for
    the same dimensions; when some element is an infinity the difference
    there is NaN and the call ends in the constructor's error 805. *)
Theorem subtract_self (A : Matrix) :
  wellFormed A ->
  ((forall i j, 0 <= i < rows A -> 0 <= j < columns A -> finiteNumber (entry A i j)) ->
   Matrix.subtract A A = Matrix.zeros (rows A) (columns A))
  /\ ((exists i j, 0 <= i < rows A /\ 0 <= j < columns A
                   /\ ~ finiteNumber (entry A i j)) ->
      Matrix.subtract A A = Throw (MatrixError "Invalid Float32Array entries" 805)).
Proof.
  intros HA. rewrite (subtract_buffer A A HA HA eq_refl eq_refl).
  pose proof (wf_rows _ HA) as Hr. pose proof (wf_columns _ HA) as Hc.
  split.
  - intros Hfin. rewrite (zeros_matrixOf _ _ Hr Hc).
    rewrite (tabulate_ext _ _ _ (fun _ _ => 0%float)); [| lia | exact Hc |].
    + apply ofFloat32Array_matrixOf; [exact Hr | exact Hc |].
      apply tabulate_noNaN; [lia | exact Hc | reflexivity].
    + intros i j Hi Hj. rewrite (sub_self _ (Hfin i j Hi Hj)). reflexivity.
  - intros (i & j & Hi & Hj & Hinf).
    apply (proj2 (ofFloat32Array_tabulate (rows A) (columns A)
                    (fun i j => (entry A i j - entry A i j)%float) Hr Hc)).
    exists i, j. split; [exact Hi |]. split; [exact Hj |].
    rewrite sub_self_infinite; [reflexivity | | exact Hinf].
    apply entry_not_nan; [apply (wf_storage _ HA) | apply (wf_noNaN _ HA) | |]; assumption.
Qed.

Lemma subtract_self_witness :
  Matrix.subtract sampleMatrix sampleMatrix
  = Matrix.zeros (rows sampleMatrix) (columns sampleMatrix).
Proof.
  apply (proj1 (subtract_self sampleMatrix sampleMatrix_wellFormed)).
  intros i j Hi Hj. simpl in Hi, Hj.
  assert (Hi' : i = 0 \/ i = 1) by lia. assert (Hj' : j = 0 \/ j = 1) by lia.
  destruct Hi' as [-> | ->], Hj' as [-> | ->]; exact I.
Defined.

(** * Triangular systems *)

(** X18. On a well-formed matrix with at least as many rows as columns
    neither test fails. [isUpperTriangular] returns true exactly when the
    element at [(i, j)] is [=== 0] for every [j < i < columns], and
    [isLowerTriangular] exactly when the element at [(j, i)] is, for every
    [j < i < columns]. Both scans stop at index [columns - 1]: on a square
    matrix they cover the elements below, respectively above, the diagonal;
    on a tall matrix [isUpperTriangular] does not look at the rows from
    index [columns] on. *)
Theorem triangular_tests (A : Matrix) :
  wellFormed A -> columns A <= rows A ->
  (exists ok,
      Matrix.isUpperTriangular A = Ok ok
      /\ (ok = true
          <-> forall i j, 0 <= j < i -> i < columns A -> (entry A i j =? 0)%float = true))
  /\ (exists ok,
         Matrix.isLowerTriangular A = Ok ok
         /\ (ok = true
             <-> forall i j, 0 <= j < i -> i < columns A -> (entry A j i =? 0)%float = true)).
Proof.
  intros HA Hc. split.
  - apply isUpperTriangular_spec_gen; [apply (wf_size _ HA) | apply (wf_storage _ HA) | exact Hc].
  - apply isLowerTriangular_spec_gen; [apply (wf_size _ HA) | apply (wf_storage _ HA) | exact Hc].
Qed.

(** On the tall matrix [[1, 2], [0, 3], [5, 6]] the upper test answers
    true, with 5 and 6 in the row it does not look at; the lower test
    answers false, for the 2 above the diagonal. *)
Lemma triangular_tests_witness :
  wellFormed sampleTallUpper
  /\ columns sampleTallUpper <= rows sampleTallUpper
  /\ Matrix.isUpperTriangular sampleTallUpper = Ok true
  /\ entry sampleTallUpper 2 0 = 5%float
  /\ Matrix.isLowerTriangular sampleTallUpper = Ok false
  /\ (exists ok,
         Matrix.isUpperTriangular sampleTallUpper = Ok ok
         /\ (ok = true
             <-> forall i j, 0 <= j < i -> i < columns sampleTallUpper ->
                             (entry sampleTallUpper i j =? 0)%float = true))
  /\ (exists ok,
         Matrix.isLowerTriangular sampleTallUpper = Ok ok
         /\ (ok = true
             <-> forall i j, 0 <= j < i -> i < columns sampleTallUpper ->
                             (entry sampleTallUpper j i =? 0)%float = true)).
Proof.
  assert (Hwf : wellFormed sampleTallUpper).
  { constructor; try (vm_compute; reflexivity).
    - unfold noNaN. repeat constructor.
    - repeat split. }
  split; [exact Hwf |]. split; [simpl; lia |].
  split; [vm_compute; reflexivity |]. split; [reflexivity |].
  split; [vm_compute; reflexivity |].
  apply (triangular_tests sampleTallUpper Hwf). simpl. lia.
Defined.

(** X19. Forward substitution on a square lower-triangular matrix: a
    zero on the diagonal is error 814; otherwise the call returns a
    solution of as many elements as the matrix has rows, whose element [i]
    is [(b[i] - sum over j < i of sol[j] * A[i,j]) / A[i,i]], the sum
    accumulated from column 0 upward. *)
Theorem forwardSubstitution_spec (A : Matrix) (b : list value) :
  rows A = columns A ->
  0 < rows A ->
  size A = rows A * columns A ->
  storageFits A ->
  Matrix.isLowerTriangular A = Ok true ->
  ((exists i, 0 <= i < rows A /\ (entry A i i =? 0)%float = true) ->
   Matrix.forwardSubstitution A b
   = Throw (MatrixError "Unsolvable system: zero on diagonal" 814))
  /\ ((forall i, 0 <= i < rows A -> (entry A i i =? 0)%float = false) ->
      exists sol,
        Matrix.forwardSubstitution A b = Ok sol
        /\ Z.of_nat (length sol) = rows A
        /\ forall i, 0 <= i < rows A ->
             arr_get sol i
             = Num ((toNumber (arr_get b i) - headSum A sol i) / entry A i i)%float).
Proof.
  intros Hsq Hrows Hsize Hfits Hlower. split.
  - apply forwardSubstitution_singular; assumption.
  - apply forwardSubstitution_regular; (assumption || lia).
Qed.

Lemma forwardSubstitution_spec_witness :
  exists sol,
    Matrix.forwardSubstitution sampleLower [Num 1%float; Num 2%float] = Ok sol
    /\ Z.of_nat (length sol) = rows sampleLower
    /\ forall i, 0 <= i < rows sampleLower ->
         arr_get sol i
         = Num ((toNumber (arr_get [Num 1%float; Num 2%float] i)
                 - headSum sampleLower sol i) / entry sampleLower i i)%float.
Proof.
  apply (proj2 (forwardSubstitution_spec sampleLower [Num 1%float; Num 2%float]
                  eq_refl eq_refl eq_refl eq_refl eq_refl)).
  intros i Hi. simpl in Hi.
  assert (Hcases : i = 0 \/ i = 1) by lia.
  destruct Hcases as [-> | ->]; reflexivity.
Defined.

(** X20. The solvers turn away a square well-formed matrix that is not
    triangular the right way: [backSubstitution] is error 815 when some
    element below the diagonal is not [=== 0], [forwardSubstitution] is
    error 816 when some element above the diagonal is not, whatever the
    right-hand side. *)
Theorem substitution_rejects (A : Matrix) (b : list value) :
  wellFormed A -> rows A = columns A ->
  (~ zeroBelowDiagonal A ->
   Matrix.backSubstitution A b
   = Throw (MatrixError "Matrix is not upper triangular" 815))
  /\ (~ zeroAboveDiagonal A ->
      Matrix.forwardSubstitution A b
      = Throw (MatrixError "Matrix is not lower triangular" 816)).
Proof.
  intros HA Hsq. split; intros Hno.
  - unfold Matrix.backSubstitution.
    rewrite (isUpperTriangular_false A HA Hsq Hno). reflexivity.
  - unfold Matrix.forwardSubstitution.
    rewrite (isLowerTriangular_false A HA Hsq Hno). reflexivity.
Qed.

Lemma substitution_rejects_witness :
  Matrix.backSubstitution sampleLower [Num 1%float; Num 2%float]
  = Throw (MatrixError "Matrix is not upper triangular" 815)
  /\ Matrix.forwardSubstitution sampleUpper [Num 1%float; Num 2%float]
     = Throw (MatrixError "Matrix is not lower triangular" 816).
Proof.
  split.
  - apply (proj1 (substitution_rejects sampleLower [Num 1%float; Num 2%float]
                    sampleLower_wellFormed eq_refl)).
    intros Hz. specialize (Hz 1 0 ltac:(lia) ltac:(simpl; lia)). discriminate.
  - apply (proj2 (substitution_rejects sampleUpper [Num 1%float; Num 2%float]
                    sampleUpper_wellFormed eq_refl)).
    intros Hz. specialize (Hz 1 0 ltac:(lia) ltac:(simpl; lia)). discriminate.
Defined.

(** * Inverses of triangular matrices *)

(** X21. When [invertUpper] returns a matrix for a well-formed
    receiver, that matrix has the receiver's dimension, and its column [k]
    is what [backSubstitution] returns for the [k]-th unit vector, each
    element rounded to single precision twice: into the buffer the
    constructor fills and into the buffer of the transpose. *)
Theorem invertUpper_columns (A V : Matrix) :
  wellFormed A ->
  Matrix.invertUpper A = Ok V ->
  rows V = rows A /\ columns V = rows A
  /\ forall k, 0 <= k < rows A ->
       exists sol,
         Matrix.backSubstitution A (unitVector (rows A) k) = Ok sol
         /\ forall j, 0 <= j < rows A ->
              entry V j k = fround (fround (toNumber (arr_get sol j))).
Proof. apply invertUpper_solutions. Qed.

Lemma invertUpper_columns_witness :
  exists V,
    Matrix.invertUpper sampleUpper = Ok V
    /\ rows V = rows sampleUpper /\ columns V = rows sampleUpper
    /\ forall k, 0 <= k < rows sampleUpper ->
         exists sol,
           Matrix.backSubstitution sampleUpper (unitVector (rows sampleUpper) k) = Ok sol
           /\ forall j, 0 <= j < rows sampleUpper ->
                entry V j k = fround (fround (toNumber (arr_get sol j))).
Proof.
  eexists. split; [vm_compute; reflexivity |].
  apply (invertUpper_columns sampleUpper _ sampleUpper_wellFormed).
  vm_compute. reflexivity.
Defined.

(** X22. When [invertLower] returns a matrix for a well-formed
    receiver, that matrix has the receiver's dimension, and its column [k]
    is what [forwardSubstitution] returns for the [k]-th unit vector, each
    element rounded to single precision twice. *)
Theorem invertLower_columns (A V : Matrix) :
  wellFormed A ->
  Matrix.invertLower A = Ok V ->
  rows V = rows A /\ columns V = rows A
  /\ forall k, 0 <= k < rows A ->
       exists sol,
         Matrix.forwardSubstitution A (unitVector (rows A) k) = Ok sol
         /\ forall j, 0 <= j < rows A ->
              entry V j k = fround (fround (toNumber (arr_get sol j))).
Proof. apply invertLower_solutions. Qed.

Lemma invertLower_columns_witness :
  exists V,
    Matrix.invertLower sampleLower = Ok V
    /\ rows V = rows sampleLower /\ columns V = rows sampleLower
    /\ forall k, 0 <= k < rows sampleLower ->
         exists sol,
           Matrix.forwardSubstitution sampleLower (unitVector (rows sampleLower) k) = Ok sol
           /\ forall j, 0 <= j < rows sampleLower ->
                entry V j k = fround (fround (toNumber (arr_get sol j))).
Proof.
  eexists. split; [vm_compute; reflexivity |].
  apply (invertLower_columns sampleLower _ sampleLower_wellFormed).
  vm_compute. reflexivity.
Defined.

(** X23. What [invertUpper] and [invertLower] turn away, on a
    well-formed receiver: a matrix that is not square is error 812; a
    square matrix with an element that is not [=== 0] on the wrong side of
    the diagonal is error 815; a square triangular matrix with a zero on
    the diagonal is error 814. *)
Theorem invert_rejects (A : Matrix) :
  wellFormed A ->
  (rows A <> columns A ->
   Matrix.invertUpper A
   = Throw (MatrixError "Uninvertable matrix: not a square matrix" 812)
   /\ Matrix.invertLower A
      = Throw (MatrixError "Uninvertable matrix: not a square matrix" 812))
  /\ (rows A = columns A -> ~ zeroBelowDiagonal A ->
      Matrix.invertUpper A = Throw (MatrixError "Matrix is not upper triangular" 815))
  /\ (rows A = columns A -> ~ zeroAboveDiagonal A ->
      Matrix.invertLower A = Throw (MatrixError "Matrix is not lower triangular" 815))
  /\ (rows A = columns A -> zeroBelowDiagonal A ->
      (exists i, 0 <= i < rows A /\ (entry A i i =? 0)%float = true) ->
      Matrix.invertUpper A
      = Throw (MatrixError "Unsolvable system: zero on diagonal" 814))
  /\ (rows A = columns A -> zeroAboveDiagonal A ->
      (exists i, 0 <= i < rows A /\ (entry A i i =? 0)%float = true) ->
      Matrix.invertLower A
      = Throw (MatrixError "Unsolvable system: zero on diagonal" 814)).
Proof.
  intros HA. repeat split.
  - unfold Matrix.invertUpper. rewrite (wellFormed_not_square A HA H). reflexivity.
  - unfold Matrix.invertLower. rewrite (wellFormed_not_square A HA H). reflexivity.
  - intros Hsq Hno. unfold Matrix.invertUpper.
    rewrite (wellFormed_is_square A HA Hsq), (isUpperTriangular_false A HA Hsq Hno).
    reflexivity.
  - intros Hsq Hno. unfold Matrix.invertLower.
    rewrite (wellFormed_is_square A HA Hsq), (isLowerTriangular_false A HA Hsq Hno).
    reflexivity.
  - intros Hsq Hupper Hz. apply invertUpper_singular; assumption.
  - intros Hsq Hlower Hz. apply invertLower_singular; assumption.
Qed.

Lemma invert_rejects_witness :
  Matrix.invertUpper sampleWide
  = Throw (MatrixError "Uninvertable matrix: not a square matrix" 812)
  /\ Matrix.invertUpper sampleLower
     = Throw (MatrixError "Matrix is not upper triangular" 815)
  /\ Matrix.invertUpper sampleSingular
     = Throw (MatrixError "Unsolvable system: zero on diagonal" 814).
Proof.
  split; [| split].
  - apply (proj1 (invert_rejects sampleWide sampleWide_wellFormed)). simpl. lia.
  - apply (proj1 (proj2 (invert_rejects sampleLower sampleLower_wellFormed)));
      [reflexivity |].
    intros Hz. specialize (Hz 1 0 ltac:(lia) ltac:(simpl; lia)). discriminate.
  - apply (proj1 (proj2 (proj2 (proj2
             (invert_rejects sampleSingular sampleSingular_wellFormed)))));
      [reflexivity | |].
    + intros i j Hj Hi. simpl in Hi.
      assert (i = 1) by lia. assert (j = 0) by lia. subst. reflexivity.
    + exists 1. split; [simpl; lia | reflexivity].
Defined.

(** X24. The identity of any dimension is triangular both ways, equals
    its transpose, and is its own inverse under [invertUpper] and under
    [invertLower]. *)
Theorem identity_inverse (n : Z) :
  0 < n ->
  exists Id,
    Matrix.identity n = Ok Id
    /\ Matrix.isUpperTriangular Id = Ok true
    /\ Matrix.isLowerTriangular Id = Ok true
    /\ Matrix.transpose Id = Id
    /\ Matrix.invertUpper Id = Ok Id
    /\ Matrix.invertLower Id = Ok Id.
Proof.
  intros Hn. eexists. split; [apply identity_matrixOf; exact Hn |].
  destruct (Id_facts n Hn) as (Hwf & Hr & Hc & _).
  split; [apply isUpperTriangular_true;
          [exact Hwf | lia | apply Id_zeroBelowDiagonal; exact Hn] |].
  split; [apply isLowerTriangular_true;
          [exact Hwf | lia | apply Id_zeroAboveDiagonal; exact Hn] |].
  split; [apply transpose_Id; exact Hn |].
  split; [apply invertUpper_Id; exact Hn | apply invertLower_Id; exact Hn].
Qed.

Lemma identity_inverse_witness :
  exists Id,
    Matrix.identity 3 = Ok Id
    /\ Matrix.isUpperTriangular Id = Ok true
    /\ Matrix.isLowerTriangular Id = Ok true
    /\ Matrix.transpose Id = Id
    /\ Matrix.invertUpper Id = Ok Id
    /\ Matrix.invertLower Id = Ok Id.
Proof. apply (identity_inverse 3). reflexivity. Defined.

(** * Products *)

(** X25. [A.naiveMultiply(B)] on well-formed matrices, [B] holding
    single-precision values: operands whose inner dimensions differ are
    error 807; with at most sixteen columns in [A], a product that is
    returned has the rows of [A], the columns of [B], and at [(i, j)] the
    dot product of row [i] of [A] and column [j] of [B], accumulated from
    the first term on and rounded to single precision. *)
Theorem naiveMultiply_spec (A B : Matrix) :
  wellFormed A -> wellFormed B ->
  Forall isFloat32 (mElements B) ->
  (columns A <> rows B ->
   Matrix.naiveMultiply A B
   = Throw (MatrixError "Invalid matrix dimensions for multiplication" 807))
  /\ (columns A <= 16 ->
      forall P, Matrix.naiveMultiply A B = Ok P ->
        rows P = rows A /\ columns P = columns B
        /\ forall i j, 0 <= i < rows A -> 0 <= j < columns B ->
             entry P i j = fround (dotProduct A B i j)).
Proof.
  intros HA HB Hf32. split.
  - intros Hne. unfold Matrix.naiveMultiply.
    destruct (Z.eqb_spec (columns A) (rows B)); [contradiction | reflexivity].
  - intros Hsmall P Hrun. apply (naiveMultiply_small A B P); assumption.
Qed.

Lemma naiveMultiply_spec_witness :
  Matrix.naiveMultiply sampleWide sampleMatrix
  = Throw (MatrixError "Invalid matrix dimensions for multiplication" 807)
  /\ exists P,
       Matrix.naiveMultiply sampleMatrix sampleMatrix' = Ok P
       /\ rows P = rows sampleMatrix /\ columns P = columns sampleMatrix'
       /\ forall i j, 0 <= i < rows sampleMatrix -> 0 <= j < columns sampleMatrix' ->
            entry P i j = fround (dotProduct sampleMatrix sampleMatrix' i j).
Proof.
  assert (Hf32 : forall a b c d : float,
             fround a = a -> fround b = b -> fround c = c -> fround d = d ->
             Forall isFloat32 [a; b; c; d]).
  { intros a b c d Ha Hb Hc Hd. repeat (constructor; [assumption |]). constructor. }
  split.
  - apply (proj1 (naiveMultiply_spec sampleWide sampleMatrix
                    sampleWide_wellFormed sampleMatrix_wellFormed
                    (Hf32 _ _ _ _ eq_refl eq_refl eq_refl eq_refl))).
    simpl. lia.
  - eexists. split; [vm_compute; reflexivity |].
    apply (proj2 (naiveMultiply_spec sampleMatrix sampleMatrix'
                    sampleMatrix_wellFormed sampleMatrix'_wellFormed
                    (Hf32 _ _ _ _ eq_refl eq_refl eq_refl eq_refl)));
      [simpl; lia | vm_compute; reflexivity].
Defined.

(** X26. [Matrix.dot] of two arrays of one length does not depend on
    their order; when the second array is shorter than the first, the
    missing elements read as [undefined] and the result is NaN. *)
Theorem dot_spec (u v : list value) :
  (length u = length v -> Matrix.dot u v = Matrix.dot v u)
  /\ ((length v < length u)%nat -> Matrix.dot u v = nan).
Proof. split; [apply dot_comm | apply dot_short]. Qed.

(** * Gram-Schmidt *)

(** X27. [gramSmith] on a matrix whose first column is zero never
    reports linear dependence (error 704): the first column is taken as
    it is, every later column comes out as NaN, which does not compare
    below the tolerance, and the call ends in the constructor's error 803
    when there are at least as many rows as columns, and in [getColumn]'s
    error 800 when there are more columns than rows. *)
Theorem gramSmith_zero_first_column_outcome (DELTA : number) (A : Matrix) :
  0 < rows A -> 0 < columns A -> storageFits A ->
  (forall i, 0 <= i < rows A -> (entry A i 0 =? 0)%float = true) ->
  (columns A <= rows A ->
   Matrix.gramSmith DELTA A = Throw (MatrixError "Invalid matrix entries" 803))
  /\ (rows A < columns A ->
      Matrix.gramSmith DELTA A = Throw (MatrixError "Row index out of bounds" 800)).
Proof.
  intros Hr Hc Hfits Hzero. split.
  - apply gramSmith_zero_first_column; assumption.
  - apply gramSmith_zero_first_column_short; assumption.
Qed.

Lemma gramSmith_zero_first_column_outcome_witness :
  Matrix.gramSmith 0x1p-24%float sampleZeroColumn
  = Throw (MatrixError "Invalid matrix entries" 803)
  /\ Matrix.gramSmith 0x1p-24%float sampleZeroColumnWide
     = Throw (MatrixError "Row index out of bounds" 800).
Proof.
  split.
  - apply (proj1 (gramSmith_zero_first_column_outcome 0x1p-24%float sampleZeroColumn
                    eq_refl eq_refl eq_refl
                    ltac:(intros i Hi; simpl in Hi;
                          assert (Hcases : i = 0 \/ i = 1) by lia;
                          destruct Hcases as [-> | ->]; reflexivity))).
    simpl. lia.
  - apply (proj2 (gramSmith_zero_first_column_outcome 0x1p-24%float sampleZeroColumnWide
                    eq_refl eq_refl eq_refl
                    ltac:(intros i Hi; simpl in Hi;
                          assert (Hcase : i = 0) by lia; subst; reflexivity))).
    simpl. lia.
Defined.

(** * Integer matrices *)

(** X28. [isIntMatrix] holds of what the factories return: the
    identity of any dimension, and the matrices of ones and of zeros of
    any dimensions. *)
Theorem factories_are_integer (n r c : Z) :
  0 < n -> 0 < r -> 0 < c ->
  exists Id M1 M0,
    Matrix.identity n = Ok Id /\ Matrix.ones r c = Ok M1 /\ Matrix.zeros r c = Ok M0
    /\ Matrix.isIntMatrix Id = true
    /\ Matrix.isIntMatrix M1 = true
    /\ Matrix.isIntMatrix M0 = true.
Proof.
  intros Hn Hr Hc. do 3 eexists.
  split; [apply identity_matrixOf; exact Hn |].
  split; [apply ones_matrixOf; assumption |].
  split; [apply zeros_matrixOf; assumption |].
  split; [| split]; apply isIntMatrix_tabulate; try lia.
  - intros i j _ _. destruct (i =? j); reflexivity.
  - reflexivity.
  - reflexivity.
Qed.

Lemma factories_are_integer_witness :
  exists Id M1 M0,
    Matrix.identity 2 = Ok Id /\ Matrix.ones 2 3 = Ok M1 /\ Matrix.zeros 3 2 = Ok M0
    /\ Matrix.isIntMatrix Id = true
    /\ Matrix.isIntMatrix M1 = true
    /\ Matrix.isIntMatrix M0 = true.
Proof.
  destruct (factories_are_integer 2 2 3 eq_refl eq_refl eq_refl)
    as (Id & M1 & _ & HId & HM1 & _ & HintId & HintM1 & _).
  destruct (factories_are_integer 2 3 2 eq_refl eq_refl eq_refl)
    as (_ & _ & M0 & _ & _ & HM0 & _ & _ & HintM0).
  exists Id, M1, M0. repeat split; assumption.
Defined.
